(** * Frontmatter-Variables: variable resolution and frontmatter synchronisation

    A shallow embedding of the engine of the repository
    ([src/variableReplacer.ts], [src/frontmatterParser.ts], [src/types.ts]
    and the Obsidian build [main.js]) together with the properties that its
    specification states about it.

    Conventions of the embedding.
    - A JavaScript string is a [string]: a sequence of code units.  The
      code units are those of Latin-1 (0..255); the character classes of
      regular expressions, [trim] and [toLowerCase] are written out for that
      range.
    - A JavaScript number is an integer [Z]; floating point is not
      modelled, and the digits of an index are converted exactly (where
      [parseInt] would round, above 2^53).
    - Structured data is a tree: the objects and arrays reachable from a
      frontmatter root are not shared, so that a mutation through a path is
      a functional update of the root.  The properties of an object are an
      association list, because their order is observable ([Object.keys]).
    - The TypeScript modules run in strict mode: an assignment to a property
      of a primitive throws.
    - A regular expression object is its pattern; its [lastIndex] is 0
      wherever the source starts a scan, since every caller resets it.
    - What the JavaScript engine provides (the methods inherited from
      [Object.prototype] and [Array.prototype], [String], [join],
      [JSON.stringify], the conversion used by an assignment to the
      [length] of an array) is gathered in the class [Host], and the YAML
      library in the class [Yaml]; [ES.es_host] is an engine for the
      examples. *)

From Stdlib Require Import Bool Arith Lia List String Ascii ZArith NArith.
From Stdlib Require Import Numbers.DecimalString.
Import ListNotations.

Local Open Scope string_scope.
Local Open Scope nat_scope.
Local Open Scope list_scope.

(** String concatenation, [a + b] on JavaScript strings. *)
Infix "+++" := String.append (right associativity, at level 60).

Set Implicit Arguments.

(* ================================================================== *)
(** * Characters and strings *)

Module Chars.

Definition code (c : ascii) : nat := nat_of_ascii c.

Definition between (lo hi : nat) (c : ascii) : bool :=
  (lo <=? code c) && (code c <=? hi).

Definition is_upper (c : ascii) : bool := between 65 90 c.
Definition is_lower (c : ascii) : bool := between 97 122 c.
(** [\d] *)
Definition is_digit (c : ascii) : bool := between 48 57 c.
(** [\w]: [[A-Za-z0-9_]] *)
Definition is_word (c : ascii) : bool :=
  is_upper c || is_lower c || is_digit c || (code c =? 95).
(** [\s]: TAB, LF, VT, FF, CR, SPACE and NBSP (the white space and line
    terminators among the Latin-1 code units). *)
Definition is_space (c : ascii) : bool :=
  between 9 13 c || (code c =? 32) || (code c =? 160).
(** [.] without the [s] flag: anything but a line terminator. *)
Definition is_dot (c : ascii) : bool :=
  negb ((code c =? 10) || (code c =? 13)).
(** [[\s\S]] *)
Definition is_any (_ : ascii) : bool := true.
(** [[\w.\[\]\-]]: the characters of a placeholder name. *)
Definition is_name (c : ascii) : bool :=
  is_word c || (code c =? 46) || (code c =? 91) || (code c =? 93)
  || (code c =? 45).

(** The character classes of the patterns of the source. *)
Inductive charclass : Type :=
| Space   (* \s *)
| Word    (* \w *)
| Digit   (* \d *)
| Dot     (* . *)
| Any     (* [\s\S] *)
| Name.   (* [\w.\[\]\-] *)

Definition in_class (cls : charclass) (c : ascii) : bool :=
  match cls with
  | Space => is_space c
  | Word => is_word c
  | Digit => is_digit c
  | Dot => is_dot c
  | Any => is_any c
  | Name => is_name c
  end.

(** [toLowerCase] on one code unit: A-Z, and the Latin-1 capitals
    U+00C0..U+00DE except the multiplication sign U+00D7. *)
Definition lower (c : ascii) : ascii :=
  if is_upper c then ascii_of_nat (code c + 32)
  else if between 192 222 c && negb (code c =? 215)
       then ascii_of_nat (code c + 32)
       else c.

End Chars.

Module Str.

(** [s.toLowerCase()] *)
Fixpoint toLowerCase (s : string) : string :=
  match s with
  | EmptyString => EmptyString
  | String c s' => String (Chars.lower c) (toLowerCase s')
  end.

(** [s.slice(n)] for [0 <= n]. *)
Fixpoint slice_from (n : nat) (s : string) : string :=
  match n, s with
  | O, _ => s
  | S n', String _ s' => slice_from n' s'
  | S _, EmptyString => EmptyString
  end.

(** [s.slice(0, n)] for [0 <= n]. *)
Fixpoint slice_to (n : nat) (s : string) : string :=
  match n, s with
  | O, _ => EmptyString
  | S n', String c s' => String c (slice_to n' s')
  | S _, EmptyString => EmptyString
  end.

(** [s.slice(i, j)] for [0 <= i], [0 <= j]. *)
Definition slice (i j : nat) (s : string) : string :=
  slice_to (j - i) (slice_from i s).

(** [s.startsWith(p)], returning what follows the prefix. *)
Fixpoint strip_prefix (p s : string) : option string :=
  match p with
  | EmptyString => Some s
  | String a p' =>
      match s with
      | String b s' =>
          if Ascii.eqb a b then strip_prefix p' s' else None
      | EmptyString => None
      end
  end.

Definition startsWith (s p : string) : bool :=
  match strip_prefix p s with Some _ => true | None => false end.

(** [s.split(sep)] for a separator of one code unit: the pieces between
    the separators, always at least one. *)
Fixpoint split_go (sep : ascii) (s cur : string) : list string :=
  match s with
  | EmptyString => [cur]
  | String c s' =>
      if Ascii.eqb c sep then cur :: split_go sep s' EmptyString
      else split_go sep s' (cur +++ String c EmptyString)
  end.

Definition split (sep : ascii) (s : string) : list string :=
  split_go sep s EmptyString.

(** [s.lastIndexOf(c)], [None] for [-1]. *)
Fixpoint lastIndexOf_go (c : ascii) (s : string) (i : nat)
         (found : option nat) : option nat :=
  match s with
  | EmptyString => found
  | String a s' =>
      lastIndexOf_go c s' (S i) (if Ascii.eqb a c then Some i else found)
  end.

Definition lastIndexOf (c : ascii) (s : string) : option nat :=
  lastIndexOf_go c s 0 None.

(** [s.trim()] removes white space and line terminators at both ends. *)
Fixpoint trimStart (s : string) : string :=
  match s with
  | String c s' => if Chars.is_space c then trimStart s' else s
  | EmptyString => EmptyString
  end.

Fixpoint trimEnd (s : string) : string :=
  match s with
  | EmptyString => EmptyString
  | String c s' =>
      match trimEnd s' with
      | EmptyString =>
          if Chars.is_space c then EmptyString else String c EmptyString
      | t => String c t
      end
  end.

Definition trim (s : string) : string := trimEnd (trimStart s).

Definition is_empty (s : string) : bool :=
  match s with EmptyString => true | _ => false end.

Definition LF : ascii := ascii_of_nat 10.
Definition CR : ascii := ascii_of_nat 13.
(** ["\n"] and ["\r"] *)
Definition lf : string := String LF EmptyString.
Definition cr : string := String CR EmptyString.

End Str.

(* ================================================================== *)
(** * How a piece of code ends *)

Module Outcome.

Inductive error : Type := TypeError | RangeError.

(** How a piece of code ends: with a result, with an exception, with
    [ProtoReplaced] when it has passed an object or [null] to the
    [__proto__] setter of an object (which replaces the prototype of that
    object), or not at all. *)
Inductive outcome (A : Type) : Type :=
| Ok (a : A)
| Throw (e : error)
| ProtoReplaced
| Diverges.
Arguments Throw {A} e.
Arguments ProtoReplaced {A}.
Arguments Diverges {A}.

Definition bind {A B : Type} (x : outcome A) (f : A -> outcome B)
  : outcome B :=
  match x with
  | Ok a => f a
  | Throw e => Throw e
  | ProtoReplaced => ProtoReplaced
  | Diverges => Diverges
  end.

End Outcome.
Import Outcome.

(* ================================================================== *)
(** * Regular expressions

    The fragment of ECMAScript patterns that the source uses, with the
    backtracking semantics of the language: alternatives and quantifiers
    are tried in the order of the specification (greedy quantifiers take
    the longest iteration first, lazy ones the shortest), and the first
    success is the match.  Quantifiers [*], [+] and [*?] are applied to
    character classes only, as everywhere in the source. *)

Module Regex.

Inductive regex : Type :=
| Lit (s : string)                  (* literal characters *)
| Class (p : Chars.charclass)       (* one character of a class *)
| Bol                               (* ^ *)
| Eol                               (* $ *)
| Seq (r1 r2 : regex)
| Alt (r1 r2 : regex)               (* r1|r2 *)
| Opt (r : regex)                   (* (?:r)? *)
| Star (p : Chars.charclass)        (* [p]* *)
| Plus (p : Chars.charclass)        (* [p]+ *)
| LazyStar (p : Chars.charclass)    (* [p]*? *)
| Group (n : nat) (r : regex).      (* the n-th capturing group *)

(** The captures of groups 1 and 2; [None] is [undefined]. *)
Record caps : Type := Caps { cap1 : option string; cap2 : option string }.

Definition no_caps : caps := Caps None None.

Definition set_cap (n : nat) (x : string) (c : caps) : caps :=
  match n with
  | 1 => Caps (Some x) (cap2 c)
  | 2 => Caps (cap1 c) (Some x)
  | _ => c
  end.

Section Matcher.
Variable R : Type.
(** The length of the whole input, which is what [^] looks at. *)
Variable input_length : nat.

(** A continuation receives what the pattern consumed, what is left of
    the input, and the captures. *)
Definition cont : Type := string -> string -> caps -> option R.

Definition orelse (a : option R) (b : unit -> option R) : option R :=
  match a with Some r => Some r | None => b tt end.

Fixpoint star_greedy (p : ascii -> bool) (s acc : string) (c : caps)
         (k : cont) : option R :=
  match s with
  | String a s' =>
      if p a
      then orelse (star_greedy p s' (acc +++ String a EmptyString) c k)
                  (fun _ => k acc s c)
      else k acc s c
  | EmptyString => k acc s c
  end.

Fixpoint star_lazy (p : ascii -> bool) (s acc : string) (c : caps)
         (k : cont) : option R :=
  orelse (k acc s c)
         (fun _ =>
            match s with
            | String a s' =>
                if p a
                then star_lazy p s' (acc +++ String a EmptyString) c k
                else None
            | EmptyString => None
            end).

Fixpoint run (r : regex) (s : string) (c : caps) (k : cont)
  : option R :=
  match r with
  | Lit l =>
      match Str.strip_prefix l s with
      | Some s' => k l s' c
      | None => None
      end
  | Class p =>
      match s with
      | String a s' =>
          if Chars.in_class p a then k (String a EmptyString) s' c
          else None
      | EmptyString => None
      end
  | Bol => if String.length s =? input_length then k EmptyString s c
           else None
  | Eol => match s with
           | EmptyString => k EmptyString s c
           | String _ _ => None
           end
  | Seq r1 r2 =>
      run r1 s c (fun x1 s1 c1 =>
      run r2 s1 c1 (fun x2 s2 c2 => k (x1 +++ x2) s2 c2))
  | Alt r1 r2 => orelse (run r1 s c k) (fun _ => run r2 s c k)
  | Opt r1 =>
      (* an iteration that consumes nothing is rejected *)
      orelse (run r1 s c (fun x s' c' =>
                if Str.is_empty x then None else k x s' c'))
             (fun _ => k EmptyString s c)
  | Star p => star_greedy (Chars.in_class p) s EmptyString c k
  | Plus p =>
      match s with
      | String a s' =>
          if Chars.in_class p a
          then star_greedy (Chars.in_class p) s' (String a EmptyString)
                           c k
          else None
      | EmptyString => None
      end
  | LazyStar p => star_lazy (Chars.in_class p) s EmptyString c k
  | Group n r1 => run r1 s c (fun x s' c' => k x s' (set_cap n x c'))
  end.
End Matcher.

(** A successful match: [index], [match[0]], [match[1]], [match[2]]. *)
Record rmatch : Type := Match {
  index : nat;
  full : string;
  group1 : option string;
  group2 : option string
}.

(** One attempt at the current position; [s] is the input from that
    position on and [idx] the position. *)
Definition match_here (r : regex) (n0 : nat) (s : string) (idx : nat)
  : option rmatch :=
  run n0 r s no_caps
      (fun x _ c => Some (Match idx x (cap1 c) (cap2 c))).

(** [exec] of a pattern from a position: the first position, from left to
    right, at which an attempt succeeds. *)
Fixpoint search (r : regex) (n0 : nat) (s : string) (idx : nat)
  : option rmatch :=
  match match_here r n0 s idx with
  | Some m => Some m
  | None =>
      match s with
      | String _ s' => search r n0 s' (S idx)
      | EmptyString => None
      end
  end.

(** [text.match(r)] for a pattern without the [g] flag. *)
Definition String_match (r : regex) (text : string) : option rmatch :=
  search r (String.length text) text 0.

(** The matches that [text.replace(r, f)] collects for a pattern with the
    [g] flag: successive [exec]s, each starting where the previous match
    ended, and one code unit further after an empty match.  [skip] counts
    the code units of the previous match still to pass. *)
Fixpoint match_all_from (r : regex) (n0 : nat) (s : string)
         (idx skip : nat) : list rmatch :=
  match skip with
  | S k =>
      match s with
      | String _ s' => match_all_from r n0 s' (S idx) k
      | EmptyString => []
      end
  | O =>
      match match_here r n0 s idx with
      | Some m =>
          m :: match s with
               | String _ s' =>
                   match_all_from r n0 s' (S idx)
                                  (pred (String.length (full m)))
               | EmptyString => []
               end
      | None =>
          match s with
          | String _ s' => match_all_from r n0 s' (S idx) 0
          | EmptyString => []
          end
      end
  end.

Definition match_all (r : regex) (text : string) : list rmatch :=
  match_all_from r (String.length text) text 0 0.

(** The loop [while ((m = r.exec(text)) !== null) body] for a pattern with
    the [g] flag and [lastIndex] 0, the body working on a state.  [exec]
    starts at [lastIndex], which a match moves to its end.  After an
    empty match [lastIndex] does not move, [exec] finds the same match
    again, and the loop does not end. *)
Section ExecLoop.
Variable St : Type.
Variable body : St -> rmatch -> outcome St.
Variable r : regex.
Variable n0 : nat.

Fixpoint exec_while_from (s : string) (idx skip : nat) (st : St)
  : outcome St :=
  match skip with
  | S k =>
      match s with
      | String _ s' => exec_while_from s' (S idx) k st
      | EmptyString => Ok st
      end
  | O =>
      match match_here r n0 s idx with
      | Some m =>
          bind (body st m) (fun st =>
            match String.length (full m) with
            | O => Diverges
            | S k =>
                match s with
                | String _ s' => exec_while_from s' (S idx) k st
                | EmptyString => Ok st
                end
            end)
      | None =>
          match s with
          | String _ s' => exec_while_from s' (S idx) 0 st
          | EmptyString => Ok st
          end
      end
  end.
End ExecLoop.

Definition exec_while {St : Type} (body : St -> rmatch -> outcome St)
           (r : regex) (text : string) (st : St) : outcome St :=
  exec_while_from body r (String.length text) text 0 0 st.

(** The assembly of [text.replace(r, f)] from the collected matches and
    their replacements: the text between the matches is copied. *)
Fixpoint splice (text : string) (pos : nat)
         (reps : list (rmatch * string)) : string :=
  match reps with
  | [] => Str.slice_from pos text
  | (m, rep) :: rest =>
      Str.slice pos (index m) text +++ rep
      +++ splice text (index m + String.length (full m)) rest
  end.

End Regex.

(* ================================================================== *)
(** * JavaScript values *)

Module JS.

(** Structured data as the YAML parser produces it and as the mutator
    leaves it.  An array may carry named properties next to its elements
    (an assignment [a.b = v] on an array creates one); a hole of a sparse
    array is the element [VUndefined].  The properties of an object are
    kept in insertion order. *)
#[warnings="-register-all"] Inductive value : Type :=
| VUndefined
| VNull
| VBool (b : bool)
| VNum (n : Z)
| VStr (s : string)
| VArr (elems : list value) (named : list (string * value))
| VObj (props : list (string * value)).

(** What a property read yields: a value of the data, or a method that
    the object inherits from its prototype. *)
Inductive looked : Type :=
| Data (v : value)
| Builtin (name : string).

(** ** Truthiness and types *)

(** [!v] is false *)
Definition truthy (v : value) : bool :=
  match v with
  | VUndefined | VNull => false
  | VBool b => b
  | VNum n => negb (Z.eqb n 0)
  | VStr s => negb (Str.is_empty s)
  | VArr _ _ | VObj _ => true
  end.

(** [typeof v === 'object'] *)
Definition typeof_object (v : looked) : bool :=
  match v with
  | Data VNull | Data (VArr _ _) | Data (VObj _) => true
  | _ => false
  end.

(** [Array.isArray(v)] *)
Definition isArray (v : looked) : bool :=
  match v with Data (VArr _ _) => true | _ => false end.

(** [v === null] *)
Definition is_null (v : looked) : bool :=
  match v with Data VNull => true | _ => false end.

(** ** Property keys *)

Definition digit_value (c : ascii) : N := N.of_nat (Chars.code c - 48).

(** The number that a string of decimal digits denotes. *)
Fixpoint decimal_go (s : string) (acc : N) : N :=
  match s with
  | EmptyString => acc
  | String c s' => decimal_go s' (10 * acc + digit_value c)%N
  end.

(** [parseInt(s)] for [s] matched by [\d+]. *)
Definition parseInt (s : string) : N := decimal_go s 0%N.

Fixpoint all_digits (s : string) : bool :=
  match s with
  | EmptyString => true
  | String c s' => Chars.is_digit c && all_digits s'
  end.

Definition max_array_length : N := 4294967295.

(** A property key is an array index when it is the canonical decimal
    form of an integer below 2^32 - 1. *)
Definition array_index (key : string) : option N :=
  match key with
  | EmptyString => None
  | String c rest =>
      if all_digits key
         && (negb (Chars.code c =? 48) || Str.is_empty rest)
         && (parseInt key <? max_array_length)%N
      then Some (parseInt key)
      else None
  end.

(** The decimal form of a natural number, [String(n)]. *)
Definition decimal (n : N) : string :=
  NilZero.string_of_uint (N.to_uint n).

Fixpoint assoc (key : string) (props : list (string * value))
  : option value :=
  match props with
  | [] => None
  | (k, v) :: rest => if String.eqb k key then Some v else assoc key rest
  end.

Definition mem (key : string) (l : list string) : bool :=
  existsb (String.eqb key) l.

(** What the engine provides. *)
Class Host : Type := {
  (** the names of the methods of [Object.prototype] *)
  object_prototype : list string;
  (** the names of the methods of [Array.prototype] *)
  array_prototype : list string;
  (** [String(v)] *)
  String_of : looked -> string;
  (** [Array.prototype.join] on the elements with the separator [sep]; it
      throws when the conversion of an element to a string throws *)
  Array_join : list value -> string -> outcome string;
  (** [JSON.stringify(v)]; [None] when it throws *)
  JSON_stringify : value -> option string;
  (** the length that [a.length = v] gives an array; [None] when the
      assignment throws a RangeError *)
  to_array_length : value -> option N;
  (** the name of a method is no string of digits *)
  prototype_names :
    forall k, mem k array_prototype || mem k object_prototype = true ->
              all_digits k = false
}.

(** [props[key] = v] on own properties: an existing property keeps its
    place, a new one comes last. *)
Fixpoint assoc_set (key : string) (v : value)
         (props : list (string * value)) : list (string * value) :=
  match props with
  | [] => [(key, v)]
  | (k, w) :: rest =>
      if String.eqb k key then (k, v) :: rest
      else (k, w) :: assoc_set key v rest
  end.

Definition nth_elem (i : N) (elems : list value) : value :=
  nth (N.to_nat i) elems VUndefined.

Definition length_of (elems : list value) : N :=
  N.of_nat (List.length elems).

(** [elems[i] = v], the array growing with holes up to [i]. *)
Fixpoint set_nth (i : nat) (v : value) (elems : list value)
  : list value :=
  match i, elems with
  | O, [] => [v]
  | O, _ :: rest => v :: rest
  | S i', [] => VUndefined :: set_nth i' v []
  | S i', e :: rest => e :: set_nth i' v rest
  end.

(** [elems.length = n] *)
Fixpoint resize (n : nat) (elems : list value) : list value :=
  match n, elems with
  | O, _ => []
  | S n', [] => VUndefined :: resize n' []
  | S n', e :: rest => e :: resize n' rest
  end.

Section WithHost.
Context {host : Host}.

(** [key in obj] for an object or an array; a primitive on the right of
    [in] is a TypeError.  The key is never [__proto__]. *)
Definition has_property (obj : value) (key : string) : outcome bool :=
  match obj with
  | VObj props =>
      Ok (match assoc key props with
          | Some _ => true
          | None => mem key object_prototype
          end)
  | VArr elems named =>
      Ok (match array_index key with
          | Some i => (i <? length_of elems)%N
          | None =>
              String.eqb key "length"
              || match assoc key named with
                 | Some _ => true
                 | None => mem key array_prototype
                           || mem key object_prototype
                 end
          end)
  | _ => Throw TypeError
  end.

(** [arr[key]] for a key that is no array index: the length, a named
    property, or a method that the array inherits. *)
Definition array_named (elems : list value) (named : list (string * value))
           (key : string) : looked :=
  if String.eqb key "length" then Data (VNum (Z.of_N (length_of elems)))
  else match assoc key named with
       | Some v => Data v
       | None =>
           if mem key array_prototype || mem key object_prototype
           then Builtin key
           else Data VUndefined
       end.

(** [obj[key]] for an object or an array. *)
Definition get_property (obj : value) (key : string) : looked :=
  match obj with
  | VObj props =>
      match assoc key props with
      | Some v => Data v
      | None => if mem key object_prototype then Builtin key
                else Data VUndefined
      end
  | VArr elems named =>
      match array_index key with
      | Some i => Data (nth_elem i elems)
      | None => array_named elems named key
      end
  | _ => Data VUndefined
  end.

(** [arr[n]] for an array and a number [n]: an element when [n] is an array
    index, and otherwise the property whose key is the decimal form of
    [n]. *)
Definition get_index (arr : value) (n : N) : looked :=
  match arr with
  | VArr elems named =>
      if (n <? max_array_length)%N then Data (nth_elem n elems)
      else array_named elems named (decimal n)
  | _ => get_property arr (decimal n)
  end.

(** The [__proto__] setter: an object or [null] becomes the prototype,
    anything else is ignored. *)
Definition set_proto (obj v : value) : outcome value :=
  match v with
  | VNull | VArr _ _ | VObj _ => ProtoReplaced
  | _ => Ok obj
  end.

(** [obj[key] = v] in strict mode, for an object or an array whose
    properties are plain data properties. *)
Definition set_property (obj : value) (key : string) (v : value)
  : outcome value :=
  match obj with
  | VObj props =>
      if String.eqb key "__proto__" then set_proto obj v
      else Ok (VObj (assoc_set key v props))
  | VArr elems named =>
      match array_index key with
      | Some i => Ok (VArr (set_nth (N.to_nat i) v elems) named)
      | None =>
          if String.eqb key "length" then
            match to_array_length v with
            | Some n => Ok (VArr (resize (N.to_nat n) elems) named)
            | None => Throw RangeError
            end
          else if String.eqb key "__proto__" then set_proto obj v
          else Ok (VArr elems (assoc_set key v named))
      end
  | _ => Throw TypeError
  end.

(** [Object.keys(obj)]: the array indices in ascending order, then the
    other keys in insertion order. *)
Fixpoint insert_sorted (i : N) (l : list N) : list N :=
  match l with
  | [] => [i]
  | j :: rest => if (i <=? j)%N then i :: l else j :: insert_sorted i rest
  end.

Definition index_keys (keys : list string) : list N :=
  fold_right (fun k acc =>
                match array_index k with
                | Some i => insert_sorted i acc
                | None => acc
                end) [] keys.

Definition other_keys (keys : list string) : list string :=
  filter (fun k => match array_index k with
                   | Some _ => false
                   | None => true
                   end) keys.

Definition ordered_keys (keys : list string) : list string :=
  map decimal (index_keys keys) ++ other_keys keys.

(** The object at [key] of [current], which has been mutated in place:
    [current] with that object in its new state.  A primitive is not
    mutated. *)
Definition store_back (current : value) (key : string) (child : value)
  : value :=
  match child with
  | VArr _ _ | VObj _ =>
      match current with
      | VObj props => VObj (assoc_set key child props)
      | VArr elems named =>
          match array_index key with
          | Some i => VArr (set_nth (N.to_nat i) child elems) named
          | None => VArr elems (assoc_set key child named)
          end
      | _ => current
      end
  | _ => current
  end.

Definition Object_keys (obj : value) : list string :=
  match obj with
  | VObj props => ordered_keys (map fst props)
  | VArr elems named =>
      map (fun i => decimal (N.of_nat i)) (seq 0 (List.length elems))
      ++ ordered_keys (map fst named)
  | _ => []
  end.

End WithHost.

End JS.

(* ================================================================== *)
(** * [src/types.ts] *)

Import JS.

Record PluginSettings : Type := {
  openDelimiter : string;
  closeDelimiter : string;
  defaultSeparator : string;
  missingValueText : string;
  supportNestedProperties : bool;
  caseInsensitive : bool;
  arrayJoinSeparator : string;
  preserveOriginalOnMissing : bool
}.

Definition DEFAULT_SETTINGS : PluginSettings := {|
  openDelimiter := "{{";
  closeDelimiter := "}}";
  defaultSeparator := ":";
  missingValueText := "[MISSING]";
  supportNestedProperties := true;
  caseInsensitive := false;
  arrayJoinSeparator := ", ";
  preserveOriginalOnMissing := false
|}.

Inductive Status : Type := exists_ | missing | has_default | frontmatter_only.

Record Position : Type := {
  line : nat;
  start : nat;
  end_ : nat
}.

Record Variable_ : Type := {
  name : string;
  value_ : looked;
  defaultValue : option string;
  status : Status;
  position : option Position;
  fullMatch : option string
}.

Record ReplacementResult : Type := {
  result : string;
  replacementCount : Z;
  missingCount : Z
}.

Definition FORBIDDEN_KEYS : list string :=
  ["__proto__"; "constructor"; "prototype"].

Definition MAX_ARRAY_INDEX : N := 1000.

(** [FORBIDDEN_KEYS.has(key.toLowerCase())] *)
Definition forbidden (key : string) : bool :=
  mem (Str.toLowerCase key) FORBIDDEN_KEYS.

(* ================================================================== *)
(** * [src/variableReplacer.ts] *)

Import Regex.

(** The characters of [/[.*+?^${}()|[\]\\]/]. *)
Definition regex_special (c : ascii) : bool :=
  mem (String c EmptyString)
      ["."; "*"; "+"; "?"; "^"; "$"; "{"; "}"; "("; ")"; "|"; "["; "]"; "\"].

Definition backslash : ascii := "\"%char.

(** [string.replace(/[.*+?^${}()|[\]\\]/g, '\\$&')] *)
Fixpoint escapeRegex (s : string) : string :=
  match s with
  | EmptyString => EmptyString
  | String c s' =>
      if regex_special c then String backslash (String c (escapeRegex s'))
      else String c (escapeRegex s')
  end.

(** How [new RegExp] reads the source of an escaped token: a backslash
    makes the next character literal, any other character stands for
    itself. *)
Fixpoint unescape (src : string) : string :=
  match src with
  | EmptyString => EmptyString
  | String c rest =>
      if Ascii.eqb c backslash then
        match rest with
        | String d rest' => String d (unescape rest')
        | EmptyString => EmptyString
        end
      else String c (unescape rest)
  end.

(** The pattern [OPEN\s*([\w.\[\]\-]+)\s*(?:SEP\s*(.*?))?\s*CLOSE] for
    literal texts [OPEN], [CLOSE] and [SEP]. *)
Definition variable_regex (open close sep : string) : regex :=
  Seq (Lit open)
 (Seq (Star Chars.Space)
 (Seq (Group 1 (Plus Chars.Name))
 (Seq (Star Chars.Space)
 (Seq (Opt (Seq (Lit sep)
           (Seq (Star Chars.Space)
                (Group 2 (LazyStar Chars.Dot)))))
 (Seq (Star Chars.Space)
      (Lit close)))))).

(** [new RegExp(`${open}\\s*([\\w.\\[\\]\\-]+)\\s*(?:${sep}\\s*(.*?))?\\s*${close}`, 'g')]
    for escaped sources [open], [close], [sep]. *)
Definition RegExp_variable (open close sep : string) : regex :=
  variable_regex (unescape open) (unescape close) (unescape sep).

(** [/\{\{\s*([\w.[\]-]+)\s*(?::\s*(.*?))?\s*\}\}/g] *)
Definition default_pattern : regex :=
  Seq (Lit "{{")
 (Seq (Star Chars.Space)
 (Seq (Group 1 (Plus Chars.Name))
 (Seq (Star Chars.Space)
 (Seq (Opt (Seq (Lit ":")
           (Seq (Star Chars.Space)
                (Group 2 (LazyStar Chars.Dot)))))
 (Seq (Star Chars.Space)
      (Lit "}}")))))).

(** [let patternCache: { key: string; pattern: RegExp } | null] *)
Record CacheEntry : Type := { key : string; pattern : regex }.
Definition PatternCache : Type := option CacheEntry.

Definition MAX_DELIMITER_LEN : nat := 10.

Definition cacheKey (settings : PluginSettings) : string :=
  openDelimiter settings +++ "|" +++ closeDelimiter settings +++ "|"
  +++ defaultSeparator settings.

(** The pattern compiled from the settings. *)
Definition compile (settings : PluginSettings) : regex :=
  let open := escapeRegex (openDelimiter settings) in
  let close := escapeRegex (closeDelimiter settings) in
  let sep := escapeRegex (defaultSeparator settings) in
  RegExp_variable open close sep.

(** [getVariablePattern(settings)] with the module variable [patternCache]
    passed in and out.  The [lastIndex] of the pattern returned is 0. *)
Definition getVariablePattern (settings : PluginSettings)
           (patternCache : PatternCache) : regex * PatternCache :=
  if (MAX_DELIMITER_LEN <? String.length (openDelimiter settings))
     || (MAX_DELIMITER_LEN <? String.length (closeDelimiter settings))
     || (MAX_DELIMITER_LEN <? String.length (defaultSeparator settings))
  then (default_pattern, patternCache)
  else
    match patternCache with
    | Some entry =>
        if String.eqb (key entry) (cacheKey settings)
        then (pattern entry, patternCache)
        else let pattern := compile settings in
             (pattern, Some {| key := cacheKey settings; pattern := pattern |})
    | None =>
        let pattern := compile settings in
        (pattern, Some {| key := cacheKey settings; pattern := pattern |})
    end.

(** [invalidatePatternCache()] *)
Definition invalidatePatternCache (_ : PatternCache) : PatternCache := None.

(** [/^(\w+)\[(\d+)\]$/] *)
Definition array_segment : regex :=
  Seq Bol
 (Seq (Group 1 (Plus Chars.Word))
 (Seq (Lit "[")
 (Seq (Group 2 (Plus Chars.Digit))
 (Seq (Lit "]") Eol)))).

(** [key.match(/^(\w+)\[(\d+)\]$/)]: the property name and the index. *)
Definition arrayMatch (key : string) : option (string * N) :=
  match String_match array_segment key with
  | Some m =>
      match group1 m, group2 m with
      | Some propName, Some digits => Some (propName, parseInt digits)
      | _, _ => None
      end
  | None => None
  end.

Section Replacer.
Context {host : Host}.

(** [findKey(obj, key, caseInsensitive)]; [None] is [undefined]. *)
Definition findKey (obj : looked) (key : string) (caseInsensitive : bool)
  : option string :=
  match obj with
  | Data ((VArr _ _ | VObj _) as o) =>
      if forbidden key then None
      else
        match has_property o key with
        | Ok true => Some key
        | _ =>
            if caseInsensitive then
              let lowerKey := Str.toLowerCase key in
              find (fun k => String.eqb (Str.toLowerCase k) lowerKey)
                   (Object_keys o)
            else None
        end
  | _ => None
  end.

(** [!foundKey] is false: the key was found and is not the empty string. *)
Definition found (foundKey : option string) : option string :=
  match foundKey with
  | Some k => if Str.is_empty k then None else Some k
  | None => None
  end.

(** [value[foundKey]] *)
Definition get (value : looked) (foundKey : string) : looked :=
  match value with
  | Data o => get_property o foundKey
  | Builtin _ => Data VUndefined
  end.

(** The loop [for (const key of keys)] of [getNestedValue]. *)
Fixpoint getNestedValue_loop (keys : list string) (value : looked)
         (caseInsensitive : bool) : looked :=
  match keys with
  | [] => value
  | key :: rest =>
      match value with
      | Data VUndefined | Data VNull => Data VUndefined
      | _ =>
          match arrayMatch key with
          | Some (propName, index) =>
              match found (findKey value propName caseInsensitive) with
              | None => Data VUndefined
              | Some foundKey =>
                  let value := get value foundKey in
                  match value with
                  | Data ((VArr _ _) as arr) =>
                      getNestedValue_loop rest (get_index arr index)
                                          caseInsensitive
                  | _ => Data VUndefined
                  end
              end
          | None =>
              match found (findKey value key caseInsensitive) with
              | None => Data VUndefined
              | Some foundKey =>
                  getNestedValue_loop rest (get value foundKey)
                                      caseInsensitive
              end
          end
      end
  end.

(** [getNestedValue(obj, path, caseInsensitive)] *)
Definition getNestedValue (obj : value) (path : string)
           (caseInsensitive : bool) : looked :=
  if negb (truthy obj) then Data VUndefined
  else getNestedValue_loop (Str.split "." path) (Data obj) caseInsensitive.

(** [value !== undefined && value !== null && value !== ''] *)
Definition present (value : looked) : bool :=
  match value with
  | Data VUndefined | Data VNull => false
  | Data (VStr s) => negb (Str.is_empty s)
  | _ => true
  end.

(** The two counters that the callback of [replaceVariables] updates. *)
Record Counters : Type := {
  replacements : Z;
  missings : Z
}.

(** The callback [(match, varName, defaultValue) => ...] of
    [replaceVariables], which the two builds share but for the way a
    name is resolved ([resolve] is [getNestedValue(frontmatter, _)] of the
    build): the replacement text and the counters after the call. *)
Definition replacer_with (resolve : string -> looked)
           (settings : PluginSettings)
           (counters : Counters) (m : rmatch)
  : outcome (string * Counters) :=
  match group1 m with
  | None => Throw TypeError   (* [varName.trim()] of [undefined] *)
  | Some varName =>
      let value := resolve (Str.trim varName) in
      if present value then
        let counters := {| replacements := replacements counters + 1;
                           missings := missings counters |} in
        match value with
        | Data (VArr elems named) =>
            (* [value.join(sep)]: an own property [join] of the array is
               data, and calling it is a TypeError *)
            match array_named elems named "join" with
            | Builtin _ =>
                bind (Array_join elems
                        (if Str.is_empty (arrayJoinSeparator settings)
                         then ", "
                         else arrayJoinSeparator settings))
                     (fun joined => Ok (joined, counters))
            | Data _ => Throw TypeError
            end
        | Data ((VObj _) as o) =>
            Ok (match JSON_stringify o with
                | Some s => s
                | None => "[Complex Object]"
                end,
                counters)
        | _ => Ok (String_of value, counters)
        end
      else
        match group2 m with
        | Some defaultValue =>
            Ok (defaultValue,
                {| replacements := replacements counters + 1;
                   missings := missings counters |})
        | None =>
            Ok (if preserveOriginalOnMissing settings then full m
                else missingValueText settings,
                {| replacements := replacements counters;
                   missings := missings counters + 1 |})
        end
  end.

(** The calls of the callback, one per collected match, from left to
    right. *)
Fixpoint replace_calls (resolve : string -> looked)
         (settings : PluginSettings)
         (ms : list rmatch) (counters : Counters)
  : outcome (list (rmatch * string) * Counters) :=
  match ms with
  | [] => Ok ([], counters)
  | m :: rest =>
      bind (replacer_with resolve settings counters m)
           (fun '(rep, counters) =>
      bind (replace_calls resolve settings rest counters)
           (fun '(reps, counters) => Ok ((m, rep) :: reps, counters)))
  end.

(** [text.replace(pattern, callback)] and the result record built from
    it. *)
Definition replace_with (resolve : string -> looked)
           (settings : PluginSettings) (pattern : regex) (text : string)
  : outcome ReplacementResult :=
  bind (replace_calls resolve settings (match_all pattern text)
                      {| replacements := 0; missings := 0 |})
       (fun '(reps, counters) =>
          Ok {| result := splice text 0 reps;
                replacementCount := replacements counters;
                missingCount := missings counters |}).

(** [replaceVariables(text, frontmatter, settings)] *)
Definition replaceVariables (text : string) (frontmatter : value)
           (settings : PluginSettings) (patternCache : PatternCache)
  : outcome ReplacementResult * PatternCache :=
  let (pattern, patternCache) := getVariablePattern settings patternCache in
  (replace_with
     (fun varName =>
        getNestedValue frontmatter varName (caseInsensitive settings))
     settings pattern text,
   patternCache).

(** [s.split('\n').length - 1] *)
Definition count_newlines (s : string) : nat :=
  List.length (Str.split Str.LF s) - 1.

(** The state of the loop of [scanDocumentVariables]. *)
Record ScanState : Type := {
  variables : list Variable_;
  seen : list string
}.

(** The record that the loop of [scanDocumentVariables] pushes for a
    match [m] whose name is [varName]; [resolve] is
    [getNestedValue(frontmatter, _)] of the build. *)
Definition scanned_variable (resolve : string -> looked)
           (bodyPart : string) (frontmatterLines : nat)
           (m : rmatch) (varName : string) : Variable_ :=
  let defaultValue := group2 m in
  let value := resolve varName in
  let status :=
    if present value then exists_
    else match defaultValue with
         | Some _ => has_default
         | None => missing
         end in
  let textBeforeMatch := Str.slice 0 (index m) bodyPart in
  let linesBeforeMatch := count_newlines textBeforeMatch in
  let lineNum := frontmatterLines + linesBeforeMatch in
  let charPos :=
    match Str.lastIndexOf Str.LF textBeforeMatch with
    | None => index m
    | Some lastNewline => index m - lastNewline - 1
    end in
  {| name := varName;
     status := status;
     value_ := value;
     defaultValue := defaultValue;
     fullMatch := Some (full m);
     position :=
       Some {| line := lineNum;
               start := charPos;
               end_ := charPos + String.length (full m) |}
  |}.

(** The body of the loop [while ((match = pattern.exec(bodyPart)) !== null)]
    of [scanDocumentVariables]. *)
Definition scan_step (frontmatter : value) (settings : PluginSettings)
           (bodyPart : string) (frontmatterLines : nat)
           (st : ScanState) (m : rmatch) : outcome ScanState :=
  match group1 m with
  | None => Throw TypeError   (* [match[1].trim()] of [undefined] *)
  | Some g1 =>
      let varName := Str.trim g1 in
      if mem varName (seen st) then Ok st   (* [continue] *)
      else
        Ok {| variables :=
                variables st ++
                [scanned_variable
                   (fun varName =>
                      getNestedValue frontmatter varName
                                     (caseInsensitive settings))
                   bodyPart frontmatterLines m varName];
              seen := seen st ++ [varName] |}
  end.

(** [scanDocumentVariables(text, frontmatter, frontmatterEnd, settings)] *)
Definition scanDocumentVariables (text : string) (frontmatter : value)
           (frontmatterEnd : nat) (settings : PluginSettings)
           (patternCache : PatternCache)
  : outcome (list Variable_) * PatternCache :=
  let bodyPart := Str.slice_from frontmatterEnd text in
  let (pattern, patternCache) := getVariablePattern settings patternCache in
  let frontmatterLines :=
    count_newlines (Str.slice 0 frontmatterEnd text) in
  (bind (exec_while
           (scan_step frontmatter settings bodyPart frontmatterLines)
           pattern bodyPart {| variables := []; seen := [] |})
        (fun st => Ok (variables st)),
   patternCache).

End Replacer.

(* ================================================================== *)
(** * [src/frontmatterParser.ts] *)

(** The YAML library that the parser imports ([js-yaml]): [load] and
    [dump], either of which may throw. *)
Class Yaml : Type := {
  yaml_load : string -> outcome value;
  yaml_dump : value -> outcome string
}.

(** [\r?\n] *)
Definition newline : regex := Seq (Opt (Lit Str.cr)) (Lit Str.lf).

(** [/^---\r?\n---(?:\r?\n|$)/] *)
Definition empty_frontmatter : regex :=
  Seq Bol (Seq (Lit "---") (Seq newline (Seq (Lit "---") (Alt newline Eol)))).

(** [/^---\r?\n([\s\S]*?)\r?\n---/] *)
Definition frontmatter_block : regex :=
  Seq Bol (Seq (Lit "---") (Seq newline
 (Seq (Group 1 (LazyStar Chars.Any)) (Seq newline (Lit "---"))))).

(** [/^---\r?\n[\s\S]*?\r?\n---(?:\r?\n|$)/] *)
Definition frontmatter_whole : regex :=
  Seq Bol (Seq (Lit "---") (Seq newline
 (Seq (LazyStar Chars.Any)
 (Seq newline (Seq (Lit "---") (Alt newline Eol)))))).

Section Parser.
Context {host : Host} {yaml : Yaml}.

(** [parseFrontmatter(text)] *)
Definition parseFrontmatter (text : string) : value :=
  if negb (Str.startsWith text "---") then VObj []
  else
    match String_match empty_frontmatter text with
    | Some _ => VObj []
    | None =>
        match String_match frontmatter_block text with
        | None => VObj []
        | Some m =>
            match group1 m with
            | Some content =>
                match yaml_load content with
                | Ok v => if truthy v then v else VObj []
                | _ => VObj []   (* [catch (e)] *)
                end
            | None => VObj []
            end
        end
    end.

(** [findFrontmatterEnd(text)] *)
Definition findFrontmatterEnd (text : string) : nat :=
  if negb (Str.startsWith text "---") then 0
  else
    match String_match empty_frontmatter text with
    | Some emptyMatch => String.length (full emptyMatch)
    | None =>
        match String_match frontmatter_whole text with
        | None => 0
        | Some m => String.length (full m)
        end
    end.

(** [`---\n${yaml.dump(frontmatter)}---\n`], the block that
    [updateFrontmatter] writes. *)
Definition newFmBlock (frontmatter : value) : outcome string :=
  bind (yaml_dump frontmatter)
       (fun newFmContent =>
          Ok ("---" +++ Str.lf +++ newFmContent +++ "---" +++ Str.lf)).

(** [while (arr.length <= index) arr.push(filler)] for the array [arr] of
    the elements [elems] and the named properties [named]: the elements
    after the loop.  When the body runs, [arr.push] is read: the method
    that the array inherits appends the filler; an own property [push] is
    data, and calling it is a TypeError. *)
Definition grow (elems : list value) (named : list (string * value))
           (index : N) (filler : value) : outcome (list value) :=
  if (index <? length_of elems)%N then Ok elems
  else
    match array_named elems named "push" with
    | Builtin _ =>
        Ok (elems
            ++ repeat filler (N.to_nat index + 1 - List.length elems))
    | Data _ => Throw TypeError
    end.

(** [if (!(propName in current) || !Array.isArray(current[propName]))
       current[propName] = []] *)
Definition ensure_array (current : value) (propName : string)
  : outcome value :=
  bind (has_property current propName) (fun has =>
    if negb has || negb (isArray (get_property current propName))
    then set_property current propName (VArr [] [])
    else Ok current).

(** The statements of [setNestedValue] for the final key: the state in which
    they leave [current]. *)
Definition final_step (finalKey : string) (current : value) (value : value)
  : outcome JS.value :=
  if forbidden finalKey then Ok current   (* [return] *)
  else
    match arrayMatch finalKey with
    | Some (propName, index) =>
        if forbidden propName then Ok current   (* [return] *)
        else
          bind (ensure_array current propName) (fun current =>
            if (MAX_ARRAY_INDEX <? index)%N then Ok current   (* [return] *)
            else
              match get_property current propName with
              | Data (VArr elems named) =>
                  bind (grow elems named index VNull) (fun elems =>
                    Ok (store_back current propName
                          (VArr (set_nth (N.to_nat index) value elems)
                                named)))
              | _ => Throw TypeError
              end)
    | None => set_property current finalKey value
    end.

(** The body of the loop of [setNestedValue] for the key [keys[i]], and what
    follows it: [descend] is the rest of the function, which works on the
    object that the body makes [current].  The result is the state in which
    all of it leaves the [current] of the body. *)
Definition intermediate_step (key : string) (current : value)
           (descend : value -> outcome value) : outcome value :=
  if forbidden key then Ok current   (* [return] *)
  else
    match arrayMatch key with
    | Some (propName, index) =>
        if forbidden propName then Ok current   (* [return] *)
        else
          bind (ensure_array current propName) (fun current =>
            if (MAX_ARRAY_INDEX <? index)%N then Ok current   (* [return] *)
            else
              match get_property current propName with
              | Data (VArr elems named) =>
                  bind (grow elems named index (VObj [])) (fun elems =>
                    let elems :=
                      if typeof_object (Data (nth_elem index elems))
                         && negb (is_null (Data (nth_elem index elems)))
                      then elems
                      else set_nth (N.to_nat index) (VObj []) elems in
                    bind (descend (nth_elem index elems))
                         (fun child =>
                            Ok (store_back current propName
                                  (VArr (set_nth (N.to_nat index) child
                                                 elems)
                                        named))))
              | _ => Throw TypeError
              end)
    | None =>
        bind (has_property current key) (fun has =>
        bind (if negb has then set_property current key (VObj [])
              else if negb (typeof_object (get_property current key))
                      || is_null (get_property current key)
                   then set_property current key (VObj [])
                   else Ok current) (fun current =>
          match get_property current key with
          | Data child =>
              bind (descend child)
                   (fun child => Ok (store_back current key child))
          | Builtin _ => Throw TypeError
          end))
    end.

(** The loop of [setNestedValue] over [keys[0 .. length - 2]], followed by
    the treatment of the final key: the state in which the statements
    leave [current]. *)
Fixpoint setNestedValue_loop (keys : list string) (current : value)
         (value : value) : outcome JS.value :=
  match keys with
  | [] => Ok current
  | [finalKey] => final_step finalKey current value
  | key :: rest =>
      intermediate_step key current
                        (fun child => setNestedValue_loop rest child value)
  end.

(** [setNestedValue(obj, path, value)]: the state in which the call
    leaves [obj]. *)
Definition setNestedValue (obj : value) (path : string) (value : value)
  : outcome JS.value :=
  setNestedValue_loop (Str.split "." path) obj value.

End Parser.

(* ================================================================== *)
(** * [main.js], the Obsidian build

    The build keeps the settings and the pattern cache in the plugin
    object; they are arguments here.  Its [findKey], [getVariablePattern],
    [escapeRegex] and [findFrontmatterEnd] are the statements of the
    functions above, with [caseInsensitive] read from the settings;
    [parseYaml] of the application is [yaml_load]. *)

Module Obsidian.

Record Settings : Type := {
  plugin : PluginSettings;
  showFrontmatterOnlyVariables : bool
}.

(** The file of the note: what the metadata cache of the application
    holds as its frontmatter, [undefined] when it holds none. *)
Record File : Type := { cached_frontmatter : value }.

Section Plugin.
Context {host : Host} {yaml : Yaml}.

(** [this.findKey(obj, key)] *)
Definition findKey (settings : Settings) (obj : looked) (key : string)
  : option string :=
  findKey obj key (caseInsensitive (plugin settings)).

(** [this.getNestedValue(obj, path)] *)
Definition getNestedValue (settings : Settings) (obj : value)
           (path : string) : looked :=
  if negb (supportNestedProperties (plugin settings)) then
    match found (findKey settings (Data obj) path) with
    | Some foundKey => get (Data obj) foundKey
    | None => Data VUndefined
    end
  else
    getNestedValue_loop (Str.split "." path) (Data obj)
                        (caseInsensitive (plugin settings)).

(** [this.getVariablePattern()] *)
Definition getVariablePattern (settings : Settings)
           (_patternCache : PatternCache) : regex * PatternCache :=
  getVariablePattern (plugin settings) _patternCache.

(** [this.replaceVariables(text, frontmatter)] *)
Definition replaceVariables (settings : Settings) (text : string)
           (frontmatter : value) (_patternCache : PatternCache)
  : outcome ReplacementResult * PatternCache :=
  let (pattern, _patternCache) :=
    getVariablePattern settings _patternCache in
  (replace_with (getNestedValue settings frontmatter) (plugin settings)
                pattern text,
   _patternCache).

(** [this.parseFrontmatterFromContent(content)] *)
Definition parseFrontmatterFromContent (content : string) : value :=
  match String_match empty_frontmatter content with
  | Some _ => VObj []
  | None =>
      match String_match frontmatter_block content with
      | Some m =>
          match group1 m with
          | Some text =>
              match yaml_load text with
              | Ok v => if truthy v then v else VObj []
              | _ => VObj []   (* [catch (e)] *)
              end
          | None => VObj []
          end
      | None => VObj []
      end
  end.

(** [this.getFrontmatter(file, editorContent)] *)
Definition getFrontmatter (file : option File) (editorContent : string)
  : value :=
  match file with
  | None => VObj []
  | Some f =>
      if negb (Str.is_empty editorContent)
      then parseFrontmatterFromContent editorContent
      else if truthy (cached_frontmatter f) then cached_frontmatter f
           else VObj []
  end.

Definition metadata_key (key : string) : bool :=
  mem key ["position"; "cssclasses"; "tags"; "aliases"].

Definition frontmatter_only_variable (fullPath : string)
           (value : JS.value) : Variable_ :=
  {| name := fullPath;
     status := frontmatter_only;
     value_ := Data value;
     defaultValue := None;
     fullMatch := None;
     position := None |}.

(** The entries in the order of [keys], each key taking the first entry
    of its name. *)
Definition in_order (keys : list string)
           (entries : list (string * list Variable_))
  : list Variable_ :=
  flat_map (fun k =>
              match find (fun e => String.eqb (fst e) k) entries with
              | Some e => snd e
              | None => []
              end) keys.

(** [this.collectFrontmatterProperties(obj, prefix, seenVarNames,
    variables, visited)]: what the call appends to [variables].  In a
    tree no object is visited twice. *)
Fixpoint collectFrontmatterProperties (obj : value) (prefix : string)
         (seenVarNames : list string) {struct obj} : list Variable_ :=
  let fullPath (key : string) :=
    if Str.is_empty prefix then key else prefix +++ "." +++ key in
  let leaf (key : string) (value : JS.value) : list Variable_ :=
    if mem (fullPath key) seenVarNames then []
    else [frontmatter_only_variable (fullPath key) value] in
  let skipped (key : string) : bool :=
    metadata_key key || forbidden key in
  match obj with
  | VObj props =>
      in_order
        (Object_keys obj)
        ((fix entries (l : list (string * value))
            : list (string * list Variable_) :=
            match l with
            | [] => []
            | (key, value) :: rest =>
                (key,
                 if skipped key then []
                 else match value with
                      | VObj _ =>
                          collectFrontmatterProperties
                            value (fullPath key) seenVarNames
                      | _ => leaf key value
                      end) :: entries rest
            end) props)
  | VArr elems named =>
      in_order
        (Object_keys obj)
        ((fix items (l : list value) (i : nat)
            : list (string * list Variable_) :=
            match l with
            | [] => []
            | value :: rest =>
                let key := decimal (N.of_nat i) in
                (key,
                 if skipped key then []
                 else match value with
                      | VObj _ =>
                          collectFrontmatterProperties
                            value (fullPath key) seenVarNames
                      | _ => leaf key value
                      end) :: items rest (S i)
            end) elems 0
         ++
         (fix entries (l : list (string * value))
            : list (string * list Variable_) :=
            match l with
            | [] => []
            | (key, value) :: rest =>
                (key,
                 if skipped key then []
                 else match value with
                      | VObj _ =>
                          collectFrontmatterProperties
                            value (fullPath key) seenVarNames
                      | _ => leaf key value
                      end) :: entries rest
            end) named)
  | _ => []
  end.

(** The body of the loop of [scanDocumentVariables]. *)
Definition scan_step (settings : Settings) (frontmatter : value)
           (bodyPart : string) (frontmatterLines : nat)
           (st : ScanState) (m : rmatch) : outcome ScanState :=
  match group1 m with
  | None => Throw TypeError   (* [match[1].trim()] of [undefined] *)
  | Some g1 =>
      let varName := Str.trim g1 in
      Ok {| variables :=
              variables st ++
              [scanned_variable (getNestedValue settings frontmatter)
                                bodyPart frontmatterLines m varName];
            seen := seen st ++ [varName] |}
  end.

(** [this.scanDocumentVariables(editor, file)], for the text [content]
    that [editor.getValue()] returns. *)
Definition scanDocumentVariables (settings : Settings)
           (content : string) (file : option File)
           (_patternCache : PatternCache)
  : outcome (list Variable_) * PatternCache :=
  let frontmatter := getFrontmatter file content in
  let frontmatterEnd := findFrontmatterEnd content in
  let bodyPart := Str.slice_from frontmatterEnd content in
  let (pattern, _patternCache) :=
    getVariablePattern settings _patternCache in
  let frontmatterLines :=
    count_newlines (Str.slice 0 frontmatterEnd content) in
  (bind (exec_while
           (scan_step settings frontmatter bodyPart frontmatterLines)
           pattern bodyPart {| variables := []; seen := [] |})
        (fun st =>
           Ok (if showFrontmatterOnlyVariables settings
               then variables st
                    ++ collectFrontmatterProperties
                         frontmatter EmptyString (seen st)
               else variables st)),
   _patternCache).

(** [foundKey || key] *)
Definition actual_key (foundKey : option string) (key : string) : string :=
  match found foundKey with
  | Some k => k
  | None => key
  end.

(** The statements of [this.setNestedValue] for the final key: the state in
    which they leave [current]. *)
Definition final_step (settings : Settings) (finalKey : string)
           (current : value) (value : value) : outcome JS.value :=
  if forbidden finalKey then Ok current   (* [return obj] *)
  else
    match arrayMatch finalKey with
    | Some (propName, index) =>
        if forbidden propName then Ok current   (* [return obj] *)
        else
          let foundPropKey :=
            findKey settings (Data current) propName in
          let actualPropKey := actual_key foundPropKey propName in
          bind (ensure_array current actualPropKey) (fun current =>
            if (MAX_ARRAY_INDEX <? index)%N then Ok current
            else
              match get_property current actualPropKey with
              | Data (VArr elems named) =>
                  bind (grow elems named index VNull) (fun elems =>
                    Ok (store_back current actualPropKey
                          (VArr (set_nth (N.to_nat index) value elems)
                                named)))
              | _ => Throw TypeError
              end)
    | None =>
        let foundFinalKey :=
          findKey settings (Data current) finalKey in
        set_property current (actual_key foundFinalKey finalKey) value
    end.

(** The body of the loop of [this.setNestedValue] for the key [keys[i]],
    and what follows it: [descend] is the rest of the method, which works
    on the object that the body makes [current]. *)
Definition intermediate_step (settings : Settings) (key : string)
           (current : value) (descend : value -> outcome value)
  : outcome value :=
  if forbidden key then Ok current   (* [return obj] *)
  else
    match arrayMatch key with
    | Some (propName, index) =>
        if forbidden propName then Ok current   (* [return obj] *)
        else
          let foundPropKey :=
            findKey settings (Data current) propName in
          let actualPropKey := actual_key foundPropKey propName in
          bind (ensure_array current actualPropKey) (fun current =>
            if (MAX_ARRAY_INDEX <? index)%N then Ok current
            else
              match get_property current actualPropKey with
              | Data (VArr elems named) =>
                  bind (grow elems named index (VObj [])) (fun elems =>
                    let elems :=
                      if typeof_object (Data (nth_elem index elems))
                         && negb (is_null (Data (nth_elem index elems)))
                      then elems
                      else set_nth (N.to_nat index) (VObj []) elems in
                    bind (descend (nth_elem index elems))
                         (fun child =>
                            Ok (store_back current actualPropKey
                                  (VArr (set_nth (N.to_nat index) child
                                                 elems)
                                        named))))
              | _ => Throw TypeError
              end)
    | None =>
        match found (findKey settings (Data current) key) with
        | Some foundKey =>
            bind (if negb (typeof_object (get_property current foundKey))
                     || is_null (get_property current foundKey)
                  then set_property current foundKey (VObj [])
                  else Ok current) (fun current =>
              match get_property current foundKey with
              | Data child =>
                  bind (descend child)
                       (fun child => Ok (store_back current foundKey child))
              | Builtin _ => Throw TypeError
              end)
        | None =>
            bind (set_property current key (VObj [])) (fun current =>
              match get_property current key with
              | Data child =>
                  bind (descend child)
                       (fun child => Ok (store_back current key child))
              | Builtin _ => Throw TypeError
              end)
        end
    end.

Fixpoint setNestedValue_loop (settings : Settings)
         (keys : list string) (current : value) (value : value)
  : outcome JS.value :=
  match keys with
  | [] => Ok current
  | [finalKey] => final_step settings finalKey current value
  | key :: rest =>
      intermediate_step settings key current
        (fun child => setNestedValue_loop settings rest child value)
  end.

(** [this.setNestedValue(obj, path, value)]: the state in which the call
    leaves [obj], which is what it returns. *)
Definition setNestedValue (settings : Settings) (obj : value)
           (path : string) (value : value) : outcome JS.value :=
  if negb (supportNestedProperties (plugin settings)) then
    if forbidden path then Ok obj
    else
      let foundKey := findKey settings (Data obj) path in
      set_property obj (actual_key foundKey path) value
  else setNestedValue_loop settings (Str.split "." path) obj value.

(** [this.setVariableInFrontmatter(editor, varName, value)], for the text
    [content] that [editor.getValue()] returns: the text of the editor
    after the call.  When [stringifyYaml] throws, the method returns
    without a change. *)
Definition setVariableInFrontmatter (settings : Settings)
           (content : string) (varName : string) (value : value)
  : outcome string :=
  let hasFrontmatter := Str.startsWith content "---" in
  let frontmatter :=
    if hasFrontmatter then parseFrontmatterFromContent content
    else VObj [] in
  let fmEnd := if hasFrontmatter then findFrontmatterEnd content else 0 in
  bind (setNestedValue settings frontmatter varName value)
       (fun frontmatter =>
          match yaml_dump frontmatter with
          | Ok newFmContent =>
              let newFmBlock :=
                "---" +++ Str.lf +++ newFmContent +++ "---" +++ Str.lf in
              Ok (newFmBlock +++ Str.slice_from fmEnd content)
          | Throw _ => Ok content   (* [catch (e)] *)
          | ProtoReplaced => ProtoReplaced
          | Diverges => Diverges
          end).

End Plugin.

End Obsidian.

(* ================================================================== *)
(** * [src/variableReplacer.ts]: the variable under the cursor *)

(** The loop [while ((match = r.exec(text)) !== null) body] for a pattern
    with the [g] flag and [lastIndex] 0, the body of which may [return]: a
    result [Some a] of the body ends the loop with [a].  After an empty
    match that does not return the loop does not end. *)
Section ExecUntil.
Variable A : Type.
Variable body : rmatch -> outcome (option A).
Variable r : regex.
Variable n0 : nat.

Fixpoint exec_until_from (s : string) (idx skip : nat)
  : outcome (option A) :=
  match skip with
  | S k =>
      match s with
      | String _ s' => exec_until_from s' (S idx) k
      | EmptyString => Ok None
      end
  | O =>
      match match_here r n0 s idx with
      | Some m =>
          bind (body m) (fun returned =>
            match returned with
            | Some a => Ok (Some a)
            | None =>
                match String.length (full m) with
                | O => Diverges
                | S k =>
                    match s with
                    | String _ s' => exec_until_from s' (S idx) k
                    | EmptyString => Ok None
                    end
                end
            end)
      | None =>
          match s with
          | String _ s' => exec_until_from s' (S idx) 0
          | EmptyString => Ok None
          end
      end
  end.
End ExecUntil.

Definition exec_until {A : Type} (body : rmatch -> outcome (option A))
           (r : regex) (text : string) : outcome (option A) :=
  exec_until_from body r (String.length text) text 0 0.

(** The body of the loop of [getVariableAtPosition]; [character] is the
    column of the cursor. *)
Definition variable_at (character : nat) (m : rmatch)
  : outcome (option Variable_) :=
  let start := index m in
  let end_ := start + String.length (full m) in
  if (start <=? character) && (character <? end_) then
    match group1 m with
    | None => Throw TypeError   (* [match[1].trim()] of [undefined] *)
    | Some g1 =>
        let varName := Str.trim g1 in
        let defaultValue := group2 m in
        Ok (Some {| name := varName;
                    value_ := Data VUndefined;
                    defaultValue := defaultValue;
                    status := match defaultValue with
                              | Some _ => has_default
                              | None => missing
                              end;
                    position :=
                      Some {| line := 0; start := start; end_ := end_ |};
                    fullMatch := Some (full m) |})
    end
  else Ok None.

(** [getVariableAtPosition(line, character, settings)]; [None] is
    [null]. *)
Definition getVariableAtPosition (line : string) (character : nat)
           (settings : PluginSettings) (patternCache : PatternCache)
  : outcome (option Variable_) * PatternCache :=
  let (pattern, patternCache) := getVariablePattern settings patternCache in
  (exec_until (variable_at character) pattern line, patternCache).

(* ================================================================== *)
(** * [src/utils/fileOperations.ts] *)

(** The nine characters of the class that [sanitizeFilename] replaces, by
    their codes: backslash, slash, colon, asterisk, question mark, double
    quote, the angle brackets and the bar. *)
Definition filename_invalid (c : ascii) : bool :=
  existsb (Nat.eqb (Chars.code c)) [92; 47; 58; 42; 63; 34; 60; 62; 124].

(** [s.replace(INVALID, '-')] for the global pattern [INVALID] of that
    class. *)
Fixpoint replace_invalid (s : string) : string :=
  match s with
  | EmptyString => EmptyString
  | String c s' =>
      String (if filename_invalid c then "-"%char else c) (replace_invalid s')
  end.

(** [s.replace(/\s+/g, ' ')] *)
Definition collapse_spaces (s : string) : string :=
  splice s 0 (map (fun m => (m, " ")) (match_all (Plus Chars.Space) s)).

Definition is_period (c : ascii) : bool := Chars.code c =? 46.

(** [s.replace(/^\.+|\.+$/g, '')]: the first alternative matches the dots
    that the text starts with, the second one, further on, the dots that it
    ends with. *)
Fixpoint strip_leading_dots (s : string) : string :=
  match s with
  | String c s' => if is_period c then strip_leading_dots s' else s
  | EmptyString => EmptyString
  end.

Fixpoint strip_trailing_dots (s : string) : string :=
  match s with
  | EmptyString => EmptyString
  | String c s' =>
      match strip_trailing_dots s' with
      | EmptyString =>
          if is_period c then EmptyString else String c EmptyString
      | t => String c t
      end
  end.

Definition strip_dots (s : string) : string :=
  strip_trailing_dots (strip_leading_dots s).

(** [/^(con|prn|aux|nul|com[1-9]|lpt[1-9])$/i.test(s)] *)
Definition WINDOWS_RESERVED (s : string) : bool :=
  mem (Str.toLowerCase s)
      ["con"; "prn"; "aux"; "nul";
       "com1"; "com2"; "com3"; "com4"; "com5"; "com6"; "com7"; "com8";
       "com9";
       "lpt1"; "lpt2"; "lpt3"; "lpt4"; "lpt5"; "lpt6"; "lpt7"; "lpt8";
       "lpt9"].

(** [sanitizeFilename(name)]; [None] is [null]. *)
Definition sanitizeFilename (name : string) : option string :=
  if Str.is_empty name then None
  else
    let sanitized :=
      strip_dots (Str.trim (collapse_spaces (replace_invalid name))) in
    let sanitized :=
      if WINDOWS_RESERVED sanitized then "_" +++ sanitized else sanitized in
    if Str.is_empty sanitized then None else Some sanitized.

(* ================================================================== *)
(** * [src/frontmatterParser.ts]: [updateFrontmatter] *)

(** A [vscode.TextEdit], its positions given as offsets in the text of the
    document: [TextEdit.replace(new Range(from, to), newText)] and
    [TextEdit.insert(at, newText)]. *)
Inductive TextEdit : Type :=
| Replace (from to : nat) (newText : string)
| Insert (at_ : nat) (newText : string).

(** The text of the document once an edit is applied. *)
Definition apply_edit (text : string) (edit : TextEdit) : string :=
  match edit with
  | Replace from to newText =>
      Str.slice_to from text +++ newText +++ Str.slice_from to text
  | Insert at_ newText =>
      Str.slice_to at_ text +++ newText +++ Str.slice_from at_ text
  end.

Section Update.
Context {host : Host} {yaml : Yaml}.

(** The loop [for (const [key, value] of Object.entries(updates))
    setNestedValue(frontmatter, key, value)], for the entries of [updates]
    in the order in which [Object.entries] returns them: the state in which
    it leaves [frontmatter]. *)
Fixpoint apply_updates (frontmatter : value)
         (updates : list (string * value)) : outcome value :=
  match updates with
  | [] => Ok frontmatter
  | (key, value) :: rest =>
      bind (setNestedValue frontmatter key value)
           (fun frontmatter => apply_updates frontmatter rest)
  end.

(** [updateFrontmatter(document, updates)] for the text [text] that
    [document.getText()] returns; [new Position(0, 0)] is the offset 0 and
    [document.positionAt(fmEnd)] the offset [fmEnd]. *)
Definition updateFrontmatter (text : string)
           (updates : list (string * value)) : outcome (list TextEdit) :=
  let hasFrontmatter := Str.startsWith text "---" in
  let frontmatter := parseFrontmatter text in
  bind (apply_updates frontmatter updates) (fun frontmatter =>
  bind (newFmBlock frontmatter) (fun newFmBlock =>
    if hasFrontmatter then
      let fmEnd := findFrontmatterEnd text in
      Ok [Replace 0 fmEnd newFmBlock]
    else
      Ok [Insert 0 newFmBlock])).

End Update.

(* ================================================================== *)
(** * [main.js]: the modal that lists the variables *)

Module Modal.

(** [{ total, exists, hasDefault, missing, frontmatterOnly }] *)
Record Stats : Type := {
  total : nat;
  exists' : nat;
  hasDefault : nat;
  missing' : nat;
  frontmatterOnly : nat
}.

(** The body of the loop of [getVariableStats]. *)
Definition stats_step (acc : Stats * list string) (v : Variable_)
  : Stats * list string :=
  let (stats, seen) := acc in
  if mem (name v) seen then acc   (* [continue] *)
  else
    let seen := seen ++ [name v] in
    let stats :=
      {| total := S (total stats);
         exists' := exists' stats;
         hasDefault := hasDefault stats;
         missing' := missing' stats;
         frontmatterOnly := frontmatterOnly stats |} in
    (match status v with
     | exists_ =>
         {| total := total stats;
            exists' := S (exists' stats);
            hasDefault := hasDefault stats;
            missing' := missing' stats;
            frontmatterOnly := frontmatterOnly stats |}
     | has_default =>
         {| total := total stats;
            exists' := exists' stats;
            hasDefault := S (hasDefault stats);
            missing' := missing' stats;
            frontmatterOnly := frontmatterOnly stats |}
     | frontmatter_only =>
         {| total := total stats;
            exists' := exists' stats;
            hasDefault := hasDefault stats;
            missing' := missing' stats;
            frontmatterOnly := S (frontmatterOnly stats) |}
     | missing =>
         {| total := total stats;
            exists' := exists' stats;
            hasDefault := hasDefault stats;
            missing' := S (missing' stats);
            frontmatterOnly := frontmatterOnly stats |}
     end,
     seen).

(** [this.getVariableStats()] for the list [this.variables]. *)
Definition getVariableStats (variables : list Variable_) : Stats :=
  fst (fold_left stats_step variables
         ({| total := 0; exists' := 0; hasDefault := 0; missing' := 0;
             frontmatterOnly := 0 |}, [])).

(** [{ missing, hasDefault, exists, frontmatterOnly }] *)
Record Groups : Type := {
  g_missing : list Variable_;
  g_hasDefault : list Variable_;
  g_exists : list Variable_;
  g_frontmatterOnly : list Variable_
}.

(** The body of the loop of [groupVariablesByStatus]. *)
Definition group_step (acc : Groups * list string) (v : Variable_)
  : Groups * list string :=
  let (grouped, seen) := acc in
  if mem (name v) seen then acc   (* [continue] *)
  else
    let seen := seen ++ [name v] in
    (match status v with
     | missing =>
         {| g_missing := g_missing grouped ++ [v];
            g_hasDefault := g_hasDefault grouped;
            g_exists := g_exists grouped;
            g_frontmatterOnly := g_frontmatterOnly grouped |}
     | has_default =>
         {| g_missing := g_missing grouped;
            g_hasDefault := g_hasDefault grouped ++ [v];
            g_exists := g_exists grouped;
            g_frontmatterOnly := g_frontmatterOnly grouped |}
     | frontmatter_only =>
         {| g_missing := g_missing grouped;
            g_hasDefault := g_hasDefault grouped;
            g_exists := g_exists grouped;
            g_frontmatterOnly := g_frontmatterOnly grouped ++ [v] |}
     | exists_ =>
         {| g_missing := g_missing grouped;
            g_hasDefault := g_hasDefault grouped;
            g_exists := g_exists grouped ++ [v];
            g_frontmatterOnly := g_frontmatterOnly grouped |}
     end,
     seen).

(** [this.groupVariablesByStatus()] *)
Definition groupVariablesByStatus (variables : list Variable_) : Groups :=
  fst (fold_left group_step variables
         ({| g_missing := []; g_hasDefault := []; g_exists := [];
             g_frontmatterOnly := [] |}, [])).

End Modal.

(* ================================================================== *)
(** * [src/commands/replaceCommands.ts]: [replaceInDocument] *)

(** The text of the document once the edits of a list are applied, one
    after the other. *)
Definition apply_edits (text : string) (edits : list TextEdit) : string :=
  fold_left apply_edit edits text.

Section Commands.
Context {host : Host} {yaml : Yaml}.

(** [replaceInDocument()] with a markdown document in the active editor,
    for the text [content] that [editor.document.getText()] returns and
    the settings that [getSettings()] returns: the edits that the command
    makes, the positions [document.positionAt(n)] given as the offsets
    [n].  An exception is caught, and the command ends with no edit. *)
Definition replaceInDocument (content : string) (settings : PluginSettings)
           (patternCache : PatternCache)
  : outcome (list TextEdit) * PatternCache :=
  let frontmatter := parseFrontmatter content in
  let frontmatterEnd := findFrontmatterEnd content in
  let bodyPart := Str.slice_from frontmatterEnd content in
  let (replaced, patternCache) :=
    replaceVariables bodyPart frontmatter settings patternCache in
  (match replaced with
   | Ok r =>
       if (replacementCount r =? 0)%Z && (missingCount r =? 0)%Z
       then Ok []   (* nothing to replace *)
       else Ok [Replace frontmatterEnd (String.length content) (result r)]
   | Throw _ => Ok []   (* [catch (error)] *)
   | ProtoReplaced => ProtoReplaced
   | Diverges => Diverges
   end,
   patternCache).

End Commands.

(* ================================================================== *)
(** * An engine for the examples

    The methods of [Object.prototype] and [Array.prototype] of ECMAScript
    2023, and the conversions of the language on the values of the
    embedding.  The conversion of a string to a number is written out for
    strings of decimal digits and for the empty string. *)

Module ES.

Definition quote : string := String (ascii_of_nat 34) EmptyString.

Definition object_prototype : list string :=
  ["constructor"; "__defineGetter__"; "__defineSetter__"; "hasOwnProperty";
   "__lookupGetter__"; "__lookupSetter__"; "isPrototypeOf";
   "propertyIsEnumerable"; "toString"; "valueOf"; "toLocaleString"].

Definition array_prototype : list string :=
  ["at"; "concat"; "copyWithin"; "fill"; "find"; "findIndex"; "findLast";
   "findLastIndex"; "lastIndexOf"; "pop"; "push"; "reverse"; "shift";
   "unshift"; "slice"; "sort"; "splice"; "includes"; "indexOf"; "join";
   "keys"; "entries"; "values"; "forEach"; "filter"; "flat"; "flatMap";
   "map"; "every"; "some"; "reduce"; "reduceRight"; "toLocaleString";
   "toString"; "toReversed"; "toSorted"; "toSpliced"; "with";
   "constructor"].

(** [String(n)] for an integer *)
Definition Number_toString (n : Z) : string :=
  NilZero.string_of_int (Z.to_int n).

(** [String(v)] *)
Fixpoint String_of_value (v : value) : string :=
  match v with
  | VUndefined => "undefined"
  | VNull => "null"
  | VBool true => "true"
  | VBool false => "false"
  | VNum n => Number_toString n
  | VStr s => s
  | VArr elems _ =>
      (fix join (l : list value) : string :=
         match l with
         | [] => EmptyString
         | x :: rest =>
             match x with
             | VUndefined | VNull => EmptyString
             | _ => String_of_value x
             end
             +++ match rest with
                 | [] => EmptyString
                 | _ :: _ => "," +++ join rest
                 end
         end) elems
  | VObj _ => "[object Object]"
  end.

Definition String_of (v : looked) : string :=
  match v with
  | Data d => String_of_value d
  | Builtin name => "function " +++ name +++ "() { [native code] }"
  end.

(** [ToString(v)], as [Array.prototype.join] applies it to an element.
    An object is converted by its [toString] and then its [valueOf]: an
    own property [toString] is data and is passed over, and [valueOf],
    own or inherited, gives no primitive, which is a TypeError; without an
    own [toString] an object inherits [Object.prototype.toString] and an
    array [Array.prototype.toString], which joins the elements with a
    comma when [join] is the inherited method and is
    [Object.prototype.toString] when the array has an own [join]. *)
Fixpoint ToString (v : value) : outcome string :=
  match v with
  | VUndefined => Ok "undefined"
  | VNull => Ok "null"
  | VBool true => Ok "true"
  | VBool false => Ok "false"
  | VNum n => Ok (Number_toString n)
  | VStr s => Ok s
  | VArr elems named =>
      match assoc "toString" named with
      | Some _ => Throw TypeError
      | None =>
          match assoc "join" named with
          | Some _ => Ok "[object Array]"
          | None =>
              (fix join (l : list value) : outcome string :=
                 match l with
                 | [] => Ok EmptyString
                 | x :: rest =>
                     bind (match x with
                           | VUndefined | VNull => Ok EmptyString
                           | _ => ToString x
                           end)
                          (fun first =>
                             match rest with
                             | [] => Ok first
                             | _ :: _ =>
                                 bind (join rest)
                                      (fun others =>
                                         Ok (first +++ "," +++ others))
                             end)
                 end) elems
          end
      end
  | VObj props =>
      match assoc "toString" props with
      | Some _ => Throw TypeError
      | None => Ok "[object Object]"
      end
  end.

(** [Array.prototype.join] on the elements [elems] with the separator
    [sep]: [undefined] and [null] give the empty string, any other element
    its [ToString], from left to right. *)
Fixpoint Array_join (elems : list value) (sep : string)
  : outcome string :=
  match elems with
  | [] => Ok EmptyString
  | x :: rest =>
      bind (match x with
            | VUndefined | VNull => Ok EmptyString
            | _ => ToString x
            end)
           (fun first =>
              match rest with
              | [] => Ok first
              | _ :: _ =>
                  bind (Array_join rest sep)
                       (fun others => Ok (first +++ sep +++ others))
              end)
  end.

Definition hex_digit (n : nat) : ascii :=
  if n <? 10 then ascii_of_nat (48 + n) else ascii_of_nat (87 + n).

(** The escape of one code unit inside a JSON string. *)
Definition json_escape (c : ascii) : string :=
  let n := Chars.code c in
  if n =? 34 then "\" +++ quote
  else if n =? 92 then "\\"
  else if n =? 8 then "\b"
  else if n =? 12 then "\f"
  else if n =? 10 then "\n"
  else if n =? 13 then "\r"
  else if n =? 9 then "\t"
  else if n <? 32
       then "\u00" +++ String (hex_digit (n / 16))
                             (String (hex_digit (n mod 16)) EmptyString)
       else String c EmptyString.

Fixpoint json_chars (s : string) : string :=
  match s with
  | EmptyString => EmptyString
  | String c s' => json_escape c +++ json_chars s'
  end.

Definition json_string (s : string) : string :=
  quote +++ json_chars s +++ quote.

Fixpoint commas (l : list string) : string :=
  match l with
  | [] => EmptyString
  | [x] => x
  | x :: rest => x +++ "," +++ commas rest
  end.

(** The members of an object in the order of [Object.keys]. *)
Definition in_key_order (props : list (string * string))
  : list (string * string) :=
  flat_map (fun k => match find (fun kv => String.eqb (fst kv) k) props with
                     | Some kv => [kv]
                     | None => []
                     end)
           (ordered_keys (map fst props)).

(** [JSON.stringify(v)] of a tree; [None] is [undefined]. *)
Fixpoint json (v : value) : option string :=
  match v with
  | VUndefined => None
  | VNull => Some "null"
  | VBool true => Some "true"
  | VBool false => Some "false"
  | VNum n => Some (Number_toString n)
  | VStr s => Some (json_string s)
  | VArr elems _ =>
      Some ("[" +++ commas (map (fun x => match json x with
                                          | Some t => t
                                          | None => "null"
                                          end) elems) +++ "]")
  | VObj props =>
      Some ("{" +++ commas
             (map (fun kv => json_string (fst kv) +++ ":" +++ snd kv)
               (in_key_order
                 ((fix members (l : list (string * value))
                     : list (string * string) :=
                     match l with
                     | [] => []
                     | (k, x) :: rest =>
                         match json x with
                         | Some t => (k, t) :: members rest
                         | None => members rest
                         end
                     end) props)))
            +++ "}")
  end.

(** A tree is serialised without an exception; for [undefined], the text
    that the caller makes of the result. *)
Definition JSON_stringify (v : value) : option string :=
  match json v with
  | Some t => Some t
  | None => Some "undefined"
  end.

(** [ToNumber] of a string, where it is an array length. *)
Definition string_length_value (s : string) : option N :=
  let t := Str.trim s in
  if all_digits t && (parseInt t <=? max_array_length)%N
  then Some (parseInt t) else None.

(** The length that [a.length = v] sets. *)
Definition to_array_length (v : value) : option N :=
  match v with
  | VUndefined => None
  | VNull => Some 0%N
  | VBool b => Some (if b then 1%N else 0%N)
  | VNum n => if (0 <=? n)%Z && (n <=? Z.of_N max_array_length)%Z
              then Some (Z.to_N n) else None
  | VStr s => string_length_value s
  | VArr _ _ | VObj _ => string_length_value (String_of_value v)
  end.

Lemma prototype_names :
  forall k, mem k array_prototype || mem k object_prototype = true ->
            all_digits k = false.
Proof.
  intros k H. apply orb_prop in H. unfold mem in H.
  destruct H as [H | H]; apply existsb_exists in H;
    destruct H as [x [Hin Heq]]; apply String.eqb_eq in Heq; subst x;
    simpl in Hin;
    repeat (destruct Hin as [Hin | Hin]; [subst k; reflexivity | ]);
    contradiction.
Qed.

#[export] Instance es_host : Host := {|
  JS.object_prototype := object_prototype;
  JS.array_prototype := array_prototype;
  JS.String_of := String_of;
  JS.Array_join := Array_join;
  JS.JSON_stringify := JSON_stringify;
  JS.to_array_length := to_array_length;
  JS.prototype_names := prototype_names
|}.

End ES.

Unset Implicit Arguments.

(* ================================================================== *)
(** * Properties of the regular expressions *)

Module RegexFacts.
Import Regex.

Lemma append_nil_r (s : string) : s +++ EmptyString = s.
Proof. induction s as [| a s IH]; simpl; [reflexivity | now rewrite IH]. Qed.

Lemma append_assoc (a b c : string) : (a +++ b) +++ c = a +++ b +++ c.
Proof. induction a as [| x a IH]; simpl; [reflexivity | now rewrite IH]. Qed.

Lemma length_append (a b : string) :
  String.length (a +++ b) = String.length a + String.length b.
Proof. induction a as [| x a IH]; simpl; [reflexivity | now rewrite IH]. Qed.

Lemma strip_prefix_spec (p s s' : string) :
  Str.strip_prefix p s = Some s' -> s = p +++ s'.
Proof.
  revert s. induction p as [| a p IH]; intros s H; simpl in *.
  - now inversion H.
  - destruct s as [| b s]; [discriminate |].
    destruct (Ascii.eqb a b) eqn:E; [| discriminate].
    apply Ascii.eqb_eq in E. subst b. now rewrite (IH _ H).
Qed.

(** Every code unit of the string is in the class. *)
Fixpoint all_in (p : ascii -> bool) (s : string) : bool :=
  match s with
  | EmptyString => true
  | String a s' => p a && all_in p s'
  end.

Lemma all_in_append (p : ascii -> bool) (a b : string) :
  all_in p (a +++ b) = all_in p a && all_in p b.
Proof.
  induction a as [| x a IH]; simpl; [reflexivity |].
  now rewrite IH, andb_assoc.
Qed.

(** [derives r c x c']: the pattern [r] can match the text [x], taking the
    captures [c] to [c']. *)
Fixpoint derives (r : regex) (c : caps) (x : string) (c' : caps) : Prop :=
  match r with
  | Lit l => x = l /\ c' = c
  | Class p =>
      exists a, x = String a EmptyString /\ Chars.in_class p a = true
                /\ c' = c
  | Bol | Eol => x = EmptyString /\ c' = c
  | Seq r1 r2 =>
      exists x1 x2 c1,
        x = x1 +++ x2 /\ derives r1 c x1 c1 /\ derives r2 c1 x2 c'
  | Alt r1 r2 => derives r1 c x c' \/ derives r2 c x c'
  | Opt r1 => (x = EmptyString /\ c' = c) \/ derives r1 c x c'
  | Star p | LazyStar p => all_in (Chars.in_class p) x = true /\ c' = c
  | Plus p =>
      x <> EmptyString /\ all_in (Chars.in_class p) x = true /\ c' = c
  | Group n r1 => exists c1, derives r1 c x c1 /\ c' = set_cap n x c1
  end.

Section Sound.
Variable R : Type.
Variable n0 : nat.

Local Ltac split_here :=
  rewrite ?append_nil_r; simpl; repeat split; auto.

Lemma star_greedy_sound (p : ascii -> bool) (s acc : string) (c : caps)
      (k : cont R) (res : R) :
  star_greedy p s acc c k = Some res ->
  exists y s', s = y +++ s' /\ all_in p y = true
               /\ k (acc +++ y) s' c = Some res.
Proof.
  revert acc. induction s as [| a s IH]; intros acc H; simpl in H.
  - exists EmptyString, EmptyString. split_here.
  - destruct (p a) eqn:Hp.
    + unfold orelse in H.
      destruct (star_greedy p s (acc +++ String a EmptyString) c k)
        as [r |] eqn:E.
      * inversion H; subst r. destruct (IH _ E) as [y [s' [Hs [Hy Hk]]]].
        exists (String a y), s'. simpl. rewrite Hp, Hy, Hs.
        rewrite append_assoc in Hk. simpl in Hk. auto.
      * exists EmptyString, (String a s). split_here.
    + exists EmptyString, (String a s). split_here.
Qed.

Lemma star_lazy_sound (p : ascii -> bool) (s acc : string) (c : caps)
      (k : cont R) (res : R) :
  star_lazy p s acc c k = Some res ->
  exists y s', s = y +++ s' /\ all_in p y = true
               /\ k (acc +++ y) s' c = Some res.
Proof.
  revert acc. induction s as [| a s IH]; intros acc H; simpl in H;
    unfold orelse in H.
  - destruct (k acc EmptyString c) as [r |] eqn:E; [| discriminate].
    exists EmptyString, EmptyString.
    inversion H; subst. split_here.
  - destruct (k acc (String a s) c) as [r |] eqn:E.
    + exists EmptyString, (String a s).
      inversion H; subst. split_here.
    + destruct (p a) eqn:Hp; [| discriminate].
      destruct (IH _ H) as [y [s' [Hs [Hy Hk]]]].
      exists (String a y), s'. simpl. rewrite Hp, Hy, Hs.
      rewrite append_assoc in Hk. simpl in Hk. auto.
Qed.

(** A successful run has called its continuation on a split of the
    input whose first part the pattern derives. *)
Lemma run_sound (r : regex) :
  forall (s : string) (c : caps) (k : cont R) (res : R),
    run n0 r s c k = Some res ->
    exists x s' c',
      s = x +++ s' /\ derives r c x c' /\ k x s' c' = Some res.
Proof.
  induction r as [l | p | | | r1 IH1 r2 IH2 | r1 IH1 r2 IH2 | r1 IH1
                  | p | p | p | n r1 IH1];
    intros s c k res H; simpl in H.
  - destruct (Str.strip_prefix l s) as [s' |] eqn:E; [| discriminate].
    exists l, s', c. simpl. auto using strip_prefix_spec.
  - destruct s as [| a s]; [discriminate |].
    destruct (Chars.in_class p a) eqn:Hp; [| discriminate].
    exists (String a EmptyString), s, c. simpl. eauto 6.
  - destruct (String.length s =? n0); [| discriminate].
    exists EmptyString, s, c. simpl. auto.
  - destruct s; [| discriminate].
    exists EmptyString, EmptyString, c. simpl. auto.
  - destruct (IH1 _ _ _ _ H) as [x1 [s1 [c1 [Hs1 [Hd1 Hk1]]]]].
    destruct (IH2 _ _ _ _ Hk1) as [x2 [s2 [c2 [Hs2 [Hd2 Hk2]]]]].
    exists (x1 +++ x2), s2, c2. simpl. subst.
    rewrite append_assoc. eauto 8.
  - unfold orelse in H. destruct (run n0 r1 s c k) as [r |] eqn:E.
    + inversion H; subst r.
      destruct (IH1 _ _ _ _ E) as [x [s' [c' [Hs [Hd Hk]]]]].
      exists x, s', c'. simpl. auto.
    + destruct (IH2 _ _ _ _ H) as [x [s' [c' [Hs [Hd Hk]]]]].
      exists x, s', c'. simpl. auto.
  - unfold orelse in H.
    match type of H with
    | match ?e with _ => _ end = _ => destruct e as [r |] eqn:E
    end.
    + inversion H; subst r.
      destruct (IH1 _ _ _ _ E) as [x [s' [c' [Hs [Hd Hk]]]]].
      destruct (Str.is_empty x); [discriminate |].
      exists x, s', c'. simpl. auto.
    + exists EmptyString, s, c. simpl. auto.
  - destruct (star_greedy_sound _ _ _ _ _ _ H) as [y [s' [Hs [Hy Hk]]]].
    exists y, s', c. simpl. auto.
  - destruct s as [| a s]; [discriminate |].
    destruct (Chars.in_class p a) eqn:Hp; [| discriminate].
    destruct (star_greedy_sound _ _ _ _ _ _ H) as [y [s' [Hs [Hy Hk]]]].
    exists (String a y), s', c. simpl in *. rewrite Hp, Hy, Hs.
    repeat split; auto. discriminate.
  - destruct (star_lazy_sound _ _ _ _ _ _ H) as [y [s' [Hs [Hy Hk]]]].
    exists y, s', c. simpl. auto.
  - destruct (IH1 _ _ _ _ H) as [x [s' [c' [Hs [Hd Hk]]]]].
    exists x, s', (set_cap n x c'). simpl. eauto.
Qed.

End Sound.

(** What a successful attempt at a position returns. *)
Lemma match_here_sound (r : regex) (n0 : nat) (s : string) (idx : nat)
      (m : rmatch) :
  match_here r n0 s idx = Some m ->
  exists s' c',
    s = full m +++ s' /\ derives r no_caps (full m) c'
    /\ index m = idx /\ group1 m = cap1 c' /\ group2 m = cap2 c'.
Proof.
  unfold match_here. intros H. apply run_sound in H.
  destruct H as [x [s' [c' [Hs [Hd Hk]]]]].
  inversion Hk; subst m; simpl. eauto 8.
Qed.

End RegexFacts.

(* ================================================================== *)
(** * Properties of the placeholder pattern and of its cache *)

Module PatternFacts.
Import Regex RegexFacts.

(** The patterns that [getVariablePattern] builds. *)
Definition variable_shaped (r : regex) : Prop :=
  exists open close sep, r = RegExp_variable open close sep.

(** The cache holds nothing, or a pattern that [getVariablePattern] has
    built. *)
Definition cache_wf (patternCache : PatternCache) : Prop :=
  match patternCache with
  | None => True
  | Some entry => variable_shaped (pattern entry)
  end.

Lemma default_pattern_shaped : variable_shaped default_pattern.
Proof. exists "{{", "}}", ":". reflexivity. Qed.

Lemma compile_shaped (settings : PluginSettings) :
  variable_shaped (compile settings).
Proof. unfold compile, variable_shaped. eauto. Qed.

(** [getVariablePattern] returns such a pattern and keeps the cache
    well formed. *)
Lemma getVariablePattern_wf (settings : PluginSettings)
      (patternCache : PatternCache) :
  cache_wf patternCache ->
  variable_shaped (fst (getVariablePattern settings patternCache))
  /\ cache_wf (snd (getVariablePattern settings patternCache)).
Proof.
  intros Hwf. unfold getVariablePattern.
  destruct (_ || _ || _).
  - simpl. auto using default_pattern_shaped.
  - destruct patternCache as [entry |].
    + destruct (String.eqb (key entry) (cacheKey settings)); simpl;
        auto using compile_shaped.
    + simpl. auto using compile_shaped.
Qed.

(** The caches that the program reaches. *)
Inductive reachable : PatternCache -> Prop :=
| reach_initial : reachable None
| reach_invalidate (c : PatternCache) :
    reachable c -> reachable (invalidatePatternCache c)
| reach_get (settings : PluginSettings) (c : PatternCache) :
    reachable c -> reachable (snd (getVariablePattern settings c)).

Lemma reachable_wf (c : PatternCache) : reachable c -> cache_wf c.
Proof.
  induction 1 as [| c _ _ | settings c _ IH]; simpl; auto.
  now apply getVariablePattern_wf.
Qed.

Lemma nonempty_append_l (a b : string) :
  a <> EmptyString -> a +++ b <> EmptyString.
Proof. destruct a; [congruence | discriminate]. Qed.

Lemma nonempty_append_r (a b : string) :
  b <> EmptyString -> a +++ b <> EmptyString.
Proof. destruct a; simpl; [auto | discriminate]. Qed.

(** A match of such a pattern is not empty and has captured a name, made
    of the characters of names, in its first group. *)
Lemma variable_match (r : regex) (n0 : nat) (s : string) (idx : nat)
      (m : rmatch) :
  variable_shaped r ->
  match_here r n0 s idx = Some m ->
  full m <> EmptyString
  /\ exists varName,
      group1 m = Some varName /\ varName <> EmptyString
      /\ all_in Chars.is_name varName = true.
Proof.
  intros [open [close [sep Hr]]] H. subst r.
  apply match_here_sound in H.
  destruct H as [s' [c' [_ [Hd [_ [Hg1 _]]]]]].
  unfold RegExp_variable in Hd. simpl in Hd.
  destruct Hd as [x1 [x2 [c1 [Hx [[_ Hc1] Hd]]]]]. subst c1.
  destruct Hd as [x3 [x4 [c2 [Hx2 [[_ Hc2] Hd]]]]]. subst c2.
  destruct Hd as [x5 [x6 [c3 [Hx4 [[c4 [[Hne [Hall Hc4]] Hc3]] Hd]]]]].
  subst c4.
  destruct Hd as [x7 [x8 [c5 [Hx6 [[_ Hc5] Hd]]]]]. subst c5.
  destruct Hd as [x9 [x10 [c6 [Hx8 [Hopt Hd]]]]].
  destruct Hd as [x11 [x12 [c7 [Hx10 [[_ Hc7] [_ Hc']]]]]].
  assert (Hcap : cap1 c6 = Some x5).
  { destruct Hopt as [[_ Hc6] | Hopt].
    - subst c6 c3. reflexivity.
    - destruct Hopt as [y1 [y2 [d1 [_ [[_ Hd1] Hopt]]]]]. subst d1.
      destruct Hopt as [y3 [y4 [d2 [_ [[_ Hd2] Hopt]]]]]. subst d2.
      destruct Hopt as [d3 [[_ Hd3] Hc6]]. subst d3 c6 c3. reflexivity. }
  split.
  - rewrite Hx, Hx2, Hx4.
    apply nonempty_append_r, nonempty_append_r, nonempty_append_l.
    assumption.
  - exists x5. rewrite Hg1, Hc', Hc7, Hcap. auto.
Qed.

(** The matches that a scan collects are successful attempts. *)
Lemma match_all_from_In (r : regex) (n0 : nat) (s : string) :
  forall (idx skip : nat) (m : rmatch),
    In m (match_all_from r n0 s idx skip) ->
    exists s' idx', match_here r n0 s' idx' = Some m.
Proof.
  induction s as [| a s IH]; intros idx skip m Hin; simpl in Hin.
  - destruct skip; [| contradiction].
    destruct (match_here r n0 EmptyString idx) as [m0 |] eqn:E;
      [| contradiction].
    destruct Hin as [Hin | []]. subst m0. eauto.
  - destruct skip as [| k]; [| eauto].
    destruct (match_here r n0 (String a s) idx) as [m0 |] eqn:E.
    + destruct Hin as [Hin | Hin]; [subst m0 |]; eauto.
    + eauto.
Qed.

Lemma match_all_In (r : regex) (text : string) (m : rmatch) :
  In m (match_all r text) ->
  exists n0 s' idx', match_here r n0 s' idx' = Some m.
Proof.
  unfold match_all. intros H. apply match_all_from_In in H.
  destruct H as [s' [idx' H]]. eauto.
Qed.

End PatternFacts.

(* ================================================================== *)
(** * Properties of the substitution *)

Module ReplaceFacts.
Import Regex RegexFacts PatternFacts.

Local Open Scope Z_scope.

Section WithHost.
Context {host : Host}.
Variable resolve : string -> looked.
Variable settings : PluginSettings.

(** The placeholder is counted as replaced: its name resolves to a value
    that is present, or it carries a default value. *)
Definition replaced (m : rmatch) : bool :=
  match group1 m with
  | Some varName =>
      present (resolve (Str.trim varName))
      || match group2 m with Some _ => true | None => false end
  | None => false
  end.

Definition count (f : rmatch -> bool) (ms : list rmatch) : nat :=
  List.length (filter f ms).

Lemma count_split (f : rmatch -> bool) (ms : list rmatch) :
  (count f ms + count (fun m => negb (f m)) ms)%nat = List.length ms.
Proof.
  unfold count. induction ms as [| m ms IH]; simpl; [reflexivity |].
  destruct (f m); simpl; lia.
Qed.

(** One call of the callback on a match that has captured a name: when it
    returns, one of the counters has gone up by one, and the text returned
    for an absent value with a default is the default. *)
Lemma replacer_with_spec (counters : Counters) (m : rmatch)
      (varName : string) (rep : string) (counters' : Counters) :
  group1 m = Some varName ->
  replacer_with resolve settings counters m = Ok (rep, counters') ->
  counters' = (if replaced m
               then {| replacements := replacements counters + 1;
                       missings := missings counters |}
               else {| replacements := replacements counters;
                       missings := missings counters + 1 |})
  /\ (forall d, present (resolve (Str.trim varName)) = false ->
                group2 m = Some d -> rep = d).
Proof.
  intros Hg. unfold replacer_with, replaced. rewrite Hg.
  destruct (present (resolve (Str.trim varName))) eqn:Hp; simpl.
  - destruct (resolve (Str.trim varName)) as [[| | | | | elems named |] |];
      try (intros H; inversion H; subst; split;
           [reflexivity | intros; discriminate]).
    destruct (array_named elems named "join"); [discriminate |].
    destruct (Array_join _ _); simpl; try discriminate.
    intros H; inversion H; subst; split;
      [reflexivity | intros; discriminate].
  - destruct (group2 m) as [d |]; intros H; inversion H; subst;
      (split; [reflexivity | intros d' _ Hd; congruence]).
Qed.

(** The callback returns for a match whose name resolves to no array: it
    is the call of [join] on an array that may throw. *)
Lemma replacer_with_returns (counters : Counters) (m : rmatch)
      (varName : string) :
  group1 m = Some varName ->
  isArray (resolve (Str.trim varName)) = false ->
  exists rep counters',
    replacer_with resolve settings counters m = Ok (rep, counters').
Proof.
  intros Hg Harr. unfold replacer_with. rewrite Hg.
  destruct (present (resolve (Str.trim varName))).
  - destruct (resolve (Str.trim varName)) as [[| | | | | elems named |] |];
      try discriminate; eauto.
  - destruct (group2 m); eauto.
Qed.

(** For an absent value with a default the callback returns the default
    and counts a replacement. *)
Lemma replacer_with_default (counters : Counters) (m : rmatch)
      (varName d : string) :
  group1 m = Some varName ->
  present (resolve (Str.trim varName)) = false ->
  group2 m = Some d ->
  replacer_with resolve settings counters m
  = Ok (d, {| replacements := replacements counters + 1;
              missings := missings counters |}).
Proof.
  intros Hg Hp Hd. unfold replacer_with. now rewrite Hg, Hp, Hd.
Qed.

(** The calls of the callback over matches that have all captured a
    name, when they all return. *)
Lemma replace_calls_spec (ms : list rmatch) :
  (forall m, In m ms -> exists varName, group1 m = Some varName) ->
  forall counters reps counters',
    replace_calls resolve settings ms counters = Ok (reps, counters') ->
    map fst reps = ms
    /\ replacements counters'
       = replacements counters + Z.of_nat (count replaced ms)
    /\ missings counters'
       = missings counters
         + Z.of_nat (count (fun m => negb (replaced m)) ms)
    /\ (forall m rep varName d,
           In (m, rep) reps -> group1 m = Some varName ->
           present (resolve (Str.trim varName)) = false ->
           group2 m = Some d -> rep = d).
Proof.
  induction ms as [| m ms IH]; intros Hall counters reps counters' Hcalls.
  - cbn [replace_calls] in Hcalls. inversion Hcalls; subst.
    unfold count. simpl. repeat split; try lia;
      try (now intros ? ? ? ? []).
  - destruct (Hall m (or_introl eq_refl)) as [varName Hg].
    cbn [replace_calls] in Hcalls.
    destruct (replacer_with resolve settings counters m)
      as [[rep counters1] | | |] eqn:Hrep; try discriminate.
    cbn [bind] in Hcalls.
    destruct (replace_calls resolve settings ms counters1)
      as [[reps1 counters2] | | |] eqn:Hrest; try discriminate.
    cbn [bind] in Hcalls. inversion Hcalls; subst reps counters'.
    destruct (replacer_with_spec counters m varName rep counters1 Hg Hrep)
      as [Hc1 Hdef].
    destruct (IH (fun m' H => Hall m' (or_intror H)) counters1 reps1
                 counters2 Hrest)
      as [Hfst [Hr [Hm Hd]]].
    simpl. rewrite Hfst, Hr, Hm, Hc1. unfold count. simpl.
    destruct (replaced m); simpl; repeat split; try lia.
    + intros m' rep' v d [Heq | Hin] Hg' Hp Hd'.
      * inversion Heq; subst m' rep'. rewrite Hg in Hg'.
        inversion Hg'; subst v. eauto.
      * eauto.
    + intros m' rep' v d [Heq | Hin] Hg' Hp Hd'.
      * inversion Heq; subst m' rep'. rewrite Hg in Hg'.
        inversion Hg'; subst v. eauto.
      * eauto.
Qed.

(** The calls return when no name resolves to an array. *)
Lemma replace_calls_returns (ms : list rmatch) :
  (forall m, In m ms -> exists varName, group1 m = Some varName) ->
  (forall m varName,
      In m ms -> group1 m = Some varName ->
      isArray (resolve (Str.trim varName)) = false) ->
  forall counters,
  exists reps counters',
    replace_calls resolve settings ms counters = Ok (reps, counters').
Proof.
  induction ms as [| m ms IH]; intros Hall Harr counters.
  - exists [], counters. reflexivity.
  - destruct (Hall m (or_introl eq_refl)) as [varName Hg].
    destruct (replacer_with_returns counters m varName Hg
                (Harr m varName (or_introl eq_refl) Hg))
      as [rep [counters1 Hrep]].
    destruct (IH (fun m' H => Hall m' (or_intror H))
                 (fun m' v H => Harr m' v (or_intror H)) counters1)
      as [reps [counters' Hcalls]].
    exists ((m, rep) :: reps), counters'.
    cbn [replace_calls]. rewrite Hrep. cbn [bind]. rewrite Hcalls.
    reflexivity.
Qed.

Lemma variable_shaped_names (r : regex) (text : string) :
  variable_shaped r ->
  forall m, In m (match_all r text) ->
            exists varName, group1 m = Some varName.
Proof.
  intros Hshape m Hin. apply match_all_In in Hin.
  destruct Hin as [n0 [s' [idx' Hm]]].
  destruct (variable_match _ _ _ _ _ Hshape Hm) as [_ [v [Hv _]]].
  eauto.
Qed.

(** [text.replace(pattern, callback)] for a pattern that
    [getVariablePattern] has built, when it returns. *)
Lemma replace_with_spec (r : regex) (text : string)
      (res : ReplacementResult) :
  variable_shaped r ->
  replace_with resolve settings r text = Ok res ->
  exists reps,
    map fst reps = match_all r text
    /\ result res = splice text 0 reps
    /\ (forall m rep varName d,
           In (m, rep) reps -> group1 m = Some varName ->
           present (resolve (Str.trim varName)) = false ->
           group2 m = Some d -> rep = d)
    /\ replacementCount res
       = Z.of_nat (count replaced (match_all r text))
    /\ missingCount res
       = Z.of_nat (count (fun m => negb (replaced m)) (match_all r text)).
Proof.
  intros Hshape Hres. unfold replace_with in Hres.
  destruct (replace_calls resolve settings (match_all r text)
              {| replacements := 0; missings := 0 |})
    as [[reps counters'] | | |] eqn:Hcalls; try discriminate.
  cbn [bind] in Hres. inversion Hres; subst res. clear Hres.
  destruct (replace_calls_spec (match_all r text)
              (variable_shaped_names r text Hshape) _ _ _ Hcalls)
    as [Hfst [Hr [Hm Hd]]].
  exists reps. simpl. simpl in Hr, Hm. repeat split; auto.
Qed.

(** It returns when no placeholder of the text names an array. *)
Lemma replace_with_returns (r : regex) (text : string) :
  variable_shaped r ->
  (forall m varName,
      In m (match_all r text) -> group1 m = Some varName ->
      isArray (resolve (Str.trim varName)) = false) ->
  exists res, replace_with resolve settings r text = Ok res.
Proof.
  intros Hshape Harr. unfold replace_with.
  destruct (replace_calls_returns (match_all r text)
              (variable_shaped_names r text Hshape) Harr
              {| replacements := 0; missings := 0 |})
    as [reps [counters' Hcalls]].
  rewrite Hcalls. cbn [bind]. eauto.
Qed.

(** Without a match the text is returned as it is. *)
Lemma search_none_match_all (r : regex) (n0 : nat) (s : string) :
  forall idx, search r n0 s idx = None ->
              match_all_from r n0 s idx 0 = [].
Proof.
  induction s as [| a s IH]; intros idx H; simpl in *.
  - destruct (match_here r n0 EmptyString idx); [discriminate | auto].
  - destruct (match_here r n0 (String a s) idx); [discriminate | auto].
Qed.

Lemma replace_with_no_match (r : regex) (text : string) :
  search r (String.length text) text 0 = None ->
  replace_with resolve settings r text
  = Ok {| result := text; replacementCount := 0; missingCount := 0 |}.
Proof.
  intros H. unfold replace_with, match_all.
  rewrite (search_none_match_all _ _ _ _ H). reflexivity.
Qed.

End WithHost.

(** The call of [join] throws for an array with an element that has no
    conversion to a string, and for an array with an own property
    [join]. *)
Example join_throws :
  fst (replaceVariables (host := ES.es_host) "{{a}}"
         (VObj [("a", VArr [VObj [("toString", VNum 1)]] [])])
         DEFAULT_SETTINGS None)
  = Throw TypeError
  /\ fst (replaceVariables (host := ES.es_host) "{{a}}"
            (VObj [("a", VArr [VNum 1] [("join", VNum 1)])])
            DEFAULT_SETTINGS None)
     = Throw TypeError
  /\ fst (replaceVariables (host := ES.es_host) "{{a}}"
            (VObj [("a", VArr [VNum 1; VNull; VArr [VStr "x"; VStr "y"] []]
                             [])])
            DEFAULT_SETTINGS None)
     = Ok {| result := "1, , x,y";
             replacementCount := 1; missingCount := 0 |}.
Proof. repeat split; vm_compute; reflexivity. Qed.

End ReplaceFacts.

(* ================================================================== *)
(** * Properties of the scan *)

Module ScanFacts.
Import Regex RegexFacts PatternFacts.

Lemma bind_ext {A B : Type} (x : outcome A) (f g : A -> outcome B) :
  (forall a, f a = g a) -> bind x f = bind x g.
Proof. intros H. destruct x; simpl; auto. Qed.

(** The loop body run over a list of matches, from left to right. *)
Fixpoint fold_outcome {St : Type} (body : St -> rmatch -> outcome St)
         (ms : list rmatch) (st : St) : outcome St :=
  match ms with
  | [] => Ok st
  | m :: rest => bind (body st m) (fold_outcome body rest)
  end.

(** When no match of the pattern is empty, the [exec] loop ends, and it has
    run its body over the matches that a global scan collects. *)
Lemma exec_while_from_fold {St : Type} (body : St -> rmatch -> outcome St)
      (r : regex) (n0 : nat) :
  (forall s idx m, match_here r n0 s idx = Some m -> full m <> EmptyString) ->
  forall s idx skip st,
    exec_while_from body r n0 s idx skip st
    = fold_outcome body (match_all_from r n0 s idx skip) st.
Proof.
  intros Hne. induction s as [| a s IH]; intros idx skip st; simpl.
  - destruct skip; [| reflexivity].
    destruct (match_here r n0 EmptyString idx) as [m |] eqn:E;
      [| reflexivity].
    simpl. apply bind_ext. intros st'.
    specialize (Hne _ _ _ E). destruct (full m); [congruence | reflexivity].
  - destruct skip as [| k]; [| apply IH].
    destruct (match_here r n0 (String a s) idx) as [m |] eqn:E;
      [| apply IH].
    simpl. apply bind_ext. intros st'.
    specialize (Hne _ _ _ E). destruct (full m) as [| b x]; [congruence |].
    simpl. apply IH.
Qed.

Lemma exec_while_fold {St : Type} (body : St -> rmatch -> outcome St)
      (r : regex) (text : string) (st : St) :
  variable_shaped r ->
  exec_while body r text st = fold_outcome body (match_all r text) st.
Proof.
  intros Hshape. unfold exec_while, match_all.
  apply exec_while_from_fold.
  intros s idx m Hm. now destruct (variable_match _ _ _ _ _ Hshape Hm).
Qed.

Lemma mem_In (k : string) (l : list string) : mem k l = true <-> In k l.
Proof.
  unfold mem. rewrite existsb_exists. split.
  - intros [x [Hin Heq]]. apply String.eqb_eq in Heq. now subst x.
  - intros Hin. exists k. split; [assumption | apply String.eqb_refl].
Qed.

Lemma mem_not_In (k : string) (l : list string) :
  mem k l = false <-> ~ In k l.
Proof.
  rewrite <- mem_In. destruct (mem k l); split; congruence.
Qed.

(** The name under which a match is reported: [match[1].trim()]. *)
Definition name_of (m : rmatch) : string :=
  match group1 m with
  | Some g1 => Str.trim g1
  | None => EmptyString
  end.

Section WithHost.
Context {host : Host}.

Section Dedup.
Variable frontmatter : value.
Variable settings : PluginSettings.
Variable bodyPart : string.
Variable frontmatterLines : nat.

(** The record reported for a match. *)
Definition reported (m : rmatch) : Variable_ :=
  scanned_variable
    (fun varName =>
       getNestedValue frontmatter varName (caseInsensitive settings))
    bodyPart frontmatterLines m (name_of m).

(** The loop of the scanner of [variableReplacer.ts] over matches that have
    all captured a name: it reports the first match of every name. *)
Lemma scan_steps_spec (ms : list rmatch) :
  (forall m, In m ms -> exists g1, group1 m = Some g1) ->
  forall st,
  exists st' new,
    fold_outcome (scan_step frontmatter settings bodyPart frontmatterLines)
                 ms st = Ok st'
    /\ variables st' = variables st ++ new
    /\ seen st' = seen st ++ map name new
    /\ NoDup (map name new)
    /\ (forall v, In v new -> ~ In (name v) (seen st))
    /\ (forall m, In m ms -> In (name_of m) (seen st ++ map name new))
    /\ (forall v, In v new ->
          exists ms1 m ms2,
            ms = ms1 ++ m :: ms2 /\ v = reported m
            /\ forall m', In m' ms1 -> name_of m' <> name_of m).
Proof.
  induction ms as [| m ms IH]; intros Hall st.
  - exists st, []. simpl. rewrite !app_nil_r.
    repeat split; auto; try constructor; try contradiction.
  - destruct (Hall m (or_introl eq_refl)) as [g1 Hg].
    assert (Hname : name_of m = Str.trim g1) by (unfold name_of; now rewrite Hg).
    simpl. unfold scan_step at 1. rewrite Hg.
    destruct (mem (Str.trim g1) (seen st)) eqn:Hmem; simpl.
    + destruct (IH (fun m' H => Hall m' (or_intror H)) st)
        as [st' [new [Hfold [Hv [Hs [Hnd [Hfresh [Hcov Hfirst]]]]]]]].
      exists st', new. repeat split; auto.
      * intros m' [Heq | Hin]; [| auto]. subst m'. rewrite Hname.
        apply in_or_app. left. now apply mem_In.
      * intros v Hin. destruct (Hfirst v Hin) as [ms1 [m0 [ms2 [Hms [Hrep Hbefore]]]]].
        exists (m :: ms1), m0, ms2. subst ms. repeat split; auto.
        intros m' [Heq | Hin']; [| auto]. subst m'.
        intros Heq. apply (Hfresh v Hin). rewrite Hrep. simpl.
        rewrite <- Heq, Hname. now apply mem_In.
    + destruct (IH (fun m' H => Hall m' (or_intror H))
                   {| variables :=
                        variables st ++
                        [scanned_variable
                           (fun varName =>
                              getNestedValue frontmatter varName
                                             (caseInsensitive settings))
                           bodyPart frontmatterLines m (Str.trim g1)];
                      seen := seen st ++ [Str.trim g1] |})
        as [st' [new [Hfold [Hv [Hs [Hnd [Hfresh [Hcov Hfirst]]]]]]]].
      simpl in Hv, Hs, Hfresh, Hcov.
      assert (Hrep : name (reported m) = Str.trim g1)
        by (simpl; exact Hname).
      assert (Hrec :
                scanned_variable
                  (fun varName =>
                     getNestedValue frontmatter varName
                                    (caseInsensitive settings))
                  bodyPart frontmatterLines m (Str.trim g1) = reported m)
        by (unfold reported; now rewrite Hname).
      rewrite Hrec in Hv.
      rewrite <- app_assoc in Hv, Hs. simpl in Hv, Hs.
      exists st', (reported m :: new).
      cbn [map]. rewrite Hrep.
      repeat split; auto.
      * constructor; [| assumption].
        intros Hin. apply in_map_iff in Hin. destruct Hin as [v [Hnv Hin]].
        apply (Hfresh v Hin). rewrite Hnv. apply in_or_app. right. now left.
      * intros v [Heq | Hin].
        -- subst v. rewrite Hrep. now apply mem_not_In.
        -- intros Hseen. apply (Hfresh v Hin). apply in_or_app. now left.
      * intros m' [Heq | Hin].
        -- subst m'. rewrite Hname. apply in_or_app. right. now left.
        -- specialize (Hcov m' Hin). rewrite <- app_assoc in Hcov.
           exact Hcov.
      * intros v [Heq | Hin].
        -- exists [], m, ms. subst v.
           repeat split; auto.
        -- destruct (Hfirst v Hin) as [ms1 [m0 [ms2 [Hms [Hr Hbefore]]]]].
           exists (m :: ms1), m0, ms2. subst ms. repeat split; auto.
           intros m' [Heq | Hin']; [| auto]. subst m'.
           intros Heq. apply (Hfresh v Hin). rewrite Hr. simpl.
           rewrite <- Heq, Hname. apply in_or_app. right. now left.
Qed.

End Dedup.

(** The loop of the scanner of [main.js] reports every match. *)
Lemma obsidian_scan_steps_spec {yaml : Yaml} (settings : Obsidian.Settings)
      (frontmatter : value) (bodyPart : string) (frontmatterLines : nat)
      (ms : list rmatch) :
  (forall m, In m ms -> exists g1, group1 m = Some g1) ->
  forall st,
    fold_outcome
      (Obsidian.scan_step settings frontmatter bodyPart frontmatterLines)
      ms st
    = Ok {| variables :=
              variables st
              ++ map (fun m =>
                        scanned_variable
                          (Obsidian.getNestedValue settings frontmatter)
                          bodyPart frontmatterLines m (name_of m)) ms;
            seen := seen st ++ map name_of ms |}.
Proof.
  induction ms as [| m ms IH]; intros Hall st; simpl.
  - rewrite !app_nil_r. now destruct st.
  - destruct (Hall m (or_introl eq_refl)) as [g1 Hg].
    unfold Obsidian.scan_step at 1. rewrite Hg. simpl.
    rewrite (IH (fun m' H => Hall m' (or_intror H))). simpl.
    assert (Hname : name_of m = Str.trim g1)
      by (unfold name_of; now rewrite Hg).
    rewrite Hname. now rewrite <- !app_assoc.
Qed.

End WithHost.

End ScanFacts.

(* ================================================================== *)
(** * Properties of the path resolver *)

Module ResolverFacts.
Import Regex RegexFacts.

(** A segment of a path names a forbidden key: as it stands, or as the
    identifier of [identifier[index]]. *)
Definition forbidden_segment (key : string) : bool :=
  forbidden key
  || match arrayMatch key with
     | Some (propName, _) => forbidden propName
     | None => false
     end.

(** The path has such a segment. *)
Definition forbidden_path (path : string) : bool :=
  existsb forbidden_segment (Str.split "." path).

Fixpoint contains (c : ascii) (s : string) : bool :=
  match s with
  | EmptyString => false
  | String a s' => Ascii.eqb a c || contains c s'
  end.

Lemma contains_append (c : ascii) (a b : string) :
  contains c (a +++ b) = contains c a || contains c b.
Proof.
  induction a as [| x a IH]; simpl; [reflexivity |].
  now rewrite IH, orb_assoc.
Qed.

Definition bracket : ascii := "["%char.

Lemma contains_lower_bracket (s : string) :
  contains bracket s = true -> contains bracket (Str.toLowerCase s) = true.
Proof.
  induction s as [| a s IH]; simpl; [auto |].
  intros H. apply orb_prop in H. destruct H as [H | H].
  - apply Ascii.eqb_eq in H. subst a. reflexivity.
  - rewrite (IH H). apply orb_true_r.
Qed.

Lemma search_sound (r : regex) (n0 : nat) (s : string) :
  forall idx m,
    search r n0 s idx = Some m ->
    exists pre s' idx', s = pre +++ s' /\ match_here r n0 s' idx' = Some m.
Proof.
  induction s as [| a s IH]; intros idx m H; simpl in H.
  - destruct (match_here r n0 EmptyString idx) eqn:E; [| discriminate].
    exists EmptyString, EmptyString, idx. inversion H; subst. auto.
  - destruct (match_here r n0 (String a s) idx) eqn:E.
    + exists EmptyString, (String a s), idx. inversion H; subst. auto.
    + destruct (IH _ _ H) as [pre [s' [idx' [Hs Hm]]]].
      exists (String a pre), s', idx'. simpl. now rewrite Hs.
Qed.

(** A key that [/^(\w+)\[(\d+)\]$/] matches contains a bracket, and the
    identifier that the pattern captures is made of word characters. *)
Lemma arrayMatch_bracket (key propName : string) (index : N) :
  arrayMatch key = Some (propName, index) -> contains bracket key = true.
Proof.
  unfold arrayMatch, String_match. intros H.
  destruct (search array_segment (String.length key) key 0) as [m |] eqn:E;
    [| discriminate].
  apply search_sound in E. destruct E as [pre [s' [idx' [Hs Hm]]]].
  apply match_here_sound in Hm.
  destruct Hm as [s'' [c' [Hfull [Hd _]]]].
  unfold array_segment in Hd. simpl in Hd.
  destruct Hd as [x1 [x2 [c1 [Hx [_ Hd]]]]].
  destruct Hd as [x3 [x4 [c2 [Hx2 [_ Hd]]]]].
  destruct Hd as [x5 [x6 [c3 [Hx4 [[Hx5 _] _]]]]].
  rewrite Hs, Hfull, Hx, Hx2, Hx4, Hx5.
  rewrite !contains_append. simpl. rewrite !orb_true_r. reflexivity.
Qed.

Lemma forbidden_no_bracket (key : string) :
  forbidden key = true -> contains bracket key = false.
Proof.
  intros H. destruct (contains bracket key) eqn:E; [| reflexivity].
  apply contains_lower_bracket in E.
  unfold forbidden, mem in H. apply existsb_exists in H.
  destruct H as [x [Hin Heq]]. apply String.eqb_eq in Heq.
  rewrite Heq in E.
  simpl in Hin.
  repeat (destruct Hin as [Hin | Hin]; [subst x; discriminate |]).
  contradiction.
Qed.

(** A forbidden key is no [identifier[index]]. *)
Lemma forbidden_arrayMatch (key : string) :
  forbidden key = true -> arrayMatch key = None.
Proof.
  intros H. destruct (arrayMatch key) as [[propName index] |] eqn:E;
    [| reflexivity].
  apply arrayMatch_bracket in E.
  rewrite (forbidden_no_bracket _ H) in E. discriminate.
Qed.

Section WithHost.
Context {host : Host}.

Lemma findKey_forbidden (obj : looked) (key : string) (ci : bool) :
  forbidden key = true -> findKey obj key ci = None.
Proof.
  intros H. unfold findKey.
  destruct obj as [[| | | | | elems named | props] | name]; try reflexivity;
    now rewrite H.
Qed.

Lemma loop_undefined (keys : list string) (ci : bool) :
  getNestedValue_loop keys (Data VUndefined) ci = Data VUndefined.
Proof. destruct keys; reflexivity. Qed.

(** The loop over the segments of a path is the loop over its first
    segments followed by the loop over the others. *)
Lemma loop_app (pre rest : list string) (ci : bool) :
  forall value,
    getNestedValue_loop (pre ++ rest) value ci
    = getNestedValue_loop rest (getNestedValue_loop pre value ci) ci.
Proof.
  induction pre as [| key pre IH]; intros value; [reflexivity |].
  cbn [app getNestedValue_loop].
  destruct value as [[| | | | | elems named | props] | name];
    rewrite ?loop_undefined; try reflexivity;
    (destruct (arrayMatch key) as [[propName index] |];
     [ match goal with
       | |- context [found ?e] => destruct (found e) as [foundKey |]
       end;
       rewrite ?loop_undefined; try reflexivity;
       match goal with
       | |- context [get ?v ?k] =>
           destruct (get v k) as [[| | | | | elems' named' | props'] | name']
       end;
       rewrite ?loop_undefined; try reflexivity; apply IH
     | match goal with
       | |- context [found ?e] => destruct (found e) as [foundKey |]
       end;
       rewrite ?loop_undefined; try reflexivity; apply IH ]).
Qed.

(** A path with a forbidden segment resolves to [undefined], whatever the
    value that the loop starts from. *)
Lemma loop_forbidden (keys : list string) (ci : bool) :
  existsb forbidden_segment keys = true ->
  forall value, getNestedValue_loop keys value ci = Data VUndefined.
Proof.
  induction keys as [| key keys IH]; intros H value; [discriminate |].
  simpl in H. cbn [getNestedValue_loop].
  destruct (forbidden_segment key) eqn:Hseg.
  - clear IH H. unfold forbidden_segment in Hseg.
    destruct (forbidden key) eqn:Hkey.
    + rewrite (forbidden_arrayMatch _ Hkey).
      rewrite (findKey_forbidden _ _ _ Hkey). simpl.
      destruct value as [[| | | | | elems named | props] | name]; reflexivity.
    + simpl in Hseg.
      destruct (arrayMatch key) as [[propName index] |]; [| discriminate].
      rewrite (findKey_forbidden _ _ _ Hseg). simpl.
      destruct value as [[| | | | | elems named | props] | name]; reflexivity.
  - simpl in H. specialize (IH H).
    destruct value as [[| | | | | elems named | props] | name];
      try reflexivity;
      (destruct (arrayMatch key) as [[propName index] |];
       [ match goal with
         | |- context [found ?e] => destruct (found e) as [foundKey |]
         end;
         try reflexivity;
         match goal with
         | |- context [get ?v ?k] =>
             destruct (get v k) as [[| | | | | elems' named' | props'] | name']
         end;
         try reflexivity; apply IH
       | match goal with
         | |- context [found ?e] => destruct (found e) as [foundKey |]
         end;
         try reflexivity; apply IH ]).
Qed.

(** ** Structured data: no [undefined], no named property on an array *)

Fixpoint structured (v : value) : bool :=
  match v with
  | VUndefined => false
  | VNull | VBool _ | VNum _ | VStr _ => true
  | VArr elems named =>
      match named with
      | [] => forallb structured elems
      | _ :: _ => false
      end
  | VObj props =>
      (fix all (l : list (string * value)) : bool :=
         match l with
         | [] => true
         | (_, x) :: rest => structured x && all rest
         end) props
  end.

(** What a walk through structured data reaches. *)
Definition structured_or_absent (l : looked) : Prop :=
  match l with
  | Data VUndefined => True
  | Data v => structured v = true
  | Builtin _ => True
  end.

Lemma structured_data (v : value) :
  structured v = true -> structured_or_absent (Data v).
Proof. destruct v; simpl; auto. Qed.

Lemma assoc_structured (k : string) (props : list (string * value))
      (v : value) :
  structured (VObj props) = true -> assoc k props = Some v ->
  structured v = true.
Proof.
  induction props as [| [k' x] props IH]; simpl; intros Hs Ha;
    [discriminate |].
  apply andb_prop in Hs. destruct Hs as [Hx Hrest].
  destruct (String.eqb k' k).
  - inversion Ha; subst. assumption.
  - apply IH; assumption.
Qed.

Lemma nth_structured (elems : list value) (i : N) :
  forallb structured elems = true ->
  structured_or_absent (Data (nth_elem i elems)).
Proof.
  intros H. unfold nth_elem.
  destruct (nth_in_or_default (N.to_nat i) elems VUndefined) as [Hin | Hd].
  - apply structured_data. rewrite forallb_forall in H. now apply H.
  - rewrite Hd. exact I.
Qed.

Lemma get_property_structured (o : value) (k : string) :
  structured o = true -> structured_or_absent (get_property o k).
Proof.
  intros Hs. destruct o as [| | | | | elems named | props]; simpl; auto.
  - destruct named; [| discriminate]. simpl in Hs.
    destruct (array_index k); [now apply nth_structured |].
    unfold array_named. destruct (String.eqb k "length"); [reflexivity |].
    simpl. destruct (_ || _); exact I.
  - destruct (assoc k props) as [v |] eqn:E.
    + apply structured_data. eapply assoc_structured; eauto.
    + destruct (mem k object_prototype); exact I.
Qed.

Lemma get_structured (l : looked) (k : string) :
  structured_or_absent l -> structured_or_absent (get l k).
Proof.
  intros H. destruct l as [v | name]; [| exact I]. unfold get.
  destruct v; try exact I; apply get_property_structured; exact H.
Qed.

Lemma get_index_structured (elems : list value)
      (named : list (string * value)) (n : N) :
  structured (VArr elems named) = true ->
  structured_or_absent (get_index (VArr elems named) n).
Proof.
  intros Hs. simpl in Hs. destruct named; [| discriminate]. simpl.
  destruct (n <? max_array_length)%N; [now apply nth_structured |].
  unfold array_named. destruct (String.eqb _ "length"); [reflexivity |].
  simpl. destruct (_ || _); exact I.
Qed.

Lemma loop_structured (keys : list string) (ci : bool) :
  forall value,
    structured_or_absent value ->
    structured_or_absent (getNestedValue_loop keys value ci).
Proof.
  induction keys as [| key keys IH]; intros value Hs; [assumption |].
  cbn [getNestedValue_loop].
  destruct value as [[| | | | | elems named | props] | name];
    try exact I;
    (destruct (arrayMatch key) as [[propName index] |];
     [ match goal with
       | |- context [found ?e] => destruct (found e) as [foundKey |]
       end;
       try exact I;
       match goal with
       | |- context [get ?v ?k] =>
           pose proof (get_structured v k Hs) as Hg;
           destruct (get v k) as [[| | | | | elems' named' | props'] | name']
       end;
       try exact I; apply IH; now apply get_index_structured
     | match goal with
       | |- context [found ?e] => destruct (found e) as [foundKey |]
       end;
       try exact I; apply IH; now apply get_structured ]).
Qed.

Lemma all_digits_uint (d : Decimal.uint) :
  all_digits (NilEmpty.string_of_uint d) = true.
Proof. induction d; simpl; auto. Qed.

Lemma all_digits_decimal (n : N) : all_digits (decimal n) = true.
Proof.
  unfold decimal, NilZero.string_of_uint.
  destruct (N.to_uint n) eqn:E; try reflexivity;
    rewrite <- E; apply all_digits_uint.
Qed.

(** Beyond the elements of a sequence there is nothing to read. *)
Lemma get_index_out_of_bounds (elems : list value) (n : N) :
  (length_of elems <= n)%N ->
  get_index (VArr elems []) n = Data VUndefined.
Proof.
  intros Hlen. simpl.
  destruct (n <? max_array_length)%N.
  - unfold nth_elem. rewrite nth_overflow; [reflexivity |].
    unfold length_of in Hlen. lia.
  - unfold array_named.
    pose proof (all_digits_decimal n) as Hd.
    destruct (String.eqb (decimal n) "length") eqn:E.
    + apply String.eqb_eq in E. rewrite E in Hd. discriminate.
    + simpl. destruct (_ || _) eqn:Hm; [| reflexivity].
      apply prototype_names in Hm. congruence.
Qed.

(** The value that a segment [identifier[index]] resolves for its
    identifier, [before] being the value that the walk has reached. *)
Definition resolved (before : looked) (propName : string) (ci : bool)
  : looked :=
  match found (findKey before propName ci) with
  | Some foundKey => get before foundKey
  | None => Data VUndefined
  end.

Lemma loop_not_sequence (seg : string) (post : list string)
      (propName : string) (index : N) (before : looked) (ci : bool) :
  arrayMatch seg = Some (propName, index) ->
  structured_or_absent before ->
  (isArray (resolved before propName ci) = false
   \/ exists elems named,
        resolved before propName ci = Data (VArr elems named)
        /\ (length_of elems <= index)%N) ->
  getNestedValue_loop (seg :: post) before ci = Data VUndefined.
Proof.
  intros Hseg Hs Hcase. cbn [getNestedValue_loop]. rewrite Hseg.
  unfold resolved in Hcase.
  destruct before as [[| | | | | elems0 named0 | props0] | name0];
    try reflexivity;
    (destruct (found _) as [foundKey |]; [| reflexivity]);
    match goal with
    | |- context [get ?v ?k] =>
        pose proof (get_structured v k Hs) as Hg;
        destruct (get v k) as [[| | | | | elems' named' | props'] | name']
    end;
    try reflexivity;
    (destruct Hcase as [Harr | [elems [named [Heq Hlen]]]];
     [ discriminate
     | inversion Heq; subst elems named;
       simpl in Hg; destruct named'; [| discriminate];
       rewrite (get_index_out_of_bounds _ _ Hlen);
       apply loop_undefined ]).
Qed.

End WithHost.

End ResolverFacts.

(* ================================================================== *)
(** * Properties of the path mutator *)

Module MutatorFacts.
Import ResolverFacts ScanFacts.

(** The code ends with a result or with an exception: it terminates, and it
    has replaced no prototype. *)
Definition proper {A : Type} (x : outcome A) : Prop :=
  match x with
  | Ok _ | Throw _ => True
  | ProtoReplaced | Diverges => False
  end.

Lemma bind_proper {A B : Type} (x : outcome A) (f : A -> outcome B) :
  proper x -> (forall a, proper (f a)) -> proper (bind x f).
Proof. destruct x; simpl; auto. Qed.

Lemma bind_ret {A : Type} (x : outcome A) : bind x (fun a => Ok a) = x.
Proof. destruct x; reflexivity. Qed.

(** The segment is [identifier[index]] with an index above the bound. *)
Definition oversized (key : string) : bool :=
  match arrayMatch key with
  | Some (_, index) => (MAX_ARRAY_INDEX <? index)%N
  | None => false
  end.

Lemma forbidden_proto (key : string) :
  forbidden key = false -> String.eqb key "__proto__" = false.
Proof.
  intros H. destruct (String.eqb key "__proto__") eqn:E; [| reflexivity].
  apply String.eqb_eq in E. subst key. discriminate.
Qed.

Section WithHost.
Context {host : Host}.

Lemma has_property_proper (o : value) (k : string) :
  proper (has_property o k).
Proof. destruct o; exact I. Qed.

Lemma set_property_proper (o : value) (key : string) (v : value) :
  forbidden key = false -> proper (set_property o key v).
Proof.
  intros H. apply forbidden_proto in H.
  destruct o as [| | | | | elems named | props]; simpl; try exact I.
  - destruct (array_index key); [exact I |].
    destruct (String.eqb key "length").
    + destruct (to_array_length v); exact I.
    + rewrite H. exact I.
  - rewrite H. exact I.
Qed.

Lemma ensure_array_proper (current : value) (propName : string) :
  forbidden propName = false -> proper (ensure_array current propName).
Proof.
  intros H. unfold ensure_array.
  apply bind_proper; [apply has_property_proper |].
  intros has. destruct (_ || _); [now apply set_property_proper | exact I].
Qed.

Lemma grow_proper (elems : list value) (named : list (string * value))
      (index : N) (filler : value) :
  proper (grow elems named index filler).
Proof.
  unfold grow. destruct (_ <? _)%N; [exact I |].
  destruct (array_named elems named "push"); exact I.
Qed.

Lemma final_step_proper (finalKey : string) (current value : value) :
  proper (final_step finalKey current value).
Proof.
  unfold final_step.
  destruct (forbidden finalKey) eqn:Hk; [exact I |].
  destruct (arrayMatch finalKey) as [[propName index] |].
  - destruct (forbidden propName) eqn:Hp; [exact I |].
    apply bind_proper; [now apply ensure_array_proper |].
    intros cur. destruct (_ <? _)%N; [exact I |].
    destruct (get_property cur propName) as [[| | | | | e n | p] | b];
      try exact I.
    apply bind_proper; [apply grow_proper | intros; exact I].
  - now apply set_property_proper.
Qed.

Lemma intermediate_step_proper (key : string) (current : value)
      (descend : value -> outcome value) :
  (forall child, proper (descend child)) ->
  proper (intermediate_step key current descend).
Proof.
  intros Hd. unfold intermediate_step.
  destruct (forbidden key) eqn:Hk; [exact I |].
  destruct (arrayMatch key) as [[propName index] |].
  - destruct (forbidden propName) eqn:Hp; [exact I |].
    apply bind_proper; [now apply ensure_array_proper |].
    intros cur. destruct (_ <? _)%N; [exact I |].
    destruct (get_property cur propName) as [[| | | | | e n | p] | b];
      try exact I.
    apply bind_proper; [apply grow_proper | intros elems].
    apply bind_proper; [apply Hd | intros; exact I].
  - apply bind_proper; [apply has_property_proper |]. intros has.
    apply bind_proper.
    + destruct (negb has); [now apply set_property_proper |].
      destruct (_ || _); [now apply set_property_proper | exact I].
    + intros cur. destruct (get_property cur key); [| exact I].
      apply bind_proper; [apply Hd | intros; exact I].
Qed.

(** [setNestedValue] ends, and never reaches the prototype of an object. *)
Lemma setNestedValue_loop_proper (keys : list string) :
  forall current value, proper (setNestedValue_loop keys current value).
Proof.
  induction keys as [| key rest IH]; intros current value; [exact I |].
  destruct rest as [| key' rest'].
  - apply final_step_proper.
  - apply intermediate_step_proper. intros child. apply IH.
Qed.

Lemma intermediate_step_ext (key : string) (current : value)
      (d1 d2 : value -> outcome value) :
  (forall child, d1 child = d2 child) ->
  intermediate_step key current d1 = intermediate_step key current d2.
Proof.
  intros Hd. unfold intermediate_step.
  destruct (forbidden key); [reflexivity |].
  destruct (arrayMatch key) as [[propName index] |].
  - destruct (forbidden propName); [reflexivity |].
    apply bind_ext. intros cur. destruct (_ <? _)%N; [reflexivity |].
    destruct (get_property cur propName) as [[| | | | | e n | p] | b];
      try reflexivity.
    apply bind_ext. intros elems. now rewrite Hd.
  - apply bind_ext. intros has. apply bind_ext. intros cur.
    destruct (get_property cur key); [| reflexivity]. now rewrite Hd.
Qed.

Lemma setNestedValue_loop_cons (key : string) (rest : list string)
      (current value : value) :
  rest <> [] ->
  setNestedValue_loop (key :: rest) current value
  = intermediate_step key current
      (fun child => setNestedValue_loop rest child value).
Proof. destruct rest; [congruence | reflexivity]. Qed.

(** What [setNestedValue] does at a segment that is forbidden or
    oversized: it returns, after the statement that makes the identifier
    hold an array when the segment is [identifier[index]]. *)
Definition stop_effect (seg : string) (current : value) : outcome value :=
  if forbidden seg then Ok current
  else
    match arrayMatch seg with
    | Some (propName, _) =>
        if forbidden propName then Ok current
        else ensure_array current propName
    | None => Ok current
    end.

Lemma final_step_stop (seg : string) (current value : value) :
  forbidden_segment seg || oversized seg = true ->
  final_step seg current value = stop_effect seg current.
Proof.
  unfold forbidden_segment, oversized, final_step, stop_effect.
  intros H. destruct (forbidden seg); [reflexivity |].
  destruct (arrayMatch seg) as [[propName index] |]; [| discriminate].
  destruct (forbidden propName); [reflexivity |]. simpl in H.
  rewrite H. apply bind_ret.
Qed.

Lemma intermediate_step_stop (seg : string) (current : value)
      (descend : value -> outcome value) :
  forbidden_segment seg || oversized seg = true ->
  intermediate_step seg current descend = stop_effect seg current.
Proof.
  unfold forbidden_segment, oversized, intermediate_step, stop_effect.
  intros H. destruct (forbidden seg); [reflexivity |].
  destruct (arrayMatch seg) as [[propName index] |]; [| discriminate].
  destruct (forbidden propName); [reflexivity |]. simpl in H.
  rewrite H. apply bind_ret.
Qed.

Lemma setNestedValue_loop_stop (seg : string) (post : list string)
      (current value : value) :
  forbidden_segment seg || oversized seg = true ->
  setNestedValue_loop (seg :: post) current value = stop_effect seg current.
Proof.
  intros H. destruct post.
  - now apply final_step_stop.
  - now apply intermediate_step_stop.
Qed.

(** At a segment that is forbidden or oversized [setNestedValue] returns:
    the segments after it and the value play no part. *)
Lemma setNestedValue_loop_truncate (seg : string) (post : list string)
      (value value' : value) :
  forbidden_segment seg || oversized seg = true ->
  forall pre current,
    setNestedValue_loop (pre ++ seg :: post) current value
    = setNestedValue_loop (pre ++ [seg]) current value'.
Proof.
  intros H. induction pre as [| key pre IH]; intros current.
  - simpl app. now rewrite !setNestedValue_loop_stop.
  - simpl app.
    rewrite !setNestedValue_loop_cons by (destruct pre; discriminate).
    apply intermediate_step_ext. intros child. apply IH.
Qed.




End WithHost.

End MutatorFacts.

(* ================================================================== *)
(** * Properties of the frontmatter codec

    What [parseFrontmatter] reads in the block that [updateFrontmatter]
    writes, [---], the dump and [---]: the text passed to [yaml.load] is the
    dump without its last line break, provided the dump has no line break
    followed by [---] before its end. *)

Module CodecFacts.
Import Regex RegexFacts.

(** The text opens with the closing marker [\r?\n---]. *)
Definition closes (rest : string) : bool :=
  Str.startsWith rest (Str.lf +++ "---")
  || Str.startsWith rest (Str.cr +++ Str.lf +++ "---").

(** What follows the content in the block. *)
Definition closing : string := Str.lf +++ "---" +++ Str.lf.

(** No suffix of the content, the empty one apart, opens with the closing
    marker when the end of the block follows it. *)
Fixpoint no_early_close (content : string) : bool :=
  match content with
  | EmptyString => true
  | String _ rest =>
      negb (closes (content +++ closing)) && no_early_close rest
  end.

Lemma star_lazy_unfold {R : Type} (p : ascii -> bool) (s acc : string)
      (c : caps) (k : cont R) :
  star_lazy p s acc c k
  = orelse (k acc s c)
           (fun _ =>
              match s with
              | String a s' =>
                  if p a
                  then star_lazy p s' (acc +++ String a EmptyString) c k
                  else None
              | EmptyString => None
              end).
Proof. destruct s; reflexivity. Qed.

(** A lazy [[\s\S]*?] stops at the first split of the input at which its
    continuation succeeds. *)
Lemma star_lazy_first {R : Type} (k : cont R) (c : caps) (post : string)
      (res : R) :
  forall pre acc,
    (forall y1 y2, pre = y1 +++ y2 -> y2 <> EmptyString ->
                   k (acc +++ y1) (y2 +++ post) c = None) ->
    k (acc +++ pre) post c = Some res ->
    star_lazy (Chars.in_class Chars.Any) (pre +++ post) acc c k = Some res.
Proof.
  induction pre as [| a pre IH]; intros acc Hearly Hk.
  - rewrite star_lazy_unfold. rewrite append_nil_r in Hk. simpl.
    now rewrite Hk.
  - rewrite star_lazy_unfold.
    assert (H0 : k acc (String a pre +++ post) c = None).
    { rewrite <- (append_nil_r acc) at 1.
      apply Hearly; [reflexivity | discriminate]. }
    rewrite H0. simpl. apply IH.
    + intros y1 y2 Hpre Hy2. rewrite append_assoc. simpl.
      apply Hearly; [now rewrite Hpre | assumption].
    + now rewrite append_assoc.
Qed.

Lemma strip_prefix_append (a b s : string) :
  Str.strip_prefix (a +++ b) s
  = match Str.strip_prefix a s with
    | Some r => Str.strip_prefix b r
    | None => None
    end.
Proof.
  revert s. induction a as [| x a IH]; intros s; simpl; [reflexivity |].
  destruct s as [| y s]; [reflexivity |].
  destruct (Ascii.eqb x y); [apply IH | reflexivity].
Qed.

(** Where the text does not open with the closing marker, [\r?\n---]
    fails. *)
Lemma run_closing_none {R : Type} (n0 : nat) (rest : string) (c : caps)
      (k : cont R) :
  closes rest = false ->
  run n0 (Seq newline (Lit "---")) rest c k = None.
Proof.
  unfold closes, Str.startsWith. intros H.
  apply orb_false_elim in H. destruct H as [Hlf Hcr].
  rewrite strip_prefix_append in Hlf, Hcr.
  unfold newline. cbn [run]. unfold orelse.
  change (Str.is_empty Str.cr) with false. cbv iota.
  destruct (Str.strip_prefix Str.cr rest) as [r1 |] eqn:E1.
  - rewrite strip_prefix_append in Hcr.
    destruct (Str.strip_prefix Str.lf r1) as [r2 |] eqn:E2.
    + destruct (Str.strip_prefix "---" r2); [discriminate |].
      destruct (Str.strip_prefix Str.lf rest) as [r3 |]; [| reflexivity].
      destruct (Str.strip_prefix "---" r3); [discriminate | reflexivity].
    + destruct (Str.strip_prefix Str.lf rest) as [r3 |]; [| reflexivity].
      destruct (Str.strip_prefix "---" r3); [discriminate | reflexivity].
  - destruct (Str.strip_prefix Str.lf rest) as [r3 |]; [| reflexivity].
    destruct (Str.strip_prefix "---" r3); [discriminate | reflexivity].
Qed.

Lemma no_early_close_split (content : string) :
  no_early_close content = true ->
  forall y1 y2, content = y1 +++ y2 -> y2 <> EmptyString ->
                closes (y2 +++ closing) = false.
Proof.
  induction content as [| a content IH]; intros H y1 y2 Hsplit Hy2.
  - destruct y1; [| discriminate]. simpl in Hsplit. congruence.
  - simpl in H. apply andb_prop in H. destruct H as [Hhere Hrest].
    destruct y1 as [| b y1].
    + simpl in Hsplit. subst y2. now apply negb_true_iff in Hhere.
    + inversion Hsplit; subst. eapply IH; eauto.
Qed.

(** A pattern anchored at the start does not match further on. *)
Lemma match_here_bol_none (r : regex) (n0 : nat) (s : string) (idx : nat) :
  String.length s <> n0 -> match_here (Seq Bol r) n0 s idx = None.
Proof.
  intros H. unfold match_here. cbn [run].
  destruct (Nat.eqb_spec (String.length s) n0); [contradiction | reflexivity].
Qed.

Lemma search_bol_none (r : regex) (n0 : nat) (s : string) :
  forall idx, String.length s < n0 -> search (Seq Bol r) n0 s idx = None.
Proof.
  induction s as [| a s IH]; intros idx Hlen; cbn [search];
    rewrite match_here_bol_none by lia; [reflexivity |].
  apply IH. simpl in Hlen. lia.
Qed.

Lemma String_match_bol (r : regex) (text : string) :
  String_match (Seq Bol r) text
  = match_here (Seq Bol r) (String.length text) text 0.
Proof.
  unfold String_match. destruct text as [| a text]; cbn [search].
  - now destruct (match_here _ _ _ _).
  - destruct (match_here _ _ _ _); [reflexivity |].
    apply search_bol_none. simpl. lia.
Qed.

Lemma strip_marker_none (content rest : string) :
  Str.startsWith content "---" = false ->
  Str.strip_prefix "---" (content +++ String Str.LF rest) = None.
Proof.
  unfold Str.startsWith.
  destruct content as [| a [| b [| c content]]];
    cbn [Str.strip_prefix String.append]; intros H.
  - reflexivity.
  - destruct (Ascii.eqb "-" a); reflexivity.
  - destruct (Ascii.eqb "-" a); [| reflexivity].
    destruct (Ascii.eqb "-" b); reflexivity.
  - destruct (Ascii.eqb "-" a); [| reflexivity].
    destruct (Ascii.eqb "-" b); [| reflexivity].
    destruct (Ascii.eqb "-" c); [discriminate | reflexivity].
Qed.

Lemma strip_prefix_self (p s : string) :
  Str.strip_prefix p (p +++ s) = Some s.
Proof.
  induction p as [| a p IH]; simpl; [reflexivity |].
  now rewrite Ascii.eqb_refl.
Qed.

Lemma strip_cr_lf (s : string) :
  Str.strip_prefix Str.cr (Str.lf +++ s) = None.
Proof. reflexivity. Qed.

Section Runs.
Variable R : Type.
Variable n0 : nat.

Lemma run_Seq (r1 r2 : regex) (s : string) (c : caps) (k : cont R) :
  run n0 (Seq r1 r2) s c k
  = run n0 r1 s c (fun x1 s1 c1 =>
    run n0 r2 s1 c1 (fun x2 s2 c2 => k (x1 +++ x2) s2 c2)).
Proof. reflexivity. Qed.

Lemma run_Lit_self (l s : string) (c : caps) (k : cont R) :
  run n0 (Lit l) (l +++ s) c k = k l s c.
Proof. cbn [run]. now rewrite strip_prefix_self. Qed.

Lemma run_Lit_none (l s : string) (c : caps) (k : cont R) :
  Str.strip_prefix l s = None -> run n0 (Lit l) s c k = None.
Proof. intros H. cbn [run]. now rewrite H. Qed.

Lemma run_Bol_start (s : string) (c : caps) (k : cont R) :
  String.length s = n0 -> run n0 Bol s c k = k EmptyString s c.
Proof. intros H. cbn [run]. subst n0. now rewrite Nat.eqb_refl. Qed.

Lemma run_Group (n : nat) (r1 : regex) (s : string) (c : caps)
      (k : cont R) :
  run n0 (Group n r1) s c k
  = run n0 r1 s c (fun x s' c' => k x s' (set_cap n x c')).
Proof. reflexivity. Qed.

Lemma run_LazyStar (p : Chars.charclass) (s : string) (c : caps)
      (k : cont R) :
  run n0 (LazyStar p) s c k
  = star_lazy (Chars.in_class p) s EmptyString c k.
Proof. reflexivity. Qed.

(** [\r?\n] before a line feed takes the line feed. *)
Lemma run_newline_lf (s : string) (c : caps) (k : cont R) :
  run n0 newline (Str.lf +++ s) c k = k Str.lf s c.
Proof.
  unfold newline. rewrite run_Seq. cbn [run].
  rewrite strip_cr_lf. unfold orelse. now rewrite strip_prefix_self.
Qed.

End Runs.

Section WithYaml.
Context {yaml : Yaml}.

(** [yaml.load(content) || {}], [{}] when the load throws. *)
Definition loaded (content : string) : value :=
  match yaml_load content with
  | Ok v => if truthy v then v else VObj []
  | _ => VObj []
  end.

(** The block [---], content, [---] parses to what the YAML library loads
    from the content. *)
Lemma parseFrontmatter_block (content : string) :
  Str.startsWith content "---" = false ->
  no_early_close content = true ->
  parseFrontmatter ("---" +++ Str.lf +++ content +++ closing)
  = loaded content.
Proof.
  intros Hstart Hclose. unfold parseFrontmatter.
  set (text := "---" +++ Str.lf +++ content +++ closing).
  assert (Hs : Str.startsWith text "---" = true).
  { unfold Str.startsWith, text. now rewrite strip_prefix_self. }
  rewrite Hs. cbn [negb].
  unfold empty_frontmatter, frontmatter_block.
  rewrite !String_match_bol.
  remember (String.length text) as n0 eqn:Hn0. symmetry in Hn0.
  assert (Hempty :
            match_here
              (Seq Bol
                 (Seq (Lit "---")
                    (Seq newline (Seq (Lit "---") (Alt newline Eol)))))
              n0 text 0 = None).
  { unfold match_here.
    rewrite run_Seq, run_Bol_start by exact Hn0.
    unfold text. rewrite run_Seq, run_Lit_self.
    rewrite run_Seq, run_newline_lf. rewrite run_Seq.
    apply run_Lit_none. unfold closing, Str.lf. cbn [String.append].
    now apply strip_marker_none. }
  rewrite Hempty.
  assert (Hblock :
            match_here
              (Seq Bol
                 (Seq (Lit "---")
                    (Seq newline
                       (Seq (Group 1 (LazyStar Chars.Any))
                          (Seq newline (Lit "---"))))))
              n0 text 0
            = Some (Match 0 ("---" +++ Str.lf +++ content +++ Str.lf +++ "---")
                          (Some content) None)).
  { unfold match_here.
    rewrite run_Seq, run_Bol_start by exact Hn0.
    unfold text. rewrite run_Seq, run_Lit_self.
    rewrite run_Seq, run_newline_lf. rewrite run_Seq.
    rewrite run_Group, run_LazyStar.
    apply star_lazy_first.
    - intros y1 y2 Hsplit Hy2. cbv beta.
      apply run_closing_none.
      exact (no_early_close_split _ Hclose _ _ Hsplit Hy2).
    - cbv beta. unfold closing.
      rewrite run_Seq, run_newline_lf, run_Lit_self.
      cbn [String.append set_cap no_caps cap1 cap2]. reflexivity. }
  rewrite Hblock. reflexivity.
Qed.

(** The round trip through the block, given a YAML library whose dump ends
    with a line break, has no [---] after a line break, and is loaded back
    to the data. *)
Lemma parse_newFmBlock (d : value) (content : string) :
  yaml_dump d = Ok (content +++ Str.lf) ->
  Str.startsWith content "---" = false ->
  no_early_close content = true ->
  yaml_load content = Ok d ->
  truthy d = true ->
  exists block, newFmBlock d = Ok block /\ parseFrontmatter block = d.
Proof.
  intros Hdump Hstart Hclose Hload Htruthy.
  exists ("---" +++ Str.lf +++ content +++ closing). split.
  - unfold newFmBlock. rewrite Hdump. simpl. unfold closing.
    now rewrite !append_assoc.
  - rewrite (parseFrontmatter_block _ Hstart Hclose).
    unfold loaded. now rewrite Hload, Htruthy.
Qed.

End WithYaml.

(** A YAML library that knows one document. *)
Definition sample_yaml : Yaml := {|
  yaml_load := fun text =>
    if String.eqb text "a: 1" then Ok (VObj [("a", VNum 1)])
    else Throw TypeError;
  yaml_dump := fun _ => Ok ("a: 1" +++ Str.lf)
|}.

Example parse_newFmBlock_sample :
  exists block,
    newFmBlock (yaml := sample_yaml) (VObj [("a", VNum 1)]) = Ok block
    /\ parseFrontmatter (yaml := sample_yaml) block = VObj [("a", VNum 1)].
Proof.
  apply (parse_newFmBlock (yaml := sample_yaml) (VObj [("a", VNum 1)])
                          "a: 1"); reflexivity.
Qed.

End CodecFacts.

(* ================================================================== *)
(** * The claims of the specification *)

Import Regex RegexFacts PatternFacts ReplaceFacts ScanFacts ResolverFacts
       MutatorFacts.

(** The YAML library of the examples that reach none. *)
#[export] Instance no_yaml : Yaml := {|
  yaml_load := fun _ => Throw TypeError;
  yaml_dump := fun _ => Throw TypeError
|}.

Lemma split_decompose (keys : list string) (f : string -> bool) :
  existsb f keys = true ->
  exists pre seg post, keys = pre ++ seg :: post /\ f seg = true.
Proof.
  intros H. apply existsb_exists in H. destruct H as [seg [Hin Hf]].
  apply in_split in Hin. destruct Hin as [pre [post Hk]]. eauto.
Qed.

Lemma stop_effect_forbidden {host : Host} (seg : string) (current : value) :
  forbidden_segment seg = true -> stop_effect seg current = Ok current.
Proof.
  unfold forbidden_segment, stop_effect. intros H.
  destruct (forbidden seg); [reflexivity |].
  destruct (arrayMatch seg) as [[propName index] |]; [| reflexivity].
  simpl in H. now rewrite H.
Qed.

(** C1, as the specification states it, fails: a forbidden segment that is
    not the first one stops [setNestedValue] after the segments before it
    have been walked, and these have created their nodes.  With the root
    [{}] and the path [a.__proto__] the root becomes [{a: {}}]. *)
Lemma C1_counterexample :
  forbidden_path "a.__proto__" = true
  /\ setNestedValue (host := ES.es_host) (VObj []) "a.__proto__" (VStr "v")
     = Ok (VObj [("a", VObj [])])
  /\ setNestedValue (host := ES.es_host) (VObj []) "a.__proto__" (VStr "v")
     <> Ok (VObj []).
Proof. split; [reflexivity | split; [reflexivity | discriminate]]. Qed.

(** C1, amended.  For every root and every path with a segment that names
    [__proto__], [constructor] or [prototype] in any case (as it stands or
    as the identifier of [identifier[index]]): [getNestedValue] returns
    [undefined]; [setNestedValue] ends without reaching the prototype of
    any object and without assigning the value: it returns at that segment,
    so that its effect is that of the path cut after the segment, whatever
    the value; and when the segment is the first one of the path the root
    is left as it is. *)
Theorem C1_forbidden_segment {host : Host} (root : value) (path : string)
        (caseInsensitive : bool) (value : value) :
  forbidden_path path = true ->
  getNestedValue root path caseInsensitive = Data VUndefined
  /\ proper (setNestedValue root path value)
  /\ (forall pre seg post value',
         Str.split "." path = pre ++ seg :: post ->
         forbidden_segment seg = true ->
         setNestedValue root path value
         = setNestedValue_loop (pre ++ [seg]) root value')
  /\ (forall seg post,
         Str.split "." path = seg :: post ->
         forbidden_segment seg = true ->
         setNestedValue root path value = Ok root).
Proof.
  intros H. unfold forbidden_path in H. repeat split.
  - unfold getNestedValue. destruct (negb (truthy root)); [reflexivity |].
    now apply loop_forbidden.
  - apply setNestedValue_loop_proper.
  - intros pre seg post value' Hsplit Hseg. unfold setNestedValue.
    rewrite Hsplit. apply setNestedValue_loop_truncate.
    now rewrite Hseg.
  - intros seg post Hsplit Hseg. unfold setNestedValue. rewrite Hsplit.
    rewrite setNestedValue_loop_stop by now rewrite Hseg.
    now apply stop_effect_forbidden.
Qed.

Lemma C1_forbidden_segment_witness :
  forbidden_path "Constructor.x" = true
  /\ getNestedValue (host := ES.es_host)
       (VObj [("Constructor", VObj [("x", VNum 1)])]) "Constructor.x" true
     = Data VUndefined.
Proof.
  split; [reflexivity |].
  apply (C1_forbidden_segment (host := ES.es_host)
           (VObj [("Constructor", VObj [("x", VNum 1)])]) "Constructor.x"
           true (VStr "v")).
  reflexivity.
Defined.




(** Two settings whose delimiters differ and whose cache keys are the same
    string [{||}||]. *)
Definition settings_bar_open : PluginSettings := {|
  openDelimiter := "{|";
  closeDelimiter := "}";
  defaultSeparator := "|";
  missingValueText := "[MISSING]";
  supportNestedProperties := true;
  caseInsensitive := false;
  arrayJoinSeparator := ", ";
  preserveOriginalOnMissing := false
|}.

Definition settings_bar_close : PluginSettings := {|
  openDelimiter := "{";
  closeDelimiter := "|}";
  defaultSeparator := "|";
  missingValueText := "[MISSING]";
  supportNestedProperties := true;
  caseInsensitive := false;
  arrayJoinSeparator := ", ";
  preserveOriginalOnMissing := false
|}.

(** C3 does not hold of the code: the key of the cache is the three tokens
    joined by [|], which two different triples can share.  After a call
    with the delimiters [{|], [}], [|] a call with the delimiters [{], [|}],
    [|] finds the key [{||}||] in the cache and matches with the pattern of
    the first call: in the text [{|x}] it replaces a placeholder that the
    pattern compiled from its own settings does not match.  The same holds
    of the scan. *)
Theorem C3_cache_key_collision :
  let patternCache := snd (getVariablePattern settings_bar_open None) in
  cacheKey settings_bar_open = cacheKey settings_bar_close
  /\ fst (replaceVariables (host := ES.es_host)
            "{|x}" (VObj []) settings_bar_close patternCache)
     = Ok {| result := "[MISSING]";
             replacementCount := 0; missingCount := 1 |}
  /\ fst (replaceVariables (host := ES.es_host)
            "{|x}" (VObj []) settings_bar_close None)
     = Ok {| result := "{|x}";
             replacementCount := 0; missingCount := 0 |}
  /\ (exists v,
         fst (scanDocumentVariables (host := ES.es_host)
                "{|x}" (VObj []) 0 settings_bar_close patternCache)
         = Ok [v])
  /\ fst (scanDocumentVariables (host := ES.es_host)
            "{|x}" (VObj []) 0 settings_bar_close None)
     = Ok [].
Proof.
  cbv zeta. split; [reflexivity |].
  split; [vm_compute; reflexivity |].
  split; [vm_compute; reflexivity |].
  split; [eexists; vm_compute; reflexivity | vm_compute; reflexivity].
Qed.

(** ** Where the cache is a memoization

    The key of the cache determines the tokens when neither delimiter
    contains [|]; for such settings the cached pattern is the pattern that a
    fresh compilation returns. *)

Definition bar : ascii := "|"%char.

Definition bar_free (settings : PluginSettings) : bool :=
  negb (contains bar (openDelimiter settings))
  && negb (contains bar (closeDelimiter settings)).

Lemma append_bar_inj (a a' r r' : string) :
  contains bar a = false -> contains bar a' = false ->
  a +++ String bar r = a' +++ String bar r' -> a = a' /\ r = r'.
Proof.
  revert a'. induction a as [| x a IH]; intros [| x' a'] Ha Ha' H;
    simpl in *.
  - inversion H. auto.
  - inversion H; subst x'. rewrite Ascii.eqb_refl in Ha'. discriminate.
  - inversion H; subst x. rewrite Ascii.eqb_refl in Ha. discriminate.
  - apply orb_false_elim in Ha. apply orb_false_elim in Ha'.
    inversion H; subst x'.
    destruct (IH a' (proj2 Ha) (proj2 Ha')) as [E1 E2]; [assumption |].
    subst. auto.
Qed.

Lemma cacheKey_inj (s1 s2 : PluginSettings) :
  bar_free s1 = true -> bar_free s2 = true ->
  cacheKey s1 = cacheKey s2 -> compile s1 = compile s2.
Proof.
  unfold bar_free, cacheKey, compile. intros H1 H2 Hk.
  apply andb_prop in H1. apply andb_prop in H2.
  destruct H1 as [Ho1 Hc1]. destruct H2 as [Ho2 Hc2].
  apply negb_true_iff in Ho1, Hc1, Ho2, Hc2.
  destruct (append_bar_inj _ _ _ _ Ho1 Ho2 Hk) as [Eo Hk'].
  destruct (append_bar_inj _ _ _ _ Hc1 Hc2 Hk') as [Ec Es].
  now rewrite Eo, Ec, Es.
Qed.

(** The cache holds nothing, or the pattern compiled from settings that
    have its key and whose delimiters contain no [|]. *)
Definition cache_coherent (patternCache : PatternCache) : Prop :=
  match patternCache with
  | None => True
  | Some entry =>
      exists settings,
        bar_free settings = true /\ key entry = cacheKey settings
        /\ pattern entry = compile settings
  end.

(** For delimiters without [|] the pattern returned through the cache is
    the pattern of a fresh compilation, call after call. *)
Lemma memoization_bar_free (settings : PluginSettings)
      (patternCache : PatternCache) :
  cache_coherent patternCache -> bar_free settings = true ->
  fst (getVariablePattern settings patternCache)
  = fst (getVariablePattern settings None)
  /\ cache_coherent (snd (getVariablePattern settings patternCache)).
Proof.
  intros Hc Hb. unfold getVariablePattern.
  destruct (_ || _ || _); [simpl; auto |].
  destruct patternCache as [entry |]; simpl.
  - destruct (String.eqb (key entry) (cacheKey settings)) eqn:E; simpl.
    + apply String.eqb_eq in E. destruct Hc as [s0 [Hb0 [Hk Hp]]].
      split; [| exists s0; auto].
      rewrite Hp. apply cacheKey_inj; congruence.
    + split; [reflexivity | exists settings; auto].
  - split; [reflexivity | exists settings; auto].
Qed.

(** Some token is longer than [MAX_DELIMITER_LEN]. *)
Definition too_long (settings : PluginSettings) : bool :=
  (MAX_DELIMITER_LEN <? String.length (openDelimiter settings))
  || (MAX_DELIMITER_LEN <? String.length (closeDelimiter settings))
  || (MAX_DELIMITER_LEN <? String.length (defaultSeparator settings)).

Lemma not_special_not_backslash (c : ascii) :
  regex_special c = false -> Ascii.eqb c backslash = false.
Proof.
  intros H. destruct (Ascii.eqb c backslash) eqn:E; [| reflexivity].
  apply Ascii.eqb_eq in E. subst c. discriminate.
Qed.

(** An escaped token is read by [new RegExp] as the token itself. *)
Lemma unescape_escapeRegex (s : string) : unescape (escapeRegex s) = s.
Proof.
  induction s as [| c s IH]; [reflexivity |]. simpl.
  destruct (regex_special c) eqn:E; simpl.
  - now rewrite IH.
  - rewrite (not_special_not_backslash _ E). now rewrite IH.
Qed.

Definition settings_empty_open : PluginSettings := {|
  openDelimiter := "";
  closeDelimiter := "}}";
  defaultSeparator := ":";
  missingValueText := "[MISSING]";
  supportNestedProperties := true;
  caseInsensitive := false;
  arrayJoinSeparator := ", ";
  preserveOriginalOnMissing := false
|}.

Definition settings_same_delimiters : PluginSettings := {|
  openDelimiter := "%%";
  closeDelimiter := "%%";
  defaultSeparator := ":";
  missingValueText := "[MISSING]";
  supportNestedProperties := true;
  caseInsensitive := false;
  arrayJoinSeparator := ", ";
  preserveOriginalOnMissing := false
|}.

(** C4, as the specification states it, fails: [getVariablePattern] looks
    at the lengths of the tokens only.  With an empty opening delimiter, and
    with the opening delimiter equal to the closing one, it compiles the
    pattern from the tokens as they are: [x}}] and [%%x%%] are placeholders
    then, which the default pattern does not match. *)
Lemma C4_counterexample :
  (fst (getVariablePattern settings_empty_open None) <> default_pattern
   /\ fst (replaceVariables (host := ES.es_host)
             "x}}" (VObj [("x", VStr "v")]) settings_empty_open None)
      = Ok {| result := "v"; replacementCount := 1; missingCount := 0 |}
   /\ match_all default_pattern "x}}" = [])
  /\ (fst (getVariablePattern settings_same_delimiters None)
      <> default_pattern
      /\ fst (replaceVariables (host := ES.es_host)
                "%%x%%" (VObj [("x", VStr "v")])
                settings_same_delimiters None)
         = Ok {| result := "v"; replacementCount := 1; missingCount := 0 |}
      /\ match_all default_pattern "%%x%%" = []).
Proof.
  split; (split; [discriminate | split; vm_compute; reflexivity]).
Qed.

(** C4, amended.  For every configuration in which a delimiter or the
    separator is longer than 10 characters, [getVariablePattern] returns
    the default pattern, built from [{{], [}}] and [:], and leaves the cache
    as it is.  Any other configuration, one with an empty token or with
    equal delimiters included, gets no fallback: [getVariablePattern]
    returns the pattern that the cache holds under the key of the
    configuration when there is one, and otherwise compiles the pattern
    from the configured tokens, each taken literally.  Where neither the
    configuration nor the one that has filled the cache has a [|] in a
    delimiter, the pattern returned is the one of the configured tokens
    in both cases. *)
Theorem C4_delimiter_fallback (settings : PluginSettings)
        (patternCache : PatternCache) :
  too_long settings = true ->
  getVariablePattern settings patternCache = (default_pattern, patternCache)
  /\ default_pattern = variable_regex "{{" "}}" ":"
  /\ (forall settings' patternCache',
         too_long settings' = false ->
         fst (getVariablePattern settings' patternCache')
         = match patternCache' with
           | Some entry =>
               if String.eqb (key entry) (cacheKey settings')
               then pattern entry
               else variable_regex (openDelimiter settings')
                                   (closeDelimiter settings')
                                   (defaultSeparator settings')
           | None =>
               variable_regex (openDelimiter settings')
                              (closeDelimiter settings')
                              (defaultSeparator settings')
           end)
  /\ (forall settings' patternCache',
         too_long settings' = false ->
         cache_coherent patternCache' ->
         bar_free settings' = true ->
         fst (getVariablePattern settings' patternCache')
         = variable_regex (openDelimiter settings')
                          (closeDelimiter settings')
                          (defaultSeparator settings')).
Proof.
  intros H. unfold too_long in H.
  assert (Hcompile : forall settings',
             compile settings'
             = variable_regex (openDelimiter settings')
                              (closeDelimiter settings')
                              (defaultSeparator settings')).
  { intros settings'. unfold compile, RegExp_variable.
    now rewrite !unescape_escapeRegex. }
  assert (Hfresh : forall settings',
             too_long settings' = false ->
             fst (getVariablePattern settings' None)
             = variable_regex (openDelimiter settings')
                              (closeDelimiter settings')
                              (defaultSeparator settings')).
  { intros settings' H'. unfold too_long in H'.
    unfold getVariablePattern. rewrite H'. cbn [fst]. apply Hcompile. }
  repeat split.
  - unfold getVariablePattern. now rewrite H.
  - intros settings' patternCache' H'. unfold too_long in H'.
    unfold getVariablePattern. rewrite H'.
    destruct patternCache' as [entry |]; [| apply Hcompile].
    destruct (String.eqb (key entry) (cacheKey settings'));
      [reflexivity | apply Hcompile].
  - intros settings' patternCache' H' Hcoherent Hbar.
    rewrite (proj1 (memoization_bar_free settings' patternCache'
                      Hcoherent Hbar)).
    now apply Hfresh.
Qed.

Lemma C4_delimiter_fallback_witness :
  let settings := {|
    openDelimiter := "<<<<<<<<<<<";
    closeDelimiter := ">>";
    defaultSeparator := ":";
    missingValueText := "[MISSING]";
    supportNestedProperties := true;
    caseInsensitive := false;
    arrayJoinSeparator := ", ";
    preserveOriginalOnMissing := false
  |} in
  too_long settings = true
  /\ getVariablePattern settings None = (default_pattern, None).
Proof.
  cbv zeta. split; [reflexivity |].
  apply C4_delimiter_fallback. reflexivity.
Defined.

(** C6, as the specification states it, fails for the scanner of [main.js],
    which reports every occurrence (the modal that lists the variables
    skips the names that it has seen).  With the body [{{a}} {{a}}] it
    returns two variables named [a]. *)
Lemma C6_counterexample :
  fst (Obsidian.scanDocumentVariables (host := ES.es_host)
         {| Obsidian.plugin := DEFAULT_SETTINGS;
            Obsidian.showFrontmatterOnlyVariables := true |}
         "{{a}} {{a}}"
         (Some {| Obsidian.cached_frontmatter := VUndefined |}) None)
  = Ok [ {| name := "a"; value_ := Data VUndefined; defaultValue := None;
            status := missing;
            position := Some {| line := 0; start := 0; end_ := 5 |};
            fullMatch := Some "{{a}}" |};
         {| name := "a"; value_ := Data VUndefined; defaultValue := None;
            status := missing;
            position := Some {| line := 0; start := 6; end_ := 11 |};
            fullMatch := Some "{{a}}" |} ].
Proof. vm_compute. reflexivity. Qed.

(** C6, amended.  The scanner of [variableReplacer.ts] returns at most one
    variable per name: every name that occurs in the body is reported, and
    the variable of a name is the record of the first occurrence of that
    name in the order of the text, with the status, value, default value
    and position of that occurrence.  The scanner of [main.js] reports every
    occurrence, in the order of the text, and then the properties of the
    frontmatter that no placeholder names, when that is asked for. *)
Theorem C6_scan_first_occurrence {host : Host} {yaml : Yaml}
        (patternCache : PatternCache) :
  cache_wf patternCache ->
  (forall text frontmatter frontmatterEnd settings,
      let bodyPart := Str.slice_from frontmatterEnd text in
      let ms :=
        match_all (fst (getVariablePattern settings patternCache)) bodyPart in
      let report :=
        reported frontmatter settings bodyPart
                 (count_newlines (Str.slice 0 frontmatterEnd text)) in
      exists vars,
        fst (scanDocumentVariables text frontmatter frontmatterEnd settings
                                   patternCache) = Ok vars
        /\ NoDup (map name vars)
        /\ (forall m, In m ms -> In (name_of m) (map name vars))
        /\ (forall v, In v vars ->
              exists ms1 m ms2,
                ms = ms1 ++ m :: ms2 /\ v = report m
                /\ forall m', In m' ms1 -> name_of m' <> name_of m))
  /\ (forall settings content file,
         let frontmatter := Obsidian.getFrontmatter file content in
         let frontmatterEnd := findFrontmatterEnd content in
         let bodyPart := Str.slice_from frontmatterEnd content in
         let ms :=
           match_all
             (fst (Obsidian.getVariablePattern settings patternCache))
             bodyPart in
         fst (Obsidian.scanDocumentVariables settings content file
                                             patternCache)
         = Ok (map (fun m =>
                      scanned_variable
                        (Obsidian.getNestedValue settings frontmatter)
                        bodyPart
                        (count_newlines (Str.slice 0 frontmatterEnd content))
                        m (name_of m)) ms
               ++ if Obsidian.showFrontmatterOnlyVariables settings
                  then Obsidian.collectFrontmatterProperties
                         frontmatter EmptyString (map name_of ms)
                  else [])).
Proof.
  intros Hwf. split.
  - intros text frontmatter frontmatterEnd settings bodyPart ms report.
    destruct (getVariablePattern_wf settings patternCache Hwf)
      as [Hshape _].
    assert (Hall : forall m, In m ms -> exists g1, group1 m = Some g1).
    { intros m Hin. apply match_all_In in Hin.
      destruct Hin as [n0 [s' [idx' Hm]]].
      destruct (variable_match _ _ _ _ _ Hshape Hm) as [_ [g [Hg _]]].
      eauto. }
    destruct (scan_steps_spec frontmatter settings bodyPart
                (count_newlines (Str.slice 0 frontmatterEnd text)) ms Hall
                {| variables := []; seen := [] |})
      as [st' [new [Hfold [Hv [Hs [Hnd [_ [Hcov Hfirst]]]]]]]].
    simpl in Hv, Hs, Hcov. exists new. unfold scanDocumentVariables.
    fold bodyPart.
    destruct (getVariablePattern settings patternCache) as [r c] eqn:E.
    simpl in Hshape, ms. simpl.
    rewrite (exec_while_fold _ _ _ _ Hshape). fold ms. rewrite Hfold.
    simpl. rewrite Hv. repeat split; auto.
  - intros settings content file frontmatter frontmatterEnd bodyPart ms.
    unfold Obsidian.getVariablePattern in ms.
    destruct (getVariablePattern_wf (Obsidian.plugin settings)
                                    patternCache Hwf) as [Hshape _].
    assert (Hall : forall m, In m ms -> exists g1, group1 m = Some g1).
    { intros m Hin. apply match_all_In in Hin.
      destruct Hin as [n0 [s' [idx' Hm]]].
      destruct (variable_match _ _ _ _ _ Hshape Hm) as [_ [g [Hg _]]].
      eauto. }
    unfold Obsidian.scanDocumentVariables, Obsidian.getVariablePattern.
    fold frontmatter frontmatterEnd bodyPart.
    destruct (getVariablePattern (Obsidian.plugin settings) patternCache)
      as [r c] eqn:E.
    simpl in Hshape, ms. simpl.
    rewrite (exec_while_fold _ _ _ _ Hshape). fold ms.
    rewrite (obsidian_scan_steps_spec settings frontmatter bodyPart _ ms
                                      Hall).
    simpl. destruct (Obsidian.showFrontmatterOnlyVariables settings);
      [reflexivity | now rewrite app_nil_r].
Qed.

Lemma C6_scan_first_occurrence_witness :
  cache_wf None
  /\ exists vars,
      fst (scanDocumentVariables (host := ES.es_host)
             "{{a}} {{b:1}} {{a:2}}" (VObj []) 0 DEFAULT_SETTINGS None)
      = Ok vars
      /\ NoDup (map name vars).
Proof.
  split; [exact I |].
  destruct (proj1 (C6_scan_first_occurrence (host := ES.es_host)
                     (yaml := no_yaml) None I)
                  "{{a}} {{b:1}} {{a:2}}" (VObj []) 0 DEFAULT_SETTINGS)
    as [vars [H1 [H2 _]]].
  exists vars. split; assumption.
Defined.

(** The value is [undefined], [null] or the empty string. *)
Definition absent (value : looked) : Prop :=
  value = Data VUndefined \/ value = Data VNull
  \/ value = Data (VStr EmptyString).

Lemma absent_present (value : looked) : absent value -> present value = false.
Proof. intros [H | [H | H]]; subst value; reflexivity. Qed.

(** C7.  For every placeholder whose name resolves to [undefined], [null]
    or the empty string and whose match has captured a default value, the
    callback of [replaceVariables] returns the captured text itself and
    adds one to [replacementCount], leaving [missingCount] as it is.  In
    every call of [replaceVariables] that returns, the text returned is
    the text given with each placeholder replaced by the string that the
    callback has returned for it, which for such a placeholder is the
    default, counted as a replacement.  The call returns when no
    placeholder of the text names an array (the call of [join] on an array
    may throw).  With the data [{}] and the text [{{user:guest}}] the
    result is [guest], with [replacementCount = 1] and
    [missingCount = 0]. *)
Theorem C7_default_value {host : Host} (text : string) (frontmatter : value)
        (settings : PluginSettings) (patternCache : PatternCache) :
  cache_wf patternCache ->
  let resolve :=
    fun varName =>
      getNestedValue frontmatter varName (caseInsensitive settings) in
  let ms := match_all (fst (getVariablePattern settings patternCache)) text in
  (forall counters m varName defaultValue,
      group1 m = Some varName ->
      absent (resolve (Str.trim varName)) ->
      group2 m = Some defaultValue ->
      replacer_with resolve settings counters m
      = Ok (defaultValue,
            {| replacements := (replacements counters + 1)%Z;
               missings := missings counters |}))
  /\ (forall res,
         fst (replaceVariables text frontmatter settings patternCache)
         = Ok res ->
         exists reps,
           map fst reps = ms
           /\ result res = splice text 0 reps
           /\ (forall m rep varName defaultValue,
                  In (m, rep) reps ->
                  group1 m = Some varName ->
                  absent (resolve (Str.trim varName)) ->
                  group2 m = Some defaultValue ->
                  rep = defaultValue /\ replaced resolve m = true)
           /\ replacementCount res = Z.of_nat (count (replaced resolve) ms)
           /\ missingCount res
              = Z.of_nat (count (fun m => negb (replaced resolve m)) ms))
  /\ ((forall m varName,
          In m ms -> group1 m = Some varName ->
          isArray (resolve (Str.trim varName)) = false) ->
      exists res,
        fst (replaceVariables text frontmatter settings patternCache)
        = Ok res)
  /\ fst (replaceVariables (host := ES.es_host)
            "{{user:guest}}" (VObj []) DEFAULT_SETTINGS None)
     = Ok {| result := "guest"; replacementCount := 1; missingCount := 0 |}.
Proof.
  intros Hwf resolve ms.
  destruct (getVariablePattern_wf settings patternCache Hwf) as [Hshape _].
  unfold replaceVariables. subst ms.
  destruct (getVariablePattern settings patternCache) as [r c].
  simpl fst in *.
  split; [| split; [| split; [| vm_compute; reflexivity]]].
  - intros counters m varName defaultValue Hg Habsent Hd.
    apply (replacer_with_default resolve settings counters m varName
             defaultValue Hg (absent_present _ Habsent) Hd).
  - intros res Hres.
    destruct (replace_with_spec resolve settings r text res Hshape Hres)
      as [reps [Hfst [Hsplice [Hdef [Hr Hm]]]]].
    exists reps. repeat split; auto.
    + eapply Hdef; eauto using absent_present.
    + match goal with
      | Hg1 : group1 _ = Some _, Hg2 : group2 _ = Some _ |- _ =>
          unfold replaced; rewrite Hg1, Hg2; apply orb_true_r
      end.
  - intros Harr.
    exact (replace_with_returns resolve settings r text Hshape Harr).
Qed.

Lemma C7_default_value_witness :
  cache_wf None
  /\ fst (replaceVariables (host := ES.es_host)
            "{{user:guest}}" (VObj []) DEFAULT_SETTINGS None)
     = Ok {| result := "guest"; replacementCount := 1; missingCount := 0 |}.
Proof.
  split; [exact I |].
  exact (proj2 (proj2 (proj2 (C7_default_value (host := ES.es_host)
                                "{{user:guest}}" (VObj []) DEFAULT_SETTINGS
                                None I)))).
Defined.

(** C8.  For every structured root and every path with a segment
    [identifier[index]]: when the value that the segment resolves for its
    identifier is no array, or is an array with no element at the index,
    [getNestedValue] returns [undefined].  With the data [{a: ["x", "y"]}]
    the placeholder [{{a[5]}}] is missing, for the substitution and for the
    scan. *)
Theorem C8_index_out_of_bounds {host : Host} (root : value) (path : string)
        (caseInsensitive : bool) (pre : list string) (seg : string)
        (post : list string) (propName : string) (index : N) :
  structured root = true ->
  Str.split "." path = pre ++ seg :: post ->
  arrayMatch seg = Some (propName, index) ->
  let before := getNestedValue_loop pre (Data root) caseInsensitive in
  (isArray (resolved before propName caseInsensitive) = false
   \/ exists elems named,
        resolved before propName caseInsensitive = Data (VArr elems named)
        /\ (length_of elems <= index)%N) ->
  getNestedValue root path caseInsensitive = Data VUndefined
  /\ fst (replaceVariables (host := ES.es_host) "{{a[5]}}"
            (VObj [("a", VArr [VStr "x"; VStr "y"] [])])
            DEFAULT_SETTINGS None)
     = Ok {| result := "[MISSING]";
             replacementCount := 0; missingCount := 1 |}
  /\ fst (scanDocumentVariables (host := ES.es_host) "{{a[5]}}"
            (VObj [("a", VArr [VStr "x"; VStr "y"] [])])
            0 DEFAULT_SETTINGS None)
     = Ok [ {| name := "a[5]"; value_ := Data VUndefined;
               defaultValue := None; status := missing;
               position := Some {| line := 0; start := 0; end_ := 8 |};
               fullMatch := Some "{{a[5]}}" |} ].
Proof.
  intros Hs Hsplit Hseg before Hcase.
  split; [| split; vm_compute; reflexivity].
  unfold getNestedValue. destruct (negb (truthy root)); [reflexivity |].
  rewrite Hsplit, loop_app. fold before.
  eapply loop_not_sequence; eauto.
  apply loop_structured. now apply structured_data.
Qed.

Lemma C8_index_out_of_bounds_witness :
  getNestedValue (host := ES.es_host)
    (VObj [("a", VObj [("b", VArr [VStr "x"; VStr "y"] [])])])
    "a.b[2].c" false
  = Data VUndefined.
Proof.
  refine (proj1 (C8_index_out_of_bounds (host := ES.es_host)
                   (VObj [("a", VObj [("b", VArr [VStr "x"; VStr "y"] [])])])
                   "a.b[2].c" false ["a"] "b[2]" ["c"] "b" 2%N
                   eq_refl eq_refl eq_refl _)).
  right. exists [VStr "x"; VStr "y"], []. split; [reflexivity |].
  vm_compute. discriminate.
Defined.

(** C9 does not hold of the code, by the defect of C3.  The configured
    pattern is the one that [getVariablePattern] compiles for the settings
    when nothing is cached.  After a call with the delimiters [{|], [}],
    [|], the cache holds a pattern under the key [{||}||], which is the key
    of the delimiters [{], [|}], [|] too: the pattern configured by these
    has no occurrence in the text [{|x}], and [replaceVariables] returns
    [[MISSING]] for it, with [missingCount = 1].  The claim holds where the
    cache does not interfere: when it is empty, or filled by settings
    without [|] in a delimiter and asked by such settings. *)
Theorem C9_stale_cache :
  let patternCache := snd (getVariablePattern settings_bar_open None) in
  search (fst (getVariablePattern settings_bar_close None))
         (String.length "{|x}") "{|x}" 0 = None
  /\ fst (replaceVariables (host := ES.es_host)
            "{|x}" (VObj []) settings_bar_close patternCache)
     = Ok {| result := "[MISSING]";
             replacementCount := 0; missingCount := 1 |}
  /\ (forall (host : Host) (text : string) (frontmatter : value)
             (settings : PluginSettings) (patternCache' : PatternCache),
         cache_coherent patternCache' ->
         patternCache' = None \/ bar_free settings = true ->
         search (fst (getVariablePattern settings None))
                (String.length text) text 0 = None ->
         fst (replaceVariables text frontmatter settings patternCache')
         = Ok {| result := text;
                 replacementCount := 0; missingCount := 0 |}).
Proof.
  cbv zeta. split; [vm_compute; reflexivity |].
  split; [vm_compute; reflexivity |].
  intros host text frontmatter settings patternCache' Hcoherent Hcase Hnone.
  assert (Hsame : fst (getVariablePattern settings patternCache')
                  = fst (getVariablePattern settings None)).
  { destruct Hcase as [-> | Hbar]; [reflexivity |].
    exact (proj1 (memoization_bar_free settings patternCache' Hcoherent
                    Hbar)). }
  unfold replaceVariables.
  destruct (getVariablePattern settings patternCache') as [r c].
  cbn [fst] in *. subst r. now apply replace_with_no_match.
Qed.

(** C10.  In every call of [replaceVariables], of either build, each match
    of the pattern adds one to exactly one of the two counters: a call of
    the callback that returns has incremented one of them and left the
    other as it was, and when [replaceVariables] returns
    [replacementCount + missingCount] is the number of matches, neither
    counter being negative.  The call returns when no placeholder of the
    text names an array (the call of [join] on an array may throw). *)
Theorem C10_counters {host : Host} {yaml : Yaml} (text : string)
        (frontmatter : value) (patternCache : PatternCache) :
  cache_wf patternCache ->
  (forall resolve settings counters m varName rep counters',
      group1 m = Some varName ->
      replacer_with resolve settings counters m = Ok (rep, counters') ->
      ((replacements counters' = replacements counters + 1
        /\ missings counters' = missings counters)
       \/ (replacements counters' = replacements counters
           /\ missings counters' = missings counters + 1))%Z)
  /\ (forall settings res,
         fst (replaceVariables text frontmatter settings patternCache)
         = Ok res ->
         (replacementCount res + missingCount res
          = Z.of_nat
              (List.length
                 (match_all
                    (fst (getVariablePattern settings patternCache))
                    text)))%Z
         /\ (0 <= replacementCount res)%Z /\ (0 <= missingCount res)%Z)
  /\ (forall settings res,
         fst (Obsidian.replaceVariables settings text frontmatter
                                        patternCache)
         = Ok res ->
         (replacementCount res + missingCount res
          = Z.of_nat
              (List.length
                 (match_all
                    (fst (Obsidian.getVariablePattern
                            settings patternCache))
                    text)))%Z
         /\ (0 <= replacementCount res)%Z /\ (0 <= missingCount res)%Z)
  /\ (forall settings,
         (forall m varName,
             In m (match_all
                     (fst (getVariablePattern settings patternCache)) text) ->
             group1 m = Some varName ->
             isArray (getNestedValue frontmatter (Str.trim varName)
                                     (caseInsensitive settings)) = false) ->
         exists res,
           fst (replaceVariables text frontmatter settings patternCache)
           = Ok res)
  /\ (forall settings,
         (forall m varName,
             In m (match_all
                     (fst (Obsidian.getVariablePattern
                             settings patternCache)) text) ->
             group1 m = Some varName ->
             isArray (Obsidian.getNestedValue settings frontmatter
                                              (Str.trim varName)) = false) ->
         exists res,
           fst (Obsidian.replaceVariables settings text frontmatter
                                          patternCache)
           = Ok res).
Proof.
  intros Hwf.
  split; [| split; [| split; [| split]]].
  - intros resolve settings counters m varName rep counters' Hg Hrep.
    destruct (replacer_with_spec resolve settings counters m varName rep
                                 counters' Hg Hrep) as [Hc _].
    subst counters'. destruct (replaced resolve m); simpl; auto.
  - intros settings res.
    destruct (getVariablePattern_wf settings patternCache Hwf)
      as [Hshape _].
    unfold replaceVariables.
    destruct (getVariablePattern settings patternCache) as [r c].
    simpl fst in *. intros Hres.
    destruct (replace_with_spec _ settings r text res Hshape Hres)
      as [reps [_ [_ [_ [Hr Hm]]]]].
    rewrite Hr, Hm, <- Nat2Z.inj_add, count_split.
    repeat split; auto; lia.
  - intros settings res.
    destruct (getVariablePattern_wf (Obsidian.plugin settings)
                                    patternCache Hwf) as [Hshape _].
    unfold Obsidian.replaceVariables, Obsidian.getVariablePattern.
    destruct (getVariablePattern (Obsidian.plugin settings) patternCache)
      as [r c].
    simpl fst in *. intros Hres.
    destruct (replace_with_spec _ (Obsidian.plugin settings) r text res
                                Hshape Hres)
      as [reps [_ [_ [_ [Hr Hm]]]]].
    rewrite Hr, Hm, <- Nat2Z.inj_add, count_split.
    repeat split; auto; lia.
  - intros settings.
    destruct (getVariablePattern_wf settings patternCache Hwf)
      as [Hshape _].
    unfold replaceVariables.
    destruct (getVariablePattern settings patternCache) as [r c].
    simpl fst in *. intros Harr.
    exact (replace_with_returns _ settings r text Hshape Harr).
  - intros settings.
    destruct (getVariablePattern_wf (Obsidian.plugin settings)
                                    patternCache Hwf) as [Hshape _].
    unfold Obsidian.replaceVariables, Obsidian.getVariablePattern.
    destruct (getVariablePattern (Obsidian.plugin settings) patternCache)
      as [r c].
    simpl fst in *. intros Harr.
    exact (replace_with_returns _ (Obsidian.plugin settings) r text Hshape
                                Harr).
Qed.

Lemma C10_counters_witness :
  cache_wf None
  /\ exists res,
      fst (replaceVariables (host := ES.es_host)
             "{{a}} {{b:1}} {{c}}" (VObj [("a", VNum 1)])
             DEFAULT_SETTINGS None) = Ok res
      /\ (replacementCount res + missingCount res = 3)%Z.
Proof.
  split; [exact I |].
  eexists. split; [vm_compute; reflexivity |].
  refine (proj1 (proj1 (proj2 (C10_counters (host := ES.es_host)
                                 (yaml := no_yaml)
                                 "{{a}} {{b:1}} {{c}}"
                                 (VObj [("a", VNum 1)]) None I))
                       DEFAULT_SETTINGS _ _)).
  vm_compute. reflexivity.
Defined.

(* ================================================================== *)
(** * Further properties of the frontmatter block *)

Module BlockFacts.
Import Regex RegexFacts ResolverFacts CodecFacts.

Lemma search_within (r : regex) (n0 : nat) (s : string) (idx : nat)
      (m : rmatch) :
  search r n0 s idx = Some m ->
  exists pre post c',
    s = pre +++ full m +++ post /\ derives r no_caps (full m) c'.
Proof.
  intros H. apply search_sound in H. destruct H as [pre [s' [idx' [Hs Hm]]]].
  apply match_here_sound in Hm. destruct Hm as [post [c' [Hs' [Hd _]]]].
  exists pre, post, c'. split; [congruence | assumption].
Qed.

(** What [\r?\n] consumes. *)
Lemma derives_newline (c : caps) (x : string) (c' : caps) :
  derives newline c x c' -> x = Str.lf \/ x = Str.cr +++ Str.lf.
Proof.
  unfold newline. cbn [derives].
  intros [x1 [x2 [c1 [Hx [[[H1 _] | [H1 _]] [H2 _]]]]]]; subst; auto.
Qed.

(** The line break that may follow the closing marker. *)
Definition line_end (tail : string) : bool :=
  String.eqb tail EmptyString || String.eqb tail Str.lf
  || String.eqb tail (Str.cr +++ Str.lf).

Lemma derives_line_end (c : caps) (x : string) (c' : caps) :
  derives (Alt newline Eol) c x c' -> line_end x = true.
Proof.
  cbn [derives]. intros [H | [H _]].
  - apply derives_newline in H. destruct H; subst; reflexivity.
  - subst. reflexivity.
Qed.

Lemma String_match_within (r : regex) (text : string) (m : rmatch) :
  String_match (Seq Bol r) text = Some m ->
  exists post c', text = full m +++ post /\ derives r no_caps (full m) c'.
Proof.
  rewrite String_match_bol. intros H. apply match_here_sound in H.
  destruct H as [post [c' [Hs [Hd _]]]]. exists post.
  cbn [derives] in Hd.
  destruct Hd as [x1 [x2 [c1 [Hx [[H1 Hc1] Hd]]]]]. subst x1 c1.
  simpl in Hx. rewrite Hx. exists c'. split; [congruence | assumption].
Qed.

(** A prefix that is long enough decides [startsWith]. *)
Lemma strip_prefix_long (p a b : string) :
  String.length p <= String.length a ->
  Str.strip_prefix p (a +++ b)
  = match Str.strip_prefix p a with
    | Some r => Some (r +++ b)
    | None => None
    end.
Proof.
  revert a. induction p as [| x p IH]; intros a Hlen; [reflexivity |].
  destruct a as [| y a]; [simpl in Hlen; lia |].
  cbn [Str.strip_prefix String.append].
  destruct (Ascii.eqb x y); [| reflexivity].
  apply IH. simpl in Hlen. lia.
Qed.

Lemma closes_long (a b : string) :
  6 <= String.length a -> closes (a +++ b) = closes a.
Proof.
  intros Hlen. unfold closes, Str.startsWith.
  rewrite !strip_prefix_long by (simpl; lia).
  destruct (Str.strip_prefix (Str.lf +++ "---") a);
    destruct (Str.strip_prefix (Str.cr +++ Str.lf +++ "---") a); reflexivity.
Qed.

Lemma closes_before_body (y2 body : string) :
  y2 <> EmptyString ->
  closes (y2 +++ closing +++ body) = closes (y2 +++ closing).
Proof.
  intros Hy2. rewrite <- append_assoc. apply closes_long.
  rewrite length_append. destruct y2; [congruence |]. simpl. lia.
Qed.

(** Where the text does not open with the closing marker, no pattern
    that starts with [\r?\n---] matches. *)
Lemma run_closing_then_none {R : Type} (n0 : nat) (r : regex)
      (rest : string) (c : caps) (k : cont R) :
  closes rest = false ->
  run n0 (Seq newline (Seq (Lit "---") r)) rest c k = None.
Proof.
  unfold closes, Str.startsWith. intros H.
  apply orb_false_elim in H. destruct H as [Hlf Hcr].
  rewrite strip_prefix_append in Hlf, Hcr.
  unfold newline. cbn [run]. unfold orelse.
  change (Str.is_empty Str.cr) with false. cbv iota.
  destruct (Str.strip_prefix Str.cr rest) as [r1 |] eqn:E1.
  - rewrite strip_prefix_append in Hcr.
    destruct (Str.strip_prefix Str.lf r1) as [r2 |] eqn:E2.
    + destruct (Str.strip_prefix "---" r2); [discriminate |].
      destruct (Str.strip_prefix Str.lf rest) as [r3 |]; [| reflexivity].
      destruct (Str.strip_prefix "---" r3); [discriminate | reflexivity].
    + destruct (Str.strip_prefix Str.lf rest) as [r3 |]; [| reflexivity].
      destruct (Str.strip_prefix "---" r3); [discriminate | reflexivity].
  - destruct (Str.strip_prefix Str.lf rest) as [r3 |]; [| reflexivity].
    destruct (Str.strip_prefix "---" r3); [discriminate | reflexivity].
Qed.

Section WithYaml.
Context {yaml : Yaml}.

(** The block [---], content, [---] at the start of a document parses to
    what the YAML library loads from the content, whatever follows it. *)
Lemma parseFrontmatter_document (content body : string) :
  Str.startsWith content "---" = false ->
  no_early_close content = true ->
  parseFrontmatter ("---" +++ Str.lf +++ content +++ closing +++ body)
  = loaded content.
Proof.
  intros Hstart Hclose. unfold parseFrontmatter.
  set (text := "---" +++ Str.lf +++ content +++ closing +++ body).
  assert (Hs : Str.startsWith text "---" = true).
  { unfold Str.startsWith, text. now rewrite strip_prefix_self. }
  rewrite Hs. cbn [negb].
  unfold empty_frontmatter, frontmatter_block.
  rewrite !String_match_bol.
  remember (String.length text) as n0 eqn:Hn0. symmetry in Hn0.
  assert (Hempty :
            match_here
              (Seq Bol
                 (Seq (Lit "---")
                    (Seq newline (Seq (Lit "---") (Alt newline Eol)))))
              n0 text 0 = None).
  { unfold match_here.
    rewrite run_Seq, run_Bol_start by exact Hn0.
    unfold text. rewrite run_Seq, run_Lit_self.
    rewrite run_Seq, run_newline_lf. rewrite run_Seq.
    apply run_Lit_none. unfold closing, Str.lf. cbn [String.append].
    now apply strip_marker_none. }
  rewrite Hempty.
  assert (Hblock :
            match_here
              (Seq Bol
                 (Seq (Lit "---")
                    (Seq newline
                       (Seq (Group 1 (LazyStar Chars.Any))
                          (Seq newline (Lit "---"))))))
              n0 text 0
            = Some (Match 0 ("---" +++ Str.lf +++ content +++ Str.lf +++ "---")
                          (Some content) None)).
  { unfold match_here.
    rewrite run_Seq, run_Bol_start by exact Hn0.
    unfold text. rewrite run_Seq, run_Lit_self.
    rewrite run_Seq, run_newline_lf. rewrite run_Seq.
    rewrite run_Group, run_LazyStar.
    apply star_lazy_first.
    - intros y1 y2 Hsplit Hy2. cbv beta.
      apply run_closing_none.
      rewrite closes_before_body by assumption.
      exact (no_early_close_split _ Hclose _ _ Hsplit Hy2).
    - cbv beta. unfold closing.
      rewrite !append_assoc.
      rewrite run_Seq, run_newline_lf, run_Lit_self.
      cbn [String.append set_cap no_caps cap1 cap2]. reflexivity. }
  rewrite Hblock. reflexivity.
Qed.

End WithYaml.

(** [\r?\n|$] before a line feed takes the line feed. *)
Lemma run_line_end_lf {R : Type} (n0 : nat) (s : string) (c : caps)
      (k : cont R) (res : R) :
  k Str.lf s c = Some res ->
  run n0 (Alt newline Eol) (Str.lf +++ s) c k = Some res.
Proof.
  intros H. cbn [run]. fold newline.
  change (run n0 (Seq (Opt (Lit Str.cr)) (Lit Str.lf))) with (run (R := R) n0 newline).
  rewrite run_newline_lf. unfold orelse. now rewrite H.
Qed.

(** The end that [findFrontmatterEnd] reports for such a document is the
    end of the block. *)
Lemma findFrontmatterEnd_document (content body : string) :
  Str.startsWith content "---" = false ->
  no_early_close content = true ->
  findFrontmatterEnd ("---" +++ Str.lf +++ content +++ closing +++ body)
  = String.length ("---" +++ Str.lf +++ content +++ closing).
Proof.
  intros Hstart Hclose. unfold findFrontmatterEnd.
  set (text := "---" +++ Str.lf +++ content +++ closing +++ body).
  assert (Hs : Str.startsWith text "---" = true).
  { unfold Str.startsWith, text. now rewrite strip_prefix_self. }
  rewrite Hs. cbn [negb].
  unfold empty_frontmatter, frontmatter_whole.
  rewrite !String_match_bol.
  remember (String.length text) as n0 eqn:Hn0. symmetry in Hn0.
  assert (Hempty :
            match_here
              (Seq Bol
                 (Seq (Lit "---")
                    (Seq newline (Seq (Lit "---") (Alt newline Eol)))))
              n0 text 0 = None).
  { unfold match_here.
    rewrite run_Seq, run_Bol_start by exact Hn0.
    unfold text. rewrite run_Seq, run_Lit_self.
    rewrite run_Seq, run_newline_lf. rewrite run_Seq.
    apply run_Lit_none. unfold closing, Str.lf. cbn [String.append].
    now apply strip_marker_none. }
  rewrite Hempty.
  assert (Hblock :
            match_here
              (Seq Bol
                 (Seq (Lit "---")
                    (Seq newline
                       (Seq (LazyStar Chars.Any)
                          (Seq newline
                             (Seq (Lit "---") (Alt newline Eol)))))))
              n0 text 0
            = Some (Match 0 ("---" +++ Str.lf +++ content +++ closing)
                          None None)).
  { unfold match_here.
    rewrite run_Seq, run_Bol_start by exact Hn0.
    unfold text. rewrite run_Seq, run_Lit_self.
    rewrite run_Seq, run_newline_lf. rewrite run_Seq.
    rewrite run_LazyStar.
    apply star_lazy_first.
    - intros y1 y2 Hsplit Hy2. cbv beta.
      apply run_closing_then_none.
      rewrite closes_before_body by assumption.
      exact (no_early_close_split _ Hclose _ _ Hsplit Hy2).
    - cbv beta. unfold closing.
      rewrite !append_assoc.
      rewrite run_Seq, run_newline_lf, run_Seq, run_Lit_self.
      apply run_line_end_lf.
      cbn [String.append no_caps cap1 cap2]. reflexivity. }
  rewrite Hblock. reflexivity.
Qed.

Lemma slice_from_append (a b : string) :
  Str.slice_from (String.length a) (a +++ b) = b.
Proof. induction a as [| x a IH]; simpl; [now destruct b | exact IH]. Qed.

Lemma slice_to_append (a b : string) :
  Str.slice_to (String.length a) (a +++ b) = a.
Proof.
  induction a as [| x a IH]; simpl; [now destruct b | now rewrite IH].
Qed.

End BlockFacts.

(* ================================================================== *)
(** * Further properties of the resolver *)

Module LookupFacts.
Import Regex RegexFacts ResolverFacts ScanFacts.

Section WithHost.
Context {host : Host}.

(** A key that [findKey] finds by its exact name is found the same way
    when the case is ignored. *)
Lemma findKey_exact (obj : looked) (key foundKey : string) :
  findKey obj key false = Some foundKey ->
  findKey obj key true = Some foundKey.
Proof.
  unfold findKey. destruct obj as [[| | | | | elems named | props] |];
    try discriminate;
    (destruct (forbidden key); [discriminate |]);
    (match goal with
     | |- context [has_property ?o key] =>
         destruct (has_property o key) as [[|] | | |]
     end); congruence.
Qed.

Lemma found_exact (obj : looked) (key foundKey : string) :
  found (findKey obj key false) = Some foundKey ->
  found (findKey obj key true) = Some foundKey.
Proof.
  destruct (findKey obj key false) as [k |] eqn:E; [| discriminate].
  now rewrite (findKey_exact _ _ _ E).
Qed.

Lemma loop_exact (keys : list string) :
  forall value r,
    getNestedValue_loop keys value false = r ->
    r <> Data VUndefined ->
    getNestedValue_loop keys value true = r.
Proof.
  induction keys as [| key rest IH]; intros value r Hr Hdef;
    [exact Hr |].
  cbn [getNestedValue_loop] in *.
  destruct value as [[| | | | | elems named | props] | b];
    try exact Hr;
    (destruct (arrayMatch key) as [[propName index] |];
     [ destruct (found (findKey _ propName false)) as [k |] eqn:E;
       [ rewrite (found_exact _ _ _ E);
         destruct (get _ k) as [[| | | | | e n | p] | b'];
         try exact Hr; now apply IH
       | congruence ]
     | destruct (found (findKey _ key false)) as [k |] eqn:E;
       [ rewrite (found_exact _ _ _ E); now apply IH
       | congruence ] ]).
Qed.

(** The empty key is never found. *)
Lemma found_empty (obj : looked) (ci : bool) :
  found (findKey obj EmptyString ci) = None.
Proof.
  destruct (findKey obj EmptyString ci) as [k |] eqn:E; [| reflexivity].
  assert (Hk : k = EmptyString).
  { unfold findKey in E.
    destruct obj as [[| | | | | elems named | props] |]; try discriminate;
      (destruct (forbidden EmptyString); [discriminate |]);
      (match type of E with
       | context [has_property ?o EmptyString] =>
           destruct (has_property o EmptyString) as [[|] | | |]
       end);
      try (now inversion E);
      (destruct ci; [| discriminate]);
      apply find_some in E; destruct E as [_ E];
      apply String.eqb_eq in E; destruct k; simpl in E;
      congruence. }
  subst k. reflexivity.
Qed.

Lemma loop_empty_segment (post : list string) (ci : bool) (value : looked) :
  getNestedValue_loop (EmptyString :: post) value ci = Data VUndefined.
Proof.
  cbn [getNestedValue_loop].
  change (arrayMatch EmptyString) with (@None (string * N)).
  rewrite found_empty.
  destruct value as [[| | | | | elems named | props] | b]; reflexivity.
Qed.

End WithHost.

Lemma split_go_nonempty (sep : ascii) (s cur : string) :
  Str.split_go sep s cur <> [].
Proof.
  revert cur. induction s as [| c s IH]; intros cur; simpl;
    [discriminate |].
  destruct (Ascii.eqb c sep); [discriminate | apply IH].
Qed.

End LookupFacts.

(* ================================================================== *)
(** * Writing a value and reading it back *)

Module RoundTripFacts.
Import Regex RegexFacts ResolverFacts ScanFacts MutatorFacts.

(** An object or an array. *)
Definition object_shaped (v : value) : bool :=
  match v with
  | VArr _ _ | VObj _ => true
  | _ => false
  end.

(** A segment that [setNestedValue] walks or assigns: not empty, not
    forbidden, with an index within the bound, and not the [length] of an
    array. *)
Definition ordinary (seg : string) : bool :=
  negb (Str.is_empty seg) && negb (forbidden seg)
  && match arrayMatch seg with
     | Some (propName, index) =>
         negb (forbidden propName) && negb (MAX_ARRAY_INDEX <? index)%N
         && negb (String.eqb propName "length")
     | None => negb (String.eqb seg "length")
     end.

(** No array inside the value has an own property named [push]: the
    arrays of the value grow by the method that they inherit.  Data that
    the YAML library has loaded is such, its arrays having no named
    property at all. *)
Fixpoint push_free (v : value) : bool :=
  match v with
  | VArr elems named =>
      match assoc "push" named with
      | Some _ => false
      | None =>
          forallb push_free elems
          && (fix all (l : list (string * value)) : bool :=
                match l with
                | [] => true
                | (_, x) :: rest => push_free x && all rest
                end) named
      end
  | VObj props =>
      (fix all (l : list (string * value)) : bool :=
         match l with
         | [] => true
         | (_, x) :: rest => push_free x && all rest
         end) props
  | _ => true
  end.

(** The elements of an array after the loop that grows it up to an index,
    when the loop ends. *)
Definition grown (elems : list value) (index : N) (filler : value)
  : list value :=
  elems ++ repeat filler (N.to_nat index + 1 - List.length elems).

Lemma push_free_props (props : list (string * value)) (k : string)
      (v : value) :
  push_free (VObj props) = true -> assoc k props = Some v ->
  push_free v = true.
Proof.
  induction props as [| [k' x] props IH]; simpl; intros Hs Ha;
    [discriminate |].
  apply andb_prop in Hs. destruct Hs as [Hx Hrest].
  destruct (String.eqb k' k).
  - inversion Ha; subst. assumption.
  - apply IH; assumption.
Qed.

Lemma push_free_array (elems : list value) (named : list (string * value)) :
  push_free (VArr elems named) = true ->
  assoc "push" named = None
  /\ forallb push_free elems = true
  /\ push_free (VObj named) = true.
Proof.
  cbn [push_free]. destruct (assoc "push" named); [discriminate |].
  intros H. apply andb_prop in H. tauto.
Qed.

Lemma push_free_nth (elems : list value) (i : N) :
  forallb push_free elems = true -> push_free (nth_elem i elems) = true.
Proof.
  intros H. unfold nth_elem.
  destruct (nth_in_or_default (N.to_nat i) elems VUndefined) as [Hin | Hd].
  - rewrite forallb_forall in H. now apply H.
  - now rewrite Hd.
Qed.

Lemma push_free_grown (elems : list value) (index : N) :
  forallb push_free elems = true ->
  forallb push_free (grown elems index (VObj [])) = true.
Proof.
  intros H. unfold grown. rewrite forallb_app, H. cbn [andb].
  induction (N.to_nat index + 1 - List.length elems) as [| n IH];
    [reflexivity | exact IH].
Qed.

Lemma push_free_set_nth (i : nat) (v : value) :
  push_free v = true ->
  forall elems,
    forallb push_free elems = true ->
    forallb push_free (set_nth i v elems) = true.
Proof.
  intros Hv. induction i as [| i IH]; intros [| e elems] H; simpl in *;
    try (apply andb_prop in H; destruct H as [He H]);
    rewrite ?Hv, ?He; cbn [andb]; auto.
Qed.

Lemma assoc_set_same (k : string) (v : value)
      (props : list (string * value)) :
  assoc k (assoc_set k v props) = Some v.
Proof.
  induction props as [| [k' w] props IH]; simpl.
  - now rewrite String.eqb_refl.
  - destruct (String.eqb k' k) eqn:E; simpl; rewrite E; [reflexivity | exact IH].
Qed.

Lemma assoc_set_other (k k' : string) (v : value)
      (props : list (string * value)) :
  k' <> k -> assoc k' (assoc_set k v props) = assoc k' props.
Proof.
  intros Hne. induction props as [| [k0 w] props IH]; simpl.
  - destruct (String.eqb_spec k k'); [congruence | reflexivity].
  - destruct (String.eqb_spec k0 k) as [-> | Hk0]; simpl.
    + destruct (String.eqb_spec k k'); [congruence | reflexivity].
    + destruct (String.eqb k0 k'); [reflexivity | exact IH].
Qed.

Lemma nth_set_nth (i : nat) (v : value) :
  forall elems, nth i (set_nth i v elems) VUndefined = v.
Proof.
  induction i as [| i IH]; intros [| e elems]; simpl; auto.
Qed.

Lemma length_set_nth (i : nat) (v : value) :
  forall elems, i < List.length (set_nth i v elems).
Proof.
  induction i as [| i IH]; intros [| e elems]; simpl; try lia.
  - specialize (IH []). lia.
  - specialize (IH elems). lia.
Qed.

Lemma object_shaped_inv (o : value) :
  object_shaped o = true ->
  (exists elems named, o = VArr elems named) \/ (exists props, o = VObj props).
Proof.
  destruct o; try discriminate; intros _; [left | right]; eauto.
Qed.

(** The identifier of [identifier[index]] is not empty. *)
Lemma arrayMatch_name (seg propName : string) (index : N) :
  arrayMatch seg = Some (propName, index) -> Str.is_empty propName = false.
Proof.
  unfold arrayMatch.
  destruct (String_match array_segment seg) as [m |] eqn:Hm;
    [| discriminate].
  destruct (group1 m) as [g1 |] eqn:Hg1; [| discriminate].
  destruct (group2 m) as [g2 |] eqn:Hg2; [| discriminate].
  intros H. inversion H; subst propName index.
  unfold String_match in Hm. apply search_sound in Hm.
  destruct Hm as [pre [s' [idx' [_ Hm]]]].
  apply match_here_sound in Hm.
  destruct Hm as [post [c' [_ [Hd [_ [H1 _]]]]]].
  unfold array_segment in Hd. cbn [derives] in Hd.
  destruct Hd as [x1 [x2 [c1 [_ [[_ Hc1] Hd]]]]].
  destruct Hd as [x3 [x4 [c2 [_ [[c3 [[Hne [_ Hc3]] Hc2]] Hd]]]]].
  destruct Hd as [x5 [x6 [c4 [_ [[_ Hc4] Hd]]]]].
  destruct Hd as [x7 [x8 [c5 [_ [[c6 [[_ [_ Hc6]] Hc5]] Hd]]]]].
  destruct Hd as [x9 [x10 [c7 [_ [[_ Hc7] [_ Hc']]]]]].
  subst. cbn [set_cap cap1 cap2] in H1. rewrite Hg1 in H1.
  inversion H1; subst g1. now destruct x3.
Qed.

Section WithHost.
Context {host : Host}.

Lemma has_property_shaped (o : value) (key : string) :
  object_shaped o = true -> exists b, has_property o key = Ok b.
Proof. destruct o; try discriminate; intros _; simpl; eauto. Qed.

(** The arrays of the engine inherit a method [push]. *)
Definition inherits_push : bool :=
  mem "push" array_prototype || mem "push" object_prototype.

(** What a property of such a value holds is such a value. *)
Lemma get_property_push_free (o : value) (k : string) (v : value) :
  push_free o = true -> get_property o k = Data v -> push_free v = true.
Proof.
  intros Hfree. destruct o as [| | | | | elems named | props];
    cbn [get_property]; try (intros H; inversion H; reflexivity).
  - apply push_free_array in Hfree. destruct Hfree as [_ [Helems Hnamed]].
    destruct (array_index k) as [i |].
    + intros H. inversion H. now apply push_free_nth.
    + unfold array_named. destruct (String.eqb k "length").
      * intros H. inversion H. reflexivity.
      * destruct (assoc k named) as [w |] eqn:Hw.
        -- intros H. inversion H; subst w.
           exact (push_free_props named k v Hnamed Hw).
        -- destruct (_ || _); intros H; inversion H. reflexivity.
  - destruct (assoc k props) as [w |] eqn:Hw.
    + intros H. inversion H; subst w.
      exact (push_free_props props k v Hfree Hw).
    + destruct (mem k object_prototype); intros H; inversion H.
      reflexivity.
Qed.

(** The loop that grows an array ends with the array grown, unless the
    array has an own property [push] (or inherits no such method), and
    then it throws. *)
Lemma grow_cases (elems : list value) (named : list (string * value))
      (index : N) (filler : value) :
  grow elems named index filler = Ok (grown elems index filler)
  \/ (grow elems named index filler = Throw TypeError
      /\ inherits_push && push_free (VArr elems named) = false).
Proof.
  unfold grow, grown.
  destruct (index <? length_of elems)%N eqn:Hlt.
  - left. apply N.ltb_lt in Hlt. unfold length_of in Hlt.
    replace (N.to_nat index + 1 - List.length elems) with 0 by lia.
    cbn [repeat]. now rewrite app_nil_r.
  - unfold array_named. change (String.eqb "push" "length") with false.
    cbv iota. cbn [push_free]. fold inherits_push.
    destruct (assoc "push" named).
    + right. split; [reflexivity | apply andb_false_r].
    + destruct inherits_push; [left | right]; auto.
Qed.

(** [obj[key] = v] and then [obj[key]], [key in obj]. *)
Lemma set_property_get (o : value) (key : string) (v : value) :
  object_shaped o = true -> forbidden key = false ->
  String.eqb key "length" = false ->
  exists o',
    set_property o key v = Ok o' /\ object_shaped o' = true
    /\ get_property o' key = Data v /\ has_property o' key = Ok true.
Proof.
  intros Hshape Hforb Hlen. pose proof (forbidden_proto _ Hforb) as Hproto.
  destruct o as [| | | | | elems named | props]; try discriminate.
  - cbn [set_property].
    destruct (array_index key) as [i |] eqn:Hi.
    + eexists. split; [reflexivity |]. cbn [object_shaped get_property has_property].
      rewrite Hi. split; [reflexivity |]. split.
      * unfold nth_elem. now rewrite nth_set_nth.
      * f_equal. apply N.ltb_lt. unfold length_of.
        pose proof (length_set_nth (N.to_nat i) v elems). lia.
    + rewrite Hlen, Hproto. eexists. split; [reflexivity |].
      cbn [object_shaped get_property has_property]. rewrite Hi.
      unfold array_named. rewrite Hlen, assoc_set_same. cbn [orb].
      repeat split.
  - cbn [set_property]. rewrite Hproto. eexists. split; [reflexivity |].
    cbn [object_shaped get_property has_property].
    rewrite assoc_set_same. repeat split.
Qed.

(** The object at [key] after [store_back]. *)
Lemma store_back_get (current : value) (key : string) (child : value) :
  object_shaped current = true -> object_shaped child = true ->
  String.eqb key "length" = false ->
  object_shaped (store_back current key child) = true
  /\ get_property (store_back current key child) key = Data child
  /\ has_property (store_back current key child) key = Ok true.
Proof.
  intros Hcur Hchild Hlen.
  destruct current as [| | | | | elems named | props]; try discriminate;
    destruct child as [| | | | | e n | p]; try discriminate;
    cbn [store_back].
  all: try (destruct (array_index key) as [i |] eqn:Hi).
  all: cbn [object_shaped get_property has_property];
    rewrite ?Hi; unfold array_named; rewrite ?Hlen, ?assoc_set_same;
    cbn [orb]; repeat split.
  all: try (unfold nth_elem; now rewrite nth_set_nth).
  all: f_equal; apply N.ltb_lt; unfold length_of;
    match goal with
    | |- context [set_nth ?a ?b ?c] => pose proof (length_set_nth a b c)
    end; lia.
Qed.

(** One turn of the loop of [getNestedValue] at a key that the object
    has. *)
Lemma loop_step (key : string) (rest : list string) (o : value)
      (ci : bool) :
  object_shaped o = true -> has_property o key = Ok true ->
  Str.is_empty key = false -> forbidden key = false ->
  arrayMatch key = None ->
  getNestedValue_loop (key :: rest) (Data o) ci
  = getNestedValue_loop rest (get_property o key) ci.
Proof.
  intros Hshape Hhas Hne Hforb Harr. cbn [getNestedValue_loop].
  rewrite Harr.
  assert (Hfind : found (findKey (Data o) key ci) = Some key).
  { unfold findKey.
    destruct o as [| | | | | elems named | props]; try discriminate;
      rewrite Hforb, Hhas; unfold found; now rewrite Hne. }
  rewrite Hfind. cbn [get].
  destruct o as [| | | | | elems named | props]; try discriminate;
    reflexivity.
Qed.

Lemma loop_step_array (seg : string) (rest : list string) (o : value)
      (propName : string) (index : N) (e : list value)
      (n : list (string * value)) (ci : bool) :
  object_shaped o = true -> arrayMatch seg = Some (propName, index) ->
  forbidden propName = false -> has_property o propName = Ok true ->
  get_property o propName = Data (VArr e n) ->
  getNestedValue_loop (seg :: rest) (Data o) ci
  = getNestedValue_loop rest (get_index (VArr e n) index) ci.
Proof.
  intros Hshape Harr Hforb Hhas Hget. cbn [getNestedValue_loop].
  rewrite Harr.
  assert (Hfind : found (findKey (Data o) propName ci) = Some propName).
  { unfold findKey.
    destruct o as [| | | | | elems named | props]; try discriminate;
      rewrite Hforb, Hhas; unfold found;
      now rewrite (arrayMatch_name _ _ _ Harr). }
  rewrite Hfind. cbn [get]. rewrite Hget.
  destruct o as [| | | | | elems named | props]; try discriminate;
    reflexivity.
Qed.

(** After [ensure_array] the identifier holds an array. *)
Lemma ensure_array_spec (current : value) (propName : string) :
  object_shaped current = true -> forbidden propName = false ->
  String.eqb propName "length" = false ->
  exists current' e n,
    ensure_array current propName = Ok current'
    /\ object_shaped current' = true
    /\ get_property current' propName = Data (VArr e n)
    /\ has_property current' propName = Ok true
    /\ (push_free current = true -> push_free (VArr e n) = true).
Proof.
  intros Hshape Hforb Hlen. unfold ensure_array.
  destruct (has_property_shaped current propName Hshape) as [has Hhas].
  rewrite Hhas. cbn [bind].
  destruct (negb has || negb (isArray (get_property current propName)))
    eqn:Hcond.
  - destruct (set_property_get current propName (VArr [] []) Hshape Hforb
                               Hlen) as [o' [Hset [Ho' [Hget Hhas']]]].
    exists o', [], []. auto 6.
  - apply orb_false_elim in Hcond. destruct Hcond as [H1 H2].
    apply negb_false_iff in H1, H2. subst has.
    destruct (get_property current propName) as [[| | | | | e n | p] | b]
      eqn:Hget; try discriminate.
    exists current, e, n. repeat split; auto.
    intros Hfree. exact (get_property_push_free _ _ _ Hfree Hget).
Qed.

Lemma get_index_set (index : N) (v : value) (elems : list value)
      (named : list (string * value)) :
  (MAX_ARRAY_INDEX <? index)%N = false ->
  get_index (VArr (set_nth (N.to_nat index) v elems) named) index = Data v.
Proof.
  intros Hmax. cbn [get_index].
  assert (H : (index <? max_array_length)%N = true).
  { apply N.ltb_lt. apply N.ltb_ge in Hmax.
    unfold MAX_ARRAY_INDEX, max_array_length in *. lia. }
  rewrite H. unfold nth_elem. now rewrite nth_set_nth.
Qed.

Lemma ordinary_inv (seg : string) :
  ordinary seg = true ->
  Str.is_empty seg = false /\ forbidden seg = false
  /\ match arrayMatch seg with
     | Some (propName, index) =>
         forbidden propName = false
         /\ (MAX_ARRAY_INDEX <? index)%N = false
         /\ String.eqb propName "length" = false
     | None => String.eqb seg "length" = false
     end.
Proof.
  unfold ordinary. intros H.
  apply andb_prop in H. destruct H as [H H3].
  apply andb_prop in H. destruct H as [H1 H2].
  apply negb_true_iff in H1, H2. split; [exact H1 | split; [exact H2 |]].
  destruct (arrayMatch seg) as [[propName index] |].
  - apply andb_prop in H3. destruct H3 as [H3 H5].
    apply andb_prop in H3. destruct H3 as [H3 H4].
    apply negb_true_iff in H3, H4, H5. auto.
  - now apply negb_true_iff in H3.
Qed.

(** How the statements for a path end in a node that is an object or an
    array: with the node in a state in which the path reads the value
    written; or, when an array met on the way has an own property [push]
    (or the arrays inherit no such method), with the TypeError of the
    loop that grows the array. *)
Definition written (keys : list string) (v : value) (ci : bool)
           (current : value) (x : outcome value) : Prop :=
  match x with
  | Ok current' =>
      object_shaped current' = true
      /\ getNestedValue_loop keys (Data current') ci = Data v
  | Throw TypeError => inherits_push && push_free current = false
  | _ => False
  end.

Lemma not_pushing (current child : value) :
  (push_free current = true -> push_free child = true) ->
  inherits_push && push_free child = false ->
  inherits_push && push_free current = false.
Proof.
  intros Himp H. destruct inherits_push; [| reflexivity].
  cbn [andb] in *. destruct (push_free current); [| reflexivity].
  now rewrite Himp in H.
Qed.

(** The final key: the value is assigned and read back. *)
Lemma final_step_get (finalKey : string) (current v : value) (ci : bool) :
  object_shaped current = true -> ordinary finalKey = true ->
  written [finalKey] v ci current (final_step finalKey current v).
Proof.
  intros Hshape Hord. apply ordinary_inv in Hord.
  destruct Hord as [Hne [Hforb Hseg]]. unfold final_step. rewrite Hforb.
  destruct (arrayMatch finalKey) as [[propName index] |] eqn:Harr.
  - destruct Hseg as [Hfp [Hmax Hlen]]. rewrite Hfp.
    destruct (ensure_array_spec current propName Hshape Hfp Hlen)
      as [c1 [e [n [Hens [Hc1 [Hget [Hhas Hfree]]]]]]].
    rewrite Hens. cbn [bind]. rewrite Hmax, Hget.
    destruct (grow_cases e n index VNull) as [Hgrow | [Hgrow Hwhy]];
      rewrite Hgrow; cbn [bind written].
    + destruct (store_back_get c1 propName
                  (VArr (set_nth (N.to_nat index) v (grown e index VNull))
                        n)
                  Hc1 eq_refl Hlen) as [Hs [Hg Hh]].
      split; [exact Hs |].
      rewrite (loop_step_array finalKey [] _ propName index _ _ ci Hs Harr
                               Hfp Hh Hg).
      cbn [getNestedValue_loop]. now apply get_index_set.
    + exact (not_pushing _ _ Hfree Hwhy).
  - destruct (set_property_get current finalKey v Hshape Hforb Hseg)
      as [o' [Hset [Ho' [Hget Hhas]]]].
    rewrite Hset. cbn [written]. split; [exact Ho' |].
    rewrite (loop_step finalKey [] o' ci Ho' Hhas Hne Hforb Harr).
    cbn [getNestedValue_loop]. exact Hget.
Qed.

(** A key before the final one: what the rest of the path reads in the
    node is read through the key. *)
Lemma intermediate_step_get (key : string) (rest : list string)
      (current v : value) (ci : bool) (descend : value -> outcome value) :
  object_shaped current = true -> ordinary key = true ->
  (forall child,
      object_shaped child = true ->
      written rest v ci child (descend child)) ->
  written (key :: rest) v ci current
          (intermediate_step key current descend).
Proof.
  intros Hshape Hord Hdescend. apply ordinary_inv in Hord.
  destruct Hord as [Hne [Hforb Hseg]]. unfold intermediate_step.
  rewrite Hforb.
  destruct (arrayMatch key) as [[propName index] |] eqn:Harr.
  - destruct Hseg as [Hfp [Hmax Hlen]]. rewrite Hfp.
    destruct (ensure_array_spec current propName Hshape Hfp Hlen)
      as [c1 [e [n [Hens [Hc1 [Hget [Hhas Hfree]]]]]]].
    rewrite Hens. cbn [bind]. rewrite Hmax, Hget.
    destruct (grow_cases e n index (VObj [])) as [Hgrow | [Hgrow Hwhy]];
      rewrite Hgrow; cbn [bind];
      [| exact (not_pushing _ _ Hfree Hwhy)].
    set (elems1 := grown e index (VObj [])).
    set (elems2 :=
           if typeof_object (Data (nth_elem index elems1))
              && negb (is_null (Data (nth_elem index elems1)))
           then elems1
           else set_nth (N.to_nat index) (VObj []) elems1).
    assert (Hnode : object_shaped (nth_elem index elems2) = true).
    { unfold elems2.
      destruct (typeof_object (Data (nth_elem index elems1))
                && negb (is_null (Data (nth_elem index elems1)))) eqn:Hc.
      - destruct (nth_elem index elems1); try discriminate; reflexivity.
      - unfold nth_elem. now rewrite nth_set_nth. }
    assert (Hkeep : push_free current = true ->
                    push_free (nth_elem index elems2) = true).
    { intros Hcur. apply Hfree in Hcur. apply push_free_array in Hcur.
      destruct Hcur as [_ [Helems _]].
      apply push_free_nth. unfold elems2.
      destruct (_ && _);
        [| apply push_free_set_nth; [reflexivity |]];
        now apply push_free_grown. }
    pose proof (Hdescend _ Hnode) as Hwritten.
    destruct (descend (nth_elem index elems2)) as [child' | [|] | |];
      cbn [bind written] in *; try contradiction;
      [| exact (not_pushing _ _ Hkeep Hwritten)].
    destruct Hwritten as [Hchild' Hread].
    destruct (store_back_get c1 propName
                (VArr (set_nth (N.to_nat index) child' elems2) n)
                Hc1 eq_refl Hlen) as [Hs [Hg Hh]].
    split; [exact Hs |].
    rewrite (loop_step_array key rest _ propName index _ _ ci Hs Harr
                             Hfp Hh Hg).
    rewrite get_index_set by exact Hmax. exact Hread.
  - destruct (has_property_shaped current key Hshape) as [has Hhas].
    rewrite Hhas. cbn [bind].
    assert (Hnode :
              exists c1 child,
                (if negb has then set_property current key (VObj [])
                 else if negb (typeof_object (get_property current key))
                         || is_null (get_property current key)
                      then set_property current key (VObj [])
                      else Ok current) = Ok c1
                /\ object_shaped c1 = true
                /\ get_property c1 key = Data child
                /\ object_shaped child = true
                /\ (push_free current = true -> push_free child = true)).
    { destruct (set_property_get current key (VObj []) Hshape Hforb Hseg)
        as [o' [Hset [Ho' [Hget _]]]].
      destruct (negb has); [exists o', (VObj []); auto 6 |].
      destruct (negb (typeof_object (get_property current key))
                || is_null (get_property current key)) eqn:Hc;
        [exists o', (VObj []); auto 6 |].
      apply orb_false_elim in Hc. destruct Hc as [H1 H2].
      apply negb_false_iff in H1.
      destruct (get_property current key) as [[| | | | | e n | p] | b]
        eqn:Hg; try discriminate.
      - exists current, (VArr e n). repeat split; auto.
        intros Hcur. exact (get_property_push_free _ _ _ Hcur Hg).
      - exists current, (VObj p). repeat split; auto.
        intros Hcur. exact (get_property_push_free _ _ _ Hcur Hg). }
    destruct Hnode as [c1 [child [Hc1 [Hs1 [Hget [Hchild Hkeep]]]]]].
    rewrite Hc1. cbn [bind]. rewrite Hget.
    pose proof (Hdescend _ Hchild) as Hwritten.
    destruct (descend child) as [child' | [|] | |];
      cbn [bind written] in *; try contradiction;
      [| exact (not_pushing _ _ Hkeep Hwritten)].
    destruct Hwritten as [Hchild' Hread].
    destruct (store_back_get c1 key child' Hs1 Hchild' Hseg)
      as [Hs [Hg Hh]].
    split; [exact Hs |].
    rewrite (loop_step key rest _ ci Hs Hh Hne Hforb Harr).
    rewrite Hg. exact Hread.
Qed.

(** The path written is the path read. *)
Lemma setNestedValue_loop_written (v : value) (ci : bool)
      (keys : list string) :
  keys <> [] -> forallb ordinary keys = true ->
  forall current,
    object_shaped current = true ->
    written keys v ci current (setNestedValue_loop keys current v).
Proof.
  induction keys as [| key rest IH]; intros Hne Hord current Hshape;
    [congruence |].
  cbn [forallb] in Hord. apply andb_prop in Hord.
  destruct Hord as [Hkey Hrest].
  destruct rest as [| key' rest'].
  - cbn [setNestedValue_loop]. now apply final_step_get.
  - rewrite setNestedValue_loop_cons by discriminate.
    apply intermediate_step_get; try assumption.
    intros child Hchild. apply IH; [discriminate | assumption | assumption].
Qed.

(** When the call returns, the path reads the value. *)
Lemma setNestedValue_loop_get (v : value) (ci : bool) (keys : list string)
      (current current' : value) :
  keys <> [] -> forallb ordinary keys = true ->
  object_shaped current = true ->
  setNestedValue_loop keys current v = Ok current' ->
  object_shaped current' = true
  /\ getNestedValue_loop keys (Data current') ci = Data v.
Proof.
  intros Hne Hord Hshape Hset.
  pose proof (setNestedValue_loop_written v ci keys Hne Hord current Hshape)
    as H.
  rewrite Hset in H. exact H.
Qed.

(** It returns when no array of the root has an own property [push]. *)
Lemma setNestedValue_loop_returns (v : value) (keys : list string)
      (current : value) :
  keys <> [] -> forallb ordinary keys = true ->
  object_shaped current = true ->
  inherits_push = true -> push_free current = true ->
  exists current', setNestedValue_loop keys current v = Ok current'.
Proof.
  intros Hne Hord Hshape Hhost Hfree.
  pose proof (setNestedValue_loop_written v false keys Hne Hord current
                                          Hshape) as H.
  destruct (setNestedValue_loop keys current v) as [c' | [|] | |];
    cbn [written] in H; try contradiction; [eauto |].
  rewrite Hhost, Hfree in H. discriminate.
Qed.

(** ** What a call leaves alone *)

(** The own property that a segment names in the node where it is
    applied. *)
Definition first_key (seg : string) : string :=
  match arrayMatch seg with
  | Some (propName, _) => propName
  | None => seg
  end.

(** [props'] is [props] after at most two assignments to the key [k]. *)
Definition touched (k : string) (props props' : list (string * value))
  : Prop :=
  props' = props
  \/ (exists v, props' = assoc_set k v props)
  \/ (exists v w, props' = assoc_set k w (assoc_set k v props)).

Lemma touched_step (k : string) (w : value)
      (props props1 : list (string * value)) :
  props1 = props \/ (exists v, props1 = assoc_set k v props) ->
  touched k props (assoc_set k w props1).
Proof.
  intros [-> | [v ->]]; [right; left | right; right]; eauto.
Qed.

Lemma touched_weaken (k : string) (props props1 : list (string * value)) :
  props1 = props \/ (exists v, props1 = assoc_set k v props) ->
  touched k props props1.
Proof. intros [-> | [v ->]]; [left | right; left]; eauto. Qed.

Lemma assoc_set_keys (k : string) (v : value)
      (props : list (string * value)) :
  map fst (assoc_set k v props)
  = match assoc k props with
    | Some _ => map fst props
    | None => map fst props ++ [k]
    end.
Proof.
  induction props as [| [k0 w] props IH]; simpl; [reflexivity |].
  destruct (String.eqb k0 k) eqn:E; simpl; [reflexivity |].
  rewrite IH. now destruct (assoc k props).
Qed.

(** The other keys keep their values, and every key keeps its place; a
    new key comes last. *)
Lemma touched_frame (k : string) (props props' : list (string * value)) :
  touched k props props' ->
  (forall k', k' <> k -> assoc k' props' = assoc k' props)
  /\ (map fst props' = map fst props
      \/ (assoc k props = None /\ map fst props' = map fst props ++ [k])).
Proof.
  intros [-> | [[v ->] | [v [w ->]]]].
  - auto.
  - split; [intros k' Hk'; now apply assoc_set_other |].
    rewrite assoc_set_keys. destruct (assoc k props); auto.
  - split.
    + intros k' Hk'. now rewrite !assoc_set_other.
    + rewrite assoc_set_keys, assoc_set_same, assoc_set_keys.
      destruct (assoc k props); auto.
Qed.

(** ** The order of [Object.keys] *)

Lemma insert_sorted_comm (a b : N) (l : list N) :
  insert_sorted a (insert_sorted b l) = insert_sorted b (insert_sorted a l).
Proof.
  induction l as [| c l IH];
    repeat (cbn [insert_sorted];
            match goal with
            | |- context [(?x <=? ?y)%N] => destruct (N.leb_spec x y)
            end);
    try reflexivity; try lia;
    try (assert (a = b) by lia; subst; reflexivity).
  now rewrite IH.
Qed.

(** The keys after a key that is an array index has been added. *)
Lemma index_keys_added (k : string) (i : N) (keys : list string) :
  array_index k = Some i ->
  index_keys (keys ++ [k]) = insert_sorted i (index_keys keys)
  /\ other_keys (keys ++ [k]) = other_keys keys.
Proof.
  intros Hk. unfold index_keys, other_keys. split.
  - induction keys as [| k0 keys IH]; cbn [app fold_right].
    + now rewrite Hk.
    + rewrite IH. destruct (array_index k0); [| reflexivity].
      apply insert_sorted_comm.
  - rewrite filter_app. cbn [filter]. rewrite Hk. apply app_nil_r.
Qed.

(** The keys after any other key has been added. *)
Lemma other_keys_added (k : string) (keys : list string) :
  array_index k = None ->
  index_keys (keys ++ [k]) = index_keys keys
  /\ other_keys (keys ++ [k]) = other_keys keys ++ [k].
Proof.
  intros Hk. unfold index_keys, other_keys. split.
  - induction keys as [| k0 keys IH]; cbn [app fold_right].
    + now rewrite Hk.
    + now rewrite IH.
  - rewrite filter_app. cbn [filter]. now rewrite Hk.
Qed.

(** [Object.keys] after the assignments to the key [k]: as before when
    the key was there; with a new key last when it is no array index, and
    otherwise at its place among the array indices, which come first in
    ascending order. *)
Lemma touched_keys (k : string) (props props' : list (string * value)) :
  touched k props props' ->
  match assoc k props with
  | Some _ => Object_keys (VObj props') = Object_keys (VObj props)
  | None =>
      props' = props
      \/ match array_index k with
         | Some i =>
             Object_keys (VObj props')
             = map decimal (insert_sorted i (index_keys (map fst props)))
               ++ other_keys (map fst props)
         | None =>
             Object_keys (VObj props') = Object_keys (VObj props) ++ [k]
         end
  end.
Proof.
  intros Htouched.
  assert (Hkeys : props' = props
                  \/ map fst props'
                     = match assoc k props with
                       | Some _ => map fst props
                       | None => map fst props ++ [k]
                       end).
  { destruct Htouched as [-> | [[v ->] | [v [w ->]]]]; [now left | |];
      right.
    - apply assoc_set_keys.
    - rewrite assoc_set_keys, assoc_set_same. apply assoc_set_keys. }
  cbn [Object_keys]. unfold ordered_keys.
  destruct (assoc k props) as [old |].
  - destruct Hkeys as [-> | ->]; reflexivity.
  - destruct Hkeys as [-> | ->]; [now left | right].
    destruct (array_index k) as [i |] eqn:Hk.
    + destruct (index_keys_added k i (map fst props) Hk) as [-> ->].
      reflexivity.
    + destruct (other_keys_added k (map fst props) Hk) as [-> ->].
      now rewrite app_assoc.
Qed.

Lemma set_property_obj (props : list (string * value)) (key : string)
      (v : value) :
  forbidden key = false ->
  set_property (VObj props) key v = Ok (VObj (assoc_set key v props)).
Proof.
  intros Hforb. cbn [set_property]. now rewrite (forbidden_proto _ Hforb).
Qed.

Lemma ensure_array_obj (props : list (string * value)) (propName : string) :
  forbidden propName = false ->
  exists props1,
    ensure_array (VObj props) propName = Ok (VObj props1)
    /\ (props1 = props
        \/ exists v, props1 = assoc_set propName v props).
Proof.
  intros Hforb. unfold ensure_array. cbn [has_property bind].
  match goal with
  | |- context [if ?c then _ else _] => destruct c
  end.
  - rewrite set_property_obj by assumption. eauto.
  - eauto.
Qed.

Lemma store_back_obj (props : list (string * value)) (key : string)
      (child : value) :
  exists props',
    store_back (VObj props) key child = VObj props'
    /\ (props' = props \/ props' = assoc_set key child props).
Proof. destruct child; cbn [store_back]; eauto. Qed.

Lemma final_step_obj (seg : string) (props : list (string * value))
      (v current' : value) :
  final_step seg (VObj props) v = Ok current' ->
  exists props', current' = VObj props' /\ touched (first_key seg) props props'.
Proof.
  unfold final_step, first_key.
  destruct (forbidden seg) eqn:Hforb.
  { intros H. inversion H. exists props. split; [reflexivity | now left]. }
  destruct (arrayMatch seg) as [[propName index] |].
  - destruct (forbidden propName) eqn:Hfp.
    { intros H. inversion H. exists props. split; [reflexivity | now left]. }
    destruct (ensure_array_obj props propName Hfp) as [props1 [Hens H1]].
    rewrite Hens. cbn [bind].
    destruct (MAX_ARRAY_INDEX <? index)%N.
    { intros H. inversion H. exists props1.
      split; [reflexivity | now apply touched_weaken]. }
    destruct (get_property (VObj props1) propName)
      as [[| | | | | e n | p] | b]; try discriminate.
    destruct (grow e n index VNull); try discriminate. cbn [bind].
    intros H. inversion H. cbn [store_back]. eexists.
    split; [reflexivity | now apply touched_step].
  - rewrite set_property_obj by assumption. intros H. inversion H.
    eexists. split; [reflexivity |]. right. left. eauto.
Qed.

Lemma intermediate_step_obj (seg : string) (props : list (string * value))
      (descend : value -> outcome value) (current' : value) :
  intermediate_step seg (VObj props) descend = Ok current' ->
  exists props', current' = VObj props' /\ touched (first_key seg) props props'.
Proof.
  unfold intermediate_step, first_key.
  destruct (forbidden seg) eqn:Hforb.
  { intros H. inversion H. exists props. split; [reflexivity | now left]. }
  destruct (arrayMatch seg) as [[propName index] |].
  - destruct (forbidden propName) eqn:Hfp.
    { intros H. inversion H. exists props. split; [reflexivity | now left]. }
    destruct (ensure_array_obj props propName Hfp) as [props1 [Hens H1]].
    rewrite Hens. cbn [bind].
    destruct (MAX_ARRAY_INDEX <? index)%N.
    { intros H. inversion H. exists props1.
      split; [reflexivity | now apply touched_weaken]. }
    destruct (get_property (VObj props1) propName)
      as [[| | | | | e n | p] | b]; try discriminate.
    destruct (grow e n index (VObj [])); try discriminate. cbn [bind].
    match goal with
    | |- bind (descend ?x) _ = _ -> _ => destruct (descend x)
    end; try discriminate.
    cbn [bind]. intros H. inversion H. cbn [store_back]. eexists.
    split; [reflexivity | now apply touched_step].
  - cbn [has_property bind].
    assert (Hnode :
              forall b : bool,
              exists props1,
                (if b then set_property (VObj props) seg (VObj [])
                 else if negb (typeof_object (get_property (VObj props) seg))
                         || is_null (get_property (VObj props) seg)
                      then set_property (VObj props) seg (VObj [])
                      else Ok (VObj props)) = Ok (VObj props1)
                /\ (props1 = props
                    \/ exists v, props1 = assoc_set seg v props)).
    { intros b. rewrite set_property_obj by assumption.
      destruct b; [eauto |].
      match goal with
      | |- context [if ?c then _ else _] => destruct c
      end; eauto. }
    match goal with
    | |- bind (if ?b then _ else _) _ = _ -> _ =>
        destruct (Hnode b) as [props1 [Hc1 H1]]
    end.
    rewrite Hc1. cbn [bind].
    destruct (get_property (VObj props1) seg) as [child | b];
      [| discriminate].
    destruct (descend child) as [child' | | |]; try discriminate.
    cbn [bind]. intros H. inversion H.
    destruct (store_back_obj props1 seg child') as [props' [Hs [-> | ->]]];
      rewrite Hs; eexists; (split; [reflexivity |]).
    + now apply touched_weaken.
    + now apply touched_step.
Qed.

Lemma setNestedValue_loop_obj (seg : string) (rest : list string)
      (props : list (string * value)) (v current' : value) :
  setNestedValue_loop (seg :: rest) (VObj props) v = Ok current' ->
  exists props', current' = VObj props' /\ touched (first_key seg) props props'.
Proof.
  destruct rest as [| key' rest'].
  - cbn [setNestedValue_loop]. apply final_step_obj.
  - rewrite setNestedValue_loop_cons by discriminate.
    apply intermediate_step_obj.
Qed.

(** ** A root that is no object *)

Lemma ensure_array_primitive (current : value) (propName : string) :
  object_shaped current = false ->
  ensure_array current propName = Throw TypeError.
Proof. destruct current; try discriminate; reflexivity. Qed.

Lemma setNestedValue_loop_primitive (seg : string) (rest : list string)
      (current v : value) :
  object_shaped current = false -> forbidden_segment seg = false ->
  setNestedValue_loop (seg :: rest) current v = Throw TypeError.
Proof.
  intros Hshape Hseg. unfold forbidden_segment in Hseg.
  apply orb_false_elim in Hseg. destruct Hseg as [Hforb Hseg].
  destruct rest as [| key' rest'].
  - cbn [setNestedValue_loop]. unfold final_step. rewrite Hforb.
    destruct (arrayMatch seg) as [[propName index] |].
    + rewrite Hseg. now rewrite ensure_array_primitive.
    + destruct current; try discriminate; reflexivity.
  - rewrite setNestedValue_loop_cons by discriminate.
    unfold intermediate_step. rewrite Hforb.
    destruct (arrayMatch seg) as [[propName index] |].
    + rewrite Hseg. now rewrite ensure_array_primitive.
    + destruct current; try discriminate; reflexivity.
Qed.

End WithHost.

(** An array with an own property [push]: the call throws where the array
    has to grow, and returns where it has not. *)
Example own_push_throws :
  setNestedValue (host := ES.es_host)
    (VObj [("x", VArr [] [("push", VNum 1)])]) "x[0]" (VStr "v")
  = Throw TypeError
  /\ setNestedValue (host := ES.es_host)
       (VObj [("x", VArr [VNum 7] [("push", VNum 1)])]) "x[0]" (VStr "v")
     = Ok (VObj [("x", VArr [VStr "v"] [("push", VNum 1)])]).
Proof. split; vm_compute; reflexivity. Qed.

End RoundTripFacts.

(* ================================================================== *)
(** * Where the matches of a scan lie in the text *)

Module ScanTextFacts.
Import Regex RegexFacts PatternFacts ScanFacts.

Lemma slice_from_succ (n : nat) :
  forall t,
    Str.slice_from (S n) t
    = match Str.slice_from n t with
      | String _ s' => s'
      | EmptyString => EmptyString
      end.
Proof.
  induction n as [| n IH]; intros [| c t]; try reflexivity.
  change (Str.slice_from (S (S n)) (String c t))
    with (Str.slice_from (S n) t).
  rewrite IH. reflexivity.
Qed.

Lemma slice_from_next (idx : nat) (text : string) (a : ascii) (s : string) :
  Str.slice_from idx text = String a s -> Str.slice_from (S idx) text = s.
Proof. intros H. now rewrite slice_from_succ, H. Qed.

Lemma slice_from_add (n k : nat) :
  forall t, Str.slice_from (n + k) t = Str.slice_from k (Str.slice_from n t).
Proof.
  induction n as [| n IH]; intros t; [reflexivity |].
  destruct t as [| c t]; simpl; [now destruct k | apply IH].
Qed.

Lemma length_slice_from (n : nat) :
  forall t, String.length (Str.slice_from n t) = String.length t - n.
Proof.
  induction n as [| n IH]; intros [| c t]; simpl; auto.
Qed.

(** The text from [pos] on is the text from [pos] to [idx] and the text
    from [idx] on. *)
Lemma slice_then_rest (pos idx : nat) (text : string) :
  pos <= idx ->
  Str.slice pos idx text +++ Str.slice_from idx text
  = Str.slice_from pos text.
Proof.
  intros Hle. unfold Str.slice.
  replace idx with (pos + (idx - pos)) at 2 by lia.
  rewrite slice_from_add.
  generalize (Str.slice_from pos text) as t. generalize (idx - pos) as n.
  induction n as [| n IH]; intros [| c t]; simpl; auto. now rewrite IH.
Qed.

(** A match that a scan collects lies in the text at its index, not
    before the position that the scan has reached. *)
Lemma match_all_from_located (r : regex) (n0 : nat) (text : string)
      (m : rmatch) :
  forall s idx skip,
    Str.slice_from idx text = s ->
    In m (match_all_from r n0 s idx skip) ->
    idx + skip <= index m
    /\ exists rest, Str.slice_from (index m) text = full m +++ rest.
Proof.
  induction s as [| a s IH]; intros idx skip Hs Hin; simpl in Hin.
  - destruct skip; [| contradiction].
    destruct (match_here r n0 EmptyString idx) as [m0 |] eqn:E;
      [| contradiction].
    destruct Hin as [Hin | []]. subst m0.
    apply match_here_sound in E.
    destruct E as [rest [c' [Hfull [_ [Hidx _]]]]].
    rewrite Hidx. split; [lia |]. exists rest. congruence.
  - pose proof (slice_from_next _ _ _ _ Hs) as Hs'.
    destruct skip as [| k].
    + destruct (match_here r n0 (String a s) idx) as [m0 |] eqn:E.
      * destruct Hin as [Hin | Hin].
        -- subst m0. apply match_here_sound in E.
           destruct E as [rest [c' [Hfull [_ [Hidx _]]]]].
           rewrite Hidx. split; [lia |]. exists rest. congruence.
        -- destruct (IH _ _ Hs' Hin) as [Hle Hrest].
           split; [lia | exact Hrest].
      * destruct (IH _ _ Hs' Hin) as [Hle Hrest].
        split; [lia | exact Hrest].
    + destruct (IH _ _ Hs' Hin) as [Hle Hrest]. split; [lia | exact Hrest].
Qed.

(** The text between the index of a match and its end is the match. *)
Lemma located_slice (text : string) (m : rmatch) (rest : string) :
  full m <> EmptyString ->
  Str.slice_from (index m) text = full m +++ rest ->
  index m + String.length (full m) <= String.length text
  /\ Str.slice (index m) (index m + String.length (full m)) text = full m.
Proof.
  intros Hne H. split.
  - pose proof (length_slice_from (index m) text) as Hlen.
    rewrite H, length_append in Hlen.
    destruct (full m); [congruence |]. simpl in *. lia.
  - unfold Str.slice. rewrite H.
    replace (index m + String.length (full m) - index m)
      with (String.length (full m)) by lia.
    apply BlockFacts.slice_to_append.
Qed.

(** Replacing every match by itself gives the text back. *)
Lemma splice_matches (r : regex) (n0 : nat) (text : string) :
  (forall s idx m, match_here r n0 s idx = Some m -> full m <> EmptyString) ->
  forall s idx skip pos,
    Str.slice_from idx text = s -> pos <= idx + skip ->
    splice text pos
           (map (fun m => (m, full m)) (match_all_from r n0 s idx skip))
    = Str.slice_from pos text.
Proof.
  intros Hne. induction s as [| a s IH]; intros idx skip pos Hs Hpos.
  - cbn [match_all_from]. destruct skip; [| reflexivity].
    destruct (match_here r n0 EmptyString idx) as [m |] eqn:E;
      [| reflexivity].
    pose proof (Hne _ _ _ E) as Hm. apply match_here_sound in E.
    destruct E as [rest [c' [Hfull _]]].
    destruct (full m); [congruence | discriminate].
  - pose proof (slice_from_next _ _ _ _ Hs) as Hs'.
    cbn [match_all_from]. destruct skip as [| k].
    + destruct (match_here r n0 (String a s) idx) as [m |] eqn:E.
      * pose proof (Hne _ _ _ E) as Hm. apply match_here_sound in E.
        destruct E as [rest [c' [Hfull [_ [Hidx _]]]]].
        cbn [map splice fst snd]. rewrite Hidx.
        rewrite (IH (S idx) (pred (String.length (full m)))
                    (idx + String.length (full m)) Hs').
        2:{ destruct (full m); [congruence |]. simpl. lia. }
        rewrite slice_from_add, Hs, Hfull, BlockFacts.slice_from_append.
        rewrite <- Hfull, <- Hs. apply slice_then_rest. lia.
      * apply IH; [exact Hs' | lia].
    + apply IH; [exact Hs' | lia].
Qed.

(** ** The loop with a [return] *)

(** The first result that the body returns over a list of matches. *)
Fixpoint first_outcome {A : Type} (body : rmatch -> outcome (option A))
         (ms : list rmatch) : outcome (option A) :=
  match ms with
  | [] => Ok None
  | m :: rest =>
      bind (body m) (fun returned =>
        match returned with
        | Some a => Ok (Some a)
        | None => first_outcome body rest
        end)
  end.

Lemma exec_until_from_first {A : Type} (body : rmatch -> outcome (option A))
      (r : regex) (n0 : nat) :
  (forall s idx m, match_here r n0 s idx = Some m -> full m <> EmptyString) ->
  forall s idx skip,
    exec_until_from body r n0 s idx skip
    = first_outcome body (match_all_from r n0 s idx skip).
Proof.
  intros Hne. induction s as [| a s IH]; intros idx skip; simpl.
  - destruct skip; [| reflexivity].
    destruct (match_here r n0 EmptyString idx) as [m |] eqn:E;
      [| reflexivity].
    simpl. apply bind_ext. intros [x |]; [reflexivity |].
    specialize (Hne _ _ _ E). destruct (full m); [congruence | reflexivity].
  - destruct skip as [| k]; [| apply IH].
    destruct (match_here r n0 (String a s) idx) as [m |] eqn:E;
      [| apply IH].
    simpl. apply bind_ext. intros [x |]; [reflexivity |].
    specialize (Hne _ _ _ E). destruct (full m) as [| b x]; [congruence |].
    simpl. apply IH.
Qed.

Lemma first_outcome_some {A : Type} (body : rmatch -> outcome (option A))
      (ms : list rmatch) (a : A) :
  first_outcome body ms = Ok (Some a) ->
  exists m, In m ms /\ body m = Ok (Some a).
Proof.
  induction ms as [| m ms IH]; simpl; [discriminate |].
  destruct (body m) as [[x |] | | |] eqn:E; simpl; try discriminate.
  - intros H. inversion H; subst x. eauto.
  - intros H. destruct (IH H) as [m' [Hin Hm']]. eauto.
Qed.

Lemma first_outcome_ok {A : Type} (body : rmatch -> outcome (option A))
      (ms : list rmatch) :
  (forall m, In m ms -> exists returned, body m = Ok returned) ->
  exists returned, first_outcome body ms = Ok returned.
Proof.
  induction ms as [| m ms IH]; intros H; simpl; [eauto |].
  destruct (H m (or_introl eq_refl)) as [[x |] E]; rewrite E; simpl;
    [eauto |].
  apply IH. intros m' Hin. apply H. now right.
Qed.

Lemma first_outcome_none {A : Type} (body : rmatch -> outcome (option A))
      (ms : list rmatch) :
  (forall m, In m ms -> body m = Ok None) ->
  first_outcome body ms = Ok None.
Proof.
  induction ms as [| m ms IH]; intros H; simpl; [reflexivity |].
  rewrite (H m (or_introl eq_refl)). simpl.
  apply IH. intros m' Hin. apply H. now right.
Qed.

(** ** Names *)

Lemma name_not_space (c : ascii) :
  Chars.is_name c = true -> Chars.is_space c = false.
Proof.
  destruct c as [[|] [|] [|] [|] [|] [|] [|] [|]]; vm_compute; congruence.
Qed.

Lemma trimEnd_name (s : string) :
  all_in Chars.is_name s = true -> Str.trimEnd s = s.
Proof.
  induction s as [| c s IH]; [reflexivity |].
  cbn [all_in]. intros H. apply andb_prop in H. destruct H as [Hc Hs].
  cbn [Str.trimEnd]. rewrite (IH Hs).
  destruct s; [now rewrite (name_not_space _ Hc) | reflexivity].
Qed.

(** A captured name has no white space to trim. *)
Lemma trim_name (s : string) :
  all_in Chars.is_name s = true -> Str.trim s = s.
Proof.
  intros H. unfold Str.trim.
  assert (Hstart : Str.trimStart s = s).
  { destruct s as [| c s]; [reflexivity |].
    cbn [all_in] in H. apply andb_prop in H. destruct H as [Hc _].
    cbn [Str.trimStart]. now rewrite (name_not_space _ Hc). }
  rewrite Hstart. now apply trimEnd_name.
Qed.

End ScanTextFacts.

(* ================================================================== *)
(** * Placeholders that are left as they are *)

Module PreserveFacts.
Import Regex RegexFacts PatternFacts ReplaceFacts ScanFacts.

Section WithHost.
Context {host : Host}.
Variable resolve : string -> looked.
Variable settings : PluginSettings.

(** The callback on a placeholder that has neither a value nor a default
    value. *)
Lemma replacer_with_missing (counters : Counters) (m : rmatch)
      (varName : string) :
  group1 m = Some varName -> replaced resolve m = false ->
  replacer_with resolve settings counters m
  = Ok (if preserveOriginalOnMissing settings then full m
        else missingValueText settings,
        {| replacements := replacements counters;
           missings := missings counters + 1 |}).
Proof.
  intros Hg1 Hrep. unfold replaced in Hrep. rewrite Hg1 in Hrep.
  apply orb_false_elim in Hrep. destruct Hrep as [Hpresent Hdefault].
  unfold replacer_with. rewrite Hg1, Hpresent.
  destruct (group2 m); [discriminate | reflexivity].
Qed.

Lemma replace_calls_missing (ms : list rmatch) :
  preserveOriginalOnMissing settings = true ->
  (forall m, In m ms -> exists varName, group1 m = Some varName) ->
  forallb (fun m => negb (replaced resolve m)) ms = true ->
  forall counters,
    replace_calls resolve settings ms counters
    = Ok (map (fun m => (m, full m)) ms,
          {| replacements := replacements counters;
             missings := missings counters
                         + Z.of_nat (List.length ms) |}).
Proof.
  intros Hpreserve. induction ms as [| m ms IH]; intros Hg1 Hall counters.
  - simpl. destruct counters as [a b]. simpl. do 3 f_equal. lia.
  - cbn [forallb] in Hall. apply andb_prop in Hall.
    destruct Hall as [Hm Hall]. apply negb_true_iff in Hm.
    destruct (Hg1 m (or_introl eq_refl)) as [varName Hname].
    cbn [replace_calls].
    rewrite (replacer_with_missing counters m varName Hname Hm).
    rewrite Hpreserve. cbn [bind].
    rewrite IH; [| intros m' Hin; apply Hg1; now right | exact Hall].
    cbn [bind map replacements missings]. do 3 f_equal.
    cbn [List.length]. lia.
Qed.

End WithHost.

End PreserveFacts.

(* ================================================================== *)
(** * Properties of the list of variables of [main.js] *)

Module ListingFacts.
Import Regex RegexFacts PatternFacts ReplaceFacts ScanFacts.

(** Induction on structured data, with the elements of the arrays and the
    members of the objects. *)
Section ValueInduction.
Variable P : value -> Prop.
Hypothesis HUndefined : P VUndefined.
Hypothesis HNull : P VNull.
Hypothesis HBool : forall b, P (VBool b).
Hypothesis HNum : forall n, P (VNum n).
Hypothesis HStr : forall s, P (VStr s).
Hypothesis HArr :
  forall elems named,
    Forall P elems -> Forall (fun kv => P (snd kv)) named ->
    P (VArr elems named).
Hypothesis HObj :
  forall props, Forall (fun kv => P (snd kv)) props -> P (VObj props).

Fixpoint value_induction (v : value) : P v :=
  match v with
  | VUndefined => HUndefined
  | VNull => HNull
  | VBool b => HBool b
  | VNum n => HNum n
  | VStr s => HStr s
  | VArr elems named =>
      HArr elems named
           ((fix all (l : list value) : Forall P l :=
               match l with
               | [] => Forall_nil P
               | x :: rest => Forall_cons x (value_induction x) (all rest)
               end) elems)
           ((fix all (l : list (string * value))
               : Forall (fun kv => P (snd kv)) l :=
               match l with
               | [] => Forall_nil _
               | (k, x) :: rest =>
                   Forall_cons (k, x) (value_induction x) (all rest)
               end) named)
  | VObj props =>
      HObj props
           ((fix all (l : list (string * value))
               : Forall (fun kv => P (snd kv)) l :=
               match l with
               | [] => Forall_nil _
               | (k, x) :: rest =>
                   Forall_cons (k, x) (value_induction x) (all rest)
               end) props)
  end.
End ValueInduction.

(** The name that [collectFrontmatterProperties] gives to the property
    reached from [prefix] through [keys]. *)
Definition extend (prefix key : string) : string :=
  if Str.is_empty prefix then key else prefix +++ "." +++ key.

Definition path_of (prefix : string) (keys : list string) : string :=
  fold_left extend keys prefix.

(** A key that [collectFrontmatterProperties] passes over. *)
Definition skipped (key : string) : bool :=
  Obsidian.metadata_key key || forbidden key.

(** What holds of a variable that is listed for a property of the
    frontmatter. *)
Definition listed (seenVarNames : list string) (prefix : string)
           (v : Variable_) : Prop :=
  status v = frontmatter_only /\ position v = None /\ fullMatch v = None
  /\ defaultValue v = None /\ ~ In (name v) seenVarNames
  /\ exists keys,
      keys <> [] /\ name v = path_of prefix keys
      /\ forallb (fun k => negb (skipped k)) keys = true.

Lemma in_order_In (keys : list string)
      (entries : list (string * list Variable_)) (v : Variable_) :
  In v (Obsidian.in_order keys entries) ->
  exists e, In e entries /\ In v (snd e).
Proof.
  unfold Obsidian.in_order. intros H. apply in_flat_map in H.
  destruct H as [k [_ H]].
  destruct (find (fun e => String.eqb (fst e) k) entries) as [e |] eqn:E;
    [| contradiction].
  apply find_some in E. destruct E as [Hin _]. eauto.
Qed.

Lemma listed_deeper (seenVarNames : list string) (prefix key : string)
      (v : Variable_) :
  skipped key = false ->
  listed seenVarNames (extend prefix key) v ->
  listed seenVarNames prefix v.
Proof.
  intros Hkey [H1 [H2 [H3 [H4 [H5 [keys [Hne [Hname Hok]]]]]]]].
  repeat (split; [assumption |]).
  exists (key :: keys). split; [discriminate |]. split; [exact Hname |].
  cbn [forallb]. now rewrite Hkey.
Qed.

Lemma listed_leaf (seenVarNames : list string) (prefix key : string)
      (x : value) (v : Variable_) :
  skipped key = false ->
  In v (if mem (extend prefix key) seenVarNames then []
        else [Obsidian.frontmatter_only_variable (extend prefix key) x]) ->
  listed seenVarNames prefix v.
Proof.
  intros Hkey Hin.
  destruct (mem (extend prefix key) seenVarNames) eqn:Hseen;
    [contradiction |].
  destruct Hin as [<- | []]. apply mem_not_In in Hseen.
  unfold listed, Obsidian.frontmatter_only_variable.
  cbn [status position fullMatch defaultValue name].
  repeat (split; [auto |]).
  exists [key]. split; [discriminate |]. split; [reflexivity |].
  cbn [forallb]. now rewrite Hkey.
Qed.

Lemma entry_listed (seenVarNames : list string) (prefix key : string)
      (x : value) (v : Variable_) :
  (forall prefix v,
      In v (Obsidian.collectFrontmatterProperties x prefix seenVarNames) ->
      listed seenVarNames prefix v) ->
  In v (if skipped key then []
        else match x with
             | VObj _ =>
                 Obsidian.collectFrontmatterProperties
                   x (extend prefix key) seenVarNames
             | _ =>
                 if mem (extend prefix key) seenVarNames then []
                 else [Obsidian.frontmatter_only_variable
                         (extend prefix key) x]
             end) ->
  listed seenVarNames prefix v.
Proof.
  intros Hx Hin. destruct (skipped key) eqn:Hkey; [contradiction |].
  destruct x; try (eapply listed_leaf; eassumption).
  eapply listed_deeper; [exact Hkey | now apply Hx].
Qed.

(** Every variable that [collectFrontmatterProperties] lists is a property
    of the frontmatter that the text does not name. *)
Lemma collect_listed (seenVarNames : list string) (obj : value) :
  forall prefix v,
    In v (Obsidian.collectFrontmatterProperties obj prefix seenVarNames) ->
    listed seenVarNames prefix v.
Proof.
  induction obj as [| | b | n | s | elems named Helems Hnamed | props Hprops]
    using value_induction;
    intros prefix v Hin; try contradiction.
  - cbn [Obsidian.collectFrontmatterProperties] in Hin.
    apply in_order_In in Hin. destruct Hin as [e [He Hv]].
    apply in_app_or in He. destruct He as [He | He].
    + revert e He Hv. generalize 0.
      induction Helems as [| x l Hx Hl IH]; intros i e He Hv;
        [contradiction |].
      destruct He as [<- | He]; [| exact (IH _ _ He Hv)].
      exact (entry_listed _ _ _ _ _ Hx Hv).
    + revert e He Hv.
      induction Hnamed as [| [k x] l Hx Hl IH]; intros e He Hv;
        [contradiction |].
      destruct He as [<- | He]; [| exact (IH _ He Hv)].
      exact (entry_listed _ _ _ _ _ Hx Hv).
  - cbn [Obsidian.collectFrontmatterProperties] in Hin.
    apply in_order_In in Hin. destruct Hin as [e [He Hv]].
    revert e He Hv.
    induction Hprops as [| [k x] l Hx Hl IH]; intros e He Hv;
      [contradiction |].
    destruct He as [<- | He]; [| exact (IH _ He Hv)].
    exact (entry_listed _ _ _ _ _ Hx Hv).
Qed.

(** ** The scan and the substitution *)

Definition is_missing (v : Variable_) : bool :=
  match status v with
  | missing => true
  | _ => false
  end.

Definition is_replaced (v : Variable_) : bool :=
  match status v with
  | exists_ | has_default => true
  | _ => false
  end.

Lemma filter_none {A : Type} (f : A -> bool) (l : list A) :
  (forall x, In x l -> f x = false) -> filter f l = [].
Proof.
  induction l as [| x l IH]; intros H; simpl; [reflexivity |].
  rewrite (H x (or_introl eq_refl)). apply IH. intros y Hy. apply H.
  now right.
Qed.

Lemma count_map (f : Variable_ -> bool) (g : rmatch -> bool)
      (report : rmatch -> Variable_) (ms : list rmatch) :
  (forall m, In m ms -> f (report m) = g m) ->
  List.length (filter f (map report ms)) = count g ms.
Proof.
  unfold count. induction ms as [| m ms IH]; intros H; simpl;
    [reflexivity |].
  rewrite (H m (or_introl eq_refl)).
  destruct (g m); simpl; rewrite IH; auto; intros m' Hin; apply H;
    now right.
Qed.

Section WithHost.
Context {host : Host} {yaml : Yaml}.

(** What the scanner of [main.js] returns. *)
Lemma obsidian_scan (settings : Obsidian.Settings) (content : string)
      (file : option Obsidian.File) (patternCache : PatternCache) :
  cache_wf patternCache ->
  let frontmatter := Obsidian.getFrontmatter file content in
  let frontmatterEnd := findFrontmatterEnd content in
  let bodyPart := Str.slice_from frontmatterEnd content in
  let ms :=
    match_all (fst (Obsidian.getVariablePattern settings patternCache))
              bodyPart in
  fst (Obsidian.scanDocumentVariables settings content file patternCache)
  = Ok (map (fun m =>
               scanned_variable
                 (Obsidian.getNestedValue settings frontmatter)
                 bodyPart
                 (count_newlines (Str.slice 0 frontmatterEnd content))
                 m (name_of m)) ms
        ++ if Obsidian.showFrontmatterOnlyVariables settings
           then Obsidian.collectFrontmatterProperties
                  frontmatter EmptyString (map name_of ms)
           else []).
Proof.
  intros Hwf frontmatter frontmatterEnd bodyPart ms.
  unfold Obsidian.getVariablePattern in ms.
  destruct (getVariablePattern_wf (Obsidian.plugin settings)
                                  patternCache Hwf) as [Hshape _].
  assert (Hall : forall m, In m ms -> exists g1, group1 m = Some g1).
  { intros m Hin. apply match_all_In in Hin.
    destruct Hin as [n0 [s' [idx' Hm]]].
    destruct (variable_match _ _ _ _ _ Hshape Hm) as [_ [g [Hg _]]].
    eauto. }
  unfold Obsidian.scanDocumentVariables, Obsidian.getVariablePattern.
  fold frontmatter frontmatterEnd bodyPart.
  destruct (getVariablePattern (Obsidian.plugin settings) patternCache)
    as [r c] eqn:E.
  simpl in Hshape, ms. simpl.
  rewrite (exec_while_fold _ _ _ _ Hshape). fold ms.
  rewrite (obsidian_scan_steps_spec settings frontmatter bodyPart _ ms
                                    Hall).
  simpl. destruct (Obsidian.showFrontmatterOnlyVariables settings);
    [reflexivity | now rewrite app_nil_r].
Qed.

(** The status that the scan gives a placeholder, and what the
    substitution does with it. *)
Lemma scanned_status (resolve : string -> looked) (bodyPart : string)
      (frontmatterLines : nat) (m : rmatch) (g1 : string) :
  group1 m = Some g1 ->
  is_missing (scanned_variable resolve bodyPart frontmatterLines m
                               (name_of m))
  = negb (replaced resolve m)
  /\ is_replaced (scanned_variable resolve bodyPart frontmatterLines m
                                   (name_of m))
     = replaced resolve m.
Proof.
  intros Hg1. unfold is_missing, is_replaced, scanned_variable, replaced,
    name_of.
  rewrite Hg1. cbn [status].
  destruct (present (resolve (Str.trim g1))); [split; reflexivity |].
  destruct (group2 m); split; reflexivity.
Qed.

End WithHost.

End ListingFacts.

(* ================================================================== *)
(** * Properties of [sanitizeFilename] *)

Module FilenameFacts.
Import Regex RegexFacts PatternFacts ReplaceFacts.

(** A character that a file name may hold. *)
Definition allowed (c : ascii) : bool := negb (filename_invalid c).

Definition starts_with_dot (s : string) : bool :=
  match s with
  | String c _ => is_period c
  | EmptyString => false
  end.

Fixpoint ends_with_dot (s : string) : bool :=
  match s with
  | EmptyString => false
  | String c EmptyString => is_period c
  | String _ s' => ends_with_dot s'
  end.

(** A character that [sanitizeFilename] has no reason to touch. *)
Definition plain (c : ascii) : bool :=
  negb (filename_invalid c) && negb (Chars.is_space c)
  && negb (is_period c).

Section Preserved.
Variable p : ascii -> bool.

Lemma all_in_slice_from (n : nat) :
  forall s, all_in p s = true -> all_in p (Str.slice_from n s) = true.
Proof.
  induction n as [| n IH]; intros [| c s] H; simpl; auto.
  simpl in H. apply andb_prop in H. apply IH. tauto.
Qed.

Lemma all_in_slice_to (n : nat) :
  forall s, all_in p s = true -> all_in p (Str.slice_to n s) = true.
Proof.
  induction n as [| n IH]; intros [| c s] H; simpl; auto.
  simpl in H. apply andb_prop in H. destruct H as [Hc Hs].
  now rewrite Hc, IH.
Qed.

Lemma all_in_splice (text : string) (reps : list (rmatch * string)) :
  all_in p text = true ->
  (forall m rep, In (m, rep) reps -> all_in p rep = true) ->
  forall pos, all_in p (splice text pos reps) = true.
Proof.
  intros Htext. induction reps as [| [m rep] reps IH]; intros Hreps pos;
    cbn [splice].
  - now apply all_in_slice_from.
  - rewrite !all_in_append. unfold Str.slice.
    rewrite all_in_slice_to by now apply all_in_slice_from.
    rewrite (Hreps m rep (or_introl eq_refl)).
    rewrite IH; [reflexivity |].
    intros m' rep' Hin. apply (Hreps m'). now right.
Qed.

Lemma all_in_trimStart (s : string) :
  all_in p s = true -> all_in p (Str.trimStart s) = true.
Proof.
  induction s as [| c s IH]; intros H; [reflexivity |].
  cbn [Str.trimStart]. destruct (Chars.is_space c); [| exact H].
  simpl in H. apply andb_prop in H. apply IH. tauto.
Qed.

Lemma all_in_trimEnd (s : string) :
  all_in p s = true -> all_in p (Str.trimEnd s) = true.
Proof.
  induction s as [| c s IH]; intros H; [reflexivity |].
  simpl in H. apply andb_prop in H. destruct H as [Hc Hs].
  cbn [Str.trimEnd]. specialize (IH Hs).
  destruct (Str.trimEnd s) as [| d t].
  - destruct (Chars.is_space c); [reflexivity |]. simpl. now rewrite Hc.
  - cbn [all_in]. cbn [all_in] in IH. now rewrite Hc, IH.
Qed.

Lemma all_in_strip_leading (s : string) :
  all_in p s = true -> all_in p (strip_leading_dots s) = true.
Proof.
  induction s as [| c s IH]; intros H; [reflexivity |].
  cbn [strip_leading_dots]. destruct (is_period c); [| exact H].
  simpl in H. apply andb_prop in H. apply IH. tauto.
Qed.

Lemma all_in_strip_trailing (s : string) :
  all_in p s = true -> all_in p (strip_trailing_dots s) = true.
Proof.
  induction s as [| c s IH]; intros H; [reflexivity |].
  simpl in H. apply andb_prop in H. destruct H as [Hc Hs].
  cbn [strip_trailing_dots]. specialize (IH Hs).
  destruct (strip_trailing_dots s) as [| d t].
  - destruct (is_period c); [reflexivity |]. simpl. now rewrite Hc.
  - cbn [all_in]. cbn [all_in] in IH. now rewrite Hc, IH.
Qed.

End Preserved.

Lemma replace_invalid_allowed (s : string) :
  all_in allowed (replace_invalid s) = true.
Proof.
  induction s as [| c s IH]; [reflexivity |].
  cbn [replace_invalid all_in]. rewrite IH, andb_true_r.
  unfold allowed. destruct (filename_invalid c) eqn:E;
    [reflexivity | now rewrite E].
Qed.

Lemma collapse_spaces_allowed (s : string) :
  all_in allowed s = true -> all_in allowed (collapse_spaces s) = true.
Proof.
  intros H. unfold collapse_spaces. apply all_in_splice; [exact H |].
  intros m rep Hin. apply in_map_iff in Hin.
  destruct Hin as [m' [Heq _]]. inversion Heq. reflexivity.
Qed.

(** ** The dots at the ends *)

Lemma strip_leading_start (s : string) :
  starts_with_dot (strip_leading_dots s) = false.
Proof.
  induction s as [| c s IH]; [reflexivity |].
  cbn [strip_leading_dots]. destruct (is_period c) eqn:E;
    [exact IH | exact E].
Qed.

Lemma strip_trailing_start (s : string) :
  starts_with_dot s = false ->
  starts_with_dot (strip_trailing_dots s) = false.
Proof.
  destruct s as [| c s]; [reflexivity |]. cbn [starts_with_dot].
  intros H. cbn [strip_trailing_dots].
  destruct (strip_trailing_dots s); [now rewrite H | exact H].
Qed.

Lemma strip_trailing_end (s : string) :
  ends_with_dot (strip_trailing_dots s) = false.
Proof.
  induction s as [| c s IH]; [reflexivity |].
  cbn [strip_trailing_dots].
  destruct (strip_trailing_dots s) as [| d t] eqn:E.
  - destruct (is_period c) eqn:Ec; [reflexivity | exact Ec].
  - exact IH.
Qed.

(** ** The reserved names *)

Lemma underscore_not_reserved (s : string) :
  WINDOWS_RESERVED ("_" +++ s) = false.
Proof. reflexivity. Qed.

Lemma underscore_end (s : string) :
  ends_with_dot s = false -> ends_with_dot ("_" +++ s) = false.
Proof. destruct s; auto. Qed.

(** ** Names that need no change *)

Lemma replace_invalid_plain (s : string) :
  all_in plain s = true -> replace_invalid s = s.
Proof.
  induction s as [| c s IH]; [reflexivity |].
  cbn [all_in]. intros H. apply andb_prop in H. destruct H as [Hc Hs].
  cbn [replace_invalid]. rewrite (IH Hs).
  unfold plain in Hc. apply andb_prop in Hc. destruct Hc as [Hc _].
  apply andb_prop in Hc. destruct Hc as [Hc _].
  apply negb_true_iff in Hc. now rewrite Hc.
Qed.

Lemma plain_not_space (c : ascii) : plain c = true -> Chars.is_space c = false.
Proof.
  unfold plain. intros H. apply andb_prop in H. destruct H as [H _].
  apply andb_prop in H. destruct H as [_ H]. now apply negb_true_iff in H.
Qed.

Lemma plain_not_period (c : ascii) : plain c = true -> is_period c = false.
Proof.
  unfold plain. intros H. apply andb_prop in H. destruct H as [_ H].
  now apply negb_true_iff in H.
Qed.

Lemma search_spaces_none (n0 : nat) (s : string) :
  all_in plain s = true ->
  forall idx, search (Plus Chars.Space) n0 s idx = None.
Proof.
  induction s as [| c s IH]; intros H idx; [reflexivity |].
  cbn [all_in] in H. apply andb_prop in H. destruct H as [Hc Hs].
  cbn [search]. unfold match_here. cbn [run Chars.in_class].
  rewrite (plain_not_space _ Hc). now apply IH.
Qed.

Lemma collapse_spaces_plain (s : string) :
  all_in plain s = true -> collapse_spaces s = s.
Proof.
  intros H. unfold collapse_spaces, match_all.
  now rewrite (search_none_match_all _ _ _ _ (search_spaces_none _ s H 0)).
Qed.

Lemma trim_plain (s : string) : all_in plain s = true -> Str.trim s = s.
Proof.
  intros H. unfold Str.trim.
  assert (Hstart : Str.trimStart s = s).
  { destruct s as [| c s]; [reflexivity |].
    cbn [all_in] in H. apply andb_prop in H. destruct H as [Hc _].
    cbn [Str.trimStart]. now rewrite (plain_not_space _ Hc). }
  rewrite Hstart. clear Hstart.
  induction s as [| c s IH]; [reflexivity |].
  cbn [all_in] in H. apply andb_prop in H. destruct H as [Hc Hs].
  cbn [Str.trimEnd]. rewrite (IH Hs).
  destruct s; [now rewrite (plain_not_space _ Hc) | reflexivity].
Qed.

Lemma strip_dots_plain (s : string) :
  all_in plain s = true -> strip_dots s = s.
Proof.
  intros H. unfold strip_dots.
  assert (Hstart : strip_leading_dots s = s).
  { destruct s as [| c s]; [reflexivity |].
    cbn [all_in] in H. apply andb_prop in H. destruct H as [Hc _].
    cbn [strip_leading_dots]. now rewrite (plain_not_period _ Hc). }
  rewrite Hstart. clear Hstart.
  induction s as [| c s IH]; [reflexivity |].
  cbn [all_in] in H. apply andb_prop in H. destruct H as [Hc Hs].
  cbn [strip_trailing_dots]. rewrite (IH Hs).
  destruct s; [now rewrite (plain_not_period _ Hc) | reflexivity].
Qed.

End FilenameFacts.

(* ================================================================== *)
(** * Properties of the modal that lists the variables *)

Module ModalFacts.
Import ScanFacts.

(** The first occurrence of every name, in the order of the list. *)
Fixpoint firsts_from (seen : list string) (variables : list Variable_)
  : list Variable_ :=
  match variables with
  | [] => []
  | v :: rest =>
      if mem (name v) seen then firsts_from seen rest
      else v :: firsts_from (seen ++ [name v]) rest
  end.

Definition firsts (variables : list Variable_) : list Variable_ :=
  firsts_from [] variables.

Definition has_status (s : Status) (v : Variable_) : bool :=
  match s, status v with
  | exists_, exists_ | missing, missing | has_default, has_default
  | frontmatter_only, frontmatter_only => true
  | _, _ => false
  end.

Lemma has_status_of (s : Status) (v : Variable_) :
  has_status s v
  = match s, status v with
    | exists_, exists_ | missing, missing | has_default, has_default
    | frontmatter_only, frontmatter_only => true
    | _, _ => false
    end.
Proof. reflexivity. Qed.

Lemma firsts_from_fresh (variables : list Variable_) :
  forall seen v, In v (firsts_from seen variables) -> ~ In (name v) seen.
Proof.
  induction variables as [| w rest IH]; intros seen v Hin; simpl in Hin;
    [contradiction |].
  destruct (mem (name w) seen) eqn:E; [now apply IH |].
  destruct Hin as [<- | Hin]; [now apply mem_not_In |].
  intros Hseen. apply (IH _ _ Hin). apply in_or_app. now left.
Qed.

Lemma firsts_from_NoDup (variables : list Variable_) :
  forall seen, NoDup (map name (firsts_from seen variables)).
Proof.
  induction variables as [| w rest IH]; intros seen; simpl;
    [constructor |].
  destruct (mem (name w) seen); [apply IH |].
  simpl. constructor; [| apply IH].
  intros Hin. apply in_map_iff in Hin. destruct Hin as [v [Hname Hv]].
  apply firsts_from_fresh in Hv. apply Hv. rewrite Hname.
  apply in_or_app. right. now left.
Qed.

Lemma firsts_from_names (variables : list Variable_) :
  forall seen v,
    In v variables ->
    In (name v) seen \/ In (name v) (map name (firsts_from seen variables)).
Proof.
  induction variables as [| w rest IH]; intros seen v Hin;
    [contradiction |].
  simpl. destruct Hin as [<- | Hin].
  - destruct (mem (name w) seen) eqn:E; [left; now apply mem_In |].
    right. now left.
  - destruct (mem (name w) seen) eqn:E; [now apply IH |].
    destruct (IH (seen ++ [name w]) v Hin) as [H | H].
    + apply in_app_or in H. destruct H as [H | [H | []]]; [now left |].
      right. left. exact H.
    + right. now right.
Qed.

(** The state of the loop of [groupVariablesByStatus] after a list. *)
Lemma group_fold (variables : list Variable_) :
  forall grouped seen,
    let new := firsts_from seen variables in
    fst (fold_left Modal.group_step variables (grouped, seen))
    = {| Modal.g_missing :=
           Modal.g_missing grouped ++ filter (has_status missing) new;
         Modal.g_hasDefault :=
           Modal.g_hasDefault grouped ++ filter (has_status has_default) new;
         Modal.g_exists :=
           Modal.g_exists grouped ++ filter (has_status exists_) new;
         Modal.g_frontmatterOnly :=
           Modal.g_frontmatterOnly grouped
           ++ filter (has_status frontmatter_only) new |}.
Proof.
  induction variables as [| v rest IH]; intros grouped seen new.
  - destruct grouped. simpl. now rewrite !app_nil_r.
  - unfold new. cbn [fold_left firsts_from]. unfold Modal.group_step at 2.
    destruct (mem (name v) seen) eqn:E; [apply IH |].
    rewrite IH. cbn [filter]. rewrite !(has_status_of _ v).
    destruct (status v); cbn [Modal.g_missing Modal.g_hasDefault
                                Modal.g_exists Modal.g_frontmatterOnly];
      now rewrite <- ?app_assoc.
Qed.

(** The state of the loop of [getVariableStats] after a list. *)
Lemma stats_fold (variables : list Variable_) :
  forall stats seen,
    let new := firsts_from seen variables in
    fst (fold_left Modal.stats_step variables (stats, seen))
    = {| Modal.total := Modal.total stats + List.length new;
         Modal.exists' :=
           Modal.exists' stats
           + List.length (filter (has_status exists_) new);
         Modal.hasDefault :=
           Modal.hasDefault stats
           + List.length (filter (has_status has_default) new);
         Modal.missing' :=
           Modal.missing' stats
           + List.length (filter (has_status missing) new);
         Modal.frontmatterOnly :=
           Modal.frontmatterOnly stats
           + List.length (filter (has_status frontmatter_only) new) |}.
Proof.
  induction variables as [| v rest IH]; intros stats seen new.
  - destruct stats. simpl. now rewrite !Nat.add_0_r.
  - unfold new. cbn [fold_left firsts_from]. unfold Modal.stats_step at 2.
    destruct (mem (name v) seen) eqn:E; [apply IH |].
    rewrite IH. cbn [filter List.length]. rewrite !(has_status_of _ v).
    destruct (status v);
      cbn [Modal.total Modal.exists' Modal.hasDefault Modal.missing'
             Modal.frontmatterOnly List.length];
      f_equal; lia.
Qed.

Lemma status_partition (l : list Variable_) :
  List.length l
  = List.length (filter (has_status exists_) l)
    + List.length (filter (has_status has_default) l)
    + List.length (filter (has_status missing) l)
    + List.length (filter (has_status frontmatter_only) l).
Proof.
  induction l as [| v l IH]; [reflexivity |].
  cbn [filter List.length]. rewrite !(has_status_of _ v).
  destruct (status v); cbn [List.length]; lia.
Qed.

End ModalFacts.

(* ================================================================== *)
(** * Lines and columns *)

Module PositionFacts.
Import Regex RegexFacts PatternFacts ScanFacts CodecFacts.

(** The text before the first line feed. *)
Fixpoint until_lf (s : string) : string :=
  match s with
  | EmptyString => EmptyString
  | String c s' =>
      if Ascii.eqb c Str.LF then EmptyString else String c (until_lf s')
  end.

(** The number of line feeds. *)
Fixpoint line_feeds (s : string) : nat :=
  match s with
  | EmptyString => 0
  | String c s' =>
      if Ascii.eqb c Str.LF then S (line_feeds s') else line_feeds s'
  end.

(** The text after the last line feed, [acc] being what precedes [s] on
    its first line. *)
Fixpoint last_line (s acc : string) : string :=
  match s with
  | EmptyString => acc
  | String c s' =>
      if Ascii.eqb c Str.LF then last_line s' EmptyString
      else last_line s' (acc +++ String c EmptyString)
  end.

Lemma split_go_head (s : string) :
  forall cur,
    nth_error (Str.split_go Str.LF s cur) 0 = Some (cur +++ until_lf s).
Proof.
  induction s as [| c s IH]; intros cur; cbn [Str.split_go until_lf].
  - cbn [nth_error]. now rewrite append_nil_r.
  - destruct (Ascii.eqb c Str.LF).
    + cbn [nth_error]. now rewrite append_nil_r.
    + rewrite IH. now rewrite append_assoc.
Qed.

Lemma split_go_length (s : string) :
  forall cur, List.length (Str.split_go Str.LF s cur) = S (line_feeds s).
Proof.
  induction s as [| c s IH]; intros cur; simpl; [reflexivity |].
  destruct (Ascii.eqb c Str.LF); simpl; now rewrite IH.
Qed.

Lemma count_newlines_line_feeds (s : string) :
  count_newlines s = line_feeds s.
Proof.
  unfold count_newlines, Str.split. rewrite split_go_length. lia.
Qed.

Lemma line_feeds_append (a b : string) :
  line_feeds (a +++ b) = line_feeds a + line_feeds b.
Proof.
  induction a as [| c a IH]; simpl; [reflexivity |].
  destruct (Ascii.eqb c Str.LF); simpl; now rewrite IH.
Qed.

Lemma last_line_append (a b : string) :
  forall acc, last_line (a +++ b) acc = last_line b (last_line a acc).
Proof.
  induction a as [| c a IH]; intros acc; simpl; [reflexivity |].
  destruct (Ascii.eqb c Str.LF); apply IH.
Qed.

(** The line on which a text continues after a prefix. *)
Lemma split_go_line (p q : string) :
  forall cur,
    nth_error (Str.split_go Str.LF (p +++ q) cur) (line_feeds p)
    = Some (last_line p cur +++ until_lf q).
Proof.
  induction p as [| c p IH]; intros cur;
    cbn [String.append Str.split_go line_feeds last_line].
  - apply split_go_head.
  - destruct (Ascii.eqb c Str.LF); [cbn [nth_error] |]; apply IH.
Qed.

Lemma until_lf_append (f tail : string) :
  exists rest, until_lf (f +++ tail) = until_lf f +++ rest.
Proof.
  induction f as [| c f IH]; simpl.
  - exists (until_lf tail). reflexivity.
  - destruct (Ascii.eqb c Str.LF); [exists EmptyString; reflexivity |].
    destruct IH as [rest IH]. exists rest. now rewrite IH.
Qed.

Lemma until_lf_none (f : string) :
  line_feeds f = 0 -> until_lf f = f.
Proof.
  induction f as [| c f IH]; simpl; [reflexivity |].
  destruct (Ascii.eqb c Str.LF); [discriminate |].
  intros H. now rewrite IH.
Qed.

(** The column that [scanDocumentVariables] computes from
    [lastIndexOf('\n')] is the length of the last line. *)
Lemma lastIndexOf_go_column (s : string) :
  forall i found acc,
    match found with
    | None => String.length acc = i
    | Some j => String.length acc = i - j - 1 /\ j < i
    end ->
    match Str.lastIndexOf_go Str.LF s i found with
    | None => String.length (last_line s acc) = i + String.length s
    | Some j =>
        String.length (last_line s acc) = i + String.length s - j - 1
        /\ j < i + String.length s
    end.
Proof.
  induction s as [| c s IH]; intros i found acc H; cbn [Str.lastIndexOf_go last_line String.length].
  - destruct found as [j |]; [destruct H; split; lia | lia].
  - destruct (Ascii.eqb c Str.LF).
    + specialize (IH (S i) (Some i) EmptyString).
      cbn [String.length] in IH.
      assert (H0 : 0 = S i - i - 1 /\ i < S i) by lia.
      specialize (IH H0).
      destruct (Str.lastIndexOf_go Str.LF s (S i) (Some i));
        [destruct IH; split; lia | lia].
    + specialize (IH (S i) found (acc +++ String c EmptyString)).
      rewrite length_append in IH. cbn [String.length] in IH.
      assert (H0 : match found with
                   | None => String.length acc + 1 = S i
                   | Some j => String.length acc + 1 = S i - j - 1 /\ j < S i
                   end).
      { destruct found as [j |]; [destruct H; split; lia | lia]. }
      specialize (IH H0).
      destruct (Str.lastIndexOf_go Str.LF s (S i) found);
        [destruct IH; split; lia | lia].
Qed.

Lemma column_last_line (pre : string) :
  match Str.lastIndexOf Str.LF pre with
  | None => String.length pre
  | Some lastNewline => String.length pre - lastNewline - 1
  end
  = String.length (last_line pre EmptyString).
Proof.
  unfold Str.lastIndexOf.
  pose proof (lastIndexOf_go_column pre 0 None EmptyString eq_refl) as H.
  destruct (Str.lastIndexOf_go Str.LF pre 0 None); [destruct H |]; lia.
Qed.

Lemma slice_to_length (n : nat) :
  forall s, n <= String.length s -> String.length (Str.slice_to n s) = n.
Proof.
  induction n as [| n IH]; intros [| c s] H; simpl in *; try lia.
  now rewrite IH by lia.
Qed.

Lemma slice_to_from (n : nat) :
  forall s, Str.slice_to n s +++ Str.slice_from n s = s.
Proof.
  induction n as [| n IH]; intros [| c s]; simpl; auto. now rewrite IH.
Qed.

(** ** Where the frontmatter ends *)

(** The pattern ends with [(?:\r?\n|$)]. *)
Fixpoint line_ended (r : regex) : Prop :=
  match r with
  | Seq _ r2 => line_ended r2
  | Alt r1 r2 => r1 = newline /\ r2 = Eol
  | _ => False
  end.

(** A match of such a pattern ends with a line feed, or at the end of the
    input. *)
Lemma run_line_ended {R : Type} (n0 : nat) (r : regex) :
  line_ended r ->
  forall (s : string) (c : caps) (k : cont R) (res : R),
    run n0 r s c k = Some res ->
    exists x s' c',
      s = x +++ s' /\ k x s' c' = Some res
      /\ ((forall acc, last_line x acc = EmptyString) \/ s' = EmptyString).
Proof.
  induction r; try contradiction; intros Hend s c k res H.
  - rewrite run_Seq in H. apply run_sound in H.
    destruct H as [x1 [s1 [c1 [Hs [_ H]]]]].
    apply (IHr2 Hend) in H. destruct H as [x2 [s2 [c2 [Hs1 [Hk Hx2]]]]].
    exists (x1 +++ x2), s2, c2. split; [| split; [exact Hk |]].
    + now rewrite Hs, Hs1, append_assoc.
    + destruct Hx2 as [Hx2 | Hs2]; [left | now right].
      intros acc. now rewrite last_line_append.
  - destruct Hend as [-> ->]. cbn [run] in H. fold newline in H.
    unfold orelse in H.
    change (run n0 (Seq (Opt (Lit Str.cr)) (Lit Str.lf)) s c k)
      with (run n0 newline s c k) in H.
    destruct (run n0 newline s c k) as [res' |] eqn:E.
    + inversion H; subst res'. apply run_sound in E.
      destruct E as [x [s' [c' [Hs [Hd Hk]]]]].
      exists x, s', c'. split; [exact Hs | split; [exact Hk | left]].
      apply BlockFacts.derives_newline in Hd.
      destruct Hd as [-> | ->]; intros acc; reflexivity.
    + destruct s; [| discriminate].
      exists EmptyString, EmptyString, c. auto.
Qed.

Lemma String_match_line_ended (r : regex) (text : string) (m : rmatch) :
  line_ended r ->
  String_match (Seq Bol r) text = Some m ->
  exists rest,
    text = full m +++ rest
    /\ (last_line (full m) EmptyString = EmptyString \/ rest = EmptyString).
Proof.
  intros Hend H. rewrite String_match_bol in H. unfold match_here in H.
  apply (run_line_ended _ (Seq Bol r) Hend) in H.
  destruct H as [x [s' [c' [Hs [Hk Hx]]]]]. inversion Hk.
  cbn [full]. exists s'. split; [exact Hs |].
  destruct Hx as [Hx | Hx]; [left; apply Hx | now right].
Qed.

(** The frontmatter ends at the start of a line, or at the end of the
    text. *)
Lemma findFrontmatterEnd_boundary (text : string) :
  last_line (Str.slice_to (findFrontmatterEnd text) text) EmptyString
  = EmptyString
  \/ Str.slice_from (findFrontmatterEnd text) text = EmptyString.
Proof.
  unfold findFrontmatterEnd.
  destruct (negb (Str.startsWith text "---")); [now left |].
  destruct (String_match empty_frontmatter text) as [m |] eqn:Hempty.
  - apply String_match_line_ended in Hempty; [| now repeat split].
    destruct Hempty as [rest [Htext Hm]]. rewrite Htext.
    rewrite BlockFacts.slice_to_append, BlockFacts.slice_from_append.
    exact Hm.
  - destruct (String_match frontmatter_whole text) as [m |] eqn:Hwhole;
      [| now left].
    apply String_match_line_ended in Hwhole; [| now repeat split].
    destruct Hwhole as [rest [Htext Hm]]. rewrite Htext.
    rewrite BlockFacts.slice_to_append, BlockFacts.slice_from_append.
    exact Hm.
Qed.

End PositionFacts.

(* ================================================================== *)
(** * Writing and reading back in [main.js] *)

Module ObsidianFacts.
Import Regex RegexFacts ResolverFacts ScanFacts MutatorFacts RoundTripFacts.

(** A key that can be assigned: not empty, not forbidden, and not the
    [length] of an array, in any case. *)
Definition plain_key (key : string) : bool :=
  negb (Str.is_empty key) && negb (forbidden key)
  && negb (String.eqb (Str.toLowerCase key) "length").

(** A segment that [this.setNestedValue] walks or assigns. *)
Definition ordinary (seg : string) : bool :=
  plain_key seg
  && match arrayMatch seg with
     | Some (propName, index) =>
         plain_key propName && negb (MAX_ARRAY_INDEX <? index)%N
     | None => true
     end.

(** ** Letters and digits *)

Lemma lower_is_digit (c : ascii) :
  Chars.is_digit (Chars.lower c) = true -> Chars.lower c = c.
Proof.
  destruct c as [[|] [|] [|] [|] [|] [|] [|] [|]]; vm_compute; congruence.
Qed.

Lemma lower_digit (c : ascii) :
  Chars.is_digit c = true -> Chars.lower c = c.
Proof.
  destruct c as [[|] [|] [|] [|] [|] [|] [|] [|]]; vm_compute; congruence.
Qed.

(** A key that equals a string of digits when the case is ignored is that
    string. *)
Lemma lower_digits (k : string) :
  all_digits k = true ->
  forall key, Str.toLowerCase key = Str.toLowerCase k -> key = k.
Proof.
  induction k as [| d k IH]; intros Hk [| c key] H; try discriminate;
    [reflexivity |].
  cbn [all_digits] in Hk. apply andb_prop in Hk. destruct Hk as [Hd Hk].
  cbn [Str.toLowerCase] in H. inversion H as [[Hc Hrest]].
  rewrite (lower_digit _ Hd) in Hc.
  assert (Hcd : c = d).
  { rewrite <- Hc. symmetry. apply lower_is_digit. now rewrite Hc. }
  now rewrite Hcd, (IH Hk key Hrest).
Qed.

Lemma forbidden_lower (a b : string) :
  Str.toLowerCase a = Str.toLowerCase b -> forbidden a = forbidden b.
Proof. unfold forbidden. now intros ->. Qed.

(** ** The keys of an object *)

(** [k] is an own property of [o] whose key is no array index. *)
Definition own (o : value) (k : string) : Prop :=
  match o with
  | VObj props => In k (map fst props)
  | VArr _ named => In k (map fst named) /\ array_index k = None
  | _ => False
  end.

Lemma array_index_digits (k : string) (i : N) :
  array_index k = Some i -> all_digits k = true.
Proof.
  unfold array_index. destruct k as [| c rest]; [discriminate |].
  destruct (all_digits (String c rest)); [reflexivity | discriminate].
Qed.

Lemma ordered_keys_In (keys : list string) (k : string) :
  In k (ordered_keys keys) -> all_digits k = true \/ In k keys.
Proof.
  unfold ordered_keys. intros H. apply in_app_or in H.
  destruct H as [H | H].
  - left. apply in_map_iff in H. destruct H as [i [<- _]].
    apply all_digits_decimal.
  - right. unfold other_keys in H. apply filter_In in H. tauto.
Qed.

Lemma Object_keys_In (o : value) (k : string) :
  In k (Object_keys o) -> all_digits k = true \/ own o k.
Proof.
  destruct o as [| | | | | elems named | props]; try contradiction;
    cbn [Object_keys own]; intros H.
  - apply in_app_or in H. destruct H as [H | H].
    + left. apply in_map_iff in H. destruct H as [i [<- _]].
      apply all_digits_decimal.
    + destruct (all_digits k) eqn:Hd; [now left | right].
      apply ordered_keys_In in H. destruct H as [H | H]; [congruence |].
      split; [exact H |].
      destruct (array_index k) as [i |] eqn:Hi; [| reflexivity].
      apply array_index_digits in Hi. congruence.
  - apply ordered_keys_In in H. tauto.
Qed.

Lemma In_assoc (k : string) (props : list (string * value)) :
  In k (map fst props) -> exists v, assoc k props = Some v.
Proof.
  induction props as [| [k0 w] props IH]; [contradiction |].
  simpl. intros [-> | H].
  - rewrite String.eqb_refl. eauto.
  - destruct (String.eqb k0 k); eauto.
Qed.

Lemma assoc_set_own_keys (k : string) (w : value)
      (props : list (string * value)) :
  In k (map fst props) -> map fst (assoc_set k w props) = map fst props.
Proof.
  intros H. rewrite assoc_set_keys.
  destruct (In_assoc _ _ H) as [v ->]. reflexivity.
Qed.

Section WithHost.
Context {host : Host} {yaml : Yaml}.

(** ** Assignments to one key *)

(** [current'] is [current] after assignments to its key [k], by
    [current[k] = w] or through the object that [current[k]] holds. *)
Inductive rewritten (k : string) : value -> value -> Prop :=
| rw_refl (current : value) : rewritten k current current
| rw_set (current current1 current2 w : value) :
    rewritten k current current1 ->
    set_property current1 k w = Ok current2 ->
    rewritten k current current2
| rw_store (current current1 w : value) :
    rewritten k current current1 ->
    object_shaped w = true ->
    rewritten k current (store_back current1 k w).

Lemma set_property_shaped (o : value) (k : string) (w o' : value) :
  object_shaped o = true -> set_property o k w = Ok o' ->
  object_shaped o' = true.
Proof.
  destruct o as [| | | | | elems named | props]; try discriminate;
    intros _; cbn [set_property].
  - destruct (array_index k); [intros H; now inversion H |].
    destruct (String.eqb k "length").
    + destruct (to_array_length w); [intros H; now inversion H |
                                      discriminate].
    + destruct (String.eqb k "__proto__");
        [| intros H; now inversion H].
      destruct w; cbn [set_proto]; try discriminate;
        intros H; now inversion H.
  - destruct (String.eqb k "__proto__"); [| intros H; now inversion H].
    destruct w; cbn [set_proto]; try discriminate;
      intros H; now inversion H.
Qed.

Lemma store_back_shaped (o : value) (k : string) (w : value) :
  object_shaped o = true -> object_shaped (store_back o k w) = true.
Proof.
  destruct o as [| | | | | elems named | props]; try discriminate;
    intros _; destruct w; cbn [store_back]; try reflexivity;
    destruct (array_index k); reflexivity.
Qed.

Lemma rewritten_shaped (k : string) (current current' : value) :
  object_shaped current = true -> rewritten k current current' ->
  object_shaped current' = true.
Proof.
  intros Hshape H. induction H as [| ? ? ? ? _ IH Hset | ? ? ? _ IH _].
  - exact Hshape.
  - exact (set_property_shaped _ _ _ _ (IH Hshape) Hset).
  - exact (store_back_shaped _ _ _ (IH Hshape)).
Qed.

(** What an assignment to an own key leaves as it is. *)
Definition same_keys (k : string) (current current' : value) : Prop :=
  own current' k
  /\ Object_keys current' = Object_keys current
  /\ forall key, key <> k ->
                 has_property current' key = has_property current key.

Lemma set_property_own (o : value) (k : string) (w o' : value) :
  own o k -> forbidden k = false -> String.eqb k "length" = false ->
  set_property o k w = Ok o' -> same_keys k o o'.
Proof.
  intros Hown Hforb Hlen. pose proof (forbidden_proto _ Hforb) as Hproto.
  destruct o as [| | | | | elems named | props]; try contradiction;
    cbn [own] in Hown; cbn [set_property].
  - destruct Hown as [Hin Hidx]. rewrite Hidx, Hlen, Hproto.
    intros H. inversion H. unfold same_keys.
    cbn [own Object_keys has_property].
    rewrite (assoc_set_own_keys _ _ _ Hin).
    split; [auto |]. split; [reflexivity |].
    intros key Hkey. now rewrite (assoc_set_other _ _ _ _ Hkey).
  - rewrite Hproto. intros H. inversion H. unfold same_keys.
    cbn [own Object_keys has_property].
    rewrite (assoc_set_own_keys _ _ _ Hown).
    split; [auto |]. split; [reflexivity |].
    intros key Hkey. now rewrite (assoc_set_other _ _ _ _ Hkey).
Qed.

Lemma store_back_own (o : value) (k : string) (w : value) :
  own o k -> object_shaped w = true -> same_keys k o (store_back o k w).
Proof.
  intros Hown Hw.
  destruct o as [| | | | | elems named | props]; try contradiction;
    cbn [own] in Hown;
    destruct w as [| | | | | e n | p]; try discriminate;
    cbn [store_back]; unfold same_keys; cbn [own Object_keys has_property].
  1, 2: destruct Hown as [Hin Hidx]; rewrite Hidx;
    cbn [own Object_keys has_property];
    rewrite (assoc_set_own_keys _ _ _ Hin);
    (split; [auto |]); (split; [reflexivity |]);
    intros key Hkey; now rewrite (assoc_set_other _ _ _ _ Hkey).
  all: rewrite (assoc_set_own_keys _ _ _ Hown);
    (split; [auto |]); (split; [reflexivity |]);
    intros key Hkey; now rewrite (assoc_set_other _ _ _ _ Hkey).
Qed.

Lemma same_keys_trans (k : string) (a b c : value) :
  same_keys k a b -> same_keys k b c -> same_keys k a c.
Proof.
  intros [_ [Hk1 Hh1]] [Hown [Hk2 Hh2]]. split; [exact Hown |].
  split; [congruence |].
  intros key Hkey. now rewrite Hh2, Hh1.
Qed.

Lemma rewritten_own (k : string) (current current' : value) :
  own current k -> forbidden k = false -> String.eqb k "length" = false ->
  rewritten k current current' -> same_keys k current current'.
Proof.
  intros Hown Hforb Hlen H.
  induction H as [| ? ? ? ? _ IH Hset | ? ? ? _ IH Hw].
  - split; [exact Hown | split; [reflexivity | reflexivity]].
  - specialize (IH Hown). eapply same_keys_trans; [exact IH |].
    destruct IH as [Hown1 _].
    exact (set_property_own _ _ _ _ Hown1 Hforb Hlen Hset).
  - specialize (IH Hown). eapply same_keys_trans; [exact IH |].
    destruct IH as [Hown1 _]. exact (store_back_own _ _ _ Hown1 Hw).
Qed.

(** ** The key that is found *)

(** The keys that equal [key] when the case is ignored. *)
Definition same_letters (key : string) (k : string) : bool :=
  String.eqb (Str.toLowerCase k) (Str.toLowerCase key).

(** How [findKey] finds a key. *)
Lemma findKey_cases (o : value) (key k : string) (ci : bool) :
  object_shaped o = true ->
  findKey (Data o) key ci = Some k ->
  (k = key /\ has_property o key = Ok true)
  \/ (ci = true /\ has_property o key = Ok false
      /\ find (same_letters key) (Object_keys o) = Some k).
Proof.
  intros Hshape.
  destruct (has_property_shaped o key Hshape) as [b Hb].
  unfold findKey.
  destruct o as [| | | | | elems named | props]; try discriminate;
    (destruct (forbidden key); [discriminate |]);
    rewrite Hb;
    (destruct b; [intros H; inversion H; now left |]);
    (destruct ci; [| discriminate]);
    intros H; right; auto.
Qed.

(** The key [foundKey || key] that an assignment uses, for a key that can
    be assigned. *)
Lemma actual_key_cases (current : value) (key : string) (ci : bool) :
  object_shaped current = true -> plain_key key = true ->
  let k := Obsidian.actual_key (findKey (Data current) key ci) key in
  Str.is_empty k = false /\ forbidden k = false
  /\ String.eqb k "length" = false
  /\ (k = key
      \/ (k <> key /\ ci = true /\ has_property current key = Ok false
          /\ find (same_letters key) (Object_keys current) = Some k
          /\ own current k)).
Proof.
  intros Hshape Hplain k. unfold plain_key in Hplain.
  apply andb_prop in Hplain. destruct Hplain as [Hplain Hlen].
  apply andb_prop in Hplain. destruct Hplain as [Hne Hforb].
  apply negb_true_iff in Hne, Hforb, Hlen.
  assert (Hkeylen : String.eqb key "length" = false).
  { destruct (String.eqb_spec key "length") as [-> |]; [| reflexivity].
    discriminate. }
  unfold k, Obsidian.actual_key.
  destruct (found (findKey (Data current) key ci)) as [k0 |] eqn:Hfound;
    [| repeat split; auto].
  unfold found in Hfound.
  destruct (findKey (Data current) key ci) as [k1 |] eqn:Hfind;
    [| discriminate].
  destruct (Str.is_empty k1) eqn:Hk1; [discriminate |].
  inversion Hfound; subst k0.
  destruct (findKey_cases _ _ _ _ Hshape Hfind)
    as [[-> Hhas] | [Hci [Hhas Hsearch]]].
  - repeat split; auto.
  - pose proof (find_some _ _ Hsearch) as [Hin Hsame].
    unfold same_letters in Hsame. apply String.eqb_eq in Hsame.
    split; [exact Hk1 |].
    split; [now rewrite (forbidden_lower _ _ Hsame) |].
    split.
    { destruct (String.eqb_spec k1 "length") as [-> |]; [| reflexivity].
      rewrite <- Hsame in Hlen. discriminate. }
    destruct (String.eqb_spec k1 key) as [-> | Hdiff]; [now left |].
    right. repeat split; auto.
    destruct (Object_keys_In _ _ Hin) as [Hdigits | Hown];
      [| exact Hown].
    symmetry in Hsame.
    now rewrite (lower_digits _ Hdigits _ Hsame) in Hdiff.
Qed.

(** After assignments to the key that an assignment uses, [findKey] finds
    that key again. *)
Lemma find_after (current current' : value) (key : string) (ci : bool) :
  object_shaped current = true -> plain_key key = true ->
  let k := Obsidian.actual_key (findKey (Data current) key ci) key in
  rewritten k current current' ->
  has_property current' k = Ok true ->
  found (findKey (Data current') key ci) = Some k.
Proof.
  intros Hshape Hplain k Hrw Hhas.
  destruct (actual_key_cases current key ci Hshape Hplain)
    as [Hne [Hforb [Hlen Hcases]]].
  fold k in Hne, Hforb, Hlen, Hcases.
  pose proof (rewritten_shaped _ _ _ Hshape Hrw) as Hshape'.
  assert (Hkey : forbidden key = false).
  { unfold plain_key in Hplain. apply andb_prop in Hplain.
    destruct Hplain as [Hplain _]. apply andb_prop in Hplain.
    destruct Hplain as [_ H]. now apply negb_true_iff in H. }
  destruct Hcases as [Heq | [Hdiff [Hci [Hhas0 [Hsearch Hown]]]]].
  - rewrite Heq in *. unfold findKey.
    destruct current' as [| | | | | elems named | props]; try discriminate;
      rewrite Hkey, Hhas; unfold found; now rewrite Hne.
  - destruct (rewritten_own _ _ _ Hown Hforb Hlen Hrw)
      as [_ [Hkeys Hframe]].
    assert (Hhas' : has_property current' key = Ok false).
    { rewrite Hframe; [exact Hhas0 | congruence]. }
    unfold findKey.
    destruct current' as [| | | | | elems named | props]; try discriminate;
      rewrite Hkey, Hhas', Hci;
      fold (same_letters key); rewrite Hkeys, Hsearch;
      unfold found; now rewrite Hne.
Qed.

(** ** The steps of [this.setNestedValue] *)

Variable settings : Obsidian.Settings.

Let ci : bool := caseInsensitive (Obsidian.plugin settings).

Lemma read_step (key : string) (rest : list string) (o : value)
      (k : string) :
  object_shaped o = true -> arrayMatch key = None ->
  found (findKey (Data o) key ci) = Some k ->
  getNestedValue_loop (key :: rest) (Data o) ci
  = getNestedValue_loop rest (get_property o k) ci.
Proof.
  intros Hshape Harr Hfound. cbn [getNestedValue_loop].
  rewrite Harr, Hfound. cbn [get].
  destruct o as [| | | | | elems named | props]; try discriminate;
    reflexivity.
Qed.

Lemma read_step_array (seg : string) (rest : list string) (o : value)
      (propName : string) (index : N) (k : string) (e : list value)
      (n : list (string * value)) :
  object_shaped o = true -> arrayMatch seg = Some (propName, index) ->
  found (findKey (Data o) propName ci) = Some k ->
  get_property o k = Data (VArr e n) ->
  getNestedValue_loop (seg :: rest) (Data o) ci
  = getNestedValue_loop rest (get_index (VArr e n) index) ci.
Proof.
  intros Hshape Harr Hfound Hget. cbn [getNestedValue_loop].
  rewrite Harr, Hfound. cbn [get]. rewrite Hget.
  destruct o as [| | | | | elems named | props]; try discriminate;
    reflexivity.
Qed.

Lemma obs_ordinary_inv (seg : string) :
  ordinary seg = true ->
  plain_key seg = true /\ forbidden seg = false
  /\ match arrayMatch seg with
     | Some (propName, index) =>
         plain_key propName = true /\ forbidden propName = false
         /\ (MAX_ARRAY_INDEX <? index)%N = false
     | None => True
     end.
Proof.
  assert (Hplain : forall k, plain_key k = true -> forbidden k = false).
  { intros k H. unfold plain_key in H. apply andb_prop in H.
    destruct H as [H _]. apply andb_prop in H. destruct H as [_ H].
    now apply negb_true_iff in H. }
  unfold ordinary. intros H. apply andb_prop in H. destruct H as [H1 H2].
  split; [exact H1 |]. split; [now apply Hplain |].
  destruct (arrayMatch seg) as [[propName index] |]; [| exact I].
  apply andb_prop in H2. destruct H2 as [H2 H3].
  apply negb_true_iff in H3. auto.
Qed.

(** [ensure_array] at the key that an assignment uses. *)
Lemma ensure_array_actual (current : value) (propName : string) :
  object_shaped current = true -> plain_key propName = true ->
  let k := Obsidian.actual_key (findKey (Data current) propName ci)
                                propName in
  exists current' e n,
    ensure_array current k = Ok current'
    /\ object_shaped current' = true
    /\ rewritten k current current'
    /\ get_property current' k = Data (VArr e n)
    /\ (push_free current = true -> push_free (VArr e n) = true).
Proof.
  intros Hshape Hplain k.
  destruct (actual_key_cases current propName ci Hshape Hplain)
    as [Hne [Hforb [Hlen _]]].
  fold k in Hne, Hforb, Hlen. unfold ensure_array.
  destruct (has_property_shaped current k Hshape) as [has Hhas].
  rewrite Hhas. cbn [bind].
  destruct (negb has || negb (isArray (get_property current k))) eqn:Hcond.
  - destruct (set_property_get current k (VArr [] []) Hshape Hforb Hlen)
      as [o' [Hset [Ho' [Hget _]]]].
    exists o', [], []. repeat split; auto.
    exact (rw_set _ _ _ _ _ (rw_refl _ _) Hset).
  - apply orb_false_elim in Hcond. destruct Hcond as [_ H2].
    apply negb_false_iff in H2.
    destruct (get_property current k) as [[| | | | | e n | p] | b]
      eqn:Hget; try discriminate.
    exists current, e, n. repeat split; auto; [apply rw_refl |].
    intros Hfree. exact (get_property_push_free _ _ _ Hfree Hget).
Qed.

(** The final key: the value is assigned and read back. *)
Lemma obs_final_step_get (finalKey : string) (current v : value) :
  object_shaped current = true -> ordinary finalKey = true ->
  written [finalKey] v ci current
          (Obsidian.final_step settings finalKey current v).
Proof.
  intros Hshape Hord. apply obs_ordinary_inv in Hord.
  destruct Hord as [Hplain [Hforb Hseg]].
  unfold Obsidian.final_step, Obsidian.findKey. fold ci. rewrite Hforb.
  destruct (arrayMatch finalKey) as [[propName index] |] eqn:Harr.
  - destruct Hseg as [Hpp [Hfp Hmax]]. rewrite Hfp.
    destruct (actual_key_cases current propName ci Hshape Hpp)
      as [Hne [Hfk [Hlen _]]].
    destruct (ensure_array_actual current propName Hshape Hpp)
      as [c1 [e [n [Hens [Hc1 [Hrw [Hget Hfree]]]]]]].
    cbv zeta in Hens, Hrw, Hget. cbv zeta.
    set (k := Obsidian.actual_key (findKey (Data current) propName ci)
                                   propName) in *.
    rewrite Hens. cbn [bind]. rewrite Hmax, Hget.
    destruct (grow_cases e n index VNull) as [Hgrow | [Hgrow Hwhy]];
      rewrite Hgrow; cbn [bind written];
      [| exact (not_pushing _ _ Hfree Hwhy)].
    set (arr := VArr (set_nth (N.to_nat index) v (grown e index VNull)) n).
    destruct (store_back_get c1 k arr Hc1 eq_refl Hlen) as [Hs [Hg Hh]].
    split; [exact Hs |].
    assert (Hfound : found (findKey (Data (store_back c1 k arr)) propName
                                    ci) = Some k).
    { apply find_after; try assumption.
      exact (rw_store _ _ _ arr Hrw eq_refl). }
    rewrite (read_step_array finalKey [] _ propName index k _ _ Hs Harr
                             Hfound Hg).
    cbn [getNestedValue_loop]. now apply get_index_set.
  - destruct (actual_key_cases current finalKey ci Hshape Hplain)
      as [Hne [Hfk [Hlen _]]].
    set (k := Obsidian.actual_key (findKey (Data current) finalKey ci)
                                   finalKey) in *.
    destruct (set_property_get current k v Hshape Hfk Hlen)
      as [o' [Hset [Ho' [Hget Hhas]]]].
    rewrite Hset. cbn [written]. split; [exact Ho' |].
    assert (Hfound : found (findKey (Data o') finalKey ci) = Some k).
    { apply find_after; try assumption.
      exact (rw_set _ _ _ _ _ (rw_refl _ _) Hset). }
    rewrite (read_step finalKey [] o' k Ho' Harr Hfound).
    cbn [getNestedValue_loop]. exact Hget.
Qed.

(** What follows the choice of the node of a plain key. *)
Lemma descend_get (key : string) (rest : list string)
      (current c1 child v : value) (descend : value -> outcome value) :
  object_shaped current = true -> plain_key key = true ->
  arrayMatch key = None ->
  let k := Obsidian.actual_key (findKey (Data current) key ci) key in
  rewritten k current c1 -> object_shaped c1 = true ->
  get_property c1 k = Data child -> object_shaped child = true ->
  (push_free current = true -> push_free child = true) ->
  (forall child,
      object_shaped child = true ->
      written rest v ci child (descend child)) ->
  written (key :: rest) v ci current
    match get_property c1 k with
    | Data child =>
        bind (descend child)
             (fun child => Ok (store_back c1 k child))
    | Builtin _ => Throw TypeError
    end.
Proof.
  intros Hshape Hplain Harr k Hrw Hc1 Hget Hchild Hkeep Hdescend.
  destruct (actual_key_cases current key ci Hshape Hplain)
    as [Hne [Hfk [Hlen _]]].
  fold k in Hne, Hfk, Hlen. rewrite Hget.
  pose proof (Hdescend _ Hchild) as Hwritten.
  destruct (descend child) as [child' | [|] | |];
    cbn [bind written] in *; try contradiction;
    [| exact (not_pushing _ _ Hkeep Hwritten)].
  destruct Hwritten as [Hchild' Hread].
  destruct (store_back_get c1 k child' Hc1 Hchild' Hlen) as [Hs [Hg Hh]].
  split; [exact Hs |].
  assert (Hfound : found (findKey (Data (store_back c1 k child')) key ci)
                   = Some k).
  { apply find_after; try assumption.
    exact (rw_store _ _ _ child' Hrw Hchild'). }
  rewrite (read_step key rest _ k Hs Harr Hfound).
  rewrite Hg. exact Hread.
Qed.

(** A key before the final one. *)
Lemma obs_intermediate_step_get (key : string) (rest : list string)
      (current v : value) (descend : value -> outcome value) :
  object_shaped current = true -> ordinary key = true ->
  (forall child,
      object_shaped child = true ->
      written rest v ci child (descend child)) ->
  written (key :: rest) v ci current
          (Obsidian.intermediate_step settings key current descend).
Proof.
  intros Hshape Hord Hdescend. apply obs_ordinary_inv in Hord.
  destruct Hord as [Hplain [Hforb Hseg]].
  unfold Obsidian.intermediate_step, Obsidian.findKey. fold ci.
  rewrite Hforb.
  destruct (arrayMatch key) as [[propName index] |] eqn:Harr.
  - destruct Hseg as [Hpp [Hfp Hmax]]. rewrite Hfp.
    destruct (actual_key_cases current propName ci Hshape Hpp)
      as [Hne [Hfk [Hlen _]]].
    destruct (ensure_array_actual current propName Hshape Hpp)
      as [c1 [e [n [Hens [Hc1 [Hrw [Hget Hfree]]]]]]].
    cbv zeta in Hens, Hrw, Hget. cbv zeta.
    set (k := Obsidian.actual_key (findKey (Data current) propName ci)
                                   propName) in *.
    rewrite Hens. cbn [bind]. rewrite Hmax, Hget.
    destruct (grow_cases e n index (VObj [])) as [Hgrow | [Hgrow Hwhy]];
      rewrite Hgrow; cbn [bind];
      [| exact (not_pushing _ _ Hfree Hwhy)].
    set (elems1 := grown e index (VObj [])).
    set (elems2 :=
           if typeof_object (Data (nth_elem index elems1))
              && negb (is_null (Data (nth_elem index elems1)))
           then elems1
           else set_nth (N.to_nat index) (VObj []) elems1).
    assert (Hnode : object_shaped (nth_elem index elems2) = true).
    { unfold elems2.
      destruct (typeof_object (Data (nth_elem index elems1))
                && negb (is_null (Data (nth_elem index elems1)))) eqn:Hc.
      - destruct (nth_elem index elems1); try discriminate; reflexivity.
      - unfold nth_elem. now rewrite nth_set_nth. }
    assert (Hkeep : push_free current = true ->
                    push_free (nth_elem index elems2) = true).
    { intros Hcur. apply Hfree in Hcur. apply push_free_array in Hcur.
      destruct Hcur as [_ [Helems _]].
      apply push_free_nth. unfold elems2.
      destruct (_ && _);
        [| apply push_free_set_nth; [reflexivity |]];
        now apply push_free_grown. }
    pose proof (Hdescend _ Hnode) as Hwritten.
    destruct (descend (nth_elem index elems2)) as [child' | [|] | |];
      cbn [bind written] in *; try contradiction;
      [| exact (not_pushing _ _ Hkeep Hwritten)].
    destruct Hwritten as [Hchild' Hread].
    set (arr := VArr (set_nth (N.to_nat index) child' elems2) n).
    destruct (store_back_get c1 k arr Hc1 eq_refl Hlen) as [Hs [Hg Hh]].
    split; [exact Hs |].
    assert (Hfound : found (findKey (Data (store_back c1 k arr)) propName
                                    ci) = Some k).
    { apply find_after; try assumption.
      exact (rw_store _ _ _ arr Hrw eq_refl). }
    rewrite (read_step_array key rest _ propName index k _ _ Hs Harr
                             Hfound Hg).
    rewrite get_index_set by exact Hmax. exact Hread.
  - destruct (actual_key_cases current key ci Hshape Hplain)
      as [Hne [Hfk [Hlen _]]].
    pose proof (descend_get key rest current) as Hnext.
    cbv zeta in Hnext.
    unfold Obsidian.actual_key in Hne, Hfk, Hlen, Hnext.
    destruct (found (findKey (Data current) key ci)) as [foundKey |].
    + destruct (negb (typeof_object (get_property current foundKey))
                || is_null (get_property current foundKey)) eqn:Hc.
      * destruct (set_property_get current foundKey (VObj []) Hshape Hfk
                                   Hlen) as [o' [Hset [Ho' [Hget _]]]].
        rewrite Hset. cbn [bind].
        apply (Hnext o' (VObj []) v descend Hshape Hplain Harr
                     (rw_set _ _ _ _ _ (rw_refl _ _) Hset) Ho' Hget
                     eq_refl (fun _ => eq_refl) Hdescend).
      * cbn [bind]. apply orb_false_elim in Hc. destruct Hc as [H1 H2].
        apply negb_false_iff in H1.
        destruct (get_property current foundKey)
          as [[| | | | | e n | p] | b] eqn:Hg; try discriminate.
        -- pose proof (Hnext current (VArr e n) v descend Hshape Hplain
                             Harr (rw_refl _ _) Hshape Hg eq_refl
                             (fun Hcur =>
                                get_property_push_free _ _ _ Hcur Hg)
                             Hdescend)
             as Hn.
           rewrite Hg in Hn. exact Hn.
        -- pose proof (Hnext current (VObj p) v descend Hshape Hplain
                             Harr (rw_refl _ _) Hshape Hg eq_refl
                             (fun Hcur =>
                                get_property_push_free _ _ _ Hcur Hg)
                             Hdescend)
             as Hn.
           rewrite Hg in Hn. exact Hn.
    + destruct (set_property_get current key (VObj []) Hshape Hfk Hlen)
        as [o' [Hset [Ho' [Hget _]]]].
      rewrite Hset. cbn [bind].
      apply (Hnext o' (VObj []) v descend Hshape Hplain Harr
                   (rw_set _ _ _ _ _ (rw_refl _ _) Hset) Ho' Hget
                   eq_refl (fun _ => eq_refl) Hdescend).
Qed.

Lemma obs_setNestedValue_loop_cons (key : string) (rest : list string)
      (current value : value) :
  rest <> [] ->
  Obsidian.setNestedValue_loop settings (key :: rest) current value
  = Obsidian.intermediate_step settings key current
      (fun child => Obsidian.setNestedValue_loop settings rest child value).
Proof. destruct rest; [congruence | reflexivity]. Qed.

(** The path written is the path read. *)
Lemma obs_setNestedValue_loop_written (v : value) (keys : list string) :
  keys <> [] -> forallb ordinary keys = true ->
  forall current,
    object_shaped current = true ->
    written keys v ci current
            (Obsidian.setNestedValue_loop settings keys current v).
Proof.
  induction keys as [| key rest IH]; intros Hne Hord current Hshape;
    [congruence |].
  cbn [forallb] in Hord. apply andb_prop in Hord.
  destruct Hord as [Hkey Hrest].
  destruct rest as [| key' rest'].
  - cbn [Obsidian.setNestedValue_loop]. now apply obs_final_step_get.
  - rewrite obs_setNestedValue_loop_cons by discriminate.
    apply obs_intermediate_step_get; try assumption.
    intros child Hchild. apply IH; [discriminate | assumption | assumption].
Qed.

(** When the call returns, the path reads the value. *)
Lemma obs_setNestedValue_loop_get (v : value) (keys : list string)
      (current current' : value) :
  keys <> [] -> forallb ordinary keys = true ->
  object_shaped current = true ->
  Obsidian.setNestedValue_loop settings keys current v = Ok current' ->
  object_shaped current' = true
  /\ getNestedValue_loop keys (Data current') ci = Data v.
Proof.
  intros Hne Hord Hshape Hset.
  pose proof (obs_setNestedValue_loop_written v keys Hne Hord current
                                              Hshape) as H.
  rewrite Hset in H. exact H.
Qed.

(** It returns when no array of the root has an own property [push]. *)
Lemma obs_setNestedValue_loop_returns (v : value) (keys : list string)
      (current : value) :
  keys <> [] -> forallb ordinary keys = true ->
  object_shaped current = true ->
  inherits_push = true -> push_free current = true ->
  exists current',
    Obsidian.setNestedValue_loop settings keys current v = Ok current'.
Proof.
  intros Hne Hord Hshape Hhost Hfree.
  pose proof (obs_setNestedValue_loop_written v keys Hne Hord current
                                              Hshape) as H.
  destruct (Obsidian.setNestedValue_loop settings keys current v)
    as [c' | [|] | |]; cbn [written] in H; try contradiction; [eauto |].
  rewrite Hhost, Hfree in H. discriminate.
Qed.

(** The simple mode: one key, whatever the path holds. *)
Lemma simple_set_get (obj : value) (path : string) (v : value) :
  object_shaped obj = true -> plain_key path = true ->
  let k := Obsidian.actual_key (findKey (Data obj) path ci) path in
  exists obj',
    set_property obj k v = Ok obj' /\ object_shaped obj' = true
    /\ found (findKey (Data obj') path ci) = Some k
    /\ get_property obj' k = Data v.
Proof.
  intros Hshape Hplain k.
  destruct (actual_key_cases obj path ci Hshape Hplain)
    as [Hne [Hfk [Hlen _]]].
  fold k in Hne, Hfk, Hlen.
  destruct (set_property_get obj k v Hshape Hfk Hlen)
    as [o' [Hset [Ho' [Hget Hhas]]]].
  exists o'. repeat split; auto.
  apply find_after; try assumption.
  exact (rw_set _ _ _ _ _ (rw_refl _ _) Hset).
Qed.

(** [this.setNestedValue] and then [this.getNestedValue], in either
    mode: the value is read back whenever the call returns. *)
Lemma obs_set_then_get (obj : value) (path : string) (v obj' : value) :
  object_shaped obj = true ->
  (if supportNestedProperties (Obsidian.plugin settings)
   then forallb ordinary (Str.split "." path)
   else plain_key path) = true ->
  Obsidian.setNestedValue settings obj path v = Ok obj' ->
  Obsidian.getNestedValue settings obj' path = Data v.
Proof.
  intros Hshape Hord.
  unfold Obsidian.setNestedValue, Obsidian.getNestedValue, Obsidian.findKey.
  fold ci.
  destruct (supportNestedProperties (Obsidian.plugin settings));
    cbn [negb].
  - intros Hset.
    exact (proj2 (obs_setNestedValue_loop_get
                    v (Str.split "." path) obj obj'
                    (LookupFacts.split_go_nonempty _ _ _) Hord Hshape
                    Hset)).
  - assert (Hforb : forbidden path = false).
    { unfold plain_key in Hord. apply andb_prop in Hord.
      destruct Hord as [H _]. apply andb_prop in H. destruct H as [_ H].
      now apply negb_true_iff in H. }
    rewrite Hforb.
    destruct (simple_set_get obj path v Hshape Hord)
      as [obj1 [Hset [_ [Hfound Hget]]]].
    cbv zeta in Hset, Hfound, Hget.
    intros Hset'. rewrite Hset in Hset'. inversion Hset'; subst obj'.
    rewrite Hfound. cbn [get]. exact Hget.
Qed.

(** The call returns when no array of the root has an own property
    [push]. *)
Lemma obs_set_returns (obj : value) (path : string) (v : value) :
  object_shaped obj = true ->
  (if supportNestedProperties (Obsidian.plugin settings)
   then forallb ordinary (Str.split "." path)
   else plain_key path) = true ->
  inherits_push = true -> push_free obj = true ->
  exists obj', Obsidian.setNestedValue settings obj path v = Ok obj'.
Proof.
  intros Hshape Hord Hhost Hfree.
  unfold Obsidian.setNestedValue, Obsidian.findKey. fold ci.
  destruct (supportNestedProperties (Obsidian.plugin settings)).
  - exact (obs_setNestedValue_loop_returns
             v (Str.split "." path) obj
             (LookupFacts.split_go_nonempty _ _ _) Hord Hshape Hhost Hfree).
  - assert (Hforb : forbidden path = false).
    { unfold plain_key in Hord. apply andb_prop in Hord.
      destruct Hord as [H _]. apply andb_prop in H. destruct H as [_ H].
      now apply negb_true_iff in H. }
    rewrite Hforb.
    destruct (simple_set_get obj path v Hshape Hord)
      as [obj1 [Hset _]].
    exists obj1. exact Hset.
Qed.

End WithHost.

End ObsidianFacts.

(* ================================================================== *)
(** * The two builds, and a placeholder after an update *)

Module ComposeFacts.
Import Regex RegexFacts PatternFacts ReplaceFacts ScanFacts ResolverFacts CodecFacts
       RoundTripFacts.

Section WithHost.
Context {host : Host}.

(** On a root that is no object the loop of [getNestedValue] ends with
    [undefined] at its first key. *)
Lemma loop_falsy (obj : value) (keys : list string) (ci : bool) :
  truthy obj = false -> keys <> [] ->
  getNestedValue_loop keys (Data obj) ci = Data VUndefined.
Proof.
  intros Hfalsy Hkeys. destruct keys as [| key rest]; [congruence |].
  cbn [getNestedValue_loop].
  destruct obj; try discriminate; try reflexivity;
    destruct (arrayMatch key) as [[propName index] |]; reflexivity.
Qed.

(** The substitution depends on the resolver through its values only. *)
Lemma replace_calls_ext (resolve1 resolve2 : string -> looked)
      (settings : PluginSettings) :
  (forall varName, resolve1 varName = resolve2 varName) ->
  forall ms counters,
    replace_calls resolve1 settings ms counters
    = replace_calls resolve2 settings ms counters.
Proof.
  intros Hext. induction ms as [| m ms IH]; intros counters;
    [reflexivity |].
  cbn [replace_calls].
  assert (Hstep : replacer_with resolve1 settings counters m
                  = replacer_with resolve2 settings counters m).
  { unfold replacer_with. destruct (group1 m); [| reflexivity].
    now rewrite Hext. }
  rewrite Hstep. apply bind_ext. intros [rep counters'].
  now rewrite IH.
Qed.

Lemma replace_with_ext (resolve1 resolve2 : string -> looked)
      (settings : PluginSettings) (r : regex) (text : string) :
  (forall varName, resolve1 varName = resolve2 varName) ->
  replace_with resolve1 settings r text
  = replace_with resolve2 settings r text.
Proof.
  intros Hext. unfold replace_with.
  now rewrite (replace_calls_ext _ _ settings Hext).
Qed.

End WithHost.

(** ** One placeholder *)

Section Greedy.
Variable R : Type.

(** A greedy star takes a run of its class that ends the input or is
    followed by a character outside the class, when what follows the star
    matches there. *)
Lemma star_greedy_run (p : ascii -> bool) (k : cont R) (c : caps)
      (rest : string) (res : R) :
  forall x acc,
    all_in p x = true ->
    k (acc +++ x) rest c = Some res ->
    star_greedy p (x +++ rest) acc c k = Some res
    \/ exists a rest', rest = String a rest' /\ p a = true.
Proof.
  induction x as [| a x IH]; intros acc Hall Hk.
  - rewrite append_nil_r in Hk. cbn [String.append].
    destruct rest as [| b rest']; [left; exact Hk |].
    destruct (p b) eqn:Hb; [right; eauto | left].
    cbn [star_greedy]. now rewrite Hb.
  - cbn [all_in] in Hall. apply andb_prop in Hall.
    destruct Hall as [Ha Hx].
    cbn [String.append star_greedy]. rewrite Ha.
    destruct (IH (acc +++ String a EmptyString) Hx) as [H | H].
    + now rewrite append_assoc.
    + left. unfold orelse. now rewrite H.
    + now right.
Qed.

End Greedy.

(** The text of the placeholder of a name between the default
    delimiters. *)
Definition placeholder (varName : string) : string :=
  "{{" +++ varName +++ "}}".

(** The default pattern matches such a placeholder whole and captures the
    name. *)
Lemma match_here_placeholder (n0 : nat) (varName : string) (idx : nat) :
  varName <> EmptyString ->
  all_in Chars.is_name varName = true ->
  match_here default_pattern n0 (placeholder varName) idx
  = Some (Match idx (placeholder varName) (Some varName) None).
Proof.
  intros Hne Hname. unfold match_here, default_pattern, placeholder.
  rewrite run_Seq, run_Lit_self.
  destruct varName as [| a x]; [congruence |]. clear Hne.
  cbn [all_in] in Hname. apply andb_prop in Hname.
  destruct Hname as [Ha Hx].
  rewrite run_Seq. cbn [run String.append star_greedy].
  change (Chars.in_class Chars.Space a) with (Chars.is_space a).
  rewrite (ScanTextFacts.name_not_space _ Ha).
  change (Chars.in_class Chars.Name a) with (Chars.is_name a).
  rewrite Ha.
  match goal with
  | |- star_greedy ?p _ ?acc ?c ?k = Some ?res =>
      destruct (star_greedy_run _ p k c "}}" res x acc Hx) as [H | H]
  end.
  - vm_compute. reflexivity.
  - exact H.
  - destruct H as [b [rest' [Hrest Hb]]]. inversion Hrest. subst b.
    vm_compute in Hb. discriminate.
Qed.

Lemma match_all_from_skip (r : regex) (n0 : nat) (s : string) (idx : nat) :
  match_here r n0 EmptyString (idx + String.length s) = None ->
  match_all_from r n0 s idx (String.length s) = [].
Proof.
  revert idx. induction s as [| a s IH]; intros idx H.
  - cbn [String.length] in *. rewrite Nat.add_0_r in H.
    cbn [match_all_from]. now rewrite H.
  - cbn [String.length match_all_from]. apply IH.
    cbn [String.length] in H. now rewrite Nat.add_succ_r in H.
Qed.

Lemma match_all_placeholder (varName : string) :
  varName <> EmptyString ->
  all_in Chars.is_name varName = true ->
  match_all default_pattern (placeholder varName)
  = [Match 0 (placeholder varName) (Some varName) None].
Proof.
  intros Hne Hname. unfold match_all.
  remember (String.length (placeholder varName)) as n0 eqn:Hn0.
  pose proof (match_here_placeholder n0 varName 0 Hne Hname) as Hm.
  unfold placeholder in *. cbn [String.append] in *.
  cbn [match_all_from]. rewrite Hm. f_equal.
  cbn [full String.length Nat.pred]. simpl pred.
  apply match_all_from_skip. reflexivity.
Qed.

(** A value that is neither an array nor an object. *)
Definition scalar (v : value) : bool :=
  match v with
  | VArr _ _ | VObj _ => false
  | _ => true
  end.

Section Shown.
Context {host : Host}.

(** A placeholder, alone in a text, of a name that resolves to a scalar
    that is present is replaced by the text of the scalar. *)
Lemma replace_with_placeholder (resolve : string -> looked)
      (settings : PluginSettings) (varName : string) (v : value) :
  varName <> EmptyString ->
  all_in Chars.is_name varName = true ->
  resolve varName = Data v ->
  present (Data v) = true ->
  scalar v = true ->
  replace_with resolve settings default_pattern (placeholder varName)
  = Ok {| result := String_of (Data v);
          replacementCount := 1;
          missingCount := 0 |}.
Proof.
  intros Hne Hname Hres Hpresent Hscalar. unfold replace_with.
  rewrite (match_all_placeholder _ Hne Hname).
  cbn [replace_calls]. unfold replacer_with. cbn [group1].
  rewrite (ScanTextFacts.trim_name _ Hname), Hres, Hpresent.
  assert (Hend : Str.slice_from (String.length (placeholder varName))
                                (placeholder varName) = EmptyString).
  { rewrite <- (append_nil_r (placeholder varName)) at 2.
    apply BlockFacts.slice_from_append. }
  destruct v; try discriminate; cbn [bind replace_calls splice index full];
    cbn [replacements missings Nat.add]; rewrite Hend;
    change (Str.slice 0 0 (placeholder varName)) with EmptyString;
    cbn [String.append]; rewrite append_nil_r; reflexivity.
Qed.

(** With the default delimiters and no pattern compiled yet, the pattern
    is the default one. *)
Lemma compile_default (settings : PluginSettings) :
  openDelimiter settings = "{{" ->
  closeDelimiter settings = "}}" ->
  defaultSeparator settings = ":" ->
  fst (getVariablePattern settings None) = default_pattern.
Proof.
  intros Ho Hc Hs. unfold getVariablePattern, compile.
  rewrite Ho, Hc, Hs. reflexivity.
Qed.

End Shown.

End ComposeFacts.

(* ================================================================== *)
(** * Texts without a placeholder *)

Module PlainTextFacts.
Import Regex RegexFacts PatternFacts CodecFacts.

(** [s.includes(p)] *)
Fixpoint occurs (p s : string) : bool :=
  Str.startsWith s p
  || match s with
     | String _ s' => occurs p s'
     | EmptyString => false
     end.

(** The opening delimiter of the pattern that [getVariablePattern]
    returns when no pattern is cached. *)
Definition opener (settings : PluginSettings) : string :=
  if too_long settings then "{{" else openDelimiter settings.

Lemma pattern_opener (settings : PluginSettings) :
  exists close sep,
    fst (getVariablePattern settings None)
    = variable_regex (opener settings) close sep.
Proof.
  unfold getVariablePattern, opener, too_long.
  destruct (_ || _ || _).
  - exists "}}", ":". reflexivity.
  - cbn [fst]. unfold compile, RegExp_variable.
    rewrite unescape_escapeRegex. eauto.
Qed.

Lemma match_here_no_opener (open close sep : string) (n0 : nat)
      (s : string) (idx : nat) :
  Str.startsWith s open = false ->
  match_here (variable_regex open close sep) n0 s idx = None.
Proof.
  unfold Str.startsWith. intros H.
  unfold match_here, variable_regex. rewrite run_Seq.
  apply run_Lit_none.
  destruct (Str.strip_prefix open s); [discriminate | reflexivity].
Qed.

Lemma match_all_from_no_opener (open close sep : string) (n0 : nat) :
  forall s idx,
    occurs open s = false ->
    match_all_from (variable_regex open close sep) n0 s idx 0 = [].
Proof.
  induction s as [| a s IH]; intros idx H; cbn [occurs] in H;
    apply orb_false_elim in H; destruct H as [Hhere Hrest];
    cbn [match_all_from];
    rewrite (match_here_no_opener _ _ _ _ _ _ Hhere); [reflexivity |].
  now apply IH.
Qed.

Lemma slice_from_0 (s : string) : Str.slice_from 0 s = s.
Proof. now destruct s. Qed.

Lemma exec_while_from_no_opener {St : Type}
      (body : St -> rmatch -> outcome St) (open close sep : string)
      (n0 : nat) (st : St) :
  forall s idx,
    occurs open s = false ->
    exec_while_from body (variable_regex open close sep) n0 s idx 0 st
    = Ok st.
Proof.
  induction s as [| a s IH]; intros idx H; cbn [occurs] in H;
    apply orb_false_elim in H; destruct H as [Hhere Hrest];
    cbn [exec_while_from];
    rewrite (match_here_no_opener _ _ _ _ _ _ Hhere); [reflexivity |].
  now apply IH.
Qed.

Lemma exec_until_from_no_opener {A : Type}
      (body : rmatch -> outcome (option A)) (open close sep : string)
      (n0 : nat) :
  forall s idx,
    occurs open s = false ->
    exec_until_from body (variable_regex open close sep) n0 s idx 0
    = Ok None.
Proof.
  induction s as [| a s IH]; intros idx H; cbn [occurs] in H;
    apply orb_false_elim in H; destruct H as [Hhere Hrest];
    cbn [exec_until_from];
    rewrite (match_here_no_opener _ _ _ _ _ _ Hhere); [reflexivity |].
  now apply IH.
Qed.

(** What does not occur in a text does not occur in what is left of it
    from an offset on. *)
Lemma occurs_slice_from (p : string) :
  forall n s, occurs p s = false -> occurs p (Str.slice_from n s) = false.
Proof.
  induction n as [| n IH]; intros s H; [now rewrite slice_from_0 |].
  destruct s as [| a s]; [exact H |].
  cbn [Str.slice_from]. apply IH.
  cbn [occurs] in H. apply orb_false_elim in H. tauto.
Qed.

End PlainTextFacts.

(* ================================================================== *)
(** * Further properties of the code *)

Import RegexFacts PatternFacts ReplaceFacts ScanFacts ResolverFacts
       MutatorFacts.

(** X1.  The offset that [findFrontmatterEnd] returns lies within the text,
    and when it is not 0 the text up to it is a region that starts with
    [---], ends with [---] and the line break that may follow it (a line
    feed with or without a carriage return before it), and the offset is
    the length of that region. *)
Theorem findFrontmatterEnd_region (text : string) :
  findFrontmatterEnd text <= String.length text
  /\ (findFrontmatterEnd text = 0
      \/ exists inner tail body,
          text = "---" +++ inner +++ "---" +++ tail +++ body
          /\ findFrontmatterEnd text
             = String.length ("---" +++ inner +++ "---" +++ tail)
          /\ BlockFacts.line_end tail = true).
Proof.
  assert (H : findFrontmatterEnd text = 0
              \/ exists inner tail body,
                  text = "---" +++ inner +++ "---" +++ tail +++ body
                  /\ findFrontmatterEnd text
                     = String.length ("---" +++ inner +++ "---" +++ tail)
                  /\ BlockFacts.line_end tail = true).
  { unfold findFrontmatterEnd.
    destruct (negb (Str.startsWith text "---")); [now left |].
    destruct (String_match empty_frontmatter text) as [m |] eqn:Hempty.
    - right. apply BlockFacts.String_match_within in Hempty.
      destruct Hempty as [post [c' [Htext Hd]]].
      cbn [derives] in Hd.
      destruct Hd as [x1 [x2 [c1 [Hx [[H1 _] Hd]]]]].
      destruct Hd as [x3 [x4 [c2 [Hx2 [Hnl Hd]]]]].
      destruct Hd as [x5 [x6 [c3 [Hx4 [[H5 _] Hend]]]]].
      exists x3, x6, post. subst x1 x2 x4 x5.
      rewrite Htext, Hx, !append_assoc. repeat split.
      cbn [derives]. exact (BlockFacts.derives_line_end _ _ _ Hend).
    - destruct (String_match frontmatter_whole text) as [m |] eqn:Hwhole;
        [| now left].
      right. apply BlockFacts.String_match_within in Hwhole.
      destruct Hwhole as [post [c' [Htext Hd]]].
      cbn [derives] in Hd.
      destruct Hd as [x1 [x2 [c1 [Hx [[H1 _] Hd]]]]].
      destruct Hd as [x3 [x4 [c2 [Hx2 [Hnl Hd]]]]].
      destruct Hd as [x5 [x6 [c3 [Hx4 [_ Hd]]]]].
      destruct Hd as [x7 [x8 [c4 [Hx6 [Hnl2 Hd]]]]].
      destruct Hd as [x9 [x10 [c5 [Hx8 [[H9 _] Hend]]]]].
      exists (x3 +++ x5 +++ x7), x10, post. subst x1 x2 x4 x6 x8 x9.
      rewrite Htext, Hx, !append_assoc. repeat split.
      exact (BlockFacts.derives_line_end _ _ _ Hend). }
  split; [| exact H].
  destruct H as [H | [inner [tail [body [Htext [Hend _]]]]]]; [lia |].
  rewrite Hend. rewrite Htext.
  rewrite !length_append. lia.
Qed.

(** X2.  A document that starts with the block that [updateFrontmatter]
    writes, [---], a content and [---], each on a line of its own, the
    content not starting with [---] and having no line break followed by
    [---] inside: [parseFrontmatter] returns what the YAML library loads
    from the content, and [findFrontmatterEnd] returns the length of the
    block, so that the text before that offset is the block and the text
    from it on is the body, whatever the body is. *)
Theorem frontmatter_block_then_body {yaml : Yaml} (content body : string) :
  Str.startsWith content "---" = false ->
  CodecFacts.no_early_close content = true ->
  let block := "---" +++ Str.lf +++ content +++ Str.lf +++ "---" +++ Str.lf in
  parseFrontmatter (block +++ body) = CodecFacts.loaded content
  /\ findFrontmatterEnd (block +++ body) = String.length block
  /\ Str.slice_to (findFrontmatterEnd (block +++ body)) (block +++ body)
     = block
  /\ Str.slice_from (findFrontmatterEnd (block +++ body)) (block +++ body)
     = body.
Proof.
  intros Hstart Hclose block.
  assert (Hblock : block +++ body
                   = "---" +++ Str.lf +++ content +++ CodecFacts.closing
                     +++ body).
  { unfold block, CodecFacts.closing. now rewrite !append_assoc. }
  assert (Hlen : findFrontmatterEnd (block +++ body) = String.length block).
  { rewrite Hblock.
    now rewrite (BlockFacts.findFrontmatterEnd_document _ _ Hstart Hclose). }
  split; [| split; [exact Hlen | split]].
  - rewrite Hblock. now apply BlockFacts.parseFrontmatter_document.
  - rewrite Hlen. apply BlockFacts.slice_to_append.
  - rewrite Hlen. apply BlockFacts.slice_from_append.
Qed.

Lemma frontmatter_block_then_body_witness :
  let block := "---" +++ Str.lf +++ "a: 1" +++ Str.lf +++ "---" +++ Str.lf in
  parseFrontmatter (yaml := CodecFacts.sample_yaml) (block +++ "Hello {{a}}")
  = VObj [("a", VNum 1)]
  /\ Str.slice_from (findFrontmatterEnd (block +++ "Hello {{a}}"))
                    (block +++ "Hello {{a}}")
     = "Hello {{a}}".
Proof.
  destruct (frontmatter_block_then_body (yaml := CodecFacts.sample_yaml)
              "a: 1" "Hello {{a}}" eq_refl eq_refl) as [H1 [_ [_ H2]]].
  split; [exact H1 | exact H2].
Defined.

(** X3.  A second call of [getVariablePattern] with the same settings
    returns the pattern of the first call and leaves the cache as the first
    call has left it. *)
Theorem getVariablePattern_again (settings : PluginSettings)
        (patternCache : PatternCache) :
  getVariablePattern settings
                     (snd (getVariablePattern settings patternCache))
  = getVariablePattern settings patternCache.
Proof.
  unfold getVariablePattern.
  destruct ((MAX_DELIMITER_LEN <? String.length (openDelimiter settings))
            || (MAX_DELIMITER_LEN <? String.length (closeDelimiter settings))
            || (MAX_DELIMITER_LEN
                <? String.length (defaultSeparator settings))) eqn:Hlong.
  - reflexivity.
  - destruct patternCache as [entry |].
    + destruct (String.eqb (key entry) (cacheKey settings)) eqn:Hkey;
        cbn [snd key pattern].
      * now rewrite Hkey.
      * now rewrite String.eqb_refl.
    + cbn [snd key pattern]. now rewrite String.eqb_refl.
Qed.

(** X4.  A path that [getNestedValue] resolves to something other than
    [undefined] when the case of the keys counts resolves to the same value
    when it is ignored: the exact name of a key is tried first. *)
Theorem getNestedValue_exact_first {host : Host} (obj : value)
        (path : string) :
  getNestedValue obj path false <> Data VUndefined ->
  getNestedValue obj path true = getNestedValue obj path false.
Proof.
  unfold getNestedValue. destruct (negb (truthy obj)); [reflexivity |].
  intros H. now apply LookupFacts.loop_exact.
Qed.

Lemma getNestedValue_exact_first_witness :
  getNestedValue (host := ES.es_host)
    (VObj [("name", VStr "lower"); ("Name", VStr "upper")]) "Name" true
  = Data (VStr "upper").
Proof.
  rewrite (getNestedValue_exact_first (host := ES.es_host)
             (VObj [("name", VStr "lower"); ("Name", VStr "upper")]) "Name").
  - reflexivity.
  - vm_compute. discriminate.
Defined.

(** X5.  A path with an empty segment (the empty path, a path that starts
    or ends with a dot, a path with two dots in a row) resolves to
    [undefined], also when the data has a property whose name is the empty
    string. *)
Theorem getNestedValue_empty_segment {host : Host} (obj : value)
        (path : string) (caseInsensitive : bool) :
  In EmptyString (Str.split "." path) ->
  getNestedValue obj path caseInsensitive = Data VUndefined.
Proof.
  intros H. unfold getNestedValue.
  destruct (negb (truthy obj)); [reflexivity |].
  apply in_split in H. destruct H as [pre [post H]]. rewrite H.
  rewrite loop_app. apply LookupFacts.loop_empty_segment.
Qed.

Lemma getNestedValue_empty_segment_witness :
  In EmptyString (Str.split "." "a..b")
  /\ getNestedValue (host := ES.es_host)
       (VObj [("a", VObj [("", VObj [("b", VNum 1)])])]) "a..b" false
     = Data VUndefined.
Proof.
  assert (H : In EmptyString (Str.split "." "a..b")).
  { vm_compute. right. left. reflexivity. }
  split; [exact H |].
  exact (getNestedValue_empty_segment (host := ES.es_host) _ "a..b" false H).
Defined.

(** X6.  Writing and reading back.  For a root that is an object or an
    array and a path whose segments are ordinary (not empty, not forbidden,
    an index at most 1000, and no segment or identifier [length]):
    whenever [setNestedValue] returns, [getNestedValue] resolves the same
    path, in the root as the call leaves it, to the value written, whether
    the case of the keys counts or not.  The call returns when no array
    inside the root has an own property named [push] (as in data that the
    YAML library has loaded), the arrays inheriting that method. *)
Theorem setNestedValue_then_get {host : Host} (obj : value) (path : string)
        (v : value) (caseInsensitive : bool) :
  RoundTripFacts.object_shaped obj = true ->
  forallb RoundTripFacts.ordinary (Str.split "." path) = true ->
  (forall obj',
      setNestedValue obj path v = Ok obj' ->
      getNestedValue obj' path caseInsensitive = Data v)
  /\ (RoundTripFacts.inherits_push = true ->
      RoundTripFacts.push_free obj = true ->
      exists obj', setNestedValue obj path v = Ok obj').
Proof.
  intros Hshape Hord. unfold setNestedValue. split.
  - intros obj' Hset.
    destruct (RoundTripFacts.setNestedValue_loop_get
                v caseInsensitive (Str.split "." path) obj obj'
                (LookupFacts.split_go_nonempty _ _ _) Hord Hshape Hset)
      as [Hshape' Hget].
    unfold getNestedValue.
    destruct obj'; try discriminate; exact Hget.
  - intros Hhost Hfree.
    exact (RoundTripFacts.setNestedValue_loop_returns
             v (Str.split "." path) obj
             (LookupFacts.split_go_nonempty _ _ _) Hord Hshape Hhost Hfree).
Qed.

Lemma setNestedValue_then_get_witness :
  exists obj',
    setNestedValue (host := ES.es_host)
      (VObj [("a", VStr "x")]) "a.items[2].name" (VStr "n") = Ok obj'
    /\ getNestedValue (host := ES.es_host) obj' "a.items[2].name" true
       = Data (VStr "n").
Proof.
  destruct (setNestedValue_then_get (host := ES.es_host)
              (VObj [("a", VStr "x")]) "a.items[2].name" (VStr "n") true
              eq_refl eq_refl) as [Hget Hreturns].
  destruct (Hreturns eq_refl eq_refl) as [obj' Hset].
  exists obj'. split; [exact Hset | exact (Hget obj' Hset)].
Defined.

(** X7.  What [setNestedValue] leaves alone.  When the root is an object
    and the call returns normally, the root is still an object, and every
    own property other than the one that the first segment of the path
    names (the segment itself, or its identifier in [identifier[index]])
    has the value that it had.  [Object.keys] lists the keys as before
    when that property was there; a property that the call has created
    comes last when its key is no array index, and otherwise takes its
    place among the array indices, which [Object.keys] lists first, in
    ascending order. *)
Theorem setNestedValue_frame {host : Host} (props : list (string * value))
        (path : string) (v obj' : value) :
  setNestedValue (VObj props) path v = Ok obj' ->
  let k := RoundTripFacts.first_key (hd EmptyString (Str.split "." path)) in
  exists props',
    obj' = VObj props'
    /\ (forall k', k' <> k -> assoc k' props' = assoc k' props)
    /\ match assoc k props with
       | Some _ => Object_keys (VObj props') = Object_keys (VObj props)
       | None =>
           props' = props
           \/ match array_index k with
              | Some i =>
                  Object_keys (VObj props')
                  = map decimal
                        (insert_sorted i (index_keys (map fst props)))
                    ++ other_keys (map fst props)
              | None =>
                  Object_keys (VObj props')
                  = Object_keys (VObj props) ++ [k]
              end
       end.
Proof.
  intros H k. unfold setNestedValue in H. unfold k. clear k.
  destruct (Str.split "." path) as [| seg rest] eqn:Hsplit.
  { now apply LookupFacts.split_go_nonempty in Hsplit. }
  apply RoundTripFacts.setNestedValue_loop_obj in H.
  destruct H as [props' [Hobj Htouched]].
  exists props'. split; [exact Hobj |]. split.
  - exact (proj1 (RoundTripFacts.touched_frame _ _ _ Htouched)).
  - exact (RoundTripFacts.touched_keys _ _ _ Htouched).
Qed.

Lemma setNestedValue_frame_witness :
  exists props',
    setNestedValue (host := ES.es_host)
      (VObj [("title", VStr "t"); ("user", VStr "u")]) "5.name" (VStr "n")
    = Ok (VObj props')
    /\ assoc "title" props' = Some (VStr "t")
    /\ Object_keys (VObj props') = ["5"; "title"; "user"].
Proof.
  destruct (setNestedValue_frame (host := ES.es_host)
              [("title", VStr "t"); ("user", VStr "u")] "5.name"
              (VStr "n") _ eq_refl) as [props' [Hobj [Hother Hkeys]]].
  exists props'. split; [now rewrite <- Hobj |]. split.
  - apply Hother. vm_compute. discriminate.
  - inversion Hobj. reflexivity.
Defined.

(** X8.  A root that is neither an object nor an array (a scalar that the
    YAML library has loaded, [null], [undefined]): [setNestedValue] throws
    a TypeError, unless the first segment of the path is forbidden. *)
Theorem setNestedValue_scalar_root {host : Host} (obj : value)
        (path : string) (v : value) :
  RoundTripFacts.object_shaped obj = false ->
  forbidden_segment (hd EmptyString (Str.split "." path)) = false ->
  setNestedValue obj path v = Throw TypeError.
Proof.
  unfold setNestedValue. intros Hshape Hseg.
  destruct (Str.split "." path) as [| seg rest] eqn:Hsplit.
  { now apply LookupFacts.split_go_nonempty in Hsplit. }
  now apply RoundTripFacts.setNestedValue_loop_primitive.
Qed.

Lemma setNestedValue_scalar_root_witness :
  setNestedValue (host := ES.es_host) (VStr "just a string") "user.name"
                 (VStr "n")
  = Throw TypeError.
Proof.
  apply (setNestedValue_scalar_root (host := ES.es_host)); reflexivity.
Defined.

(** X9.  The variable that [getVariableAtPosition] returns describes a
    placeholder of the line under the cursor: its position is on line 0,
    from the index of the match to its end; the cursor is at or after the
    start and before the end, the end is within the line, and the text of
    the line between them is [fullMatch].  The name is not empty, the value
    is [undefined], and the status is [has-default] when a default value
    has been captured and [missing] otherwise, whatever the frontmatter
    holds. *)
Theorem getVariableAtPosition_spans (text : string) (character : nat)
        (settings : PluginSettings) (patternCache : PatternCache)
        (v : Variable_) :
  cache_wf patternCache ->
  fst (getVariableAtPosition text character settings patternCache)
  = Ok (Some v) ->
  exists from to matched,
    position v = Some {| line := 0; start := from; end_ := to |}
    /\ fullMatch v = Some matched
    /\ from <= character < to
    /\ to <= String.length text
    /\ Str.slice from to text = matched
    /\ name v <> EmptyString
    /\ value_ v = Data VUndefined
    /\ status v = match defaultValue v with
                  | Some _ => has_default
                  | None => missing
                  end.
Proof.
  intros Hwf. unfold getVariableAtPosition.
  destruct (getVariablePattern_wf settings patternCache Hwf) as [Hshape _].
  destruct (getVariablePattern settings patternCache) as [r cache'].
  cbn [fst] in *. unfold exec_until.
  assert (Hne : forall s idx m,
             match_here r (String.length text) s idx = Some m ->
             full m <> EmptyString).
  { intros s idx m Hm. now destruct (variable_match _ _ _ _ _ Hshape Hm). }
  rewrite (ScanTextFacts.exec_until_from_first _ _ _ Hne).
  intros H. apply ScanTextFacts.first_outcome_some in H.
  destruct H as [m [Hin Hbody]].
  destruct (match_all_from_In _ _ _ _ _ _ Hin) as [s' [idx' Hm]].
  destruct (variable_match _ _ _ _ _ Hshape Hm)
    as [Hfull [varName [Hg1 [Hname Hchars]]]].
  destruct (ScanTextFacts.match_all_from_located _ _ text m _ _ _ eq_refl Hin)
    as [_ [rest Hrest]].
  destruct (ScanTextFacts.located_slice _ _ _ Hfull Hrest) as [Hend Hslice].
  unfold variable_at in Hbody. rewrite Hg1 in Hbody.
  destruct ((index m <=? character)
            && (character <? index m + String.length (full m))) eqn:Hcur;
    [| discriminate].
  apply andb_prop in Hcur. destruct Hcur as [H1 H2].
  apply Nat.leb_le in H1. apply Nat.ltb_lt in H2.
  inversion Hbody; subst v. cbn [position fullMatch name value_ status
                                  defaultValue].
  exists (index m), (index m + String.length (full m)), (full m).
  rewrite (ScanTextFacts.trim_name _ Hchars).
  repeat split; auto.
Qed.

Lemma getVariableAtPosition_spans_witness :
  exists v,
    fst (getVariableAtPosition "see {{user:guest}} here" 9
                               DEFAULT_SETTINGS None) = Ok (Some v)
    /\ position v = Some {| line := 0; start := 4; end_ := 18 |}
    /\ status v = has_default.
Proof.
  eexists. split; [vm_compute; reflexivity |].
  destruct (getVariableAtPosition_spans
              "see {{user:guest}} here" 9 DEFAULT_SETTINGS None _ I eq_refl)
    as [from [to [matched [Hpos _]]]].
  split; reflexivity.
Defined.

(** X10.  [getVariableAtPosition] returns normally, and returns [null]
    when the line has no placeholder and when the cursor is at or beyond
    the end of the line. *)
Theorem getVariableAtPosition_outside (text : string) (character : nat)
        (settings : PluginSettings) (patternCache : PatternCache) :
  cache_wf patternCache ->
  (exists returned,
      fst (getVariableAtPosition text character settings patternCache)
      = Ok returned)
  /\ (match_all (fst (getVariablePattern settings patternCache)) text = []
      \/ String.length text <= character ->
      fst (getVariableAtPosition text character settings patternCache)
      = Ok None).
Proof.
  intros Hwf. unfold getVariableAtPosition.
  destruct (getVariablePattern_wf settings patternCache Hwf) as [Hshape _].
  destruct (getVariablePattern settings patternCache) as [r cache'].
  cbn [fst] in *. unfold exec_until.
  assert (Hne : forall s idx m,
             match_here r (String.length text) s idx = Some m ->
             full m <> EmptyString).
  { intros s idx m Hm. now destruct (variable_match _ _ _ _ _ Hshape Hm). }
  rewrite (ScanTextFacts.exec_until_from_first _ _ _ Hne).
  fold (match_all r text). split.
  - apply ScanTextFacts.first_outcome_ok. intros m Hin.
    destruct (match_all_In _ _ _ Hin) as [n0 [s' [idx' Hm]]].
    destruct (variable_match _ _ _ _ _ Hshape Hm)
      as [_ [varName [Hg1 _]]].
    unfold variable_at. rewrite Hg1.
    destruct ((index m <=? character)
              && (character <? index m + String.length (full m))); eauto.
  - intros [Hnone | Hbeyond]; [now rewrite Hnone |].
    apply ScanTextFacts.first_outcome_none. intros m Hin.
    destruct (match_all_from_In _ _ _ _ _ _ Hin) as [s' [idx' Hm]].
    destruct (variable_match _ _ _ _ _ Hshape Hm) as [Hfull _].
    destruct (ScanTextFacts.match_all_from_located _ _ text m _ _ _
                                                    eq_refl Hin)
      as [_ [rest Hrest]].
    destruct (ScanTextFacts.located_slice _ _ _ Hfull Hrest) as [Hend _].
    unfold variable_at.
    destruct (Nat.ltb_spec character
                           (index m + String.length (full m)));
      [lia |].
    now rewrite andb_false_r.
Qed.

Lemma getVariableAtPosition_outside_witness :
  fst (getVariableAtPosition "{{a}}" 5 DEFAULT_SETTINGS None) = Ok None.
Proof.
  apply (getVariableAtPosition_outside "{{a}}" 5 DEFAULT_SETTINGS None I).
  right. vm_compute. lia.
Defined.

(** X11.  With [preserveOriginalOnMissing], a text in which no placeholder
    has a value or a default value is returned as it is; every placeholder
    is counted as missing and none as replaced. *)
Theorem replaceVariables_preserves {host : Host} (text : string)
        (frontmatter : value) (settings : PluginSettings)
        (patternCache : PatternCache) :
  cache_wf patternCache ->
  preserveOriginalOnMissing settings = true ->
  let resolve :=
    fun varName =>
      getNestedValue frontmatter varName (caseInsensitive settings) in
  let ms := match_all (fst (getVariablePattern settings patternCache)) text in
  forallb (fun m => negb (replaced resolve m)) ms = true ->
  fst (replaceVariables text frontmatter settings patternCache)
  = Ok {| result := text;
          replacementCount := 0;
          missingCount := Z.of_nat (List.length ms) |}.
Proof.
  intros Hwf Hpreserve resolve ms Hall. unfold replaceVariables.
  destruct (getVariablePattern_wf settings patternCache Hwf) as [Hshape _].
  unfold ms in *. clear ms.
  destruct (getVariablePattern settings patternCache) as [r cache'].
  cbn [fst] in *. unfold replace_with. fold resolve.
  assert (Hne : forall s idx m,
             match_here r (String.length text) s idx = Some m ->
             full m <> EmptyString).
  { intros s idx m Hm. now destruct (variable_match _ _ _ _ _ Hshape Hm). }
  rewrite (PreserveFacts.replace_calls_missing resolve settings _ Hpreserve);
    [| | exact Hall].
  - cbn [bind replacements missings]. unfold match_all.
    rewrite (ScanTextFacts.splice_matches _ _ text Hne text 0 0 0 eq_refl)
      by lia.
    reflexivity.
  - intros m Hin. destruct (match_all_In _ _ _ Hin) as [n0 [s' [idx' Hm]]].
    destruct (variable_match _ _ _ _ _ Hshape Hm)
      as [_ [varName [Hg1 _]]].
    eauto.
Qed.

Lemma replaceVariables_preserves_witness :
  let settings := {|
    openDelimiter := "{{";
    closeDelimiter := "}}";
    defaultSeparator := ":";
    missingValueText := "[MISSING]";
    supportNestedProperties := true;
    caseInsensitive := false;
    arrayJoinSeparator := ", ";
    preserveOriginalOnMissing := true
  |} in
  fst (replaceVariables (host := ES.es_host) "Dear {{name}}, {{ greeting }}"
                        (VObj [("title", VStr "t")]) settings None)
  = Ok {| result := "Dear {{name}}, {{ greeting }}";
          replacementCount := 0; missingCount := 2 |}.
Proof.
  intros settings.
  apply (replaceVariables_preserves (host := ES.es_host)
           "Dear {{name}}, {{ greeting }}" (VObj [("title", VStr "t")])
           settings None I eq_refl).
  vm_compute. reflexivity.
Defined.

(** X12.  Every variable that [collectFrontmatterProperties] of [main.js]
    lists has the status [frontmatter-only], no position, no match and no
    default value; its name is none of the names already seen in the text;
    and its name is the prefix extended, with dots, by one or more keys
    none of which is a metadata key of the application ([position],
    [cssclasses], [tags], [aliases]) or a forbidden key. *)
Theorem collectFrontmatterProperties_listed (obj : value) (prefix : string)
        (seenVarNames : list string) (v : Variable_) :
  In v (Obsidian.collectFrontmatterProperties obj prefix seenVarNames) ->
  status v = frontmatter_only /\ position v = None /\ fullMatch v = None
  /\ defaultValue v = None /\ ~ In (name v) seenVarNames
  /\ exists keys,
      keys <> [] /\ name v = ListingFacts.path_of prefix keys
      /\ forallb (fun k => negb (ListingFacts.skipped k)) keys = true.
Proof. apply ListingFacts.collect_listed. Qed.

Lemma collectFrontmatterProperties_listed_witness :
  let obj := VObj [("title", VStr "t"); ("tags", VStr "x");
                   ("user", VObj [("name", VStr "n");
                                  ("Constructor", VStr "c")])] in
  Obsidian.collectFrontmatterProperties obj EmptyString ["title"]
  = [Obsidian.frontmatter_only_variable "user.name" (VStr "n")]
  /\ ~ In "user.name" ["title"].
Proof.
  intros obj. split; [vm_compute; reflexivity |].
  destruct (collectFrontmatterProperties_listed
              obj EmptyString ["title"]
              (Obsidian.frontmatter_only_variable "user.name" (VStr "n")))
    as [_ [_ [_ [_ [H _]]]]].
  - vm_compute. left. reflexivity.
  - exact H.
Defined.

(** X13.  The scanner and the substitution of [main.js] agree on a note.
    [scanDocumentVariables] returns normally, and whenever
    [replaceVariables], on the body of the note and with the frontmatter
    of the note, returns too (its call of [join] on an array may throw),
    as many of the variables reported have the status [missing] as it
    counts in [missingCount], and as many have the status [exists] or
    [has-default] as it counts in [replacementCount]. *)
Theorem scan_agrees_with_replace {host : Host} {yaml : Yaml}
        (settings : Obsidian.Settings) (content : string)
        (file : option Obsidian.File) (patternCache : PatternCache) :
  cache_wf patternCache ->
  exists vars,
    fst (Obsidian.scanDocumentVariables settings content file patternCache)
    = Ok vars
    /\ forall res,
         fst (Obsidian.replaceVariables
                settings
                (Str.slice_from (findFrontmatterEnd content) content)
                (Obsidian.getFrontmatter file content) patternCache)
         = Ok res ->
         missingCount res
         = Z.of_nat (List.length (filter ListingFacts.is_missing vars))
         /\ replacementCount res
            = Z.of_nat (List.length (filter ListingFacts.is_replaced vars)).
Proof.
  intros Hwf.
  pose proof (ListingFacts.obsidian_scan settings content file patternCache
                                         Hwf) as Hscan.
  cbv zeta in Hscan. rewrite Hscan. clear Hscan.
  unfold Obsidian.replaceVariables, Obsidian.getVariablePattern.
  destruct (getVariablePattern_wf (Obsidian.plugin settings)
                                  patternCache Hwf) as [Hshape _].
  destruct (getVariablePattern (Obsidian.plugin settings) patternCache)
    as [r c].
  cbn [fst] in *.
  set (frontmatter := Obsidian.getFrontmatter file content).
  set (bodyPart := Str.slice_from (findFrontmatterEnd content) content).
  set (resolve := Obsidian.getNestedValue settings frontmatter).
  eexists. split; [reflexivity |]. intros res Hres.
  destruct (replace_with_spec resolve (Obsidian.plugin settings) r bodyPart
                              res Hshape Hres)
    as [reps [_ [_ [_ [Hrep Hmiss]]]]].
  assert (Hall : forall m, In m (match_all r bodyPart) ->
                           exists g1, group1 m = Some g1).
  { intros m Hin. apply match_all_In in Hin.
    destruct Hin as [n0 [s' [idx' Hm]]].
    destruct (variable_match _ _ _ _ _ Hshape Hm) as [_ [g [Hg _]]].
    eauto. }
  assert (Hnone :
            forall f : Variable_ -> bool,
              (forall v, status v = frontmatter_only -> f v = false) ->
              filter f
                (if Obsidian.showFrontmatterOnlyVariables settings
                 then Obsidian.collectFrontmatterProperties
                        frontmatter EmptyString
                        (map name_of (match_all r bodyPart))
                 else []) = []).
  { intros f Hf.
    destruct (Obsidian.showFrontmatterOnlyVariables settings);
      [| reflexivity].
    apply ListingFacts.filter_none. intros v Hin. apply Hf.
    now destruct (ListingFacts.collect_listed _ _ _ _ Hin). }
  rewrite !filter_app, !Hnone, !app_nil_r.
  - split.
    + rewrite Hmiss. f_equal. symmetry. apply ListingFacts.count_map.
      intros m Hin. destruct (Hall m Hin) as [g1 Hg1].
      now destruct (ListingFacts.scanned_status resolve bodyPart
                      (count_newlines
                         (Str.slice 0 (findFrontmatterEnd content) content))
                      m g1 Hg1).
    + rewrite Hrep. f_equal. symmetry. apply ListingFacts.count_map.
      intros m Hin. destruct (Hall m Hin) as [g1 Hg1].
      now destruct (ListingFacts.scanned_status resolve bodyPart
                      (count_newlines
                         (Str.slice 0 (findFrontmatterEnd content) content))
                      m g1 Hg1).
  - intros v Hv. unfold ListingFacts.is_replaced. now rewrite Hv.
  - intros v Hv. unfold ListingFacts.is_missing. now rewrite Hv.
Qed.

Lemma scan_agrees_with_replace_witness :
  exists vars res,
    fst (Obsidian.scanDocumentVariables
           (host := ES.es_host) (yaml := CodecFacts.sample_yaml)
           {| Obsidian.plugin := DEFAULT_SETTINGS;
              Obsidian.showFrontmatterOnlyVariables := true |}
           "{{a}} {{b}} {{c:d}} {{b}}"
           (Some {| Obsidian.cached_frontmatter := VUndefined |}) None)
    = Ok vars
    /\ fst (Obsidian.replaceVariables
              (host := ES.es_host)
              {| Obsidian.plugin := DEFAULT_SETTINGS;
                 Obsidian.showFrontmatterOnlyVariables := true |}
              "{{a}} {{b}} {{c:d}} {{b}}" (VObj []) None)
       = Ok res
    /\ missingCount res
       = Z.of_nat (List.length (filter ListingFacts.is_missing vars)).
Proof.
  destruct (scan_agrees_with_replace
              (host := ES.es_host) (yaml := CodecFacts.sample_yaml)
              {| Obsidian.plugin := DEFAULT_SETTINGS;
                 Obsidian.showFrontmatterOnlyVariables := true |}
              "{{a}} {{b}} {{c:d}} {{b}}"
              (Some {| Obsidian.cached_frontmatter := VUndefined |}) None I)
    as [vars [Hscan Hagree]].
  exists vars.
  exists {| result := "[MISSING] [MISSING] d [MISSING]";
            replacementCount := 1; missingCount := 3 |}.
  split; [exact Hscan |].
  assert (Hres : fst (Obsidian.replaceVariables
                        (host := ES.es_host)
                        {| Obsidian.plugin := DEFAULT_SETTINGS;
                           Obsidian.showFrontmatterOnlyVariables := true |}
                        "{{a}} {{b}} {{c:d}} {{b}}" (VObj []) None)
                 = Ok {| result := "[MISSING] [MISSING] d [MISSING]";
                         replacementCount := 1; missingCount := 3 |}).
  { vm_compute. reflexivity. }
  split; [exact Hres |].
  exact (proj1 (Hagree _ Hres)).
Defined.

(** X14.  A name that [sanitizeFilename] returns holds none of the nine
    characters that it replaces: backslash, slash, colon, asterisk,
    question mark, double quote, angle brackets, bar. *)
Theorem sanitizeFilename_allowed (name sanitized : string) :
  sanitizeFilename name = Some sanitized ->
  all_in FilenameFacts.allowed sanitized = true.
Proof.
  unfold sanitizeFilename. destruct (Str.is_empty name); [discriminate |].
  set (s := strip_dots (Str.trim (collapse_spaces (replace_invalid name)))).
  assert (Hs : all_in FilenameFacts.allowed s = true).
  { unfold s, strip_dots, Str.trim.
    apply FilenameFacts.all_in_strip_trailing,
      FilenameFacts.all_in_strip_leading, FilenameFacts.all_in_trimEnd,
      FilenameFacts.all_in_trimStart, FilenameFacts.collapse_spaces_allowed,
      FilenameFacts.replace_invalid_allowed. }
  destruct (WINDOWS_RESERVED s).
  - cbn [Str.is_empty String.append]. intros H. inversion H.
    cbn [all_in]. now rewrite Hs.
  - destruct (Str.is_empty s); [discriminate |].
    intros H. inversion H. now subst.
Qed.

Lemma sanitizeFilename_allowed_witness :
  sanitizeFilename "a/b: c?" = Some "a-b- c-"
  /\ all_in FilenameFacts.allowed "a-b- c-" = true.
Proof.
  split; [reflexivity |].
  exact (sanitizeFilename_allowed "a/b: c?" "a-b- c-" eq_refl).
Defined.

(** X15.  A name that [sanitizeFilename] returns is not empty, is none of
    the reserved device names ([con], [prn], [aux], [nul], [com1] to
    [com9], [lpt1] to [lpt9], in any case), and neither starts nor ends
    with a dot. *)
Theorem sanitizeFilename_shape (name sanitized : string) :
  sanitizeFilename name = Some sanitized ->
  sanitized <> EmptyString
  /\ WINDOWS_RESERVED sanitized = false
  /\ FilenameFacts.starts_with_dot sanitized = false
  /\ FilenameFacts.ends_with_dot sanitized = false.
Proof.
  unfold sanitizeFilename. destruct (Str.is_empty name); [discriminate |].
  set (s := strip_dots (Str.trim (collapse_spaces (replace_invalid name)))).
  assert (Hstart : FilenameFacts.starts_with_dot s = false).
  { unfold s, strip_dots. apply FilenameFacts.strip_trailing_start,
      FilenameFacts.strip_leading_start. }
  assert (Hend : FilenameFacts.ends_with_dot s = false).
  { unfold s, strip_dots. apply FilenameFacts.strip_trailing_end. }
  destruct (WINDOWS_RESERVED s) eqn:Hreserved.
  - cbn [Str.is_empty String.append]. intros H. inversion H.
    split; [discriminate |].
    split; [apply (FilenameFacts.underscore_not_reserved s) |].
    split; [reflexivity |].
    now apply (FilenameFacts.underscore_end s).
  - destruct (Str.is_empty s) eqn:Hempty; [discriminate |].
    intros H. inversion H. subst sanitized.
    split; [now destruct s | auto].
Qed.

Lemma sanitizeFilename_shape_witness :
  sanitizeFilename "..Con." = Some "_Con"
  /\ WINDOWS_RESERVED "_Con" = false.
Proof.
  split; [reflexivity |].
  now destruct (sanitizeFilename_shape "..Con." "_Con" eq_refl)
    as [_ [H _]].
Defined.

(** X16.  [sanitizeFilename] returns [null] for the empty name, and
    returns a name as it is when the name is not empty, is no reserved
    device name, and holds none of the characters that are replaced, no
    white space and no dot. *)
Theorem sanitizeFilename_plain (name : string) :
  sanitizeFilename EmptyString = None
  /\ (name <> EmptyString ->
      all_in FilenameFacts.plain name = true ->
      WINDOWS_RESERVED name = false ->
      sanitizeFilename name = Some name).
Proof.
  split; [reflexivity |]. intros Hne Hplain Hreserved.
  unfold sanitizeFilename.
  destruct name as [| c name]; [congruence |]. cbn [Str.is_empty].
  rewrite FilenameFacts.replace_invalid_plain,
    FilenameFacts.collapse_spaces_plain, FilenameFacts.trim_plain,
    FilenameFacts.strip_dots_plain by assumption.
  now rewrite Hreserved.
Qed.

Lemma sanitizeFilename_plain_witness :
  sanitizeFilename "pentest-report_2024" = Some "pentest-report_2024".
Proof.
  apply (sanitizeFilename_plain "pentest-report_2024");
    [discriminate | reflexivity | reflexivity].
Defined.

(** X17.  What [updateFrontmatter] does to a document.  Suppose that the
    updates run normally on the frontmatter parsed from the text, and that
    the YAML library dumps the result as a content followed by a line
    break and loads that content back to it, the content not starting with
    [---] and having no line break followed by [---] inside.  Then
    [updateFrontmatter] returns one edit; in the text with the edit
    applied [parseFrontmatter] finds the updated frontmatter, and the body
    (the text from the offset of [findFrontmatterEnd] on) is the body of
    the text before the edit.  For a single update with an ordinary path on
    a frontmatter that is an object or an array, [getNestedValue] then
    resolves the path to the value of the update. *)
Theorem updateFrontmatter_applied {host : Host} {yaml : Yaml}
        (text : string) (updates : list (string * value))
        (frontmatter' : value) (content : string) :
  apply_updates (parseFrontmatter text) updates = Ok frontmatter' ->
  yaml_dump frontmatter' = Ok (content +++ Str.lf) ->
  yaml_load content = Ok frontmatter' ->
  truthy frontmatter' = true ->
  Str.startsWith content "---" = false ->
  CodecFacts.no_early_close content = true ->
  exists edit,
    updateFrontmatter text updates = Ok [edit]
    /\ parseFrontmatter (apply_edit text edit) = frontmatter'
    /\ Str.slice_from (findFrontmatterEnd (apply_edit text edit))
                      (apply_edit text edit)
       = Str.slice_from (findFrontmatterEnd text) text
    /\ (forall key v caseInsensitive,
           updates = [(key, v)] ->
           RoundTripFacts.object_shaped (parseFrontmatter text) = true ->
           forallb RoundTripFacts.ordinary (Str.split "." key) = true ->
           getNestedValue (parseFrontmatter (apply_edit text edit)) key
                          caseInsensitive
           = Data v).
Proof.
  intros Hupdates Hdump Hload Htruthy Hstart Hclose.
  set (body := Str.slice_from (findFrontmatterEnd text) text).
  set (block := "---" +++ Str.lf +++ content +++ CodecFacts.closing).
  assert (Hblock : newFmBlock frontmatter' = Ok block).
  { unfold newFmBlock. rewrite Hdump. cbn [bind].
    unfold block, CodecFacts.closing. now rewrite !append_assoc. }
  assert (Hedit :
            exists edit,
              updateFrontmatter text updates = Ok [edit]
              /\ apply_edit text edit = block +++ body).
  { unfold updateFrontmatter. rewrite Hupdates. cbn [bind].
    rewrite Hblock. cbn [bind].
    destruct (Str.startsWith text "---") eqn:Hhas;
      eexists; (split; [reflexivity |]); cbn [apply_edit Str.slice_to].
    - reflexivity.
    - unfold body, findFrontmatterEnd. rewrite Hhas. reflexivity. }
  destruct Hedit as [edit [Hedit Htext']]. exists edit.
  split; [exact Hedit |]. rewrite Htext'.
  assert (Hparse : parseFrontmatter (block +++ body) = frontmatter').
  { unfold block. rewrite !append_assoc.
    rewrite (BlockFacts.parseFrontmatter_document _ _ Hstart Hclose).
    unfold CodecFacts.loaded. now rewrite Hload, Htruthy. }
  split; [exact Hparse |]. split.
  - unfold block. rewrite !append_assoc.
    rewrite (BlockFacts.findFrontmatterEnd_document _ _ Hstart Hclose).
    rewrite <- !append_assoc. apply BlockFacts.slice_from_append.
  - intros key v ci Hone Hshape Hord. rewrite Hparse.
    rewrite Hone in Hupdates. cbn [apply_updates] in Hupdates.
    unfold setNestedValue in Hupdates.
    destruct (setNestedValue_loop (Str.split "." key)
                                  (parseFrontmatter text) v)
      as [obj' | | |] eqn:Hset; try discriminate.
    cbn [bind] in Hupdates. inversion Hupdates; subst obj'.
    destruct (RoundTripFacts.setNestedValue_loop_get
                v ci (Str.split "." key) _ _
                (LookupFacts.split_go_nonempty _ _ _) Hord Hshape Hset)
      as [Hshape' Hget].
    unfold getNestedValue. rewrite Htruthy. exact Hget.
Qed.

Lemma updateFrontmatter_applied_witness :
  exists edit,
    updateFrontmatter (host := ES.es_host) (yaml := CodecFacts.sample_yaml)
                      "Hello {{a}}" [("a", VNum 1)] = Ok [edit]
    /\ parseFrontmatter (yaml := CodecFacts.sample_yaml)
                        (apply_edit "Hello {{a}}" edit)
       = VObj [("a", VNum 1)].
Proof.
  destruct (updateFrontmatter_applied
              (host := ES.es_host) (yaml := CodecFacts.sample_yaml)
              "Hello {{a}}" [("a", VNum 1)] (VObj [("a", VNum 1)]) "a: 1"
              eq_refl eq_refl eq_refl eq_refl eq_refl eq_refl)
    as [edit [Hedit [Hparse _]]].
  exists edit. split; [exact Hedit | exact Hparse].
Defined.

(** X18.  The name of a method that objects inherit, other than the
    forbidden [constructor], is found by [getNestedValue] in an object that
    has no own property of that name: the path resolves to the method, which
    counts as a value.  With the engine of the examples the placeholder
    [{{toString}}] is replaced by the text of the function, also when the
    frontmatter is empty. *)
Theorem getNestedValue_inherited {host : Host}
        (props : list (string * value)) (key : string)
        (caseInsensitive : bool) :
  mem key object_prototype = true ->
  forbidden key = false ->
  assoc key props = None ->
  Str.split "." key = [key] ->
  arrayMatch key = None ->
  getNestedValue (VObj props) key caseInsensitive = Builtin key
  /\ present (Builtin key) = true
  /\ fst (replaceVariables (host := ES.es_host) "{{toString}}" (VObj [])
                           DEFAULT_SETTINGS None)
     = Ok {| result := "function toString() { [native code] }";
             replacementCount := 1; missingCount := 0 |}.
Proof.
  intros Hproto Hforb Hown Hsplit Harr.
  split; [| split; [reflexivity | vm_compute; reflexivity]].
  unfold getNestedValue. cbn [truthy negb]. rewrite Hsplit.
  assert (Hne : Str.is_empty key = false).
  { pose proof (prototype_names key) as H. rewrite Hproto in H.
    rewrite orb_true_r in H. specialize (H eq_refl).
    destruct key; [discriminate | reflexivity]. }
  assert (Hhas : has_property (VObj props) key = Ok true).
  { cbn [has_property]. now rewrite Hown, Hproto. }
  rewrite (RoundTripFacts.loop_step key [] (VObj props) caseInsensitive
             eq_refl Hhas Hne Hforb Harr).
  cbn [getNestedValue_loop get_property]. now rewrite Hown, Hproto.
Qed.

Lemma getNestedValue_inherited_witness :
  getNestedValue (host := ES.es_host) (VObj [("title", VStr "t")])
                 "valueOf" false
  = Builtin "valueOf".
Proof.
  now destruct (getNestedValue_inherited (host := ES.es_host)
                  [("title", VStr "t")] "valueOf" false
                  eq_refl eq_refl eq_refl eq_refl eq_refl) as [H _].
Defined.

(** X19.  The modal of [main.js] lists every name once: each group that
    [groupVariablesByStatus] returns holds, in the order of the list, the
    variables of its status among the first occurrences of the names, no
    two variables listed have the same name, and every name of the list is
    listed. *)
Theorem groupVariablesByStatus_firsts (variables : list Variable_) :
  let listed := ModalFacts.firsts variables in
  Modal.groupVariablesByStatus variables
  = {| Modal.g_missing := filter (ModalFacts.has_status missing) listed;
       Modal.g_hasDefault :=
         filter (ModalFacts.has_status has_default) listed;
       Modal.g_exists := filter (ModalFacts.has_status exists_) listed;
       Modal.g_frontmatterOnly :=
         filter (ModalFacts.has_status frontmatter_only) listed |}
  /\ NoDup (map name listed)
  /\ (forall v, In v variables -> In (name v) (map name listed)).
Proof.
  intros listed. split; [| split].
  - unfold Modal.groupVariablesByStatus.
    now rewrite ModalFacts.group_fold.
  - apply ModalFacts.firsts_from_NoDup.
  - intros v Hin.
    destruct (ModalFacts.firsts_from_names variables [] v Hin) as [[] | H].
    exact H.
Qed.

(** X20.  The counts of [getVariableStats] are the sizes of the groups of
    [groupVariablesByStatus], and [total] is their sum, the number of
    names listed, which is at most the number of variables. *)
Theorem getVariableStats_counts (variables : list Variable_) :
  let stats := Modal.getVariableStats variables in
  let grouped := Modal.groupVariablesByStatus variables in
  Modal.exists' stats = List.length (Modal.g_exists grouped)
  /\ Modal.hasDefault stats = List.length (Modal.g_hasDefault grouped)
  /\ Modal.missing' stats = List.length (Modal.g_missing grouped)
  /\ Modal.frontmatterOnly stats
     = List.length (Modal.g_frontmatterOnly grouped)
  /\ Modal.total stats
     = Modal.exists' stats + Modal.hasDefault stats + Modal.missing' stats
       + Modal.frontmatterOnly stats
  /\ Modal.total stats = List.length (ModalFacts.firsts variables)
  /\ Modal.total stats <= List.length variables.
Proof.
  intros stats grouped. unfold stats, grouped, Modal.getVariableStats,
    Modal.groupVariablesByStatus.
  rewrite ModalFacts.stats_fold, ModalFacts.group_fold.
  cbn [Modal.total Modal.exists' Modal.hasDefault Modal.missing'
         Modal.frontmatterOnly Modal.g_exists Modal.g_hasDefault
         Modal.g_missing Modal.g_frontmatterOnly Nat.add app].
  repeat (split; [reflexivity |]).
  split; [apply ModalFacts.status_partition |].
  split; [reflexivity |].
  unfold ModalFacts.firsts. generalize (@nil string).
  induction variables as [| v rest IH]; intros seen; simpl; [lia |].
  destruct (mem (name v) seen); simpl.
  - specialize (IH seen). lia.
  - specialize (IH (seen ++ [name v])). lia.
Qed.

(** X21.  The positions that [scanDocumentVariables] reports, when it is
    given the offset of [findFrontmatterEnd], locate the placeholders in
    the document: for every variable returned, the document has a line of
    the number [line], the text of that line from the column [start] on
    begins with the match up to its first line break, and [end] is [start]
    plus the length of the match; when the match holds no line break, the
    text of the line from [start] to [end] is the match. *)
Theorem scan_positions {host : Host} (text : string) (frontmatter : value)
        (settings : PluginSettings) (patternCache : PatternCache)
        (vars : list Variable_) (v : Variable_) :
  cache_wf patternCache ->
  fst (scanDocumentVariables text frontmatter (findFrontmatterEnd text)
                             settings patternCache) = Ok vars ->
  In v vars ->
  exists l from to matched line_text rest,
    position v = Some {| line := l; start := from; end_ := to |}
    /\ fullMatch v = Some matched
    /\ to = from + String.length matched
    /\ nth_error (Str.split Str.LF text) l = Some line_text
    /\ Str.slice_from from line_text
       = PositionFacts.until_lf matched +++ rest
    /\ (PositionFacts.line_feeds matched = 0 ->
        Str.slice from to line_text = matched).
Proof.
  intros Hwf Hscan Hin.
  set (frontmatterEnd := findFrontmatterEnd text) in *.
  set (bodyPart := Str.slice_from frontmatterEnd text).
  set (front := Str.slice_to frontmatterEnd text).
  assert (Htext : text = front +++ bodyPart).
  { symmetry. apply PositionFacts.slice_to_from. }
  destruct (getVariablePattern_wf settings patternCache Hwf) as [Hshape _].
  unfold scanDocumentVariables in Hscan. fold bodyPart in Hscan.
  destruct (getVariablePattern settings patternCache) as [r c].
  cbn [fst] in Hshape, Hscan.
  rewrite (exec_while_fold _ _ _ _ Hshape) in Hscan.
  assert (Hall : forall m, In m (match_all r bodyPart) ->
                           exists g1, group1 m = Some g1).
  { intros m Hm. apply match_all_In in Hm.
    destruct Hm as [n0 [s' [idx' Hm]]].
    destruct (variable_match _ _ _ _ _ Hshape Hm) as [_ [g [Hg _]]].
    eauto. }
  destruct (scan_steps_spec frontmatter settings bodyPart
              (count_newlines (Str.slice 0 frontmatterEnd text))
              (match_all r bodyPart) Hall
              {| variables := []; seen := [] |})
    as [st' [new [Hfold [Hv [_ [_ [_ [_ Hfirst]]]]]]]].
  rewrite Hfold in Hscan. cbn [bind variables app] in Hscan, Hv.
  inversion Hscan; subst vars. rewrite Hv in Hin.
  destruct (Hfirst v Hin) as [ms1 [m [ms2 [Hms [Hrep _]]]]].
  assert (Hm : In m (match_all r bodyPart)).
  { rewrite Hms. apply in_or_app. right. now left. }
  destruct (match_all_from_In _ _ _ _ _ _ Hm) as [s' [idx' Hhere]].
  destruct (variable_match _ _ _ _ _ Hshape Hhere) as [Hfull _].
  destruct (ScanTextFacts.match_all_from_located _ _ bodyPart m _ _ _
                                                  eq_refl Hm)
    as [_ [tail Htail]].
  destruct (ScanTextFacts.located_slice _ _ _ Hfull Htail) as [Hend _].
  set (pre := Str.slice 0 (index m) bodyPart).
  assert (Hbody : bodyPart = pre +++ full m +++ tail).
  { rewrite <- Htail. symmetry.
    apply (ScanTextFacts.slice_then_rest 0 (index m) bodyPart). lia. }
  assert (Hpre : String.length pre = index m).
  { unfold pre, Str.slice. rewrite Nat.sub_0_r. cbn [Str.slice_from].
    apply PositionFacts.slice_to_length. lia. }
  assert (Hfront : Str.slice 0 frontmatterEnd text = front).
  { unfold Str.slice. now rewrite Nat.sub_0_r. }
  assert (Hstart : PositionFacts.last_line front EmptyString = EmptyString).
  { destruct (PositionFacts.findFrontmatterEnd_boundary text) as [H | H];
      [exact H |].
    fold frontmatterEnd bodyPart in H. rewrite H in Hbody.
    destruct pre; destruct (full m); try discriminate. congruence. }
  destruct (PositionFacts.until_lf_append (full m) tail) as [rest Hrest].
  subst v. unfold reported, scanned_variable.
  cbn [position fullMatch]. fold pre. rewrite Hfront.
  rewrite !PositionFacts.count_newlines_line_feeds.
  pose proof (PositionFacts.column_last_line pre) as Hcol.
  rewrite Hpre in Hcol. rewrite Hcol. clear Hcol.
  set (col := String.length (PositionFacts.last_line pre EmptyString)).
  exists (PositionFacts.line_feeds front + PositionFacts.line_feeds pre),
    col, (col + String.length (full m)), (full m),
    (PositionFacts.last_line pre EmptyString
     +++ PositionFacts.until_lf (full m +++ tail)), rest.
  assert (Hslice :
            Str.slice_from col
              (PositionFacts.last_line pre EmptyString
               +++ PositionFacts.until_lf (full m +++ tail))
            = PositionFacts.until_lf (full m) +++ rest).
  { unfold col. now rewrite BlockFacts.slice_from_append. }
  split; [reflexivity |]. split; [reflexivity |]. split; [reflexivity |].
  split; [| split; [exact Hslice |]].
  - rewrite Htext at 1. rewrite Hbody, <- append_assoc.
    rewrite <- PositionFacts.line_feeds_append. unfold Str.split.
    rewrite PositionFacts.split_go_line.
    now rewrite PositionFacts.last_line_append, Hstart.
  - intros Hnone. unfold Str.slice. rewrite Hslice.
    rewrite (PositionFacts.until_lf_none _ Hnone).
    replace (col + String.length (full m) - col)
      with (String.length (full m)) by lia.
    apply BlockFacts.slice_to_append.
Qed.

Lemma scan_positions_witness :
  let text := "---" +++ Str.lf +++ "a: 1" +++ Str.lf +++ "---" +++ Str.lf
              +++ "Hello" +++ Str.lf +++ "to {{a}}!" in
  exists vars v line_text,
    fst (scanDocumentVariables (host := ES.es_host) text (VObj [])
           (findFrontmatterEnd text) DEFAULT_SETTINGS None) = Ok vars
    /\ In v vars
    /\ position v = Some {| line := 4; start := 3; end_ := 8 |}
    /\ nth_error (Str.split Str.LF text) 4 = Some line_text
    /\ Str.slice 3 8 line_text = "{{a}}".
Proof.
  intros text.
  assert (Hscan :
            exists vars,
              fst (scanDocumentVariables (host := ES.es_host) text (VObj [])
                     (findFrontmatterEnd text) DEFAULT_SETTINGS None)
              = Ok vars).
  { eexists. vm_compute. reflexivity. }
  destruct Hscan as [vars Hscan].
  assert (Hvars : exists v, In v vars
                            /\ position v
                               = Some {| line := 4; start := 3; end_ := 8 |}
                            /\ fullMatch v = Some "{{a}}").
  { vm_compute in Hscan. inversion Hscan. eexists.
    split; [left; reflexivity | split; reflexivity]. }
  destruct Hvars as [v [Hin [Hpos Hfull]]].
  destruct (scan_positions (host := ES.es_host) text (VObj [])
              DEFAULT_SETTINGS None vars v I Hscan Hin)
    as [l [from [to [matched [line_text [rest
         [Hpos' [Hfull' [_ [Hline [_ Hslice]]]]]]]]]]].
  rewrite Hpos in Hpos'. inversion Hpos'; subst l from to.
  rewrite Hfull in Hfull'. inversion Hfull'; subst matched.
  exists vars, v, line_text.
  repeat split; try assumption. now apply Hslice.
Defined.

(** X22.  Writing and reading back in [main.js].  For a root that is an
    object or an array, and, when nested properties are supported, a path
    whose segments are ordinary (not empty, not forbidden, not [length] in
    any case, an index at most 1000), or else, in the simple mode, a path
    that is such a key as a whole: whenever [this.setNestedValue] returns,
    [this.getNestedValue] resolves the path, in the root as the call
    leaves it, to the value written, whether the case of the keys is
    ignored or not.  The call returns when no array inside the root has an
    own property named [push], the arrays inheriting that method. *)
Theorem obsidian_setNestedValue_then_get {host : Host}
        (settings : Obsidian.Settings) (obj : value) (path : string)
        (v : value) :
  RoundTripFacts.object_shaped obj = true ->
  (if supportNestedProperties (Obsidian.plugin settings)
   then forallb ObsidianFacts.ordinary (Str.split "." path)
   else ObsidianFacts.plain_key path) = true ->
  (forall obj',
      Obsidian.setNestedValue settings obj path v = Ok obj' ->
      Obsidian.getNestedValue settings obj' path = Data v)
  /\ (RoundTripFacts.inherits_push = true ->
      RoundTripFacts.push_free obj = true ->
      exists obj', Obsidian.setNestedValue settings obj path v = Ok obj').
Proof.
  intros Hshape Hord. split.
  - intros obj' Hset.
    exact (ObsidianFacts.obs_set_then_get settings obj path v obj' Hshape
                                          Hord Hset).
  - intros Hhost Hfree.
    exact (ObsidianFacts.obs_set_returns settings obj path v Hshape Hord
                                         Hhost Hfree).
Qed.

Lemma obsidian_setNestedValue_then_get_witness :
  let settings := {|
    Obsidian.plugin := {|
      openDelimiter := "{{"; closeDelimiter := "}}";
      defaultSeparator := ":"; missingValueText := "[MISSING]";
      supportNestedProperties := true; caseInsensitive := true;
      arrayJoinSeparator := ", "; preserveOriginalOnMissing := false |};
    Obsidian.showFrontmatterOnlyVariables := true |} in
  exists obj',
    Obsidian.setNestedValue (host := ES.es_host) settings
      (VObj [("User", VObj [("Name", VStr "old")])]) "user.NAME"
      (VStr "new") = Ok obj'
    /\ Obsidian.getNestedValue (host := ES.es_host) settings obj'
                               "user.NAME"
       = Data (VStr "new").
Proof.
  intros settings.
  destruct (obsidian_setNestedValue_then_get (host := ES.es_host) settings
              (VObj [("User", VObj [("Name", VStr "old")])]) "user.NAME"
              (VStr "new") eq_refl eq_refl) as [Hget Hreturns].
  destruct (Hreturns eq_refl eq_refl) as [obj' Hset].
  exists obj'. split; [exact Hset | exact (Hget obj' Hset)].
Defined.

(** X23.  With [caseInsensitive], [this.setNestedValue] of [main.js]
    assigns to the property that [findKey] finds: when the root is an
    object and the one key of the path is found under a name that differs
    from it in case, the value is assigned to that property; no key is
    added to the object and its keys keep their order, and the property
    that the path spells stays as it was. *)
Theorem obsidian_set_existing_key {host : Host}
        (settings : Obsidian.Settings) (props : list (string * value))
        (key k : string) (v : value) :
  ObsidianFacts.plain_key key = true ->
  Str.split "." key = [key] ->
  arrayMatch key = None ->
  Obsidian.findKey settings (Data (VObj props)) key = Some k ->
  k <> key ->
  Obsidian.setNestedValue settings (VObj props) key v
  = Ok (VObj (assoc_set k v props))
  /\ map fst (assoc_set k v props) = map fst props
  /\ assoc key (assoc_set k v props) = assoc key props
  /\ caseInsensitive (Obsidian.plugin settings) = true.
Proof.
  intros Hplain Hsplit Harr Hfind Hdiff. unfold Obsidian.findKey in Hfind.
  pose proof (ObsidianFacts.actual_key_cases
                (VObj props) key
                (caseInsensitive (Obsidian.plugin settings))
                eq_refl Hplain) as Hcases.
  cbv zeta in Hcases.
  assert (Hk : Str.is_empty k = false).
  { destruct (ObsidianFacts.findKey_cases (VObj props) _ _ _ eq_refl Hfind)
      as [[Heq _] | [_ [_ Hsearch]]]; [congruence |].
    apply find_some in Hsearch. destruct Hsearch as [_ Hsame].
    unfold ObsidianFacts.same_letters in Hsame.
    apply String.eqb_eq in Hsame.
    unfold ObsidianFacts.plain_key in Hplain.
    destruct key; [discriminate |]. destruct k; [discriminate |].
    reflexivity. }
  assert (Hactual :
            Obsidian.actual_key
              (findKey (Data (VObj props)) key
                       (caseInsensitive (Obsidian.plugin settings))) key
            = k).
  { unfold Obsidian.actual_key, found. now rewrite Hfind, Hk. }
  rewrite Hactual in Hcases.
  destruct Hcases as [_ [Hforb [_ [Heq | [_ [Hci [_ [_ Hown]]]]]]]];
    [congruence |].
  assert (Hkey : forbidden key = false).
  { unfold ObsidianFacts.plain_key in Hplain. apply andb_prop in Hplain.
    destruct Hplain as [H _]. apply andb_prop in H. destruct H as [_ H].
    now apply negb_true_iff in H. }
  split; [| split; [| split]].
  - unfold Obsidian.setNestedValue, Obsidian.findKey.
    destruct (supportNestedProperties (Obsidian.plugin settings));
      cbn [negb].
    + rewrite Hsplit. cbn [Obsidian.setNestedValue_loop].
      unfold Obsidian.final_step, Obsidian.findKey.
      rewrite Hkey, Harr, Hactual.
      now apply RoundTripFacts.set_property_obj.
    + rewrite Hkey, Hactual. now apply RoundTripFacts.set_property_obj.
  - now apply ObsidianFacts.assoc_set_own_keys.
  - apply RoundTripFacts.assoc_set_other. congruence.
  - exact Hci.
Qed.

Lemma obsidian_set_existing_key_witness :
  let settings := {|
    Obsidian.plugin := {|
      openDelimiter := "{{"; closeDelimiter := "}}";
      defaultSeparator := ":"; missingValueText := "[MISSING]";
      supportNestedProperties := true; caseInsensitive := true;
      arrayJoinSeparator := ", "; preserveOriginalOnMissing := false |};
    Obsidian.showFrontmatterOnlyVariables := true |} in
  Obsidian.setNestedValue (host := ES.es_host) settings
    (VObj [("Target", VStr "10.0.0.1"); ("port", VNum 80)]) "target"
    (VStr "10.0.0.2")
  = Ok (VObj [("Target", VStr "10.0.0.2"); ("port", VNum 80)]).
Proof.
  intros settings.
  destruct (obsidian_set_existing_key (host := ES.es_host) settings
              [("Target", VStr "10.0.0.1"); ("port", VNum 80)]
              "target" "Target" (VStr "10.0.0.2")
              eq_refl eq_refl eq_refl eq_refl) as [H _].
  - discriminate.
  - exact H.
Defined.

(** X24.  What [this.setVariableInFrontmatter] of [main.js] does to a
    note.  Suppose that [this.setNestedValue] runs normally on the
    frontmatter of the note (the empty object when the note does not start
    with [---]), and that the YAML library writes the result as a content
    followed by a line break and reads that content back to it, the
    content not starting with [---] and having no line break followed by
    [---] inside.  Then in the text that the method leaves in the editor
    [this.parseFrontmatterFromContent] finds the updated frontmatter, the
    body is the body of the note before, and, for a root that is an object
    or an array and an ordinary path, [this.getNestedValue] resolves the
    name to the value. *)
Theorem setVariableInFrontmatter_applied {host : Host} {yaml : Yaml}
        (settings : Obsidian.Settings) (content varName : string)
        (v frontmatter' : value) (dumped : string) :
  let frontmatter :=
    if Str.startsWith content "---"
    then Obsidian.parseFrontmatterFromContent content
    else VObj [] in
  Obsidian.setNestedValue settings frontmatter varName v
  = Ok frontmatter' ->
  yaml_dump frontmatter' = Ok (dumped +++ Str.lf) ->
  yaml_load dumped = Ok frontmatter' ->
  truthy frontmatter' = true ->
  Str.startsWith dumped "---" = false ->
  CodecFacts.no_early_close dumped = true ->
  exists content',
    Obsidian.setVariableInFrontmatter settings content varName v
    = Ok content'
    /\ Obsidian.parseFrontmatterFromContent content' = frontmatter'
    /\ Str.slice_from (findFrontmatterEnd content') content'
       = Str.slice_from (findFrontmatterEnd content) content
    /\ (RoundTripFacts.object_shaped frontmatter = true ->
        (if supportNestedProperties (Obsidian.plugin settings)
         then forallb ObsidianFacts.ordinary (Str.split "." varName)
         else ObsidianFacts.plain_key varName) = true ->
        Obsidian.getNestedValue
          settings (Obsidian.parseFrontmatterFromContent content') varName
        = Data v).
Proof.
  intros frontmatter Hset Hdump Hload Htruthy Hstart Hclose.
  set (body := Str.slice_from (findFrontmatterEnd content) content).
  set (block := "---" +++ Str.lf +++ dumped +++ CodecFacts.closing).
  assert (Hcontent :
            Obsidian.setVariableInFrontmatter settings content varName v
            = Ok (block +++ body)).
  { unfold Obsidian.setVariableInFrontmatter. fold frontmatter.
    rewrite Hset. cbn [bind]. rewrite Hdump. f_equal.
    unfold block, CodecFacts.closing, body. rewrite !append_assoc.
    do 6 f_equal.
    destruct (Str.startsWith content "---") eqn:Hhas; [reflexivity |].
    unfold findFrontmatterEnd. now rewrite Hhas. }
  exists (block +++ body). split; [exact Hcontent |].
  assert (Hparse :
            Obsidian.parseFrontmatterFromContent (block +++ body)
            = frontmatter').
  { assert (Hsame : Obsidian.parseFrontmatterFromContent (block +++ body)
                    = parseFrontmatter (block +++ body)).
    { unfold parseFrontmatter, Obsidian.parseFrontmatterFromContent.
      assert (Hs : Str.startsWith (block +++ body) "---" = true).
      { unfold Str.startsWith, block. rewrite !append_assoc.
        now rewrite CodecFacts.strip_prefix_self. }
      rewrite Hs. cbn [negb].
      destruct (String_match empty_frontmatter (block +++ body));
        [reflexivity |].
      destruct (String_match frontmatter_block (block +++ body));
        reflexivity. }
    rewrite Hsame. unfold block. rewrite !append_assoc.
    rewrite (BlockFacts.parseFrontmatter_document _ _ Hstart Hclose).
    unfold CodecFacts.loaded. now rewrite Hload, Htruthy. }
  split; [exact Hparse |]. split.
  - unfold block. rewrite !append_assoc.
    rewrite (BlockFacts.findFrontmatterEnd_document _ _ Hstart Hclose).
    rewrite <- !append_assoc. apply BlockFacts.slice_from_append.
  - intros Hshape Hord. rewrite Hparse.
    exact (ObsidianFacts.obs_set_then_get settings frontmatter varName v
                                          frontmatter' Hshape Hord Hset).
Qed.

Lemma setVariableInFrontmatter_applied_witness :
  let settings := {|
    Obsidian.plugin := DEFAULT_SETTINGS;
    Obsidian.showFrontmatterOnlyVariables := true |} in
  exists content',
    Obsidian.setVariableInFrontmatter
      (host := ES.es_host) (yaml := CodecFacts.sample_yaml)
      settings "Hello {{a}}" "a" (VNum 1) = Ok content'
    /\ Obsidian.parseFrontmatterFromContent
         (yaml := CodecFacts.sample_yaml) content'
       = VObj [("a", VNum 1)].
Proof.
  intros settings.
  destruct (setVariableInFrontmatter_applied
              (host := ES.es_host) (yaml := CodecFacts.sample_yaml)
              settings "Hello {{a}}" "a" (VNum 1) (VObj [("a", VNum 1)])
              "a: 1" eq_refl eq_refl eq_refl eq_refl eq_refl eq_refl)
    as [content' [Hcontent [Hparse _]]].
  exists content'. split; [exact Hcontent | exact Hparse].
Defined.

(** X25.  The two builds substitute alike.  With [supportNestedProperties]
    on, [getNestedValue] of the Obsidian build resolves every path in every
    root to what [getNestedValue] of the extension resolves it to (the
    extension returns [undefined] for a falsy root before its loop, the
    Obsidian build in the first round of the loop), and [replaceVariables]
    of the Obsidian build gives the result, the counts and the pattern
    cache that [replaceVariables] of the extension gives. *)
Theorem obsidian_replaceVariables_agrees {host : Host}
        (settings : Obsidian.Settings) :
  supportNestedProperties (Obsidian.plugin settings) = true ->
  (forall (obj : value) (path : string),
      Obsidian.getNestedValue settings obj path
      = getNestedValue obj path
                       (caseInsensitive (Obsidian.plugin settings)))
  /\ (forall (text : string) (frontmatter : value) (cache : PatternCache),
         Obsidian.replaceVariables settings text frontmatter cache
         = replaceVariables text frontmatter (Obsidian.plugin settings)
                            cache).
Proof.
  intros Hnested.
  assert (Hget : forall obj path,
             Obsidian.getNestedValue settings obj path
             = getNestedValue obj path
                 (caseInsensitive (Obsidian.plugin settings))).
  { intros obj path. unfold Obsidian.getNestedValue, getNestedValue.
    rewrite Hnested. cbn [negb].
    destruct (truthy obj) eqn:Htruthy; cbn [negb]; [reflexivity |].
    apply ComposeFacts.loop_falsy; [exact Htruthy |].
    apply LookupFacts.split_go_nonempty. }
  split; [exact Hget |].
  intros text frontmatter cache.
  unfold Obsidian.replaceVariables, replaceVariables,
    Obsidian.getVariablePattern.
  destruct (getVariablePattern (Obsidian.plugin settings) cache)
    as [pattern cache'].
  f_equal. apply ComposeFacts.replace_with_ext. intros varName. apply Hget.
Qed.

Lemma obsidian_replaceVariables_agrees_witness :
  Obsidian.replaceVariables (host := ES.es_host)
    {| Obsidian.plugin := DEFAULT_SETTINGS;
       Obsidian.showFrontmatterOnlyVariables := true |}
    "{{a.b}} and {{c}}" (VObj [("a", VObj [("b", VStr "x")])]) None
  = replaceVariables (host := ES.es_host)
      "{{a.b}} and {{c}}" (VObj [("a", VObj [("b", VStr "x")])])
      DEFAULT_SETTINGS None.
Proof.
  apply (obsidian_replaceVariables_agrees (host := ES.es_host)
           {| Obsidian.plugin := DEFAULT_SETTINGS;
              Obsidian.showFrontmatterOnlyVariables := true |}).
  reflexivity.
Defined.

(** X26.  A value that has been set is what its placeholder shows.  For a
    root that is an object or an array, a path of ordinary segments made of
    the characters of a placeholder name, and a value that is a scalar
    other than [undefined], [null] and the empty string: whenever
    [setNestedValue] returns, [replaceVariables], with the default
    delimiters (and no pattern compiled before), turns the text of the
    placeholder of the path into [String(value)] in the root as the call
    has left it, counting one replacement and nothing missing.
    [setNestedValue] returns when no array inside the root has an own
    property named [push], the arrays inheriting that method. *)
Theorem placeholder_after_set {host : Host} (obj : value) (path : string)
        (v : value) (settings : PluginSettings) :
  RoundTripFacts.object_shaped obj = true ->
  forallb RoundTripFacts.ordinary (Str.split "." path) = true ->
  all_in Chars.is_name path = true ->
  ComposeFacts.scalar v = true ->
  present (Data v) = true ->
  openDelimiter settings = "{{" ->
  closeDelimiter settings = "}}" ->
  defaultSeparator settings = ":" ->
  (forall obj',
      setNestedValue obj path v = Ok obj' ->
      fst (replaceVariables ("{{" +++ path +++ "}}") obj' settings None)
      = Ok {| result := String_of (Data v);
              replacementCount := 1;
              missingCount := 0 |})
  /\ (RoundTripFacts.inherits_push = true ->
      RoundTripFacts.push_free obj = true ->
      exists obj', setNestedValue obj path v = Ok obj').
Proof.
  intros Hshape Hord Hname Hscalar Hpresent Ho Hc Hs. split.
  - intros obj' Hset.
    destruct (RoundTripFacts.setNestedValue_loop_get
                v (caseInsensitive settings) (Str.split "." path) obj obj'
                (LookupFacts.split_go_nonempty _ _ _) Hord Hshape Hset)
      as [Hshape' Hget].
    assert (Hne : path <> EmptyString).
    { intros ->. vm_compute in Hord. discriminate. }
    pose proof (ComposeFacts.compile_default settings Ho Hc Hs) as Hpattern.
    unfold replaceVariables.
    destruct (getVariablePattern settings None) as [pattern cache'].
    cbn [fst] in *. subst pattern.
    apply (ComposeFacts.replace_with_placeholder _ settings path v Hne
                                                 Hname);
      [| exact Hpresent | exact Hscalar].
    unfold getNestedValue.
    destruct obj'; try discriminate; exact Hget.
  - intros Hhost Hfree.
    exact (RoundTripFacts.setNestedValue_loop_returns
             v (Str.split "." path) obj
             (LookupFacts.split_go_nonempty _ _ _) Hord Hshape Hhost Hfree).
Qed.

Lemma placeholder_after_set_witness :
  exists obj',
    setNestedValue (host := ES.es_host)
      (VObj [("title", VStr "t")]) "user.tags[1]" (VStr "n") = Ok obj'
    /\ fst (replaceVariables (host := ES.es_host)
              "{{user.tags[1]}}" obj' DEFAULT_SETTINGS None)
       = Ok {| result := "n"; replacementCount := 1; missingCount := 0 |}.
Proof.
  destruct (placeholder_after_set (host := ES.es_host)
              (VObj [("title", VStr "t")]) "user.tags[1]" (VStr "n")
              DEFAULT_SETTINGS eq_refl eq_refl eq_refl eq_refl eq_refl
              eq_refl eq_refl eq_refl) as [Hshown Hreturns].
  destruct (Hreturns eq_refl eq_refl) as [obj' Hset].
  exists obj'. split; [exact Hset | exact (Hshown obj' Hset)].
Defined.

(** X27.  A frontmatter that is a scalar.  [parseFrontmatter] returns what
    the YAML library loads whenever that is truthy, an object or not; for
    a document whose block loads as a truthy value that is neither an
    object nor an array (a text, a number, [true]), [updateFrontmatter]
    with a first update whose path does not start with a forbidden segment
    returns no edit: it throws the TypeError of [setNestedValue]. *)
Theorem updateFrontmatter_scalar_frontmatter {host : Host} {yaml : Yaml}
        (content body : string) (w : value)
        (key : string) (v : value) (rest : list (string * value)) :
  Str.startsWith content "---" = false ->
  CodecFacts.no_early_close content = true ->
  yaml_load content = Ok w ->
  truthy w = true ->
  RoundTripFacts.object_shaped w = false ->
  forbidden_segment (hd EmptyString (Str.split "." key)) = false ->
  let text := "---" +++ Str.lf +++ content +++ Str.lf +++ "---" +++ Str.lf
              +++ body in
  parseFrontmatter text = w
  /\ updateFrontmatter text ((key, v) :: rest) = Throw TypeError.
Proof.
  intros Hstart Hclose Hload Htruthy Hshape Hseg text.
  assert (Htext : text
                  = "---" +++ Str.lf +++ content +++ CodecFacts.closing
                    +++ body).
  { unfold text, CodecFacts.closing. now rewrite !append_assoc. }
  assert (Hparse : parseFrontmatter text = w).
  { rewrite Htext.
    rewrite (BlockFacts.parseFrontmatter_document _ _ Hstart Hclose).
    unfold CodecFacts.loaded. now rewrite Hload, Htruthy. }
  split; [exact Hparse |].
  unfold updateFrontmatter. rewrite Hparse. cbn [apply_updates].
  assert (Hset : setNestedValue w key v = Throw TypeError).
  { unfold setNestedValue.
    destruct (Str.split "." key) as [| seg segs] eqn:Hsplit.
    { now apply LookupFacts.split_go_nonempty in Hsplit. }
    now apply RoundTripFacts.setNestedValue_loop_primitive. }
  now rewrite Hset.
Qed.

Lemma updateFrontmatter_scalar_frontmatter_witness :
  let yaml := {| yaml_load := fun _ => Ok (VStr "just a note");
                 yaml_dump := fun _ => Ok EmptyString |} in
  let text := "---" +++ Str.lf +++ "just a note" +++ Str.lf +++ "---"
              +++ Str.lf +++ "Hello {{name}}" in
  parseFrontmatter (yaml := yaml) text = VStr "just a note"
  /\ updateFrontmatter (host := ES.es_host) (yaml := yaml) text
       [("name", VStr "n")]
     = Throw TypeError.
Proof.
  intros yaml text.
  apply (updateFrontmatter_scalar_frontmatter (host := ES.es_host)
           (yaml := yaml) "just a note" "Hello {{name}}"
           (VStr "just a note") "name" (VStr "n") []); reflexivity.
Defined.

(** X28.  Nothing is found where the opening delimiter does not occur.
    With no pattern cached, the pattern opens with the opening delimiter
    of the settings, or with the default one when a delimiter of the
    settings is too long.  In a text in which that delimiter does not
    occur [replaceVariables] returns the text as it is, with no replacement
    and nothing missing counted; [scanDocumentVariables] returns no
    variable, whatever the offset of the body; and [getVariableAtPosition]
    returns [null] for every column. *)
Theorem no_opener_nothing_found {host : Host} (text : string)
        (frontmatter : value) (settings : PluginSettings) :
  PlainTextFacts.occurs (PlainTextFacts.opener settings) text = false ->
  fst (replaceVariables text frontmatter settings None)
  = Ok {| result := text; replacementCount := 0; missingCount := 0 |}
  /\ (forall frontmatterEnd,
         fst (scanDocumentVariables text frontmatter frontmatterEnd settings
                                    None)
         = Ok [])
  /\ (forall character,
         fst (getVariableAtPosition text character settings None)
         = Ok None).
Proof.
  intros Hocc.
  destruct (PlainTextFacts.pattern_opener settings)
    as [close [sep Hpattern]].
  unfold replaceVariables, scanDocumentVariables, getVariableAtPosition.
  destruct (getVariablePattern settings None) as [pattern cache'].
  cbn [fst] in *. subst pattern.
  split; [| split].
  - unfold replace_with, match_all.
    rewrite (PlainTextFacts.match_all_from_no_opener _ _ _ _ _ _ Hocc).
    cbn [replace_calls bind splice replacements missings].
    now rewrite PlainTextFacts.slice_from_0.
  - intros frontmatterEnd. unfold exec_while.
    rewrite PlainTextFacts.exec_while_from_no_opener; [reflexivity |].
    now apply PlainTextFacts.occurs_slice_from.
  - intros character. unfold exec_until.
    now rewrite PlainTextFacts.exec_until_from_no_opener.
Qed.

Lemma no_opener_nothing_found_witness :
  fst (replaceVariables (host := ES.es_host) "a { single } brace"
         (VObj [("single", VStr "x")]) DEFAULT_SETTINGS None)
  = Ok {| result := "a { single } brace";
          replacementCount := 0; missingCount := 0 |}.
Proof.
  apply (no_opener_nothing_found (host := ES.es_host) "a { single } brace"
           (VObj [("single", VStr "x")]) DEFAULT_SETTINGS).
  reflexivity.
Defined.

(** X29.  [replaceInDocument] leaves the frontmatter alone.  For a
    document that starts with a block [---], content, [---] (the content
    not starting with [---] and having no line break followed by [---]
    inside) the command replaces in the body with the frontmatter loaded
    from the content; when [replaceVariables] returns normally, the text
    after the edits of the command is the same block followed by the
    result of [replaceVariables] for the body (by the body itself when
    nothing was replaced and nothing was missing), and [parseFrontmatter]
    and [findFrontmatterEnd] give for it what they gave before. *)
Theorem replaceInDocument_keeps_frontmatter {host : Host} {yaml : Yaml}
        (content body : string) (settings : PluginSettings)
        (patternCache : PatternCache) (r : ReplacementResult) :
  Str.startsWith content "---" = false ->
  CodecFacts.no_early_close content = true ->
  fst (replaceVariables body (CodecFacts.loaded content) settings
                        patternCache)
  = Ok r ->
  let block := "---" +++ Str.lf +++ content +++ Str.lf +++ "---" +++ Str.lf in
  let text := block +++ body in
  exists edits,
    fst (replaceInDocument text settings patternCache) = Ok edits
    /\ apply_edits text edits
       = block +++ (if (replacementCount r =? 0)%Z
                       && (missingCount r =? 0)%Z
                    then body else result r)
    /\ parseFrontmatter (apply_edits text edits) = parseFrontmatter text
    /\ findFrontmatterEnd (apply_edits text edits)
       = findFrontmatterEnd text.
Proof.
  intros Hstart Hclose Hreplaced block text.
  assert (Hblock : forall rest,
             block +++ rest
             = "---" +++ Str.lf +++ content +++ CodecFacts.closing
               +++ rest).
  { intros rest. unfold block, CodecFacts.closing.
    now rewrite !append_assoc. }
  assert (Hlen : String.length block
                 = String.length
                     ("---" +++ Str.lf +++ content +++ CodecFacts.closing)).
  { reflexivity. }
  assert (Hparse : forall rest,
             parseFrontmatter (block +++ rest) = CodecFacts.loaded content).
  { intros rest. rewrite Hblock.
    now apply BlockFacts.parseFrontmatter_document. }
  assert (Hend : forall rest,
             findFrontmatterEnd (block +++ rest) = String.length block).
  { intros rest. rewrite Hblock, Hlen.
    now apply BlockFacts.findFrontmatterEnd_document. }
  unfold replaceInDocument. fold text. unfold text at 1 2 3.
  rewrite Hparse, Hend, BlockFacts.slice_from_append.
  destruct (replaceVariables body (CodecFacts.loaded content) settings
                             patternCache) as [replaced cache'].
  cbn [fst] in *. subst replaced.
  destruct ((replacementCount r =? 0)%Z && (missingCount r =? 0)%Z).
  - exists []. cbn [apply_edits fold_left]. unfold text.
    rewrite !Hparse, !Hend. auto.
  - eexists. split; [reflexivity |].
    pose proof (Hend body) as Hend0. fold text in Hend0. rewrite Hend0.
    assert (Hnew : apply_edits text
                     [Replace (String.length block) (String.length text)
                              (result r)]
                   = block +++ result r).
    { unfold apply_edits. cbn [fold_left apply_edit]. unfold text at 1.
      rewrite BlockFacts.slice_to_append.
      rewrite <- (append_nil_r text) at 2.
      rewrite BlockFacts.slice_from_append. now rewrite append_nil_r. }
    rewrite Hnew. unfold text. rewrite !Hparse, !Hend. auto.
Qed.

Lemma replaceInDocument_keeps_frontmatter_witness :
  let block := "---" +++ Str.lf +++ "a: 1" +++ Str.lf +++ "---" +++ Str.lf in
  exists edits,
    fst (replaceInDocument (host := ES.es_host)
           (yaml := CodecFacts.sample_yaml) (block +++ "Hello {{a}}")
           DEFAULT_SETTINGS None)
    = Ok edits
    /\ apply_edits (block +++ "Hello {{a}}") edits = block +++ "Hello 1".
Proof.
  intros block.
  destruct (replaceInDocument_keeps_frontmatter (host := ES.es_host)
              (yaml := CodecFacts.sample_yaml) "a: 1" "Hello {{a}}"
              DEFAULT_SETTINGS None
              {| result := "Hello 1"; replacementCount := 1;
                 missingCount := 0 |}
              eq_refl eq_refl eq_refl)
    as [edits [Hedits [Hnew _]]].
  exists edits. split; [exact Hedits | exact Hnew].
Defined.
